(* ===== verification/_CoqProject ===== *)
-Q . S2P
Prelude.v
Endian.v
Intset.v
Util.v
Glob.v
Listpack.v
Dict.v
DictScan.v
Crc.v
Sds.v
SdsText.v
Lzf.v
LzfSpec.v
LzfSafety.v
Resp.v
RespSpec.v
RespRun.v
RespSafety.v
Repl.v
ReplInv.v
ReplSpec.v
ReplRun.v
ReplSafety.v
Aof.v
AofSpec.v
AofSafety.v
Rdb.v
RdbSafety.v
Stream.v
Rand.v
Cluster.v
ClusterInv.v
ClusterRun.v
ClusterDel.v
ClusterSafety.v
Keyspace.v
KeyspaceInv.v
KeyspaceSpec.v
KeyspaceCmds.v
KeyspaceFlush.v
KeyspaceWatch.v
KeyspaceAbs.v
KeyspaceServer.v
KeyspaceSafety.v
Session.v
SessionSpec.v
RedisStore.v
SessionSafety.v
Search.v
SearchSpec.v
SearchSafety.v
