(* ===== verification/Prelude.v ===== *)
(** * Verification of the video search service and of Redis 6.2.3

    The repository holds a web application in Python, which lets users register,
    log in and search videos (src/users, src/searchingApp), and the sources of the
    Redis server that keeps its sessions (src/redis-6.2.3). This is a shallow
    embedding of the application and of parts of the server, with theorems on
    what they compute. Functions are translated one by one and keep their names;
    a method of a view has the name of the view.

    ** Conventions

    - An integer of a C type of [w] bits is a [Z]; where the code can leave the
      range, the wrap-around is written out with [uint w] and [sint w].
    - A memory object is a [bytes], a list of values in [0, 256); a pointer into
      it is an offset. Reads and writes are checked: [None] stands for an access
      out of bounds, a failed assertion, undefined behaviour or exhausted fuel.
      A theorem that states [Some] of a result states that none of these happens.
    - What the C code leaves open is an argument: the byte order of the host,
      the contents of fresh memory, the usable size the allocator reports, the
      clock, the hash function of a dictionary.
    - Python code returns a [result]: a value or the exception it raises. The
      databases are explicit states; the services the application calls, the
      clock and what is drawn at random are interfaces with laws or arguments.
    - Loops are [Fixpoint]s on fuel. The fuel is the length of the data that is
      left, the number of slots, or a bound that the callers compute from them;
      the theorems show that it is never exhausted.

    ** Files

    - [Prelude]: integers, buffers, codecs, the tactics and generic lemmas.
    - [Endian]: endianconv.c.
    - [Intset]: intset.c, sorted arrays of integers of growing width.
    - [Util]: digits10, ll2string, string2ll and string2l of util.c.
    - [Glob]: stringmatchlen of util.c.
    - [Listpack]: listpack.c, serialized lists of strings and integers.
    - [Dict], [DictScan]: dict.c, the hash table with incremental rehashing, and
      the cursor of SCAN.
    - [Crc]: crc16.c, crc64.c and the slice-by-8 code of crcspeed.c.
    - [Sds], [SdsText]: sds.c and sds.h, dynamic strings, their formatting,
      splitting, quoting and unquoting.
    - [Lzf]: lzf_c.c and lzf_d.c. [LzfSpec] has the format as a sequence of
      literals and references, and decompression; [LzfSafety] compression and the
      theorems.
    - [Resp]: the query buffer of a connection and the parser of requests,
      networking.c. [RespSpec] has the grammar of the protocol and a machine that
      reads it, [RespRun] shows that the parser runs the machine, [RespSafety]
      has the theorem.
    - [Repl]: replication.c and what it calls: the backlog, the feeding of
      replicas, resynchronizations and the side of the replica. [ReplInv] has the
      circular buffer of the backlog, [ReplSpec] the stream of commands,
      [ReplRun] a server as a machine and its invariant, [ReplSafety] the
      theorems.
    - [Aof]: the append only file, aof.c: the translation of commands, the buffer,
      writing, syncing and loading. [AofSpec] shows what loading a part of a file
      executes, [AofSafety] has the theorems.
    - [Rdb]: lengths, integers and strings in RDB files, rdb.c; [RdbSafety] has
      the theorems.
    - [Stream]: the IDs of streams, t_stream.c, and string2ull of util.c.
    - [Rand]: rand.c, the portable drand48.
    - [Cluster]: the state of a cluster node, cluster.c: slots, nodes, replicas,
      failure reports, epochs, votes and the handlers that change them.
      [ClusterInv], [ClusterRun], [ClusterDel] prove the invariant handler by
      handler, [ClusterSafety] has the theorems.
    - [Keyspace]: the databases of the server, db.c, expire.c, t_string.c and
      multi.c: lookups with expiration on access, the commands on keys and on
      strings, and transactions with watched keys. [KeyspaceInv] has the
      invariant and the state in the middle of a command, [KeyspaceSpec] what the
      commands mean, as functions on the map of live entries, [KeyspaceCmds] and
      [KeyspaceFlush] that each command does what it means, [KeyspaceWatch] the
      watched keys, [KeyspaceAbs] the server as its clients see it,
      [KeyspaceServer] that every event is a step of it, [KeyspaceSafety] the
      theorems.
    - [Session]: the accounts of the application, users/views.py, the middleware
      and the token manager; Redis and PyJWT are the classes [KV] and [JWT].
      [SessionSpec] has the lemmas on one session and the invariant of all,
      [RedisStore] shows that the server of [Keyspace] implements [KV],
      [SessionSafety] has the theorems and an instance of [JWT].
    - [Search]: searchingApp/views.py and tasks.py, the views behind the
      middleware and the tasks of the workers; [SearchSpec] has the invariant of
      the documents and what a fetch stores, [SearchSafety] the theorems.

    ** What is shown

    - Containers refine abstract ones: an intset a sorted list of integers, a
      listpack a list of elements, a dictionary a finite map, an sds string a
      list of bytes; each operation keeps the representation invariant, on every
      branch and for both byte orders where the layout depends on it.
    - Validators of untrusted blobs stay in bounds on arbitrary bytes, and what
      they accept is characterized.
    - Parsers and printers are inverse to each other: integers, stream IDs,
      quoted strings, split and joined strings, 128-bit stream keys.
    - Optimised code equals a reference: table-driven and slice-by-8 CRCs the
      bitwise CRC, the limb arithmetic of rand.c the 48-bit generator.
    - A SCAN iteration returns every key that stays in the dictionary while it is
      resized and rehashed, and it ends.
    - Any sequence of events keeps the invariant of a cluster node and fails no
      assertion; a node grants one vote per epoch; the epoch under which a slot
      is served does not decrease; a deleted node leaves no pointer to it.
    - The keyspace fails no assertion whatever its clients do; seen by them it is
      a map of values with deadlines whose commands and transactions run one
      after the other, and expired keys that are deleted early or late make no
      difference; a transaction runs only if the watched keys are unchanged.
    - Requests are parsed the same however the bytes of a connection are cut into
      reads, and no bytes make the parser leave its buffer. What a master feeds
      its replicas is parsed and executed by them as the commands it executed; a
      partial resynchronization leaves a replica with the history of its master.
    - The append only file is loaded from any cut of it, and under the policy
      always what was acknowledged before a crash is executed again. Strings are
      loaded from RDB files as they were saved, whatever their encoding;
      LZF decompresses what it has compressed and refuses all that is malformed.
    - In the application, who passes the middleware is a registered user who has
      logged in, a session lives as long as it should and ends with a logout, a
      view acts for its user alone, the documents stay consistent, a fetch stores
      what was found, and the pages show every stored item once.
    - Errors are theorems too: times to live and offsets that overflow, IDs that
      run out, preallocation that wraps, the glob star on the empty string,
      negative numbers that pass as unsigned, a file that ends within a
      transaction and swallows the commands that are appended to it, strings of
      4 GB that are saved in a form no load accepts.

    ** Not modelled

    Sockets, files, processes, threads, signals and the event loop: what they do
    is an argument or an event of the models. The commands on other types than
    strings and their encodings (ziplist, quicklist, radix tree, skip list), the
    RDB format of these types, the rewriting of the append only file, the output
    buffers of clients, eviction, access control, scripting, modules, Sentinel
    and the command line tools are left out for their size. The libraries under
    deps, and the formatting and parsing of floating point numbers, which rest on
    the C library, are not part of the sources that are modelled. Of the modelled
    files, the manifest lists what is left out. *)

From stdpp Require Export base numbers list option sorting strings.
From Stdlib Require Export ZArith Lia ZifyBool.


#[export] Set Default Goal Selector "!".

Declare Scope cmem_scope.
Delimit Scope cmem_scope with cmem.
Open Scope list_scope.
Open Scope Z_scope.
Open Scope cmem_scope.

(** ** Machine integers *)

(** Unsigned and two's complement wrap-around at width [w]. *)
Definition uint (w v : Z) : Z := v mod 2 ^ w.
Definition sint (w v : Z) : Z :=
  let r := v mod 2 ^ w in if r <? 2 ^ (w - 1) then r else r - 2 ^ w.

Definition in_uint (w v : Z) : Prop := 0 <= v < 2 ^ w.
Definition in_sint (w v : Z) : Prop := - 2 ^ (w - 1) <= v < 2 ^ (w - 1).

#[export] Instance in_uint_dec w v : Decision (in_uint w v).
Proof. unfold in_uint; apply _. Defined.
#[export] Instance in_sint_dec w v : Decision (in_sint w v).
Proof. unfold in_sint; apply _. Defined.

(** ** Byte buffers

    A C object is the list of its bytes, each byte an integer of [0,256).
    Every access is checked: reading or writing outside the object has no
    result, so a theorem that an operation returns [Some] states that it stays
    inside the object. *)

Abbreviation byte := Z (only parsing).
Abbreviation bytes := (list Z) (only parsing).

Definition is_byte (b : Z) : Prop := 0 <= b < 256.
#[export] Instance is_byte_dec b : Decision (is_byte b).
Proof. unfold is_byte; apply _. Defined.

Abbreviation is_bytes := (Forall is_byte).

Definition blen (b : bytes) : Z := Z.of_nat (length b).

Definition inside (b : bytes) (off n : Z) : bool :=
  (0 <=? off) && (0 <=? n) && (off + n <=? blen b).

(** [b[i]] *)
Definition bget (b : bytes) (i : Z) : option Z :=
  if inside b i 1 then b !! Z.to_nat i else None.

(** [n] bytes at offset [off] *)
Definition bread (b : bytes) (off n : Z) : option bytes :=
  if inside b off n
  then Some (take (Z.to_nat n) (drop (Z.to_nat off) b)) else None.

(** [memcpy(b+off, xs, |xs|)] *)
Definition bwrite (b : bytes) (off : Z) (xs : bytes) : option bytes :=
  if inside b off (blen xs)
  then Some (take (Z.to_nat off) b ++ xs ++ drop (Z.to_nat (off + blen xs)) b)
  else None.

Definition bset (b : bytes) (i v : Z) : option bytes := bwrite b i [v].

(** [memmove(b+dst, b+src, n)] *)
Definition memmove (b : bytes) (dst src n : Z) : option bytes :=
  xs ← bread b src n; bwrite b dst xs.

(** [realloc]: the common prefix is kept, new bytes are indeterminate. The
    parameter [indet] gives their values; no result may depend on it. *)
Definition brealloc (indet : nat -> Z) (b : bytes) (n : Z) : bytes :=
  take (Z.to_nat n) b ++ (indet <$> seq (length b) (Z.to_nat n - length b)).

Notation "'assert!' b ; k" := (if b then k else None)
  (at level 100, b at level 99, k at level 200, right associativity) : cmem_scope.

(** ** Codecs *)

Fixpoint le_bytes (n : nat) (v : Z) : bytes :=
  match n with
  | O => []
  | S n => v mod 256 :: le_bytes n (v / 256)
  end.

Fixpoint le_val (b : bytes) : Z :=
  match b with
  | [] => 0
  | x :: b => x + 256 * le_val b
  end.

Definition be_bytes (n : nat) (v : Z) : bytes := reverse (le_bytes n v).
Definition be_val (b : bytes) : Z := le_val (reverse b).

(** The bytes of a string literal, without its terminator. *)
Fixpoint str (s : string) : bytes :=
  match s with
  | EmptyString => []
  | String c s => Z.of_N (Ascii.N_of_ascii c) :: str s
  end.

(** [tolower] in the "C" locale. *)
Definition tolower (c : Z) : Z := if (65 <=? c) && (c <=? 90) then c + 32 else c.

(** The value of a [char] object, signed. *)
Definition schar (c : Z) : Z := sint 8 c.

(** The result codes of server.h. *)
Inductive retcode := C_OK | C_ERR.

#[export] Instance retcode_eq_dec : EqDecision retcode.
Proof. solve_decision. Defined.

(** ** Automation *)

Create HintDb cmem discriminated.
Create Rewrite HintDb cmem.

(** Turn the boolean tests of the context into arithmetic. *)
Ltac bdestr b :=
  let E := fresh "E" in
  destruct b eqn:E;
  rewrite ?andb_true_iff, ?andb_false_iff, ?orb_true_iff, ?orb_false_iff,
    ?negb_true_iff, ?negb_false_iff,
    ?Z.leb_le, ?Z.leb_gt, ?Z.ltb_lt, ?Z.ltb_ge, ?Z.eqb_eq, ?Z.eqb_neq,
    ?Z.geb_le, ?Z.gtb_lt in E.

Ltac bcase :=
  match goal with
  | |- context [if ?b then _ else _] =>
      lazymatch type of b with bool => bdestr b end
  end.

(** A boolean goal, by linear arithmetic. *)
Ltac blia := first [lia | rewrite ?andb_true_iff, ?andb_false_iff, ?orb_true_iff, ?orb_false_iff,
    ?negb_true_iff, ?negb_false_iff,
    ?Z.leb_le, ?Z.leb_gt, ?Z.ltb_lt, ?Z.ltb_ge, ?Z.eqb_eq, ?Z.eqb_neq,
    ?Z.geb_le, ?Z.gtb_lt, ?Nat.leb_le, ?Nat.leb_gt, ?Nat.ltb_lt, ?Nat.ltb_ge, ?Nat.eqb_eq, ?Nat.eqb_neq; lia].

(** Decide the [if]s of the goal whose condition [lia] settles. *)
Ltac bdec :=
  repeat match goal with
  | |- context [if ?b then _ else _] =>
      lazymatch type of b with
      | bool => first [ replace b with true by (symmetry; blia)
                      | replace b with false by (symmetry; blia) ]; cbv iota
      end
  end.

(** Linear arithmetic with division and remainder by constants. *)
Ltac dlia := Z.div_mod_to_equations; lia.

Lemma bind_Some {A B} (x : A) (f : A -> option B) : (Some x ≫= f) = f x.
Proof. done. Qed.
#[export] Hint Rewrite @bind_Some : cmem.

Lemma guard_bool {A} (b : bool) (k : option A) : b = true -> (assert! b; k) = k.
Proof. by intros ->. Qed.

(** ** Lemmas on machine integers *)

Lemma pow2_pos w : 0 <= w -> 0 < 2 ^ w.
Proof. intros. apply Z.pow_pos_nonneg; lia. Qed.

Lemma uint_range w v : 0 <= w -> in_uint w (uint w v).
Proof. intros. apply Z.mod_pos_bound, pow2_pos; lia. Qed.

Lemma uint_small w v : in_uint w v -> uint w v = v.
Proof. intros. apply Z.mod_small. done. Qed.

Lemma pow2_half w : 0 < w -> 2 ^ w = 2 * 2 ^ (w - 1).
Proof. intros. rewrite <- Z.pow_succ_r by lia. f_equal; lia. Qed.

Lemma sint_small w v : 0 < w -> in_sint w v -> sint w v = v.
Proof.
  intros Hw [H1 H2]. unfold sint. pose proof (pow2_half w Hw) as Hp.
  destruct (Z_lt_le_dec v 0).
  - replace (v mod 2 ^ w) with (v + 2 ^ w).
    + bdestr (v + 2 ^ w <? 2 ^ (w - 1)); lia.
    + apply (Z.mod_unique_pos _ _ (-1)); lia.
  - rewrite Z.mod_small by lia. bdestr (v <? 2 ^ (w - 1)); lia.
Qed.

Lemma sint_range w v : 0 < w -> in_sint w (sint w v).
Proof.
  intros Hw. unfold sint, in_sint. pose proof (pow2_half w Hw) as Hp.
  pose proof (Z.mod_pos_bound v (2 ^ w) (pow2_pos w ltac:(lia))).
  bdestr (v mod 2 ^ w <? 2 ^ (w - 1)); lia.
Qed.

Lemma sint_uint w v : 0 < w -> sint w (v mod 2 ^ w) = sint w v.
Proof. intros. unfold sint. by rewrite Z.mod_mod by (apply Z.pow_nonzero; lia). Qed.

Lemma sint_mod w v : 0 <= w -> (sint w v) mod 2 ^ w = v mod 2 ^ w.
Proof.
  intros Hw. pose proof (pow2_pos w Hw). unfold sint. bcase.
  - by rewrite Z.mod_mod by lia.
  - replace (v mod 2 ^ w - 2 ^ w) with (v mod 2 ^ w + (-1) * 2 ^ w) by lia.
    rewrite Z.mod_add, Z.mod_mod by lia. done.
Qed.

(** ** Lemmas on buffers *)

Lemma blen_nonneg b : 0 <= blen b.
Proof. unfold blen; lia. Qed.
Lemma blen_nil : blen [] = 0.
Proof. done. Qed.
Lemma blen_cons x b : blen (x :: b) = 1 + blen b.
Proof. unfold blen; simpl length; lia. Qed.
Lemma blen_app a b : blen (a ++ b) = blen a + blen b.
Proof. unfold blen; rewrite length_app; lia. Qed.
#[export] Hint Rewrite blen_nil blen_cons blen_app : cmem.

Lemma to_nat_blen b : Z.to_nat (blen b) = length b.
Proof. unfold blen; lia. Qed.

Lemma take_app_exact {A} (a b : list A) n : n = length a -> take n (a ++ b) = a.
Proof. intros ->. by rewrite take_app_length. Qed.
Lemma drop_app_exact {A} (a b : list A) n : n = length a -> drop n (a ++ b) = b.
Proof. intros ->. by rewrite drop_app_length. Qed.

Lemma bread_app a b c off n :
  off = blen a -> n = blen b -> bread (a ++ b ++ c) off n = Some b.
Proof.
  intros -> ->. unfold bread, inside.
  pose proof (blen_nonneg a). pose proof (blen_nonneg b). pose proof (blen_nonneg c).
  autorewrite with cmem. bdec.
  by rewrite !to_nat_blen, drop_app_length, take_app_length.
Qed.

Lemma bread_suffix a b off n :
  off = blen a -> n = blen b -> bread (a ++ b) off n = Some b.
Proof. intros. rewrite <- (app_nil_r b) at 1. by apply bread_app. Qed.

Lemma bwrite_app a b b' c off :
  off = blen a -> blen b' = blen b -> bwrite (a ++ b ++ c) off b' = Some (a ++ b' ++ c).
Proof.
  intros -> Hb. unfold bwrite, inside.
  pose proof (blen_nonneg a). pose proof (blen_nonneg b). pose proof (blen_nonneg c).
  rewrite Hb. autorewrite with cmem. bdec.
  rewrite to_nat_blen, take_app_length.
  rewrite (app_assoc a b c), drop_app_exact; [done|].
  rewrite length_app. unfold blen; lia.
Qed.

Lemma bget_app a x c i : i = blen a -> bget (a ++ x :: c) i = Some x.
Proof.
  intros ->. unfold bget, inside.
  pose proof (blen_nonneg a). pose proof (blen_nonneg c).
  autorewrite with cmem. bdec.
  rewrite to_nat_blen. by apply list_lookup_middle.
Qed.

Lemma bset_app a x y c i : i = blen a -> bset (a ++ x :: c) i y = Some (a ++ y :: c).
Proof. intros. by apply (bwrite_app a [x] [y] c). Qed.

Lemma bset_at b i a x c y : b = a ++ x :: c -> i = blen a -> bset b i y = Some (a ++ y :: c).
Proof. intros -> ->. by apply bset_app. Qed.
Lemma bget_at b i a x c : b = a ++ x :: c -> i = blen a -> bget b i = Some x.
Proof. intros -> ->. by apply bget_app. Qed.

Lemma bget_app1 a x y c : bget (a ++ x :: y :: c) (blen a + 1) = Some y.
Proof.
  apply (bget_at _ _ (a ++ [x]) y c); [by rewrite <- app_assoc|].
  rewrite blen_app, blen_cons, blen_nil. lia.
Qed.

(** Run the next store or load, at the byte that follows [a]. *)
Ltac bset_step a :=
  erewrite (bset_at _ _ a); [cbn [mbind option_bind app]|reflexivity|autorewrite with cmem; lia].
Ltac bget_step a :=
  erewrite (bget_at _ _ a); [cbn [mbind option_bind app]|reflexivity|autorewrite with cmem; lia].

Lemma bget_Some b i x : bget b i = Some x <-> 0 <= i < blen b /\ b !! Z.to_nat i = Some x.
Proof.
  unfold bget, inside. split.
  - intros H. bdestr ((0 <=? i) && (0 <=? 1) && (i + 1 <=? blen b)); [|done].
    split; [lia|done].
  - intros [? ?]. bdec. done.
Qed.

Lemma bget_is_Some b i : 0 <= i < blen b -> is_Some (bget b i).
Proof.
  intros. unfold bget, inside. bdec. apply lookup_lt_is_Some. unfold blen in *; lia.
Qed.

Lemma bget_is_byte b i x : is_bytes b -> bget b i = Some x -> is_byte x.
Proof. intros Hb [_ H]%bget_Some. by eapply Forall_lookup_1. Qed.

Lemma bread_Some b off n xs :
  bread b off n = Some xs -> 0 <= off /\ 0 <= n /\ off + n <= blen b /\ blen xs = n.
Proof.
  unfold bread, inside. bcase; [|done]. intros [= <-].
  split_and!; try lia. unfold blen in *. rewrite length_take, length_drop. lia.
Qed.

Lemma bread_is_bytes b off n xs : is_bytes b -> bread b off n = Some xs -> is_bytes xs.
Proof.
  unfold bread. bcase; [|done]. intros ? [= <-].
  by apply Forall_take, Forall_drop.
Qed.

Lemma bread_is_Some b off n :
  0 <= off -> 0 <= n -> off + n <= blen b -> is_Some (bread b off n).
Proof. intros. unfold bread, inside. bdec. eauto. Qed.

Lemma bread_split b off n xs :
  bread b off n = Some xs -> exists a c, b = a ++ xs ++ c /\ blen a = off.
Proof.
  unfold bread, inside. bcase; [|done]. intros [= <-].
  exists (take (Z.to_nat off) b), (drop (Z.to_nat n) (drop (Z.to_nat off) b)).
  rewrite take_drop, take_drop. split; [done|].
  unfold blen in *. rewrite length_take. lia.
Qed.

Lemma split_blen b n : 0 <= n <= blen b -> exists a c, b = a ++ c /\ blen a = n.
Proof.
  intros. exists (take (Z.to_nat n) b), (drop (Z.to_nat n) b).
  rewrite take_drop. split; [done|]. unfold blen in *. rewrite length_take. lia.
Qed.

Lemma blen_0 b : blen b = 0 -> b = [].
Proof. unfold blen. intros. apply nil_length_inv. lia. Qed.

Lemma memmove_app a b c off n dst xs b' :
  bread (a ++ b ++ c) off n = Some xs -> dst = blen a -> blen b = n -> b' = xs ->
  memmove (a ++ b ++ c) dst off n = Some (a ++ b' ++ c).
Proof.
  intros Hr -> Hb ->. unfold memmove. rewrite Hr. simpl.
  apply bread_Some in Hr as (?&?&?&?). apply bwrite_app; [done|congruence].
Qed.

Lemma bwrite_None b off xs : inside b off (blen xs) = false -> bwrite b off xs = None.
Proof. unfold bwrite. by intros ->. Qed.

(** A sequence of stores at consecutive offsets is one write. *)
Lemma bset_bwrite b i j x xs f :
  (forall b, f b = bwrite b j xs) -> j = i + 1 ->
  (b ← bset b i x; f b) = bwrite b i (x :: xs).
Proof.
  intros Hf ->. pose proof (blen_nonneg xs). destruct (inside b i (blen (x :: xs))) eqn:E.
  - unfold inside in E. rewrite blen_cons in E.
    destruct (split_blen b i) as (a & r & -> & <-); [lia|]. rewrite blen_app in E.
    destruct (split_blen r (1 + blen xs)) as (m & c & -> & Hm); [lia|].
    destruct m as [|y m]; [rewrite blen_nil in Hm; lia|]. rewrite blen_cons in Hm.
    rewrite (bwrite_app a (y :: m) (x :: xs) c) by (rewrite ?blen_cons; lia).
    cbn [app]. rewrite (bset_app a y x) by done. cbn [mbind option_bind]. rewrite Hf.
    change (a ++ x :: m ++ c) with (a ++ [x] ++ m ++ c). rewrite app_assoc.
    rewrite (bwrite_app _ m) by (autorewrite with cmem; lia). by rewrite <- app_assoc.
  - rewrite (bwrite_None b i (x :: xs)) by done.
    destruct (bset b i x) as [b'|] eqn:Eb; [|done]. cbn [mbind option_bind]. rewrite Hf.
    unfold bset, bwrite in Eb. revert Eb. bcase; [|done]. intros [= <-].
    apply bwrite_None. unfold inside, blen in *.
    rewrite !length_app, length_take. cbn [length] in *. rewrite length_drop.
    rewrite ?andb_true_iff, ?andb_false_iff, ?Z.leb_le, ?Z.leb_gt in *. lia.
Qed.

Ltac bset_chain := eapply bset_bwrite; [intros; first [bset_chain | reflexivity] | lia].

Lemma brealloc_grow indet b n :
  blen b <= n -> exists t, brealloc indet b n = b ++ t /\ blen t = n - blen b.
Proof.
  intros. unfold brealloc, blen in *. eexists. rewrite take_ge by lia.
  split; [done|]. rewrite length_fmap, length_seq. lia.
Qed.

Lemma brealloc_shrink indet a c n : n = blen a -> brealloc indet (a ++ c) n = a.
Proof.
  intros ->. unfold brealloc. rewrite to_nat_blen, take_app_length.
  rewrite length_app. replace (length a - (length a + length c))%nat with 0%nat by lia.
  simpl. by rewrite app_nil_r.
Qed.

(** ** Lemmas on codecs *)

Lemma length_le_bytes n v : length (le_bytes n v) = n.
Proof. revert v; induction n; intros; simpl; [done|by rewrite IHn]. Qed.
Lemma blen_le_bytes n v : blen (le_bytes n v) = Z.of_nat n.
Proof. unfold blen. by rewrite length_le_bytes. Qed.
#[export] Hint Rewrite blen_le_bytes : cmem.

Lemma le_bytes_is_bytes n v : is_bytes (le_bytes n v).
Proof.
  revert v; induction n; intros; simpl; constructor; [|done].
  apply Z.mod_pos_bound; lia.
Qed.

Lemma le_val_le_bytes n v : le_val (le_bytes n v) = v mod 2 ^ (8 * Z.of_nat n).
Proof.
  revert v; induction n; intros; cbn [le_bytes le_val].
  - by rewrite Z.mod_1_r.
  - rewrite IHn. replace (8 * Z.of_nat (S n)) with (8 + 8 * Z.of_nat n) by lia.
    rewrite Z.pow_add_r by lia. rewrite Z.rem_mul_r by (try apply Z.pow_nonzero; lia).
    done.
Qed.

Lemma le_bytes_le_val b : is_bytes b -> le_bytes (length b) (le_val b) = b.
Proof.
  induction 1 as [|x b Hx Hb IH]; [done|]. cbn [length le_bytes le_val].
  unfold is_byte in Hx.
  replace (x + 256 * le_val b) with (le_val b * 256 + x) by lia.
  rewrite Z.add_comm, Z.mod_add, Z.mod_small by lia.
  rewrite Z.div_add, Z.div_small, Z.add_0_l by lia. by rewrite IH.
Qed.

Lemma le_bytes_le_val_len n b : is_bytes b -> length b = n -> le_bytes n (le_val b) = b.
Proof. intros ? <-. by apply le_bytes_le_val. Qed.

Lemma le_val_bound b : is_bytes b -> 0 <= le_val b < 2 ^ (8 * blen b).
Proof.
  induction 1 as [|x b Hx Hb IH]; [done|]. autorewrite with cmem. cbn [le_val].
  unfold is_byte in Hx. pose proof (blen_nonneg b).
  replace (8 * (1 + blen b)) with (8 + 8 * blen b) by lia.
  rewrite Z.pow_add_r by lia. change (2 ^ 8) with 256. lia.
Qed.

Lemma sint_le_bytes n v :
  (0 < n)%nat -> in_sint (8 * Z.of_nat n) v ->
  sint (8 * Z.of_nat n) (le_val (le_bytes n v)) = v.
Proof.
  intros. rewrite le_val_le_bytes, sint_uint by lia. apply sint_small; [lia|done].
Qed.

Lemma uint_le_bytes n v :
  in_uint (8 * Z.of_nat n) v -> le_val (le_bytes n v) = v.
Proof. intros. rewrite le_val_le_bytes. by apply uint_small. Qed.

Lemma le_bytes_inj n v w :
  in_uint (8 * Z.of_nat n) v -> in_uint (8 * Z.of_nat n) w ->
  le_bytes n v = le_bytes n w -> v = w.
Proof.
  intros Hv Hw H. rewrite <- (uint_le_bytes n v), <- (uint_le_bytes n w) by done.
  by rewrite H.
Qed.

Lemma le_bytes_mod n v w :
  v mod 2 ^ (8 * Z.of_nat n) = w mod 2 ^ (8 * Z.of_nat n) -> le_bytes n v = le_bytes n w.
Proof.
  rewrite <- !le_val_le_bytes. intros H. apply (f_equal (le_bytes n)) in H.
  by rewrite !le_bytes_le_val_len in H
    by (apply le_bytes_is_bytes || apply length_le_bytes).
Qed.

Lemma be_val_be_bytes n v : be_val (be_bytes n v) = v mod 2 ^ (8 * Z.of_nat n).
Proof. unfold be_val, be_bytes. rewrite reverse_involutive. apply le_val_le_bytes. Qed.

Lemma blen_be_bytes n v : blen (be_bytes n v) = Z.of_nat n.
Proof. unfold be_bytes, blen. by rewrite length_reverse, length_le_bytes. Qed.
#[export] Hint Rewrite blen_be_bytes : cmem.

Lemma be_bytes_is_bytes n v : is_bytes (be_bytes n v).
Proof. apply Forall_reverse, le_bytes_is_bytes. Qed.

Lemma uint_be_bytes n v :
  in_uint (8 * Z.of_nat n) v -> be_val (be_bytes n v) = v.
Proof. intros. rewrite be_val_be_bytes. by apply uint_small. Qed.

(** ** Sorted lists *)

Lemma StronglySorted_lookup_lt {A} (R : A -> A -> Prop) (l : list A) i j x y :
  StronglySorted R l -> l !! i = Some x -> l !! j = Some y -> (i < j)%nat -> R x y.
Proof.
  intros Hs. revert i j. induction Hs as [|z l Hs IH Hz]; intros i j Hi Hj Hij; [done|].
  destruct j as [|j]; [lia|]. destruct i as [|i]; simpl in *; simplify_eq.
  - by eapply Forall_lookup_1.
  - eapply IH; eauto; lia.
Qed.

Lemma StronglySorted_app_2 {A} (R : A -> A -> Prop) (l k : list A) :
  StronglySorted R (l ++ k) <->
  StronglySorted R l /\ StronglySorted R k /\ Forall (fun x => Forall (R x) k) l.
Proof.
  induction l as [|x l IH]; simpl.
  - split; [intros; split_and!; [constructor|done|constructor]|by intros (_&?&_)].
  - split.
    + intros H. inv H. apply IH in H2 as (?&?&?). apply Forall_app in H3 as [??].
      split_and!; try constructor; done.
    + intros (H1&H2&H3). inv H1. inv H3. constructor; [by apply IH|].
      by apply Forall_app.
Qed.

(** ** Bit operations *)

Lemma land_ones_mod v k : 0 <= k -> Z.land v (2 ^ k - 1) = v mod 2 ^ k.
Proof. intros. rewrite <- Z.land_ones by lia. by rewrite Z.ones_equiv. Qed.
Lemma land_ff v : Z.land v 255 = v mod 256.
Proof. apply (land_ones_mod v 8). lia. Qed.
Lemma land_7f v : Z.land v 127 = v mod 128.
Proof. apply (land_ones_mod v 7). lia. Qed.

Lemma lor_shiftl a b k :
  0 <= k -> 0 <= a < 2 ^ k -> Z.lor a (Z.shiftl b k) = a + b * 2 ^ k.
Proof.
  intros Hk Ha. rewrite <- Z.shiftl_mul_pow2 by lia.
  rewrite <- Z.add_lor_land.
  assert (Z.land a (Z.shiftl b k) = 0) as ->; [|lia].
  apply Z.bits_inj'. intros n Hn. rewrite Z.land_spec, Z.bits_0, Z.shiftl_spec by lia.
  destruct (Z_lt_le_dec n k).
  - by rewrite (Z.testbit_neg_r b) by lia; rewrite andb_false_r.
  - rewrite <- (Z.mod_small a (2 ^ k)), Z.mod_pow2_bits_high by lia. done.
Qed.

(** A decidable property of bytes, by enumeration. *)
Lemma byte_enum (n : nat) (f : Z -> bool) :
  forallb (fun k => f (Z.of_nat k)) (seq 0 n) = true -> forall b, 0 <= b < Z.of_nat n -> f b = true.
Proof.
  rewrite forallb_forall. intros H b Hb. specialize (H (Z.to_nat b)).
  rewrite in_seq, Z2Nat.id in H by lia. apply H. lia.
Qed.

Lemma byte_enum_P (n : nat) (Q : Z -> Prop) `{forall z, Decision (Q z)} :
  forallb (fun k => bool_decide (Q (Z.of_nat k))) (seq 0 n) = true ->
  forall b, 0 <= b < Z.of_nat n -> Q b.
Proof.
  intros Hf b Hb. pose proof (byte_enum n (fun z => bool_decide (Q z)) Hf b Hb) as H1.
  by apply bool_decide_eq_true in H1.
Qed.

Ltac by_enum n :=
  lazymatch goal with
  | |- forall x, _ -> @?Q x => apply (byte_enum_P n Q); by vm_compute
  end.

(** Moving a block inside a buffer to a position after [pre]. *)
Lemma memmove_general pre w dst src n t :
  bread (pre ++ w) src n = Some t -> blen pre <= dst -> dst + n <= blen (pre ++ w) ->
  exists g y, memmove (pre ++ w) dst src n = Some (pre ++ g ++ t ++ y) /\
    blen g = dst - blen pre /\ blen y = blen (pre ++ w) - dst - n.
Proof.
  intros Hr Hd Hn. pose proof (bread_Some _ _ _ _ Hr) as (Hs & Hn0 & Hsn & Ht).
  rewrite blen_app in *.
  destruct (split_blen w (dst - blen pre)) as (g & w' & -> & Hg); [lia|]. rewrite blen_app in *.
  destruct (split_blen w' n) as (b & y & -> & Hb); [lia|]. rewrite blen_app in *.
  exists g, y. split; [|lia].
  pose proof (memmove_app (pre ++ g) b y src n dst t t) as Hm.
  rewrite <- !app_assoc in Hm. apply Hm; [done|rewrite blen_app; lia|done|done].
Qed.
