(* ===== verification/Endian.v ===== *)
(** endianconv.c / endianconv.h: in-place byte reversal, and the [*ifbe]
    variants that make the serialized form of a structure independent of the
    byte order of the host. *)

From S2P Require Import Prelude.

Module Endian.

(** The [BYTE_ORDER] of the host. *)
Inductive endian := LITTLE_ENDIAN | BIG_ENDIAN.

(** Storing and loading an integer object of [n] bytes on the host. *)
Definition host_store (e : endian) (n : nat) (v : Z) : bytes :=
  match e with LITTLE_ENDIAN => le_bytes n v | BIG_ENDIAN => be_bytes n v end.
Definition host_load (e : endian) (b : bytes) : Z :=
  match e with LITTLE_ENDIAN => le_val b | BIG_ENDIAN => be_val b end.

(** [t = x[i]; x[i] = x[j]; x[j] = t] *)
Definition swap (b : bytes) (i j : Z) : option bytes :=
  t ← bget b i; u ← bget b j; b ← bset b i u; bset b j t.

Definition memrev16 (x : bytes) (p : Z) : option bytes := swap x p (p + 1).

Definition memrev32 (x : bytes) (p : Z) : option bytes :=
  x ← swap x p (p + 3); swap x (p + 1) (p + 2).

Definition memrev64 (x : bytes) (p : Z) : option bytes :=
  x ← swap x p (p + 7); x ← swap x (p + 1) (p + 6);
  x ← swap x (p + 2) (p + 5); swap x (p + 3) (p + 4).

Section Host.
Context (e : endian).

Definition intrev16 (v : Z) : option Z :=
  b ← memrev16 (host_store e 2 v) 0; Some (host_load e b).
Definition intrev32 (v : Z) : option Z :=
  b ← memrev32 (host_store e 4 v) 0; Some (host_load e b).
Definition intrev64 (v : Z) : option Z :=
  b ← memrev64 (host_store e 8 v) 0; Some (host_load e b).

Definition memrev16ifbe (x : bytes) (p : Z) : option bytes :=
  match e with LITTLE_ENDIAN => Some x | BIG_ENDIAN => memrev16 x p end.
Definition memrev32ifbe (x : bytes) (p : Z) : option bytes :=
  match e with LITTLE_ENDIAN => Some x | BIG_ENDIAN => memrev32 x p end.
Definition memrev64ifbe (x : bytes) (p : Z) : option bytes :=
  match e with LITTLE_ENDIAN => Some x | BIG_ENDIAN => memrev64 x p end.
Definition intrev32ifbe (v : Z) : option Z :=
  match e with LITTLE_ENDIAN => Some v | BIG_ENDIAN => intrev32 v end.
Definition intrev16ifbe (v : Z) : option Z :=
  match e with LITTLE_ENDIAN => Some v | BIG_ENDIAN => intrev16 v end.

(** [htonu64] and [ntohu64]: network order is big endian. *)
Definition htonu64 (v : Z) : option Z :=
  match e with BIG_ENDIAN => Some v | LITTLE_ENDIAN => intrev64 v end.
Definition ntohu64 (v : Z) : option Z :=
  match e with BIG_ENDIAN => Some v | LITTLE_ENDIAN => intrev64 v end.
End Host.

(** ** Correctness *)

Lemma swap_at b b' a x m y c i j :
  b = a ++ x :: m ++ y :: c -> b' = a ++ y :: m ++ x :: c ->
  i = blen a -> j = blen a + 1 + blen m -> swap b i j = Some b'.
Proof.
  intros -> -> -> ->. unfold swap. rewrite (bget_app a x _ (blen a)) by done. simpl.
  replace (a ++ x :: m ++ y :: c) with ((a ++ x :: m) ++ y :: c)
    by by rewrite <- app_assoc.
  rewrite bget_app by (autorewrite with cmem; lia). simpl.
  rewrite <- app_assoc. simpl. rewrite bset_app by done. simpl.
  replace (a ++ y :: m ++ y :: c) with ((a ++ y :: m) ++ y :: c)
    by by rewrite <- app_assoc.
  rewrite bset_app by (autorewrite with cmem; lia). by rewrite <- app_assoc.
Qed.

Ltac bytes_of l :=
  repeat match goal with
  | H : length l = 0%nat |- _ => fail
  | H : length ?l = S _ |- _ => destruct l; [discriminate H|injection H as H]
  | H : length ?l = O |- _ => apply nil_length_inv in H; subst l
  end.

(** One swap of a reversal, the elements before and between it given. *)
Ltac swap_step a m :=
  erewrite (swap_at _ _ a _ m);
  [ cbn [mbind option_bind]
  | rewrite <- ?app_assoc; reflexivity | reflexivity
  | autorewrite with cmem; lia | autorewrite with cmem; lia ].

Lemma memrev16_app a x c p :
  p = blen a -> length x = 2%nat -> memrev16 (a ++ x ++ c) p = Some (a ++ reverse x ++ c).
Proof. intros -> Hx. bytes_of x. unfold memrev16. swap_step a (@nil Z). done. Qed.

Lemma memrev32_app a x c p :
  p = blen a -> length x = 4%nat -> memrev32 (a ++ x ++ c) p = Some (a ++ reverse x ++ c).
Proof.
  intros -> Hx. bytes_of x. unfold memrev32.
  swap_step a [z0; z1]. swap_step (a ++ [z2]) (@nil Z). by rewrite <- app_assoc.
Qed.

Lemma memrev64_app a x c p :
  p = blen a -> length x = 8%nat -> memrev64 (a ++ x ++ c) p = Some (a ++ reverse x ++ c).
Proof.
  intros -> Hx. bytes_of x. unfold memrev64.
  swap_step a [z0; z1; z2; z3; z4; z5]. swap_step (a ++ [z6]) [z1; z2; z3; z4].
  swap_step (a ++ [z6; z5]) [z2; z3]. swap_step (a ++ [z6; z5; z4]) (@nil Z).
  by rewrite <- app_assoc.
Qed.

Section HostFacts.
Context (e : endian).

Lemma length_host_store n v : length (host_store e n v) = n.
Proof. destruct e; simpl; [|unfold be_bytes; rewrite length_reverse]; apply length_le_bytes. Qed.

Lemma host_load_store n v : host_load e (host_store e n v) = v mod 2 ^ (8 * Z.of_nat n).
Proof. destruct e; simpl; [apply le_val_le_bytes|apply be_val_be_bytes]. Qed.

(** A host integer brought to little endian, and back. *)
Lemma intrev32_swap b :
  length b = 4%nat -> is_bytes b -> intrev32 BIG_ENDIAN (be_val b) = Some (le_val b).
Proof.
  intros Hl Hb. unfold intrev32, host_store.
  assert (be_bytes 4 (be_val b) = b) as ->.
  { unfold be_bytes, be_val. rewrite le_bytes_le_val_len; [by rewrite reverse_involutive| |].
    - by apply Forall_reverse.
    - by rewrite length_reverse. }
  rewrite <- (app_nil_l b), <- (app_nil_r ([] ++ b)), <- app_assoc.
  rewrite memrev32_app by done. cbn [mbind option_bind host_load]. unfold be_val.
  by rewrite !app_nil_r, !app_nil_l, reverse_involutive.
Qed.

Lemma intrev32ifbe_load b :
  length b = 4%nat -> is_bytes b -> intrev32ifbe e (host_load e b) = Some (le_val b).
Proof. intros. destruct e; [done|]. by apply intrev32_swap. Qed.

Lemma intrev32ifbe_store v :
  in_uint 32 v -> exists r, intrev32ifbe e v = Some r /\ host_store e 4 r = le_bytes 4 v.
Proof.
  intros Hv. destruct e; cbn [intrev32ifbe host_store]; [by eauto|].
  exists (le_val (be_bytes 4 v)). split.
  - rewrite <- (uint_be_bytes 4 v) at 1 by done.
    apply intrev32_swap; [|apply be_bytes_is_bytes].
    unfold be_bytes. by rewrite length_reverse, length_le_bytes.
  - unfold be_bytes at 1. rewrite le_bytes_le_val_len.
    + unfold be_bytes. by rewrite reverse_involutive.
    + apply be_bytes_is_bytes.
    + unfold be_bytes. by rewrite length_reverse, length_le_bytes.
Qed.

Lemma memrev_ifbe_load (rev : endian -> bytes -> Z -> option bytes) n b :
  (forall x p, rev LITTLE_ENDIAN x p = Some x) ->
  (forall a x c p, p = blen a -> length x = n ->
     rev BIG_ENDIAN (a ++ x ++ c) p = Some (a ++ reverse x ++ c)) ->
  length b = n -> exists b', rev e b 0 = Some b' /\ host_load e b' = le_val b.
Proof.
  intros Hle Hbe Hb. destruct e; [by eauto|].
  specialize (Hbe [] b [] 0 eq_refl Hb). rewrite !app_nil_r, !app_nil_l in Hbe.
  eexists; split; [done|]. simpl. unfold be_val. by rewrite reverse_involutive.
Qed.

Lemma memrev_ifbe_store (rev : endian -> bytes -> Z -> option bytes) n a c v p :
  (forall x p, rev LITTLE_ENDIAN x p = Some x) ->
  (forall a x c p, p = blen a -> length x = n ->
     rev BIG_ENDIAN (a ++ x ++ c) p = Some (a ++ reverse x ++ c)) ->
  p = blen a -> rev e (a ++ host_store e n v ++ c) p = Some (a ++ le_bytes n v ++ c).
Proof.
  intros Hle Hbe ->. destruct e; simpl; [by rewrite Hle|].
  rewrite Hbe; [|done|].
  - unfold be_bytes. by rewrite reverse_involutive.
  - unfold be_bytes. by rewrite length_reverse, length_le_bytes.
Qed.
End HostFacts.

End Endian.
