(* ===== verification/Intset.v ===== *)
(** intset.c: sorted sets of integers in one contiguous allocation.

    The object is the whole blob: two 32-bit header fields ([encoding],
    [length]) followed by [contents], an array of [length] integers of
    [encoding] bytes each, all serialized little endian whatever the host. *)

From stdpp Require Import gmap sorting.
From S2P Require Import Prelude Endian.
Import Endian.

Module Intset.

Definition INTSET_ENC_INT16 : Z := 2.
Definition INTSET_ENC_INT32 : Z := 4.
Definition INTSET_ENC_INT64 : Z := 8.

(** [sizeof(intset)], the offset of [contents]. *)
Definition sizeof_intset : Z := 8.

Section Code.
Context (e : endian) (indet : nat -> Z).

(** The header fields, through [intrev32ifbe]. *)
Definition encoding (iset : bytes) : option Z :=
  b ← bread iset 0 4; intrev32ifbe e (host_load e b).
Definition length_ (iset : bytes) : option Z :=
  b ← bread iset 4 4; intrev32ifbe e (host_load e b).
Definition set_encoding (iset : bytes) (v : Z) : option bytes :=
  r ← intrev32ifbe e v; bwrite iset 0 (host_store e 4 r).
Definition set_length (iset : bytes) (v : Z) : option bytes :=
  r ← intrev32ifbe e v; bwrite iset 4 (host_store e 4 r).

Definition _intsetValueEncoding (v : Z) : Z :=
  if (v <? -2147483648) || (v >? 2147483647) then INTSET_ENC_INT64
  else if (v <? -32768) || (v >? 32767) then INTSET_ENC_INT32
  else INTSET_ENC_INT16.

Definition _intsetGetEncoded (iset : bytes) (pos enc : Z) : option Z :=
  let pos := sint 32 pos in
  if enc =? INTSET_ENC_INT64 then
    v64 ← bread iset (sizeof_intset + pos * 8) 8;
    v64 ← memrev64ifbe e v64 0; Some (sint 64 (host_load e v64))
  else if enc =? INTSET_ENC_INT32 then
    v32 ← bread iset (sizeof_intset + pos * 4) 4;
    v32 ← memrev32ifbe e v32 0; Some (sint 32 (host_load e v32))
  else
    v16 ← bread iset (sizeof_intset + pos * 2) 2;
    v16 ← memrev16ifbe e v16 0; Some (sint 16 (host_load e v16)).

Definition _intsetGet (iset : bytes) (pos : Z) : option Z :=
  enc ← encoding iset; _intsetGetEncoded iset pos (uint 8 enc).

Definition _intsetSet (iset : bytes) (pos value : Z) : option bytes :=
  let pos := sint 32 pos in
  enc ← encoding iset;
  if enc =? INTSET_ENC_INT64 then
    iset ← bwrite iset (sizeof_intset + pos * 8) (host_store e 8 value);
    memrev64ifbe e iset (sizeof_intset + pos * 8)
  else if enc =? INTSET_ENC_INT32 then
    iset ← bwrite iset (sizeof_intset + pos * 4) (host_store e 4 value);
    memrev32ifbe e iset (sizeof_intset + pos * 4)
  else
    iset ← bwrite iset (sizeof_intset + pos * 2) (host_store e 2 value);
    memrev16ifbe e iset (sizeof_intset + pos * 2).

Definition intsetNew : option bytes :=
  let iset := brealloc indet [] sizeof_intset in
  iset ← set_encoding iset INTSET_ENC_INT16;
  set_length iset 0.

Definition intsetResize (iset : bytes) (len : Z) : option bytes :=
  enc ← encoding iset;
  let size := uint 32 (len * enc) in
  Some (brealloc indet iset (sizeof_intset + size)).

(** The binary search loop. [fuel] bounds the iterations; running out of it
    has no result. *)
Fixpoint intsetSearch_loop (fuel : nat) (iset : bytes) (value min max mid cur : Z)
    : option (Z * Z * Z) :=
  match fuel with
  | O => None
  | S fuel =>
      if max >=? min then
        let mid := Z.shiftr (uint 32 (uint 32 min + uint 32 max)) 1 in
        cur ← _intsetGet iset mid;
        if value >? cur then intsetSearch_loop fuel iset value (mid + 1) max mid cur
        else if value <? cur then intsetSearch_loop fuel iset value min (mid - 1) mid cur
        else Some (min, mid, cur)
      else Some (min, mid, cur)
  end.

(** A range of at most 2^32 positions is halved at most 33 times. *)
Definition search_fuel : nat := 34.

(** Returns the result and [*pos]. *)
Definition intsetSearch (iset : bytes) (value : Z) : option (bool * Z) :=
  len ← length_ iset;
  let max := sint 32 (len - 1) in
  if len =? 0 then Some (false, 0)
  else
    last ← _intsetGet iset max;
    if value >? last then Some (false, len)
    else
      first ← _intsetGet iset 0;
      if value <? first then Some (false, 0)
      else
        '(min, mid, cur) ← intsetSearch_loop search_fuel iset value 0 max (-1) (-1);
        if value =? cur then Some (true, mid) else Some (false, min).

(** [while(length--) _intsetSet(is,length+prepend,_intsetGetEncoded(...))] *)
Fixpoint upgrade_loop (length : nat) (iset : bytes) (prepend curenc : Z) : option bytes :=
  match length with
  | O => Some iset
  | S length =>
      v ← _intsetGetEncoded iset (Z.of_nat length) curenc;
      iset ← _intsetSet iset (Z.of_nat length + prepend) v;
      upgrade_loop length iset prepend curenc
  end.

Definition intsetUpgradeAndAdd (iset : bytes) (value : Z) : option bytes :=
  enc ← encoding iset;
  let curenc := uint 8 enc in
  let newenc := _intsetValueEncoding value in
  len ← length_ iset;
  let length := sint 32 len in
  let prepend := if value <? 0 then 1 else 0 in
  iset ← set_encoding iset newenc;
  iset ← intsetResize iset (uint 32 (len + 1));
  assert! 0 <=? length;
  iset ← upgrade_loop (Z.to_nat length) iset prepend curenc;
  iset ← (if prepend =? 1 then _intsetSet iset 0 value else _intsetSet iset len value);
  set_length iset (uint 32 (len + 1)).

Definition intsetMoveTail (iset : bytes) (from to : Z) : option bytes :=
  len ← length_ iset;
  let bytes := uint 32 (len - from) in
  enc ← encoding iset;
  if enc =? INTSET_ENC_INT64 then
    memmove iset (sizeof_intset + to * 8) (sizeof_intset + from * 8) (uint 32 (bytes * 8))
  else if enc =? INTSET_ENC_INT32 then
    memmove iset (sizeof_intset + to * 4) (sizeof_intset + from * 4) (uint 32 (bytes * 4))
  else
    memmove iset (sizeof_intset + to * 2) (sizeof_intset + from * 2) (uint 32 (bytes * 2)).

(** Returns the intset and [*success]. *)
Definition intsetAdd (iset : bytes) (value : Z) : option (bytes * bool) :=
  let valenc := _intsetValueEncoding value in
  enc ← encoding iset;
  if valenc >? enc then
    iset ← intsetUpgradeAndAdd iset value; Some (iset, true)
  else
    '(found, pos) ← intsetSearch iset value;
    if (found : bool) then Some (iset, false)
    else
      len ← length_ iset;
      iset ← intsetResize iset (uint 32 (len + 1));
      iset ← (if pos <? len then intsetMoveTail iset pos (uint 32 (pos + 1)) else Some iset);
      iset ← _intsetSet iset pos value;
      iset ← set_length iset (uint 32 (len + 1));
      Some (iset, true).

Definition intsetRemove (iset : bytes) (value : Z) : option (bytes * bool) :=
  let valenc := _intsetValueEncoding value in
  enc ← encoding iset;
  if valenc <=? enc then
    '(found, pos) ← intsetSearch iset value;
    if (found : bool) then
      len ← length_ iset;
      iset ← (if pos <? uint 32 (len - 1)
            then intsetMoveTail iset (uint 32 (pos + 1)) pos else Some iset);
      iset ← intsetResize iset (uint 32 (len - 1));
      iset ← set_length iset (uint 32 (len - 1));
      Some (iset, true)
    else Some (iset, false)
  else Some (iset, false).

Definition intsetFind (iset : bytes) (value : Z) : option bool :=
  let valenc := _intsetValueEncoding value in
  enc ← encoding iset;
  if valenc <=? enc then
    '(found, _) ← intsetSearch iset value; Some found
  else Some false.

(** [rand] is the value [rand()] returns. *)
Definition intsetRandom (iset : bytes) (rand : Z) : option Z :=
  len ← length_ iset;
  assert! negb (len =? 0);
  _intsetGet iset (rand mod len).

Definition intsetGet (iset : bytes) (pos : Z) : option (option Z) :=
  len ← length_ iset;
  if pos <? len then v ← _intsetGet iset pos; Some (Some v) else Some None.

Definition intsetLen (iset : bytes) : option Z := length_ iset.

Definition intsetBlobLen (iset : bytes) : option Z :=
  len ← length_ iset; enc ← encoding iset; Some (sizeof_intset + len * enc).

(** [for (i=1; i<count; i++)] with [n] iterations left. *)
Fixpoint validate_loop (n : nat) (iset : bytes) (i prev : Z) : option bool :=
  match n with
  | O => Some true
  | S n =>
      cur ← _intsetGet iset i;
      if cur <=? prev then Some false else validate_loop n iset (i + 1) cur
  end.

Definition intsetValidateIntegrity (iset : bytes) (size : Z) (deep : bool) : option bool :=
  if size <? sizeof_intset then Some false
  else
    enc ← encoding iset;
    if negb ((enc =? INTSET_ENC_INT64) || (enc =? INTSET_ENC_INT32) || (enc =? INTSET_ENC_INT16))
    then Some false
    else
      let record_size := enc in
      count ← length_ iset;
      if negb (sizeof_intset + count * record_size =? size) then Some false
      else if count =? 0 then Some false
      else if negb deep then Some true
      else
        prev ← _intsetGet iset 0;
        validate_loop (Z.to_nat (count - 1)) iset 1 prev.
End Code.

(** ** Representation *)

Definition enc_ok (enc : Z) : Prop := enc = 2 \/ enc = 4 \/ enc = 8.

(** An array of integers of [enc] bytes. *)
Definition arr (enc : Z) (l : list Z) : bytes := l ≫= le_bytes (Z.to_nat enc).

Definition hdr (enc len : Z) : bytes := le_bytes 4 enc ++ le_bytes 4 len.

(** [iset] is the serialization of [l]. *)
Record layout (enc : Z) (iset : bytes) (l : list Z) : Prop := {
  layout_enc : enc_ok enc;
  layout_blob : iset = hdr enc (blen l) ++ arr enc l;
  layout_range : Forall (in_sint (8 * enc)) l;
  layout_size : blen l * 8 < 2 ^ 32;
}.

(** [iset] is the serialization of the strictly increasing list [l]. *)
Record rep (enc : Z) (iset : bytes) (l : list Z) : Prop := {
  rep_enc : enc_ok enc;
  rep_blob : iset = hdr enc (blen l) ++ arr enc l;
  rep_range : Forall (in_sint (8 * enc)) l;
  rep_sorted : StronglySorted Z.lt l;
  rep_size : blen l * 8 < 2 ^ 32;
}.

Lemma arr_nil enc : arr enc [] = [].
Proof. done. Qed.
Lemma arr_app enc l k : arr enc (l ++ k) = arr enc l ++ arr enc k.
Proof. apply bind_app. Qed.
Lemma arr_cons enc x l : arr enc (x :: l) = le_bytes (Z.to_nat enc) x ++ arr enc l.
Proof. done. Qed.

Lemma blen_arr enc l : enc_ok enc -> blen (arr enc l) = blen l * enc.
Proof.
  intros He. induction l as [|x l IH]; [done|].
  rewrite arr_cons, blen_app, blen_le_bytes, IH.
  rewrite blen_cons. destruct He as [->|[->| ->]]; lia.
Qed.

Lemma blen_hdr enc len : blen (hdr enc len) = 8.
Proof. unfold hdr. by autorewrite with cmem. Qed.

#[local] Hint Rewrite blen_hdr : cmem.

Lemma enc_ok_u32 enc : enc_ok enc -> in_uint 32 enc.
Proof. intros [->|[->| ->]]; by unfold in_uint. Qed.
Lemma enc_ok_u8 enc : enc_ok enc -> uint 8 enc = enc.
Proof. by intros [->|[->| ->]]. Qed.
#[local] Hint Resolve enc_ok_u32 : cmem.

Lemma enc_ok_value v : enc_ok (_intsetValueEncoding v).
Proof. unfold _intsetValueEncoding, enc_ok. repeat bcase; cbv; auto. Qed.

Lemma value_encoding_range v enc :
  in_sint 64 v -> enc_ok enc ->
  _intsetValueEncoding v <= enc <-> in_sint (8 * enc) v.
Proof.
  unfold _intsetValueEncoding, in_sint, INTSET_ENC_INT16, INTSET_ENC_INT32, INTSET_ENC_INT64.
  intros Hv [->|[->| ->]]; cbn [Z.mul Z.sub Z.add Z.opp Z.pow] in *; repeat bcase; cbn; lia.
Qed.

Section Facts.
Context (e : endian).

Lemma field_load a v c off :
  off = blen a -> in_uint 32 v ->
  (b ← bread (a ++ le_bytes 4 v ++ c) off 4; intrev32ifbe e (host_load e b)) = Some v.
Proof.
  intros -> Hv. rewrite bread_app by (try done; by rewrite blen_le_bytes).
  cbn [mbind option_bind]. rewrite intrev32ifbe_load.
  - by rewrite uint_le_bytes.
  - apply length_le_bytes.
  - apply le_bytes_is_bytes.
Qed.

Lemma field_store a x v c off :
  off = blen a -> blen x = 4 -> in_uint 32 v ->
  (r ← intrev32ifbe e v; bwrite (a ++ x ++ c) off (host_store e 4 r))
  = Some (a ++ le_bytes 4 v ++ c).
Proof.
  intros -> Hx Hv. destruct (intrev32ifbe_store e v Hv) as (r & -> & Hr).
  cbn [mbind option_bind]. rewrite Hr. apply bwrite_app; [done|]. by rewrite blen_le_bytes.
Qed.

Lemma encoding_hdr enc n body : in_uint 32 enc -> encoding e (hdr enc n ++ body) = Some enc.
Proof.
  intros. unfold encoding, hdr. rewrite <- app_assoc. by apply (field_load []).
Qed.
Lemma length_hdr enc n body : in_uint 32 n -> length_ e (hdr enc n ++ body) = Some n.
Proof.
  intros. unfold length_, hdr. rewrite <- app_assoc.
  apply field_load; [|done]. by rewrite blen_le_bytes.
Qed.
Lemma set_encoding_hdr enc enc' n body :
  in_uint 32 enc' -> set_encoding e (hdr enc n ++ body) enc' = Some (hdr enc' n ++ body).
Proof.
  intros. unfold set_encoding, hdr. rewrite <- !app_assoc.
  by apply (field_store []).
Qed.
Lemma set_length_hdr enc n n' body :
  in_uint 32 n' -> set_length e (hdr enc n ++ body) n' = Some (hdr enc n' ++ body).
Proof.
  intros. unfold set_length, hdr. rewrite <- !app_assoc.
  apply field_store; rewrite ?blen_le_bytes; done.
Qed.

(** Reading and writing one element. *)
Lemma get_encoded enc enc' n a v c pos :
  enc_ok enc -> in_sint (8 * enc) v -> 0 <= pos < 2 ^ 31 -> blen a = pos * enc ->
  _intsetGetEncoded e (hdr enc' n ++ a ++ le_bytes (Z.to_nat enc) v ++ c) pos enc = Some v.
Proof.
  intros Henc Hv Hp Ha. unfold _intsetGetEncoded.
  rewrite (sint_small 32 pos) by (unfold in_sint; lia).
  destruct Henc as [->|[->| ->]]; unfold INTSET_ENC_INT64, INTSET_ENC_INT32; bdec;
    rewrite (app_assoc (hdr _ _) a);
    (rewrite bread_app; [|unfold sizeof_intset; autorewrite with cmem; lia|by autorewrite with cmem]);
    cbn [mbind option_bind].
  - change (Z.to_nat 2) with 2%nat.
    edestruct (memrev_ifbe_load e memrev16ifbe 2 (le_bytes 2 v)) as (b' & -> & Hb);
      [done|apply memrev16_app|apply length_le_bytes|].
    cbn [mbind option_bind]. rewrite Hb. f_equal. apply (sint_le_bytes 2); [lia|done].
  - change (Z.to_nat 4) with 4%nat.
    edestruct (memrev_ifbe_load e memrev32ifbe 4 (le_bytes 4 v)) as (b' & -> & Hb);
      [done|apply memrev32_app|apply length_le_bytes|].
    cbn [mbind option_bind]. rewrite Hb. f_equal. apply (sint_le_bytes 4); [lia|done].
  - change (Z.to_nat 8) with 8%nat.
    edestruct (memrev_ifbe_load e memrev64ifbe 8 (le_bytes 8 v)) as (b' & -> & Hb);
      [done|apply memrev64_app|apply length_le_bytes|].
    cbn [mbind option_bind]. rewrite Hb. f_equal. apply (sint_le_bytes 8); [lia|done].
Qed.

Lemma set_elem enc n a x v c pos :
  enc_ok enc -> 0 <= pos < 2 ^ 31 -> blen a = pos * enc -> blen x = enc ->
  _intsetSet e (hdr enc n ++ a ++ x ++ c) pos v
  = Some (hdr enc n ++ a ++ le_bytes (Z.to_nat enc) v ++ c).
Proof.
  intros Henc Hp Ha Hx. unfold _intsetSet.
  rewrite (sint_small 32 pos) by (unfold in_sint; lia).
  rewrite encoding_hdr by auto with cmem. cbn [mbind option_bind].
  rewrite !(app_assoc (hdr _ _) a).
  destruct Henc as [->|[->| ->]]; unfold INTSET_ENC_INT64, INTSET_ENC_INT32; bdec;
    (rewrite (bwrite_app _ x); [|unfold sizeof_intset; autorewrite with cmem; lia
      |unfold blen; rewrite length_host_store; unfold blen in Hx; lia]);
    cbn [mbind option_bind].
  - apply (memrev_ifbe_store e memrev16ifbe 2); [done|apply memrev16_app|].
    unfold sizeof_intset; autorewrite with cmem; lia.
  - apply (memrev_ifbe_store e memrev32ifbe 4); [done|apply memrev32_app|].
    unfold sizeof_intset; autorewrite with cmem; lia.
  - apply (memrev_ifbe_store e memrev64ifbe 8); [done|apply memrev64_app|].
    unfold sizeof_intset; autorewrite with cmem; lia.
Qed.

Lemma rep_layout enc iset l : rep enc iset l -> layout enc iset l.
Proof. by intros []. Qed.

Lemma _intsetGet_layout enc iset l i v :
  layout enc iset l -> l !! i = Some v -> _intsetGet e iset (Z.of_nat i) = Some v.
Proof.
  intros [Henc -> Hr Hn] (l1 & l2 & -> & ->)%list_elem_of_split_length.
  unfold _intsetGet. rewrite encoding_hdr by auto with cmem. cbn [mbind option_bind].
  rewrite enc_ok_u8, arr_app, arr_cons by done.
  autorewrite with cmem in Hn. pose proof (blen_nonneg l2).
  apply get_encoded; [done| | |by apply blen_arr].
  - apply Forall_app in Hr as [_ Hr]. by inv Hr.
  - unfold blen in *. lia.
Qed.

Lemma _intsetGet_rep enc iset l i v :
  rep enc iset l -> l !! i = Some v -> _intsetGet e iset (Z.of_nat i) = Some v.
Proof. intros ?%rep_layout. by eapply _intsetGet_layout. Qed.

Lemma length_rep enc iset l : rep enc iset l -> length_ e iset = Some (blen l).
Proof.
  intros [Henc -> Hr Hs Hn]. pose proof (blen_nonneg l). apply length_hdr. split; lia.
Qed.

Lemma encoding_rep enc iset l : rep enc iset l -> encoding e iset = Some enc.
Proof. intros [Henc -> Hr Hs Hn]. apply encoding_hdr. auto with cmem. Qed.

(** What a search for [v] promises. *)
Definition search_ok (l : list Z) (v : Z) (r : bool * Z) : Prop :=
  if r.1 then exists i, r.2 = Z.of_nat i /\ l !! i = Some v
  else exists l1 l2, l = l1 ++ l2 /\ r.2 = blen l1 /\ Forall (fun x => x < v) l1 /\ Forall (Z.lt v) l2.

Lemma search_loop_ok enc iset l v fuel : forall lo hi mid cur,
  rep enc iset l -> (lo <= hi + 1)%Z -> 0 <= lo -> hi < blen l ->
  hi - lo + 1 < 2 ^ (Z.of_nat fuel - 1) -> (0 < fuel)%nat ->
  (lo <= hi \/ v <> cur) ->
  (forall i x, l !! i = Some x -> Z.of_nat i < lo -> x < v) ->
  (forall i x, l !! i = Some x -> hi < Z.of_nat i -> v < x) ->
  exists lo' mid' cur', intsetSearch_loop e fuel iset v lo hi mid cur = Some (lo', mid', cur') /\
    search_ok l v (if v =? cur' then (true, mid') else (false, lo')).
Proof.
  induction fuel as [|fuel IH]; intros lo hi mid cur Hrep Hle Hlo Hhi Hf Hf0 Hcur Hlt Hgt; [lia|].
  cbn [intsetSearch_loop]. replace (Z.of_nat (S fuel) - 1) with (Z.of_nat fuel) in Hf by lia.
  bdestr (hi >=? lo).
  - pose proof (rep_size _ _ _ Hrep) as Hsz.
    assert (Z.shiftr (uint 32 (uint 32 lo + uint 32 hi)) 1 = (lo + hi) / 2) as ->.
    { rewrite (uint_small 32 lo), (uint_small 32 hi), uint_small by (unfold in_uint; lia).
      by rewrite Z.shiftr_div_pow2. }
    set (m := (lo + hi) / 2).
    assert (lo <= m <= hi) by (unfold m; split; [apply Z.div_le_lower_bound|apply Z.div_le_upper_bound]; lia).
    assert (hi - m < 2 ^ (Z.of_nat fuel - 1) /\ m - lo < 2 ^ (Z.of_nat fuel - 1) /\ (0 < fuel)%nat).
    { destruct fuel as [|f]; [simpl in Hf; lia|].
      replace (Z.of_nat (S f)) with (1 + Z.of_nat f) in * by lia.
      replace (1 + Z.of_nat f - 1) with (Z.of_nat f) by lia.
      rewrite Z.pow_add_r in Hf by lia. change (2 ^ 1) with 2 in Hf.
      generalize dependent (2 ^ Z.of_nat f). intros p Hp. unfold m in *. dlia. }
    destruct (lookup_lt_is_Some_2 l (Z.to_nat m)) as [x Hx]; [unfold blen in *; lia|].
    assert (_intsetGet e iset m = Some x) as ->.
    { rewrite <- (Z2Nat.id m) by lia. by eapply _intsetGet_rep. }
    cbn [mbind option_bind].
    assert (forall i y, l !! i = Some y -> Z.of_nat i < m -> y < x).
    { intros i y Hy Hi. eapply (StronglySorted_lookup_lt _ l i (Z.to_nat m)); eauto; [by destruct Hrep|lia]. }
    assert (forall i y, l !! i = Some y -> m < Z.of_nat i -> x < y).
    { intros i y Hy Hi. eapply (StronglySorted_lookup_lt _ l (Z.to_nat m) i); eauto; [by destruct Hrep|lia]. }
    bdestr (v >? x); [|bdestr (v <? x)].
    + apply IH; eauto; try lia. intros i y Hy Hi.
      destruct (decide (Z.of_nat i = m)) as [Heq|]; [|enough (y < x) by lia; eapply H1; [done|lia]].
      replace i with (Z.to_nat m) in Hy by lia. simplify_eq. lia.
    + apply IH; eauto; try lia. intros i y Hy Hi.
      destruct (decide (Z.of_nat i = m)) as [Heq|]; [|enough (x < y) by lia; eapply H2; [done|lia]].
      replace i with (Z.to_nat m) in Hy by lia. simplify_eq. lia.
    + eexists _, _, _; split; [done|]. bdestr (v =? x); [|lia]. subst x.
      exists (Z.to_nat m). split; [cbn; lia|done].
  - eexists _, _, _; split; [done|]. bdestr (v =? cur); [lia|].
    exists (take (Z.to_nat lo) l), (drop (Z.to_nat lo) l).
    split_and!; [by rewrite take_drop|simpl; unfold blen in *; rewrite length_take; lia| |];
      apply Forall_lookup; intros i y Hy.
    + apply lookup_take_Some in Hy as [Hy Hi]. eapply Hlt; [done|lia].
    + rewrite lookup_drop in Hy. eapply Hgt; [done|lia].
Qed.

Lemma intsetSearch_ok enc iset l v :
  rep enc iset l -> exists r, intsetSearch e iset v = Some r /\ search_ok l v r.
Proof.
  intros Hrep. unfold intsetSearch. rewrite (length_rep enc iset l) by done.
  cbn [mbind option_bind]. pose proof (rep_size _ _ _ Hrep).
  pose proof (rep_sorted _ _ _ Hrep) as Hs.
  bdestr (blen l =? 0).
  { eexists; split; [done|]. exists [], l. destruct l; [done|].
    rewrite blen_cons in *. pose proof (blen_nonneg l). lia. }
  pose proof (blen_nonneg l).
  rewrite sint_small by (unfold in_sint; lia).
  destruct (lookup_lt_is_Some_2 l (length l - 1)) as [x Hx]; [unfold blen in *; lia|].
  assert (_intsetGet e iset (blen l - 1) = Some x) as ->.
  { replace (blen l - 1) with (Z.of_nat (length l - 1)) by (unfold blen in *; lia).
    by eapply _intsetGet_rep. }
  cbn [mbind option_bind].
  bdestr (v >? x).
  { eexists; split; [done|]. exists l, []. rewrite app_nil_r. split_and!; try done.
    apply Forall_lookup. intros i y Hy. pose proof (lookup_lt_Some _ _ _ Hy).
    destruct (decide (i = length l - 1)%nat); [simplify_eq; lia|].
    enough (y < x) by lia. eapply (StronglySorted_lookup_lt _ l i); eauto. lia. }
  destruct (lookup_lt_is_Some_2 l 0) as [y Hy]; [unfold blen in *; lia|].
  assert (_intsetGet e iset 0 = Some y) as -> by by eapply (_intsetGet_rep enc iset l 0).
  cbn [mbind option_bind].
  bdestr (v <? y).
  { eexists; split; [done|]. exists [], l. split_and!; try done.
    apply Forall_lookup. intros i z Hz. destruct i as [|i]; [simplify_eq; lia|].
    enough (y < z) by lia. eapply (StronglySorted_lookup_lt _ l 0); eauto. lia. }
  edestruct (search_loop_ok enc iset l v search_fuel 0 (blen l - 1) (-1) (-1))
    as (lo & mid & cur & -> & Hok); try lia; try done.
  - change (Z.of_nat search_fuel - 1) with 33. lia.
  - unfold search_fuel. lia.
  - intros i z Hz Hi. apply lookup_lt_Some in Hz. unfold blen in *. lia.
  - cbn [mbind option_bind]. eexists; split; [|done]. by destruct (v =? cur).
Qed.

Lemma search_ok_mem l v r : search_ok l v r -> (r.1 = true <-> v ∈ l).
Proof.
  destruct r as [[] pos]; unfold search_ok; cbn.
  - intros (i & -> & Hi). split; [|done]. intros _. by eapply list_elem_of_lookup_2.
  - intros (l1 & l2 & -> & -> & H1 & H2). split; [done|]. intros [H|H]%elem_of_app.
    + rewrite Forall_forall in H1. specialize (H1 _ H). lia.
    + rewrite Forall_forall in H2. specialize (H2 _ H). lia.
Qed.

Lemma intsetFind_rep enc iset l v :
  rep enc iset l -> in_sint 64 v -> intsetFind e iset v = Some (bool_decide (v ∈ l)).
Proof.
  intros Hrep Hv. unfold intsetFind. rewrite (encoding_rep enc iset l) by done.
  cbn [mbind option_bind]. pose proof (rep_enc _ _ _ Hrep) as Henc.
  bdestr (_intsetValueEncoding v <=? enc).
  - destruct (intsetSearch_ok enc iset l v Hrep) as ([b pos] & -> & Hok%search_ok_mem).
    cbn in *. f_equal. case_bool_decide as Hin; rewrite <- Hok in Hin; [done|].
    by destruct b.
  - f_equal. symmetry. apply bool_decide_eq_false. intros Hin.
    pose proof (rep_range _ _ _ Hrep) as Hr. rewrite Forall_forall in Hr.
    apply Hr in Hin. apply value_encoding_range in Hin; [lia|done|done].
Qed.
End Facts.

(** ** Updates *)

Section Updates.
Context (e : endian) (indet : nat -> Z).

Lemma resize_grow enc n body len :
  enc_ok enc -> 0 <= len -> blen body <= len * enc < 2 ^ 32 ->
  exists t, intsetResize e indet (hdr enc n ++ body) len = Some (hdr enc n ++ body ++ t) /\
    blen t = len * enc - blen body.
Proof.
  intros He Hl [H1 H2]. unfold intsetResize. rewrite encoding_hdr by auto with cmem.
  cbn [mbind option_bind]. pose proof (blen_nonneg body).
  rewrite uint_small by (unfold in_uint; lia).
  destruct (brealloc_grow indet (hdr enc n ++ body) (sizeof_intset + len * enc)) as (t & -> & Ht).
  - autorewrite with cmem. unfold sizeof_intset. lia.
  - exists t. rewrite <- app_assoc. split; [done|].
    autorewrite with cmem in Ht. unfold sizeof_intset in Ht. lia.
Qed.

Lemma resize_shrink enc n a c len :
  enc_ok enc -> blen a = len * enc -> len * enc < 2 ^ 32 ->
  intsetResize e indet (hdr enc n ++ a ++ c) len = Some (hdr enc n ++ a).
Proof.
  intros He Ha H2. unfold intsetResize. rewrite encoding_hdr by auto with cmem.
  cbn [mbind option_bind]. pose proof (blen_nonneg a).
  rewrite uint_small by (unfold in_uint; lia). f_equal.
  rewrite app_assoc. apply brealloc_shrink. autorewrite with cmem. unfold sizeof_intset. lia.
Qed.

(** The tail of the array moves to where the elements after it were. *)
Lemma move_tail enc n a from_bytes b c t from to :
  enc_ok enc -> 0 <= from <= n -> 0 <= to -> n * 8 < 2 ^ 32 ->
  bread (a ++ b ++ c) (from * enc) ((n - from) * enc) = Some t ->
  blen a = to * enc -> blen b = (n - from) * enc -> from_bytes = a ++ b ++ c ->
  intsetMoveTail e (hdr enc n ++ from_bytes) from to = Some (hdr enc n ++ a ++ t ++ c).
Proof.
  intros He Hf Ht Hn Hr Ha Hb ->. unfold intsetMoveTail.
  rewrite length_hdr by (unfold in_uint; lia). cbn [mbind option_bind].
  rewrite encoding_hdr by auto with cmem. cbn [mbind option_bind].
  rewrite (uint_small 32 (n - from)) by (unfold in_uint; lia).
  assert (bread (hdr enc n ++ a ++ b ++ c) (sizeof_intset + from * enc) ((n - from) * enc) = Some t).
  { apply bread_split in Hr as Hs. destruct Hs as (x & y & Hs & Hx). rewrite Hs.
    rewrite app_assoc. apply bread_app; [autorewrite with cmem; unfold sizeof_intset; lia|].
    by apply bread_Some in Hr as (_&_&_&->). }
  rewrite !(app_assoc (hdr enc n) a) in *.
  destruct He as [->|[->| ->]]; unfold INTSET_ENC_INT64, INTSET_ENC_INT32; bdec;
    rewrite uint_small by (unfold in_uint; lia);
    (eapply memmove_app; [done| |lia|done]); autorewrite with cmem; unfold sizeof_intset; lia.
Qed.

Lemma upgrade_loop_ok enc enc' n p l : forall m r,
  enc_ok enc -> enc_ok enc' -> enc <= enc' -> 0 <= p <= 1 -> blen l * 8 < 2 ^ 32 - 8 ->
  Forall (in_sint (8 * enc)) l -> blen (arr enc l ++ m) = enc' * (blen l + p) ->
  exists m', upgrade_loop e (length l) (hdr enc' n ++ arr enc l ++ m ++ r) p enc
    = Some (hdr enc' n ++ m' ++ arr enc' l ++ r) /\ blen m' = enc' * p.
Proof.
  induction l as [|x l IH] using rev_ind; intros m r He He' Hle Hp Hn Hr Hm.
  { exists m. split; [done|]. rewrite arr_nil in Hm. autorewrite with cmem in Hm. lia. }
  apply Forall_app in Hr as [Hr Hx]. inv Hx. autorewrite with cmem in Hn, Hm.
  pose proof (blen_nonneg l). rewrite arr_app, arr_cons, arr_nil, app_nil_r in *.
  rewrite length_app, Nat.add_comm. cbn [Nat.add length upgrade_loop].
  rewrite <- !app_assoc. rewrite get_encoded; [|done|done|unfold blen in *; lia|by apply blen_arr].
  cbn [mbind option_bind].
  rewrite blen_app, blen_le_bytes, blen_arr in Hm by done.
  destruct (split_blen (le_bytes (Z.to_nat enc) x ++ m) (enc' * (blen l + p) - blen (arr enc l)))
    as (m1 & m2 & Hsplit & Hm1).
  { rewrite blen_arr, blen_app, blen_le_bytes by done. destruct He as [->|[->| ->]], He' as [->|[->| ->]]; lia. }
  pose proof (f_equal blen Hsplit) as Hl. rewrite !blen_app, blen_le_bytes in Hl.
  rewrite (app_assoc _ m r), Hsplit.
  replace (arr enc l ++ (m1 ++ m2) ++ r) with ((arr enc l ++ m1) ++ m2 ++ r)
    by by rewrite <- !app_assoc.
  rewrite set_elem; [|done| | |].
  - cbn [mbind option_bind]. rewrite <- (app_assoc (arr enc l)).
    destruct (IH m1 (le_bytes (Z.to_nat enc') x ++ r)) as (m' & -> & Hm'); try done.
    + lia.
    + rewrite blen_app. lia.
    + exists m'. rewrite arr_app, arr_cons, arr_nil, app_nil_r, <- app_assoc. done.
  - unfold blen in *. lia.
  - rewrite blen_app, Hm1. fold (blen l). lia.
  - rewrite blen_arr in Hm1 by done. lia.
Qed.

Lemma sorted_insert l1 l2 v :
  StronglySorted Z.lt (l1 ++ l2) -> Forall (fun x => x < v) l1 -> Forall (Z.lt v) l2 ->
  StronglySorted Z.lt (l1 ++ v :: l2).
Proof.
  rewrite !StronglySorted_app_2. intros (H1&H2&H3) Hl Hr. split_and!; [done|by constructor|].
  rewrite Forall_forall in *. intros x Hx. constructor; [by apply Hl|by apply H3].
Qed.

Lemma in_sint_widen enc enc' x :
  enc_ok enc -> enc_ok enc' -> enc <= enc' -> in_sint (8 * enc) x -> in_sint (8 * enc') x.
Proof.
  intros He He' Hle. destruct He as [->|[->| ->]], He' as [->|[->| ->]]; unfold in_sint; lia.
Qed.

Lemma add_upgrade enc iset l v :
  rep enc iset l -> in_sint 64 v -> (blen l + 1) * 8 < 2 ^ 32 ->
  enc < _intsetValueEncoding v ->
  exists iset' l', intsetUpgradeAndAdd e indet iset v = Some iset' /\
    rep (_intsetValueEncoding v) iset' l' /\ (l' = v :: l \/ l' = l ++ [v]).
Proof.
  intros Hrep Hv Hn Hlt. unfold intsetUpgradeAndAdd.
  rewrite (encoding_rep e enc iset l), (length_rep e enc iset l) by done.
  cbn [mbind option_bind]. destruct Hrep as [He -> Hr Hs Hsz].
  pose proof (enc_ok_value v) as He'. pose proof (blen_nonneg l) as Hpos.
  assert (~ in_sint (8 * enc) v) as Hout.
  { rewrite <- value_encoding_range by done. lia. }
  assert (Forall (in_sint (8 * _intsetValueEncoding v)) l) as Hr'.
  { eapply Forall_impl; [exact Hr|]. intros x. apply in_sint_widen; [done|done|lia]. }
  assert (in_sint (8 * _intsetValueEncoding v) v) as Hv' by (apply value_encoding_range; [done|done|lia]).
  remember (_intsetValueEncoding v) as enc' eqn:Heqe. clear Heqe. rewrite enc_ok_u8 by done.
  rewrite set_encoding_hdr by auto with cmem. cbn [mbind option_bind].
  rewrite (uint_small 32 (blen l + 1)) by (unfold in_uint; lia).
  destruct (resize_grow enc' (blen l) (arr enc l) (blen l + 1)) as (t & -> & Ht); [done|lia| |].
  { rewrite blen_arr by done. destruct He as [->|[->| ->]], He' as [->|[->| ->]]; lia. }
  cbn [mbind option_bind]. rewrite (sint_small 32 (blen l)) by (unfold in_sint; lia).
  bdec. rewrite to_nat_blen. rewrite blen_arr in Ht by done.
  bdestr (v <? 0); [change (1 =? 1) with true|change (0 =? 1) with false]; cbv iota.
  - destruct (upgrade_loop_ok enc enc' (blen l) 1 l t []) as (m & Hloop & Hm); try done; try lia.
    { rewrite blen_app, blen_arr by done. lia. }
    rewrite app_nil_r in Hloop. rewrite Hloop. cbn [mbind option_bind].
    pose proof (set_elem e enc' (blen l) [] m v (arr enc' l ++ []) 0) as Hset.
    rewrite !app_nil_l in Hset. rewrite Hset by (done || lia). cbn [mbind option_bind].
    rewrite set_length_hdr by (unfold in_uint; lia).
    eexists _, (v :: l). split; [done|]. split; [|by left].
    split; [done| | | |rewrite blen_cons; lia].
    + rewrite blen_cons, arr_cons, app_nil_r. by rewrite (Z.add_comm 1).
    + by constructor.
    + constructor; [done|]. eapply Forall_impl; [exact Hr|]. intros x [Hx1 Hx2].
      destruct He as [->|[->| ->]]; unfold in_sint in *; lia.
  - destruct (split_blen t (blen t - enc')) as (t1 & t2 & -> & Ht1).
    { destruct He as [->|[->| ->]], He' as [->|[->| ->]]; lia. }
    rewrite blen_app in Ht, Ht1.
    destruct (upgrade_loop_ok enc enc' (blen l) 0 l t1 t2) as (m & -> & Hm); try done; try lia.
    { rewrite blen_app, blen_arr by done. lia. }
    apply (ltac:(lia) : blen m = enc' * 0 -> blen m = 0), blen_0 in Hm as ->.
    cbn [mbind option_bind].
    pose proof (set_elem e enc' (blen l) (arr enc' l) t2 v [] (blen l)) as Hset.
    rewrite !app_nil_r in Hset. rewrite app_nil_l, Hset; [|done|lia|by rewrite blen_arr|lia].
    cbn [mbind option_bind]. rewrite set_length_hdr by (unfold in_uint; lia).
    eexists _, (l ++ [v]). split; [done|]. split; [|by right].
    split; [done| | | |autorewrite with cmem; lia].
    + by rewrite arr_app, arr_cons, arr_nil, app_nil_r, blen_app.
    + by apply Forall_app_2; [|constructor].
    + apply sorted_insert; rewrite ?app_nil_r; [done| |done].
      eapply Forall_impl; [exact Hr|]. intros x [Hx1 Hx2].
      destruct He as [->|[->| ->]]; unfold in_sint in *; lia.
Qed.

Lemma add_in_place enc iset l1 l2 v :
  rep enc iset (l1 ++ l2) -> in_sint (8 * enc) v -> (blen (l1 ++ l2) + 1) * 8 < 2 ^ 32 ->
  Forall (fun x => x < v) l1 -> Forall (Z.lt v) l2 ->
  exists iset', (len ← length_ e iset;
      s1 ← intsetResize e indet iset (uint 32 (len + 1));
      s2 ← (if blen l1 <? len then intsetMoveTail e s1 (blen l1) (uint 32 (blen l1 + 1)) else Some s1);
      s3 ← _intsetSet e s2 (blen l1) v;
      s4 ← set_length e s3 (uint 32 (len + 1));
      Some (s4, true)) = Some (iset', true) /\ rep enc iset' (l1 ++ v :: l2).
Proof.
  intros Hrep Hv Hn Hl1 Hl2. rewrite (length_rep e enc iset (l1 ++ l2)) by done.
  cbn [mbind option_bind]. destruct Hrep as [He -> Hr Hs Hsz]. autorewrite with cmem in *.
  pose proof (blen_nonneg l1). pose proof (blen_nonneg l2).
  rewrite !(uint_small 32) by (unfold in_uint; lia). rewrite arr_app.
  destruct (resize_grow enc (blen l1 + blen l2) (arr enc l1 ++ arr enc l2) (blen l1 + blen l2 + 1))
    as (t & -> & Ht); [done|lia| |].
  { rewrite blen_app, !blen_arr by done. destruct He as [->|[->| ->]]; lia. }
  rewrite blen_app, !blen_arr in Ht by done. cbn [mbind option_bind].
  set (n := blen l1 + blen l2) in *.
  assert (exists t1, blen t1 = enc /\
    (if blen l1 <? n then intsetMoveTail e (hdr enc n ++ (arr enc l1 ++ arr enc l2) ++ t) (blen l1) (blen l1 + 1)
     else Some (hdr enc n ++ (arr enc l1 ++ arr enc l2) ++ t))
    = Some (hdr enc n ++ arr enc l1 ++ t1 ++ arr enc l2)) as (t1 & Ht1 & ->).
  { bdestr (blen l1 <? n).
    - destruct (split_blen (arr enc l2 ++ t) enc) as (t1 & t2 & Hsp & Ht1).
      { rewrite blen_app, blen_arr by done. destruct He as [->|[->| ->]]; lia. }
      pose proof (f_equal blen Hsp) as Hl. rewrite !blen_app, blen_arr in Hl by done.
      exists t1. split; [done|].
      rewrite (move_tail enc n (arr enc l1 ++ t1) _ t2 [] (arr enc l2)).
      + by rewrite app_nil_r, <- !app_assoc.
      + done.
      + lia.
      + lia.
      + lia.
      + rewrite app_nil_r, <- app_assoc, <- Hsp.
        apply bread_app; rewrite blen_arr by done; lia.
      + rewrite blen_app, blen_arr by done. lia.
      + lia.
      + by rewrite app_nil_r, <- !app_assoc, Hsp.
    - assert (l2 = []) as -> by (apply blen_0; lia).
      exists t. unfold n in *. rewrite blen_nil in *. rewrite arr_nil, !app_nil_r. split; [lia|done]. }
  cbn [mbind option_bind]. rewrite set_elem; [|done|lia|by rewrite blen_arr|done].
  cbn [mbind option_bind]. rewrite set_length_hdr by (unfold in_uint; lia).
  eexists. split; [done|]. split; [done| | | |autorewrite with cmem; lia].
  - rewrite arr_app, arr_cons. autorewrite with cmem. do 2 f_equal. lia.
  - apply Forall_app in Hr as [??]. apply Forall_app; split; [done|by constructor].
  - by apply sorted_insert.
Qed.

Lemma remove_in_place enc iset l1 x l2 :
  rep enc iset (l1 ++ x :: l2) ->
  exists iset', (len ← length_ e iset;
      s1 ← (if blen l1 <? uint 32 (len - 1)
            then intsetMoveTail e iset (uint 32 (blen l1 + 1)) (blen l1) else Some iset);
      s2 ← intsetResize e indet s1 (uint 32 (len - 1));
      s3 ← set_length e s2 (uint 32 (len - 1));
      Some (s3, true)) = Some (iset', true) /\ rep enc iset' (l1 ++ l2).
Proof.
  intros Hrep. rewrite (length_rep e enc iset (l1 ++ x :: l2)) by done.
  cbn [mbind option_bind]. destruct Hrep as [He -> Hr Hs Hsz]. autorewrite with cmem in *.
  pose proof (blen_nonneg l1). pose proof (blen_nonneg l2).
  rewrite !(uint_small 32) by (unfold in_uint; lia). rewrite arr_app, arr_cons.
  set (n := blen l1 + (1 + blen l2)) in *.
  assert (exists t1,
    (if blen l1 <? n - 1 then intsetMoveTail e (hdr enc n ++ arr enc l1 ++ le_bytes (Z.to_nat enc) x ++ arr enc l2) (blen l1 + 1) (blen l1)
     else Some (hdr enc n ++ arr enc l1 ++ le_bytes (Z.to_nat enc) x ++ arr enc l2))
    = Some (hdr enc n ++ (arr enc l1 ++ arr enc l2) ++ t1)) as (t1 & ->).
  { assert (Z.of_nat (Z.to_nat enc) = enc) as Hk by (destruct He as [->|[->| ->]]; done).
    bdestr (blen l1 <? n - 1).
    - destruct (split_blen (le_bytes (Z.to_nat enc) x ++ arr enc l2) (blen l2 * enc)) as (b & c & Hsp & Hb).
      { rewrite blen_app, blen_arr, blen_le_bytes by done. destruct He as [->|[->| ->]]; lia. }
      exists c. rewrite <- (app_assoc (arr enc l1)).
      apply (move_tail enc n (arr enc l1) _ b c (arr enc l2)).
      + done.
      + lia.
      + lia.
      + lia.
      + rewrite <- Hsp, (app_assoc (arr enc l1)).
        apply bread_suffix; rewrite ?blen_app, ?blen_arr, ?blen_le_bytes by done; lia.
      + by apply blen_arr.
      + unfold n. lia.
      + by rewrite <- Hsp.
    - assert (l2 = []) as -> by (apply blen_0; lia).
      exists (le_bytes (Z.to_nat enc) x). by rewrite arr_nil, !app_nil_r. }
  cbn [mbind option_bind]. rewrite resize_shrink; [|done| |].
  - cbn [mbind option_bind]. rewrite set_length_hdr by (unfold in_uint; lia).
    eexists. split; [done|]. split; [done| | | |autorewrite with cmem; lia].
    + rewrite arr_app. autorewrite with cmem. do 2 f_equal. lia.
    + apply Forall_app in Hr as [? Hr]. inv Hr. by apply Forall_app.
    + apply StronglySorted_app_2 in Hs as (?&Hs2&H3). inv Hs2.
      apply StronglySorted_app_2. split_and!; [done|done|].
      eapply Forall_impl; [exact H3|]. intros y Hy. by inv Hy.
  - rewrite blen_app, !blen_arr by done. lia.
  - destruct He as [->|[->| ->]]; lia.
Qed.
End Updates.

(** ** The set an intset stands for *)

Definition repr (iset : bytes) (X : gset Z) : Prop :=
  exists enc l, rep enc iset l /\ X = list_to_set l.

Lemma sorted_NoDup l : StronglySorted Z.lt l -> NoDup l.
Proof.
  induction 1 as [|x l Hs IH Hx]; constructor; [|done].
  intros Hin. rewrite Forall_forall in Hx. specialize (Hx _ Hin). lia.
Qed.

Lemma repr_size iset (X : gset Z) enc l :
  rep enc iset l -> X = list_to_set l -> blen l = Z.of_nat (size X).
Proof.
  intros Hrep ->. rewrite size_list_to_set by by eapply sorted_NoDup, rep_sorted. done.
Qed.

(** C19: [intsetAdd] inserts into the set an intset stands for, whatever the
    byte order of the host and whatever bytes the allocator returns; it stays
    inside the allocation and reports whether the element was new. *)
Theorem intsetAdd_refines e indet iset X v :
  repr iset X -> in_sint 64 v -> (Z.of_nat (size X) + 1) * 8 < 2 ^ 32 ->
  exists iset', intsetAdd e indet iset v = Some (iset', bool_decide (v ∉ X)) /\
    repr iset' ({[v]} ∪ X).
Proof.
  intros (enc & l & Hrep & HX) Hv Hn. pose proof (rep_enc _ _ _ Hrep) as He.
  rewrite <- (repr_size iset X enc l) in Hn by done. subst X.
  unfold intsetAdd. rewrite (encoding_rep e enc iset l) by done. cbn [mbind option_bind].
  assert (forall l1 l2, l = l1 ++ l2 -> list_to_set (l1 ++ v :: l2) =@{gset Z} {[v]} ∪ list_to_set l) as Hset.
  { intros l1 l2 ->. rewrite !list_to_set_app_L, list_to_set_cons. clear. set_solver. }
  bdestr (_intsetValueEncoding v >? enc).
  - destruct (add_upgrade e indet enc iset l v) as (iset' & l' & -> & Hrep' & Hl'); [done|done|done|lia|].
    cbn [mbind option_bind]. exists iset'. split.
    + do 2 f_equal. symmetry. apply bool_decide_eq_true. intros Hin%elem_of_list_to_set.
      pose proof (rep_range _ _ _ Hrep) as Hr. rewrite Forall_forall in Hr. apply Hr in Hin.
      apply value_encoding_range in Hin; [lia|done|done].
    + eexists _, _. split; [done|]. symmetry. destruct Hl' as [->| ->].
      * by apply (Hset [] l).
      * rewrite (Hset l []); [done|]. by rewrite app_nil_r.
  - destruct (intsetSearch_ok e enc iset l v Hrep) as ([found pos] & -> & Hok).
    cbn [mbind option_bind]. pose proof (search_ok_mem _ _ _ Hok) as Hmem. cbn in Hmem.
    destruct found.
    + exists iset. split.
      * do 2 f_equal. symmetry. apply bool_decide_eq_false. rewrite elem_of_list_to_set. intros Hni.
        by apply Hni, Hmem.
      * exists enc, l. split; [done|]. apply subseteq_union_1_L, singleton_subseteq_l, elem_of_list_to_set, Hmem. done.
    + destruct Hok as (l1 & l2 & -> & Hpos & Hl1 & Hl2). cbn in Hpos. subst pos.
      destruct (add_in_place e indet enc iset l1 l2 v) as (iset' & -> & Hrep'); try done.
      { apply value_encoding_range; [done|done|lia]. }
      exists iset'. split; [|by exists enc, (l1 ++ v :: l2); rewrite Hset].
      do 2 f_equal. symmetry. apply bool_decide_eq_true. rewrite elem_of_list_to_set.
      intros Hin%Hmem. done.
Qed.

(** A two-element intset of 16-bit elements. *)
Lemma sample_repr : repr (hdr 2 2 ++ arr 2 [-5; 7]) {[-5; 7]}.
Proof.
  exists 2, [-5; 7]. split; [|by vm_compute].
  split; [by left|done|by repeat constructor|by repeat constructor|done].
Qed.

Lemma intsetAdd_refines_witness : exists iset',
  intsetAdd LITTLE_ENDIAN (fun _ => 170) (hdr 2 2 ++ arr 2 [-5; 7]) 70000 = Some (iset', true) /\
  repr iset' ({[70000]} ∪ {[-5; 7]}).
Proof.
  destruct (intsetAdd_refines LITTLE_ENDIAN (fun _ => 170) _ {[-5; 7]} 70000 sample_repr) as (i & Hi & Hr);
    [done|by vm_compute|]. exists i. split; [|exact Hr]. rewrite Hi. by vm_compute.
Defined.

(** [intsetRemove] deletes from the set an intset stands for and reports
    whether the element was present. *)
Theorem intsetRemove_refines e indet iset X v :
  repr iset X -> in_sint 64 v ->
  exists iset', intsetRemove e indet iset v = Some (iset', bool_decide (v ∈ X)) /\
    repr iset' (X ∖ {[v]}).
Proof.
  intros (enc & l & Hrep & ->) Hv. pose proof (rep_enc _ _ _ Hrep) as He.
  unfold intsetRemove. rewrite (encoding_rep e enc iset l) by done. cbn [mbind option_bind].
  assert (v ∉ l -> exists iset', Some (iset, false) = Some (iset', bool_decide (v ∈@{gset Z} list_to_set l)) /\
    repr iset' (list_to_set l ∖ {[v]})) as Habs.
  { intros Hni. exists iset. split.
    - do 2 f_equal. symmetry. apply bool_decide_eq_false. by rewrite elem_of_list_to_set.
    - exists enc, l. split; [done|]. set_solver. }
  bdestr (_intsetValueEncoding v <=? enc).
  - destruct (intsetSearch_ok e enc iset l v Hrep) as ([found pos] & -> & Hok).
    cbn [mbind option_bind]. pose proof (search_ok_mem _ _ _ Hok) as Hmem. cbn in Hmem.
    destruct found; [|apply Habs; by rewrite <- Hmem].
    destruct Hok as (i & Hpos & Hi). cbn in Hpos.
    apply list_elem_of_split_length in Hi as (l1 & l2 & -> & ->).
    fold (blen l1) in Hpos. subst pos.
    destruct (remove_in_place e indet enc iset l1 v l2) as (iset' & -> & Hrep'); [done|].
    exists iset'. split.
    + do 2 f_equal. symmetry. apply bool_decide_eq_true, elem_of_list_to_set, Hmem. done.
    + eexists _, _. split; [done|].
      assert (v ∉ l1 ++ l2) as Hni.
      { apply rep_sorted, sorted_NoDup in Hrep.
        apply (NoDup_Permutation_proper _ _ (Permutation_middle l1 l2 v)) in Hrep. by inv Hrep. }
      rewrite list_to_set_app_L, list_to_set_cons, list_to_set_app_L.
      rewrite elem_of_app in Hni. set_solver.
  - apply Habs. intros Hin. pose proof (rep_range _ _ _ Hrep) as Hr.
    rewrite Forall_forall in Hr. apply Hr in Hin.
    apply value_encoding_range in Hin; [lia|done|done].
Qed.

Lemma intsetRemove_refines_witness : exists iset',
  intsetRemove BIG_ENDIAN (fun _ => 170) (hdr 2 2 ++ arr 2 [-5; 7]) 7 = Some (iset', true) /\
  repr iset' ({[-5; 7]} ∖ {[7]}).
Proof.
  destruct (intsetRemove_refines BIG_ENDIAN (fun _ => 170) _ {[-5; 7]} 7 sample_repr) as (i & Hi & Hr);
    [done|]. exists i. split; [|exact Hr]. rewrite Hi. by vm_compute.
Defined.

Lemma intsetNew_repr e indet : exists iset, intsetNew e indet = Some iset /\ repr iset ∅.
Proof.
  unfold intsetNew. destruct (brealloc_grow indet [] sizeof_intset) as (t & -> & Ht); [done|].
  unfold sizeof_intset in Ht. rewrite blen_nil in Ht. rewrite app_nil_l.
  destruct (split_blen t 4) as (a & b & -> & Ha); [lia|]. rewrite blen_app in Ht.
  unfold set_encoding. pose proof (field_store e [] a INTSET_ENC_INT16 b 0) as Hf.
  rewrite !app_nil_l in Hf. rewrite Hf by done. cbn [mbind option_bind].
  unfold set_length. pose proof (field_store e (le_bytes 4 INTSET_ENC_INT16) b 0 [] 4) as Hg.
  rewrite !app_nil_r in Hg. rewrite Hg; [|by rewrite blen_le_bytes|lia|done].
  eexists; split; [done|]. exists 2, []. split; [|done].
  split; [by left|by rewrite app_nil_r|constructor|constructor|done].
Qed.

(** Membership, cardinality, order and blob size of an intset built by
    the operations are those of the set it stands for: a search never leaves
    the array and terminates, [intsetGet] enumerates the elements in strictly
    increasing order, and [intsetBlobLen] is the size of the allocation. *)
Theorem intset_observers e iset X :
  repr iset X ->
  (forall v, in_sint 64 v -> intsetFind e iset v = Some (bool_decide (v ∈ X))) /\
  intsetLen e iset = Some (Z.of_nat (size X)) /\
  intsetBlobLen e iset = Some (blen iset) /\
  exists l, X = list_to_set l /\ StronglySorted Z.lt l /\
    forall i, in_uint 32 i -> intsetGet e iset i = Some (l !! Z.to_nat i).
Proof.
  intros (enc & l & Hrep & HX). pose proof (repr_size iset X enc l Hrep HX) as Hsz.
  pose proof (length_rep e _ _ _ Hrep) as Hlen. split_and!.
  - intros v Hv. rewrite (intsetFind_rep e enc iset l) by done. f_equal.
    apply bool_decide_ext. subst X. by rewrite elem_of_list_to_set.
  - unfold intsetLen. by rewrite Hlen, Hsz.
  - unfold intsetBlobLen. rewrite Hlen, (encoding_rep e enc iset l) by done.
    destruct Hrep as [He -> Hr Hs Hn]. cbn [mbind option_bind].
    rewrite blen_app, blen_hdr, blen_arr by done. done.
  - exists l. split; [done|]. split; [by destruct Hrep|]. intros i Hi. unfold in_uint in Hi.
    unfold intsetGet. rewrite Hlen. cbn [mbind option_bind]. bdestr (i <? blen l).
    + destruct (lookup_lt_is_Some_2 l (Z.to_nat i)) as [x Hx]; [unfold blen in *; lia|].
      rewrite Hx, <- (Z2Nat.id i) by lia. by rewrite (_intsetGet_rep e enc iset l _ x).
    + rewrite lookup_ge_None_2; [done|]. unfold blen in *. lia.
Qed.

Lemma intset_observers_witness :
  intsetFind LITTLE_ENDIAN (hdr 2 2 ++ arr 2 [-5; 7]) 7 = Some (bool_decide (7 ∈ ({[-5; 7]} : gset Z))).
Proof.
  destruct (intset_observers LITTLE_ENDIAN _ {[-5; 7]} sample_repr) as (Hf & _). by apply Hf.
Defined.

(** ** Validation of untrusted blobs *)

Lemma blob_split enc n b :
  enc_ok enc -> is_bytes b -> blen b = Z.of_nat n * enc ->
  exists l, b = arr enc l /\ length l = n /\ Forall (in_sint (8 * enc)) l.
Proof.
  intros He. revert b. induction n as [|n IH]; intros b Hb Hl.
  - exists []. rewrite (blen_0 b) by lia. done.
  - destruct (split_blen b enc) as (x & c & -> & Hx).
    { destruct He as [->|[->| ->]]; lia. }
    apply Forall_app in Hb as [Hbx Hbc]. rewrite blen_app in Hl.
    destruct (IH c) as (l & -> & Hn & Hr); [done|lia|].
    exists (sint (8 * enc) (le_val x) :: l). split; [|split; [simpl; lia|]].
    + rewrite arr_cons. f_equal.
      assert (Z.to_nat enc = length x) as Hk by (unfold blen in Hx; lia).
      rewrite <- (le_bytes_le_val x) at 1 by done. rewrite Hk.
      apply le_bytes_mod. fold (blen x). rewrite <- Hx, sint_mod; [done|].
      pose proof (blen_nonneg x). lia.
    + constructor; [|done]. apply sint_range. destruct He as [->|[->| ->]]; lia.
Qed.

Lemma validate_loop_ok e enc iset l1 x l2 :
  layout enc iset (l1 ++ x :: l2) ->
  validate_loop e (length l2) iset (blen l1 + 1) x = Some (bool_decide (StronglySorted Z.lt (x :: l2))).
Proof.
  revert l1 x. induction l2 as [|y l2 IH]; intros l1 x Hrep; cbn [validate_loop length].
  - by rewrite bool_decide_eq_true_2 by repeat constructor.
  - assert (_intsetGet e iset (blen l1 + 1) = Some y) as ->.
    { rewrite <- (_intsetGet_layout e enc iset (l1 ++ x :: y :: l2) (S (length l1))).
      - f_equal. unfold blen. lia.
      - done.
      - rewrite lookup_app_r by lia. by replace (S (length l1) - length l1)%nat with 1%nat by lia. }
    cbn [mbind option_bind].
    bdestr (y <=? x).
    + f_equal. symmetry. apply bool_decide_eq_false. intros H. inv H. inv H3. lia.
    + specialize (IH (l1 ++ [x]) y). rewrite <- app_assoc, blen_app, blen_cons, blen_nil in IH.
      rewrite <- Z.add_assoc. rewrite Z.add_0_r in IH. rewrite <- Z.add_assoc in IH.
      rewrite IH by done. f_equal. apply bool_decide_ext. split.
      * intros H. constructor; [done|]. inv H. constructor; [done|].
        eapply Forall_impl; [exact H3|]. cbn. lia.
      * intros H. by inv H.
Qed.

Lemma arr_inj enc l l' :
  enc_ok enc -> Forall (in_sint (8 * enc)) l -> Forall (in_sint (8 * enc)) l' ->
  length l = length l' -> arr enc l = arr enc l' -> l = l'.
Proof.
  intros He Hl. revert l'. induction Hl as [|x l Hx Hl IH]; intros l' Hl' Hn Harr.
  - by destruct l'.
  - destruct Hl' as [|y l' Hy Hl']; [done|]. rewrite !arr_cons in Harr.
    apply app_inj_1 in Harr as [Hxy Harr]; [|by rewrite !length_le_bytes].
    f_equal; [|apply IH; [done|by injection Hn|done]].
    assert (8 * Z.of_nat (Z.to_nat enc) = 8 * enc /\ (0 < Z.to_nat enc)%nat) as [Hk Hk0]
      by (destruct He as [->|[->| ->]]; lia).
    rewrite <- (sint_le_bytes (Z.to_nat enc) x), <- (sint_le_bytes (Z.to_nat enc) y) by (rewrite ?Hk; done).
    by rewrite Hxy.
Qed.

Lemma layout_inj enc iset l l' : layout enc iset l -> layout enc iset l' -> l = l'.
Proof.
  intros [He -> Hr Hn] [_ Heq Hr' Hn'].
  pose proof (blen_nonneg l). pose proof (blen_nonneg l').
  apply app_inj_1 in Heq as [Hh Ha]; [|by unfold hdr; rewrite !length_app, !length_le_bytes].
  apply app_inj_1 in Hh as [_ Hh]; [|by rewrite !length_le_bytes].
  apply le_bytes_inj in Hh; [|unfold in_uint; lia|unfold in_uint; lia].
  apply (arr_inj enc); try done. unfold blen in Hh. lia.
Qed.

(** C32: deep validation accepts a blob exactly when it is the serialization
    of a non-empty strictly increasing sequence, and it decides this without
    reading outside the blob, whatever bytes the blob holds. *)
Theorem intsetValidateIntegrity_exact e iset :
  is_bytes iset -> blen iset < 2 ^ 30 ->
  exists b, intsetValidateIntegrity e iset (blen iset) true = Some b /\
    (b = true <-> exists enc l, rep enc iset l /\ l <> []).
Proof.
  intros Hb Hn. unfold intsetValidateIntegrity.
  assert (forall enc l, rep enc iset l -> layout enc iset l /\ blen iset = 8 + blen l * enc /\
    encoding e iset = Some enc /\ length_ e iset = Some (blen l)) as Hinv.
  { intros enc l Hrep. split_and!; [by apply rep_layout| |by eapply encoding_rep|by apply (length_rep e enc)].
    destruct Hrep as [He -> Hr Hs Hsz]. by rewrite blen_app, blen_hdr, blen_arr. }
  bdestr (blen iset <? sizeof_intset); unfold sizeof_intset in *.
  { eexists; split; [done|]. split; [done|]. intros (enc & l & (?&Hl&?)%Hinv & _).
    pose proof (blen_nonneg l). destruct (layout_enc _ _ _ H) as [->|[->| ->]]; lia. }
  destruct (split_blen iset 4) as (h1 & r & -> & Hh1); [lia|]. rewrite blen_app in E.
  destruct (split_blen r 4) as (h2 & c & -> & Hh2); [lia|].
  apply Forall_app in Hb as [Hb1 [Hb2 Hbc]%Forall_app].
  pose proof (le_val_bound h1 Hb1) as Hv1. pose proof (le_val_bound h2 Hb2) as Hv2.
  rewrite Hh1 in Hv1. rewrite Hh2 in Hv2.
  assert (h1 ++ h2 ++ c = hdr (le_val h1) (le_val h2) ++ c) as Heq.
  { unfold hdr. rewrite <- app_assoc. unfold blen in Hh1, Hh2.
    rewrite !le_bytes_le_val_len by (done || lia). done. }
  rewrite Heq in *. set (enc := le_val h1) in *. set (count := le_val h2) in *.
  rewrite encoding_hdr, length_hdr by done. cbn [mbind option_bind].
  rewrite blen_app, blen_hdr in *.
  assert (forall b : bool, (b = true <-> exists l, l <> [] /\ rep enc (hdr enc count ++ c) l) ->
    exists b', Some b = Some b' /\ (b' = true <-> exists enc0 l, rep enc0 (hdr enc count ++ c) l /\ l <> [])) as Hfin.
  { intros b Hbb. exists b. split; [done|]. rewrite Hbb. split.
    - intros (l & ? & ?). eauto.
    - intros (enc0 & l & Hrep & ?). exists l. split; [done|].
      destruct (Hinv _ _ Hrep) as (_ & _ & He0 & _). rewrite encoding_hdr in He0 by done.
      by simplify_eq. }
  bcase.
  { apply Hfin. split; [done|]. intros (l & _ & Hrep). destruct (rep_enc _ _ _ Hrep) as [?|[?|?]];
    unfold INTSET_ENC_INT64, INTSET_ENC_INT32, INTSET_ENC_INT16 in *; lia. }
  assert (enc_ok enc) as He.
  { unfold enc_ok, INTSET_ENC_INT64, INTSET_ENC_INT32, INTSET_ENC_INT16 in *. lia. }
  assert (forall l, rep enc (hdr enc count ++ c) l -> blen l = count) as Hcount.
  { intros l Hrep. destruct (Hinv _ _ Hrep) as (_ & _ & _ & Hl). rewrite length_hdr in Hl by done. by simplify_eq. }
  bcase.
  { apply Hfin. split; [done|]. intros (l & _ & Hrep). destruct (Hinv _ _ Hrep) as (_ & Hl & _).
    rewrite (Hcount l Hrep) in Hl. lia. }
  bcase.
  { apply Hfin. split; [done|]. intros (l & Hne & Hrep). apply Hcount in Hrep.
    destruct Hne. apply blen_0. lia. }
  cbn [negb]. destruct (blob_split enc (Z.to_nat count) c) as (l & -> & Hl & Hr); [done|done|lia|].
  assert (count = blen l) as Hcl by (unfold blen; lia). rewrite Hcl in *.
  assert (layout enc (hdr enc (blen l) ++ arr enc l) l) as Hlay.
  { split; [done|done|done|]. destruct He as [?|[?|?]]; lia. }
  destruct l as [|x l]; [done|].
  rewrite (_intsetGet_layout e enc _ (x :: l) 0 x Hlay eq_refl : _intsetGet e _ 0 = _).
  cbn [mbind option_bind]. rewrite blen_cons.
  replace (Z.to_nat (1 + blen l - 1)) with (length l) by (unfold blen; lia).
  rewrite <- blen_cons with (x := x).
  rewrite (validate_loop_ok e enc _ [] x l) by done.
  apply Hfin. rewrite bool_decide_eq_true. split.
  - intros Hs. exists (x :: l). split; [done|]. destruct Hlay. by split.
  - intros (l' & _ & Hrep). pose proof (Hcount l' Hrep) as Hc'.
    pose proof (layout_inj enc _ _ _ Hlay (rep_layout _ _ _ Hrep)) as ->. by destruct Hrep.
Qed.

Lemma intsetValidateIntegrity_exact_witness :
  exists b, intsetValidateIntegrity LITTLE_ENDIAN (hdr 2 2 ++ arr 2 [7; -5]) 12 true = Some b /\
    (b = true <-> exists enc l, rep enc (hdr 2 2 ++ arr 2 [7; -5]) l /\ l <> []).
Proof.
  apply (intsetValidateIntegrity_exact LITTLE_ENDIAN (hdr 2 2 ++ arr 2 [7; -5])); [|done].
  by repeat constructor.
Defined.

End Intset.
