(* ===== verification/Util.v ===== *)
(** util.c: decimal printing and parsing of 64-bit integers, and glob-style
    pattern matching. *)

From S2P Require Import Prelude.

Module Util.

Definition LLONG_MAX : Z := 2 ^ 63 - 1.
Definition LLONG_MIN : Z := - 2 ^ 63.
Definition ULLONG_MAX : Z := 2 ^ 64 - 1.

Abbreviation b2z b := (Z.b2z b) (only parsing).

(** ** Integers to strings *)

(** [digits10] calls itself on [v / 10^12]; [fuel] bounds the calls. *)
Fixpoint digits10_rec (fuel : nat) (v : Z) : option Z :=
  match fuel with
  | O => None
  | S fuel =>
      if v <? 10 then Some 1
      else if v <? 100 then Some 2
      else if v <? 1000 then Some 3
      else if v <? 1000000000000 then
        if v <? 100000000 then
          if v <? 1000000 then
            if v <? 10000 then Some 4
            else Some (5 + b2z (v >=? 100000))
          else Some (7 + b2z (v >=? 10000000))
        else if v <? 10000000000 then Some (9 + b2z (v >=? 1000000000))
        else Some (11 + b2z (v >=? 100000000000))
      else n ← digits10_rec fuel (v / 1000000000000); Some (12 + n)
  end.

(** A 64-bit value is below 10^24: one nested call at most. *)
Definition digits10 (v : Z) : option Z := digits10_rec 2 v.

Definition sdigits10 (v : Z) : option Z :=
  if v <? 0 then
    let uv := if negb (v =? LLONG_MIN) then uint 64 (- v) else LLONG_MAX + 1 in
    n ← digits10 uv; Some (n + 1)
  else digits10 v.

Definition digits : bytes := (str
  "00010203040506070809101112131415161718192021222324252627282930313233343536373839404142434445464748495051525354555657585960616263646566676869707172737475767778798081828384858687888990919293949596979899"%string ++ [0]).

(** [while (value >= 100) { ... }] *)
Fixpoint ll2string_loop (fuel : nat) (dst : bytes) (value next : Z) : option (bytes * Z * Z) :=
  match fuel with
  | O => None
  | S fuel =>
      if value >=? 100 then
        let i := (value mod 100) * 2 in
        let value := value / 100 in
        d1 ← bget digits (i + 1);
        dst ← bset dst next d1;
        d0 ← bget digits i;
        dst ← bset dst (uint 32 (next - 1)) d0;
        ll2string_loop fuel dst value (uint 32 (next - 2))
      else Some (dst, value, next)
  end.

(** A 64-bit value has at most ten pairs of digits. *)
Definition ll2string_fuel : nat := 11.

(** Returns the buffer and the number of characters, 0 on a short buffer. *)
Definition ll2string (dst : bytes) (dstlen svalue : Z) : option (bytes * Z) :=
  let '(value, negative) :=
    if svalue <? 0 then
      if negb (svalue =? LLONG_MIN) then (uint 64 (- svalue), 1) else (LLONG_MAX + 1, 1)
    else (svalue, 0) in
  n ← digits10 value;
  let length := uint 32 (n + negative) in
  if length >=? dstlen then Some (dst, 0)
  else
    let next := length in
    dst ← bset dst next 0;
    '(dst, value, next) ← ll2string_loop ll2string_fuel dst value (uint 32 (next - 1));
    dst ← (if value <? 10 then bset dst next (48 + value)
           else
             let i := value * 2 in
             d1 ← bget digits (i + 1);
             dst ← bset dst next d1;
             d0 ← bget digits i;
             bset dst (uint 32 (next - 1)) d0);
    dst ← (if negative =? 1 then bset dst 0 45 else Some dst);
    Some (dst, length).

(** ** Strings to integers *)

Definition isdig (c : Z) : bool := (48 <=? c) && (c <=? 57).

(** The digit loop: [Some None] is an overflow, else [v] and [plen]. *)
Fixpoint string2ll_loop (fuel : nat) (s : bytes) (slen v plen : Z) : option (option (Z * Z)) :=
  match fuel with
  | O => None
  | S fuel =>
      if plen <? slen then
        c ← bget s plen;
        if isdig c then
          if v >? ULLONG_MAX / 10 then Some None
          else
            let v := v * 10 in
            if v >? ULLONG_MAX - (c - 48) then Some None
            else string2ll_loop fuel s slen (v + (c - 48)) (plen + 1)
        else Some (Some (v, plen))
      else Some (Some (v, plen))
  end.

(** [Some (Some v)] is the return value 1 with [*value = v], [Some None] the
    return value 0. *)
Definition string2ll (s : bytes) (slen : Z) : option (option Z) :=
  let plen := 0 in
  if plen =? slen then Some None
  else
    c0 ← bget s 0;
    if (slen =? 1) && (c0 =? 48) then Some (Some 0)
    else
      let negative := c0 =? 45 in
      let plen := if negative then plen + 1 else plen in
      if negative && (plen =? slen) then Some None
      else
        c ← bget s plen;
        if (49 <=? c) && (c <=? 57) then
          r ← string2ll_loop (S (Z.to_nat slen)) s slen (c - 48) (plen + 1);
          match r with
          | None => Some None
          | Some (v, plen) =>
              if plen <? slen then Some None
              else if negative then
                if v >? - (LLONG_MIN + 1) + 1 then Some None
                else Some (Some (sint 64 (- v)))
              else if v >? LLONG_MAX then Some None
              else Some (Some v)
          end
        else Some None.

(** [long] is 64 bits wide. *)
Definition string2l (s : bytes) (slen : Z) : option (option Z) :=
  r ← string2ll s slen;
  match r with
  | None => Some None
  | Some llval =>
      if (llval <? LLONG_MIN) || (llval >? LLONG_MAX) then Some None else Some (Some llval)
  end.

(** ** Decimal notation *)

(** The value of a digit string read after [a]. *)
Definition dec_acc (a : Z) (s : bytes) : Z := foldl (fun a d => 10 * a + (d - 48)) a s.
Definition dec_val (s : bytes) : Z := dec_acc 0 s.

Abbreviation all_digits := (Forall (fun c => 48 <= c <= 57)) (only parsing).

(** [s] is the canonical decimal notation of [v >= 0]. *)
Definition udecimal (s : bytes) (v : Z) : Prop :=
  all_digits s /\ dec_val s = v /\
  (length s = 1%nat \/ exists d s', s = d :: s' /\ d <> 48).

(** [s] is the canonical decimal notation of [v]. *)
Definition decimal (s : bytes) (v : Z) : Prop :=
  if v <? 0 then exists s', s = 45 :: s' /\ udecimal s' (- v) else udecimal s v.

(** [v] has [n] decimal digits. *)
Definition ndigits (v n : Z) : Prop :=
  0 < n /\ 0 <= v < 10 ^ n /\ (n = 1 \/ 10 ^ (n - 1) <= v).

Lemma pow10_pos n : 0 <= n -> 0 < 10 ^ n.
Proof. intros. apply Z.pow_pos_nonneg; lia. Qed.

Lemma ndigits_unique v n m : ndigits v n -> ndigits v m -> n = m.
Proof.
  assert (forall n m, ndigits v n -> ndigits v m -> n < m -> False) as H.
  { clear n m. intros n m (Hn & Hv & _) (Hm & _ & [->|H]) Hlt; [lia|].
    pose proof (Z.pow_le_mono_r 10 n (m - 1) ltac:(lia) ltac:(lia)). lia. }
  intros Hn Hm. destruct (Z.lt_trichotomy n m) as [?|[?|?]]; [|done|]; exfalso; eauto.
Qed.

Lemma dec_acc_app a s t : dec_acc a (s ++ t) = dec_acc (dec_acc a s) t.
Proof. apply foldl_app. Qed.

Lemma dec_acc_snoc a s d : dec_acc a (s ++ [d]) = 10 * dec_acc a s + (d - 48).
Proof. by rewrite dec_acc_app. Qed.

Lemma dec_acc_eq a s : dec_acc a s = a * 10 ^ blen s + dec_val s.
Proof.
  unfold dec_val. induction s as [|d s IH] using rev_ind; [change (a = a * 10 ^ 0 + 0); lia|].
  rewrite !dec_acc_snoc, IH, blen_app, Z.pow_add_r by (pose proof (blen_nonneg s); unfold blen; lia).
  change (10 ^ blen [d]) with 10. lia.
Qed.

Lemma dec_val_bound s : all_digits s -> 0 <= dec_val s < 10 ^ blen s.
Proof.
  induction s as [|d s IH] using rev_ind; [done|]. intros [Hs Hd]%Forall_app. inv Hd.
  unfold dec_val in *. rewrite dec_acc_snoc, blen_app, Z.pow_add_r by (unfold blen; lia).
  change (10 ^ blen [d]) with 10. specialize (IH Hs). lia.
Qed.

Lemma dec_acc_mono a s : 0 <= a -> all_digits s -> a <= dec_acc a s.
Proof.
  intros Ha Hs. rewrite dec_acc_eq. pose proof (dec_val_bound s Hs).
  pose proof (pow10_pos (blen s) (blen_nonneg s)). nia.
Qed.

Lemma udecimal_ndigits s v : udecimal s v -> ndigits v (blen s).
Proof.
  intros (Hs & Hv & Hz). pose proof (dec_val_bound s Hs).
  destruct Hz as [H1|(d & s' & -> & Hd)].
  - unfold ndigits, blen in *. rewrite H1 in *. lia.
  - unfold ndigits. rewrite blen_cons in *. pose proof (blen_nonneg s').
    split; [lia|]. split; [lia|]. right. replace (1 + blen s' - 1) with (blen s') by lia.
    inv Hs. subst. unfold dec_val. change (d :: s') with ([d] ++ s'). rewrite dec_acc_app, dec_acc_eq.
    pose proof (dec_val_bound s' H4). cbn [dec_acc foldl].
    pose proof (pow10_pos (blen s') (blen_nonneg _)). nia.
Qed.

Lemma dec_val_inj s t :
  all_digits s -> all_digits t -> length s = length t -> dec_val s = dec_val t -> s = t.
Proof.
  revert t. induction s as [|d s IH] using rev_ind; intros t Hs Ht Hl Hv.
  - by destruct t.
  - destruct t as [|d' t _] using rev_ind; [rewrite length_app in Hl; simpl in Hl; lia|].
    apply Forall_app in Hs as [Hs Hd], Ht as [Ht Hd']. inv Hd. inv Hd'.
    unfold dec_val in *. rewrite !dec_acc_snoc in Hv. rewrite !length_app in Hl. simpl in Hl.
    rewrite (IH t); [|done|done|lia|lia]. do 2 f_equal. lia.
Qed.

Lemma udecimal_unique s t v : udecimal s v -> udecimal t v -> s = t.
Proof.
  intros Hs Ht. pose proof (ndigits_unique _ _ _ (udecimal_ndigits _ _ Hs) (udecimal_ndigits _ _ Ht)) as Hl.
  destruct Hs as (Hs & Hsv & _), Ht as (Ht & Htv & _).
  apply dec_val_inj; [done|done|unfold blen in Hl; lia|congruence].
Qed.

Lemma decimal_unique s t v : decimal s v -> decimal t v -> s = t.
Proof.
  unfold decimal. bcase; [|apply udecimal_unique].
  intros (s' & -> & Hs) (t' & -> & Ht). f_equal. by eapply udecimal_unique.
Qed.

(** ** Printing *)

Lemma digits10_rec_ok v :
  0 <= v < 1000000000000 -> exists n, digits10_rec 1 v = Some n /\ ndigits v n.
Proof.
  intros Hv. cbn [digits10_rec]. unfold ndigits.
  repeat bcase; try lia; eexists; (split; [done|]); unfold Z.b2z;
    rewrite ?Z.geb_leb; repeat bcase; cbn -[Z.lt Z.le]; lia.
Qed.

Lemma digits10_ok v : 0 <= v < 2 ^ 64 -> exists n, digits10 v = Some n /\ ndigits v n.
Proof.
  intros Hv. destruct (Z_lt_le_dec v 1000000000000) as [Hlt|Hge].
  - destruct (digits10_rec_ok v) as (n & Hn & Hd); [lia|]. exists n. split; [|done].
    rewrite <- Hn. unfold digits10. cbn [digits10_rec]. by repeat bcase; try lia.
  - destruct (digits10_rec_ok (v / 1000000000000)) as (n & Hn & H0 & H1 & H2).
    { split; [apply Z.div_pos; lia|apply Z.div_lt_upper_bound; lia]. }
    exists (12 + n). unfold digits10. remember 1%nat as one. cbn [digits10_rec]. subst one.
    bdec. rewrite Hn. split; [done|]. split; [lia|].
    rewrite Z.pow_add_r by lia. split.
    + split; [lia|]. pose proof (Z.mul_succ_div_gt v 1000000000000 ltac:(lia)).
      change (10 ^ 12) with 1000000000000. nia.
    + right. replace (12 + n - 1) with (12 + (n - 1)) by lia. rewrite Z.pow_add_r by lia.
      assert (10 ^ (n - 1) <= v / 1000000000000).
      { destruct H2 as [->|?]; [|done]. apply Z.div_le_lower_bound; simpl; lia. }
      pose proof (Z.mul_div_le v 1000000000000 ltac:(lia)). change (10 ^ 12) with 1000000000000. nia.
Qed.

Lemma digits_table k :
  0 <= k < 100 ->
  bget digits (k * 2) = Some (48 + k / 10) /\ bget digits (k * 2 + 1) = Some (48 + k mod 10).
Proof.
  intros Hk.
  assert (forallb (fun n => let k := Z.of_nat n in
    bool_decide (bget digits (k * 2) = Some (48 + k / 10)) &&
    bool_decide (bget digits (k * 2 + 1) = Some (48 + k mod 10))) (seq 0 100) = true) as H
    by by vm_compute.
  rewrite forallb_forall in H. specialize (H (Z.to_nat k)).
  rewrite in_seq, andb_true_iff, !bool_decide_eq_true in H. rewrite Z2Nat.id in H by lia.
  apply H. lia.
Qed.

Lemma ndigits_div100 v n : 100 <= v -> ndigits v n -> ndigits (v / 100) (n - 2) /\ 3 <= n.
Proof.
  intros Hv (H0 & H1 & H2).
  assert (3 <= n).
  { destruct (Z_lt_le_dec n 3); [|done]. pose proof (Z.pow_le_mono_r 10 n 2 ltac:(lia) ltac:(lia)). lia. }
  destruct H2 as [->|H2]; [lia|]. split; [|done]. split; [lia|].
  replace n with (2 + (n - 2)) in H1 by lia. rewrite Z.pow_add_r in H1 by lia.
  split; [split; [apply Z.div_pos; lia|apply Z.div_lt_upper_bound; lia]|].
  right. replace (n - 1) with (2 + (n - 2 - 1)) in H2 by lia. rewrite Z.pow_add_r in H2 by lia.
  apply Z.div_le_lower_bound; lia.
Qed.

Lemma split_last2 (l : list Z) :
  2 <= blen l -> exists k a b, l = k ++ [a; b] /\ blen k = blen l - 2.
Proof.
  intros H. destruct (split_blen l (blen l - 2)) as (k & r & -> & Hk); [lia|].
  rewrite blen_app in *. destruct r as [|a [|b [|c r]]]; rewrite ?blen_cons, ?blen_nil in *;
    try (pose proof (blen_nonneg r)); try lia. eauto 10.
Qed.

Lemma write_pair A P a b T x y next :
  next = blen A + blen P + 1 -> next < 2 ^ 32 ->
  (d ← bset (A ++ (P ++ [a; b]) ++ T) next y; bset d (uint 32 (next - 1)) x)
  = Some (A ++ P ++ [x; y] ++ T).
Proof.
  intros -> Hn. pose proof (blen_nonneg A). pose proof (blen_nonneg P).
  replace (A ++ (P ++ [a; b]) ++ T) with ((A ++ P ++ [a]) ++ b :: T) by by rewrite <- !app_assoc.
  rewrite bset_app by (autorewrite with cmem; lia). cbn [mbind option_bind].
  rewrite uint_small by (unfold in_uint; lia).
  replace ((A ++ P ++ [a]) ++ y :: T) with ((A ++ P) ++ a :: y :: T) by by rewrite <- !app_assoc.
  rewrite bset_app by (autorewrite with cmem; lia). by rewrite <- app_assoc.
Qed.

Lemma ll2string_loop_ok A T fuel : forall P D value next,
  ndigits value (blen P) -> value < 100 ^ Z.of_nat fuel -> (0 < fuel)%nat ->
  next = blen A + blen P - 1 -> next < 2 ^ 32 -> all_digits D ->
  exists P' D' value' next',
    ll2string_loop fuel (A ++ P ++ D ++ T) value next = Some (A ++ P' ++ D' ++ T, value', next') /\
    ndigits value' (blen P') /\ value' < 100 /\ next' = blen A + blen P' - 1 /\ all_digits D' /\
    dec_acc value D = dec_acc value' D' /\ blen P + blen D = blen P' + blen D'.
Proof.
  induction fuel as [|fuel IH]; intros P D value next Hd Hf Hf0 Hnext Hn HD; [lia|].
  cbn [ll2string_loop]. pose proof (blen_nonneg A) as HA. bdestr (value >=? 100).
  - destruct (ndigits_div100 value (blen P)) as [Hd2 H3]; [lia|done|].
    destruct (split_last2 P) as (P0 & a & b & -> & HP0); [lia|].
    rewrite (blen_app P0) in *. change (blen [a; b]) with 2 in *.
    destruct (digits_table (value mod 100)) as [Ht0 Ht1]; [apply Z.mod_pos_bound; lia|].
    rewrite Ht1. cbn [mbind option_bind].
    pose proof (write_pair A P0 a b (D ++ T) (48 + (value mod 100) / 10) (48 + (value mod 100) mod 10) next) as Hw.
    destruct (bset (A ++ (P0 ++ [a; b]) ++ D ++ T) next (48 + (value mod 100) mod 10)) as [d|] eqn:Hset;
      [|discriminate Hw; lia].
    cbn [mbind option_bind] in *. rewrite Ht0. cbn [mbind option_bind]. rewrite Hw by lia.
    cbn [mbind option_bind].
    rewrite (uint_small 32 (next - 2)) by (pose proof (blen_nonneg P0); unfold in_uint; lia).
    set (x := 48 + (value mod 100) / 10). set (y := 48 + (value mod 100) mod 10).
    assert (48 <= x <= 57 /\ 48 <= y <= 57) as [Hx Hy].
    { subst x y. pose proof (Z.mod_pos_bound value 100 ltac:(lia)) as Hm. clear -Hm. dlia. }
    destruct (IH P0 ([x; y] ++ D) (value / 100) (next - 2)) as (P' & D' & v' & n' & Heq & H4 & H5 & H6 & H7 & H8 & H9).
    + by replace (blen P0) with (blen P0 + 2 - 2) by lia.
    + apply Z.div_lt_upper_bound; [lia|]. replace (Z.of_nat (S fuel)) with (1 + Z.of_nat fuel) in Hf by lia.
      rewrite Z.pow_add_r in Hf by lia. lia.
    + destruct fuel; [simpl in Hf; lia|lia].
    + lia.
    + lia.
    + apply Forall_app; split; [repeat constructor; lia|done].
    + exists P', D', v', n'. rewrite <- Heq, <- !app_assoc. split; [done|]. split_and!; try done.
      * rewrite <- H8. rewrite dec_acc_app. f_equal. cbn [dec_acc foldl]. subst x y.
        pose proof (Z.mod_pos_bound value 100 ltac:(lia)) as Hm. clear -Hm. dlia.
      * rewrite <- H9. autorewrite with cmem. lia.
  - exists P, D, value, next. split; [done|]. split_and!; try done. lia.
Qed.

(** The digits below 100 that the loop leaves. *)
Lemma last_digits_ok A P T value next :
  ndigits value (blen P) -> value < 100 -> next = blen A + blen P - 1 -> next < 2 ^ 32 ->
  exists P', (if value <? 10 then bset (A ++ P ++ T) next (48 + value)
    else d1 ← bget digits (value * 2 + 1); dst ← bset (A ++ P ++ T) next d1;
         d0 ← bget digits (value * 2); bset dst (uint 32 (next - 1)) d0) = Some (A ++ P' ++ T) /\
    udecimal P' value /\ blen P' = blen P.
Proof.
  intros Hd Hv Hnext Hn. pose proof Hd as (H0 & H1 & H2).
  bdestr (value <? 10).
  - assert (blen P = 1) as HP.
    { eapply ndigits_unique; [done|]. split; [lia|]. split; [lia|by left]. }
    destruct P as [|p [|q P]]; [done| |rewrite !blen_cons in HP; pose proof (blen_nonneg P); lia].
    exists [48 + value]. split; [|split; [|done]].
    + apply bset_app. rewrite HP in Hnext. lia.
    + split; [repeat constructor; lia|]. split; [cbn [dec_val dec_acc foldl]; unfold dec_val; cbn; lia|by left].
  - assert (blen P = 2) as HP.
    { eapply ndigits_unique; [done|]. split; [lia|]. split; [lia|right; cbn; lia]. }
    destruct (split_last2 P) as (P0 & a & b & -> & HP0); [lia|].
    assert (P0 = []) as -> by (apply blen_0; lia). rewrite app_nil_l in *.
    destruct (digits_table value) as [Ht0 Ht1]; [lia|]. rewrite Ht1. cbn [mbind option_bind].
    pose proof (write_pair A [] a b T (48 + value / 10) (48 + value mod 10) next) as Hw.
    rewrite !app_nil_l in Hw. rewrite blen_nil in Hw. rewrite Ht0.
    exists [48 + value / 10; 48 + value mod 10].
    split; [rewrite <- Hw by lia; by destruct (bset _ _ _)|]. split; [|done].
    pose proof (Z.div_le_lower_bound value 10 1). pose proof (Z.div_lt_upper_bound value 10 10).
    pose proof (Z.mod_pos_bound value 10). pose proof (Z.div_mod value 10).
    split; [repeat constructor; lia|]. split.
    + unfold dec_val, dec_acc. cbn [foldl]. lia.
    + right. eexists _, _. split; [done|]. lia.
Qed.

Lemma udecimal_acc P D value :
  udecimal P value -> all_digits D -> 0 < value \/ D = [] -> udecimal (P ++ D) (dec_acc value D).
Proof.
  intros (HP & Hv & Hz) HD Hpos. split; [by apply Forall_app|]. split.
  - unfold dec_val in *. by rewrite dec_acc_app, Hv.
  - destruct Hpos as [Hpos| ->]; [|by rewrite app_nil_r].
    destruct Hz as [Hz|(d & s' & -> & Hd)].
    + destruct P as [|d [|]]; try done. right. exists d, D. split; [done|].
      unfold dec_val, dec_acc in Hv. cbn [foldl] in Hv. lia.
    + right. by exists d, (s' ++ D).
Qed.

(** The body of [ll2string] on a buffer with room for the notation and its
    terminator: sign, digit pairs from the right, the last one or two digits. *)
Definition ll2string_body (dst : bytes) (value len negative : Z) : option (bytes * Z) :=
  dst ← bset dst len 0;
  '(dst, value, next) ← ll2string_loop ll2string_fuel dst value (uint 32 (len - 1));
  dst ← (if value <? 10 then bset dst next (48 + value)
         else d1 ← bget digits (value * 2 + 1); dst ← bset dst next d1;
           d0 ← bget digits (value * 2); bset dst (uint 32 (next - 1)) d0);
  dst ← (if negative =? 1 then bset dst 0 45 else Some dst);
  Some (dst, len).

Lemma zero_has_one_digit P D u :
  ndigits u (blen P + blen D) -> ndigits 0 (blen P) -> all_digits D -> u = dec_val D -> D = [].
Proof.
  intros (_ & _ & Hu) (H0 & _ & H1) HD ->. pose proof (blen_nonneg D).
  assert (blen P = 1) as HP.
  { destruct H1 as [?|Hc]; [done|]. pose proof (pow10_pos (blen P - 1) ltac:(lia)). lia. }
  apply blen_0. destruct Hu as [?|Hc]; [lia|]. rewrite HP in Hc.
  replace (1 + blen D - 1) with (blen D) in Hc by lia.
  pose proof (dec_val_bound D HD). lia.
Qed.

Lemma ll2string_digits A P R u next :
  ndigits u (blen P) -> 0 <= u < 2 ^ 64 -> next = blen A + blen P - 1 -> next < 2 ^ 32 ->
  exists s, udecimal s u /\ blen s = blen P /\
    ('(dst, value, next) ← ll2string_loop ll2string_fuel (A ++ P ++ R) u next;
     if value <? 10 then bset dst next (48 + value)
     else d1 ← bget digits (value * 2 + 1); dst ← bset dst next d1;
       d0 ← bget digits (value * 2); bset dst (uint 32 (next - 1)) d0) = Some (A ++ s ++ R).
Proof.
  intros Hd Hu Hnext Hn.
  destruct (ll2string_loop_ok A R ll2string_fuel P [] u next)
    as (P1 & D & u' & next' & Hloop & Hd1 & Hlt & Hnext' & HD & Hacc & Hlen);
    try done; try (unfold ll2string_fuel; cbn; lia).
  rewrite app_nil_l in Hloop. rewrite Hloop. cbn [mbind option_bind].
  rewrite blen_nil, Z.add_0_r in Hlen. change (dec_acc u []) with u in Hacc.
  pose proof (blen_nonneg D).
  destruct (last_digits_ok A P1 (D ++ R) u' next') as (P2 & -> & Hdec & HP2); [done|done|done|lia|].
  exists (P2 ++ D). rewrite blen_app, <- app_assoc. split; [|split; [lia|done]].
  rewrite Hacc. apply udecimal_acc; [done|done|].
  destruct (Z_lt_le_dec 0 u'); [by left|right].
  assert (u' = 0) as -> by (destruct Hd1; lia).
  eapply zero_has_one_digit; [by rewrite <- Hlen|done|done|done].
Qed.

Lemma ll2string_body_ok d R u n (neg : bool) :
  ndigits u n -> 0 <= u < 2 ^ 64 -> n <= 20 -> blen d = n + b2z neg + 1 ->
  exists s, udecimal s u /\ blen s = n /\
    ll2string_body (d ++ R) u (n + b2z neg) (b2z neg)
    = Some ((if neg then 45 :: s else s) ++ 0 :: R, n + b2z neg).
Proof.
  intros Hn Hu Hn20 Hd. pose proof Hn as (Hn0 & _).
  assert (0 <= b2z neg <= 1) as Hb by (destruct neg; cbn; lia).
  destruct (split_blen d (b2z neg)) as (A & d' & -> & HA); [lia|]. rewrite blen_app in Hd.
  destruct (split_blen d' n) as (P & z & -> & HP); [lia|]. rewrite blen_app in Hd.
  destruct z as [|z [|]]; [rewrite blen_nil in Hd; lia| |rewrite !blen_cons in Hd; pose proof (blen_nonneg l); lia].
  unfold ll2string_body.
  replace ((A ++ P ++ [z]) ++ R) with ((A ++ P) ++ z :: R) by by rewrite <- !app_assoc.
  rewrite bset_app by (rewrite blen_app; lia). cbn [mbind option_bind].
  rewrite (uint_small 32) by (unfold in_uint; lia). rewrite <- app_assoc.
  destruct (ll2string_digits A P (0 :: R) u (n + b2z neg - 1)) as (s & Hs & Hl & Hrun);
    [by rewrite HP|done|lia|lia|].
  exists s. split; [done|]. split; [lia|].
  destruct (ll2string_loop _ _ _ _) as [[[dst v] next]|]; [|done]. cbn [mbind option_bind] in *.
  rewrite Hrun. cbn [mbind option_bind].
  destruct neg; cbn [Z.b2z] in *.
  - destruct A as [|x [|]]; [done| |rewrite !blen_cons in HA; pose proof (blen_nonneg l); lia].
    change (1 =? 1) with true. cbv iota.
    by rewrite (bset_app [] x 45 (s ++ 0 :: R) 0 eq_refl : bset ([x] ++ _) 0 45 = _).
  - by apply blen_0 in HA as ->.
Qed.

Lemma magnitude v :
  in_sint 64 v ->
  (if v <? 0 then if negb (v =? LLONG_MIN) then (uint 64 (- v), 1) else (LLONG_MAX + 1, 1)
   else (v, 0)) = (Z.abs v, b2z (v <? 0)).
Proof.
  unfold in_sint, LLONG_MIN, LLONG_MAX. intros Hv.
  repeat bcase; cbn [Z.b2z]; f_equal; try lia. rewrite uint_small by (unfold in_uint; lia). lia.
Qed.

Lemma sdigits10_ok v n :
  in_sint 64 v -> digits10 (Z.abs v) = Some n -> sdigits10 v = Some (n + b2z (v <? 0)).
Proof.
  intros Hv Hn. pose proof (magnitude v Hv) as Hm. unfold sdigits10. revert Hm.
  repeat bcase; intros Hq%(f_equal fst); cbn [fst] in Hq; rewrite Hq, Hn;
    cbn [mbind option_bind Z.b2z]; f_equal; lia.
Qed.

Lemma ll2string_spec dst dstlen v :
  in_sint 64 v -> 0 <= dstlen <= blen dst ->
  exists s, decimal s v /\ sdigits10 v = Some (blen s) /\
    ll2string dst dstlen v =
      if blen s <? dstlen then Some (s ++ 0 :: drop (Z.to_nat (blen s + 1)) dst, blen s)
      else Some (dst, 0).
Proof.
  intros Hv Hdst. assert (0 <= Z.abs v < 2 ^ 64) as Hu by (unfold in_sint in Hv; lia).
  destruct (digits10_ok _ Hu) as (n & Hdig & Hn). pose proof Hn as (Hn0 & _).
  assert (n <= 20) as Hn20.
  { destruct Hn as (_ & _ & [->|Hp]); [lia|]. destruct (Z_lt_le_dec 20 n); [|done].
    pose proof (Z.pow_le_mono_r 10 20 (n - 1) ltac:(lia) ltac:(lia)). lia. }
  unfold ll2string. rewrite magnitude, Hdig by done. cbn [mbind option_bind].
  assert (0 <= b2z (v <? 0) <= 1) as Hb by (destruct (v <? 0); cbn; lia).
  rewrite (uint_small 32 (n + _)) by (unfold in_uint; lia).
  assert (forall s, udecimal s (Z.abs v) -> blen s = n ->
    let t := if v <? 0 then 45 :: s else s in
    decimal t v /\ blen t = n + b2z (v <? 0)) as Hsign.
  { intros s Hs <-. cbn. unfold decimal. bcase; cbn [Z.b2z]; rewrite ?blen_cons; (split; [|lia]).
    - exists s. split; [done|]. by replace (- v) with (Z.abs v) by lia.
    - by replace v with (Z.abs v) at 1 by lia. }
  rewrite (sdigits10_ok v n) by done. bdestr (n + b2z (v <? 0) >=? dstlen).
  - destruct (ll2string_body_ok (repeat 0 (Z.to_nat (n + b2z (v <? 0) + 1))) [] (Z.abs v) n (v <? 0))
      as (s & Hs & Hl & _); try done.
    { unfold blen. rewrite repeat_length. lia. }
    destruct (Hsign s Hs Hl) as [H1 H2]. eexists. split; [exact H1|]. rewrite H2. split; [done|]. by bdec.
  - destruct (split_blen dst (n + b2z (v <? 0) + 1)) as (d & R & -> & Hd); [lia|].
    destruct (ll2string_body_ok d R (Z.abs v) n (v <? 0)) as (s & Hs & Hl & Hrun); try done.
    destruct (Hsign s Hs Hl) as [H1 H2]. eexists. split; [exact H1|]. rewrite H2. split; [done|].
    bdec. unfold ll2string_body in Hrun. rewrite Hrun. do 4 f_equal.
    rewrite drop_app_exact; [done|]. unfold blen in Hd. lia.
Qed.

(** [ll2string] writes the canonical decimal notation of every 64-bit
    integer, LLONG_MIN included, followed by a terminator, when the buffer is
    large enough, and reports 0 without writing otherwise. It never writes
    outside [dstlen] bytes. *)
Theorem ll2string_correct dst dstlen v :
  in_sint 64 v -> 0 <= dstlen <= blen dst ->
  exists s, decimal s v /\ sdigits10 v = Some (blen s) /\
    ll2string dst dstlen v =
      if blen s <? dstlen then Some (s ++ 0 :: drop (Z.to_nat (blen s + 1)) dst, blen s)
      else Some (dst, 0).
Proof. apply ll2string_spec. Qed.

Lemma ll2string_correct_witness : exists s, decimal s (- 2 ^ 63) /\ sdigits10 (- 2 ^ 63) = Some (blen s) /\
    ll2string (replicate 21 0) 21 (- 2 ^ 63) =
      if blen s <? 21 then Some (s ++ 0 :: drop (Z.to_nat (blen s + 1)) (replicate 21 0), blen s)
      else Some (replicate 21 0, 0).
Proof. by apply (ll2string_correct (replicate 21 0) 21 (- 2 ^ 63)). Defined.

(** ** Parsing *)

Lemma isdig_true c : isdig c = true <-> 48 <= c <= 57.
Proof. unfold isdig. lia. Qed.

Lemma string2ll_loop_ok D : forall fuel A R v,
  (length D < fuel)%nat -> 0 <= v <= ULLONG_MAX -> all_digits D ->
  match R with [] => True | c :: _ => isdig c = false end ->
  string2ll_loop fuel (A ++ D ++ R) (blen (A ++ D ++ R)) v (blen A) =
    Some (if dec_acc v D <=? ULLONG_MAX then Some (dec_acc v D, blen (A ++ D)) else None).
Proof.
  induction D as [|d D IH]; intros fuel A R v Hf Hv HD HR; (destruct fuel as [|fuel]; [simpl in Hf; lia|]);
    cbn [string2ll_loop]; pose proof (blen_nonneg A).
  - rewrite app_nil_l, app_nil_r, blen_app. change (dec_acc v []) with v.
    replace (v <=? ULLONG_MAX) with true by lia.
    destruct R as [|c R]; [rewrite blen_nil; by bdec|].
    rewrite blen_cons. pose proof (blen_nonneg R). bdec.
    rewrite bget_app by done. cbn [mbind option_bind]. by rewrite HR.
  - inv HD. pose proof (blen_nonneg D). pose proof (blen_nonneg R).
    replace (blen A <? _) with true by (autorewrite with cmem; lia).
    rewrite (bget_app A d (D ++ R) (blen A) eq_refl : bget (A ++ (d :: D) ++ R) _ = _).
    cbn [mbind option_bind].
    rewrite (proj2 (isdig_true d)) by done.
    change (dec_acc v (d :: D)) with (dec_acc (10 * v + (d - 48)) D).
    pose proof (dec_acc_mono (10 * v + (d - 48)) D ltac:(lia) H3).
    unfold ULLONG_MAX in *.
    bdestr (v >? (2 ^ 64 - 1) / 10); [change ((2 ^ 64 - 1) / 10) with 1844674407370955161 in *; by bdec|].
    change ((2 ^ 64 - 1) / 10) with 1844674407370955161 in *.
    bcase; [by bdec|].
    replace (v * 10 + (d - 48)) with (10 * v + (d - 48)) by lia.
    replace (A ++ (d :: D) ++ R) with ((A ++ [d]) ++ D ++ R) by by rewrite <- app_assoc.
    replace (blen A + 1) with (blen (A ++ [d])) by (autorewrite with cmem; lia).
    replace (A ++ d :: D) with ((A ++ [d]) ++ D) by by rewrite <- app_assoc.
    apply IH; [simpl in Hf; lia|lia|done|done].
Qed.

(** The digits a string starts with. *)
Lemma digit_prefix s : exists D R, s = D ++ R /\ all_digits D /\
  match R with [] => True | c :: _ => isdig c = false end.
Proof.
  induction s as [|c s (D & R & -> & HD & HR)]; [by exists [], []|].
  destruct (isdig c) eqn:Hc.
  - exists (c :: D), R. split; [done|]. split; [|done]. constructor; [|done]. by apply isdig_true.
  - by exists [], (c :: D ++ R).
Qed.

Lemma udecimal_cons d D : 49 <= d <= 57 -> all_digits D -> udecimal (d :: D) (dec_acc (d - 48) D).
Proof.
  intros Hd HD. split; [constructor; [lia|done]|]. split; [done|]. right. exists d, D. split; [done|lia].
Qed.

Lemma udecimal_inv s v :
  udecimal s v -> s = [48] /\ v = 0 \/
  exists d D, s = d :: D /\ 49 <= d <= 57 /\ all_digits D /\ v = dec_acc (d - 48) D.
Proof.
  intros (Hs & Hv & Hz). destruct s as [|d D]; [by destruct Hz as [?|(?&?&?&?)]|].
  inv Hs. destruct (decide (d = 48)) as [->|Hne].
  - left. destruct Hz as [Hl|(? & ? & [= <- <-] & ?)]; [|done]. by destruct D.
  - right. exists d, D. split_and!; try done; lia.
Qed.

Lemma dec_acc_no_zero d D : 49 <= d <= 57 -> all_digits D -> 0 < dec_acc (d - 48) D.
Proof. intros Hd HD. pose proof (dec_acc_mono (d - 48) D ltac:(lia) HD). lia. Qed.

(** The part of [string2ll] after the sign: [A] is what was read before. *)
Definition string2ll_rest (s : bytes) (negative : bool) (plen : Z) : option (option Z) :=
  c ← bget s plen;
  if (49 <=? c) && (c <=? 57) then
    r ← string2ll_loop (S (Z.to_nat (blen s))) s (blen s) (c - 48) (plen + 1);
    match r with
    | None => Some None
    | Some (v, plen) =>
        if plen <? blen s then Some None
        else if negative then
          if v >? - (LLONG_MIN + 1) + 1 then Some None else Some (Some (sint 64 (- v)))
        else if v >? LLONG_MAX then Some None else Some (Some v)
    end
  else Some None.

Lemma string2ll_rest_ok A c B negative :
  exists r, string2ll_rest (A ++ c :: B) negative (blen A) = Some r /\
    forall v, r = Some v <-> in_sint 64 v /\ 49 <= c <= 57 /\ all_digits B /\
      v = (if negative then - dec_acc (c - 48) B else dec_acc (c - 48) B).
Proof.
  unfold string2ll_rest. rewrite bget_app by done. cbn [mbind option_bind].
  bcase; [|eexists; split; [done|]; intros v; split; [done|intros (_ & ? & _); lia]].
  destruct (digit_prefix B) as (D & R & -> & HD & HR).
  pose proof (string2ll_loop_ok D (S (Z.to_nat (blen (A ++ c :: D ++ R)))) (A ++ [c]) R (c - 48)) as Hloop.
  rewrite <- (app_assoc A [c]) in Hloop. cbn [app] in Hloop.
  replace (blen (A ++ [c])) with (blen A + 1) in Hloop by (autorewrite with cmem; lia).
  rewrite Hloop; [|rewrite to_nat_blen, !length_app; simpl; rewrite length_app; lia|unfold ULLONG_MAX; lia|done|done].
  cbn [mbind option_bind]. clear Hloop.
  assert (49 <= c <= 57) as Hc by lia. pose proof (dec_acc_no_zero c D Hc HD) as Hpos.
  destruct R as [|x R].
  - rewrite app_nil_r. set (n := dec_acc (c - 48) D) in *. unfold ULLONG_MAX, LLONG_MIN, LLONG_MAX, in_sint.
    bdestr (n <=? 2 ^ 64 - 1);
      [replace (blen ((A ++ [c]) ++ D) <? blen (A ++ c :: D)) with false
         by (autorewrite with cmem; lia); destruct negative; bcase|].
    + eexists; split; [done|]; intros v; split; [done|intros (?&_&_&->); lia].
    + rewrite sint_small by (unfold in_sint; lia). eexists; split; [done|].
      intros v; split; [intros [= <-]; split_and!; done || lia|by intros (?&_&_&->)].
    + eexists; split; [done|]; intros v; split; [done|intros (?&_&_&->); lia].
    + eexists; split; [done|].
      intros v; split; [intros [= <-]; split_and!; done || lia|by intros (?&_&_&->)].
    + eexists; split; [done|]; intros v; split; [done|intros (?&_&_&->); destruct negative; lia].
  - exists None. split.
    + bcase; [|done]. pose proof (blen_nonneg R).
      autorewrite with cmem. by bdec.
    + intros v. split; [done|]. intros (_ & _ & [_ Hx]%Forall_app & _). inv Hx.
      by apply isdig_true in H1; rewrite H1 in HR.
Qed.

Lemma string2ll_spec s :
  exists r, string2ll s (blen s) = Some r /\
    forall v, r = Some v <-> in_sint 64 v /\ decimal s v.
Proof.
  unfold string2ll. destruct s as [|c B].
  { exists None. split; [done|]. intros v; split; [done|]. intros [_ Hd]. unfold decimal in Hd.
    revert Hd. bcase; [by intros (?&?&_)|]. by intros [[??]|(?&?&?&_)]%udecimal_inv. }
  rewrite blen_cons. pose proof (blen_nonneg B). bdec.
  rewrite (bget_app [] c B 0 eq_refl : bget (c :: B) 0 = _). cbn [mbind option_bind].
  bdestr ((1 + blen B =? 1) && (c =? 48)).
  { destruct E as [E ->]. assert (B = []) as -> by (apply blen_0; lia). exists (Some 0). split; [done|].
    intros v. split.
    - intros [= <-]. split; [done|]. unfold decimal. cbn. split; [repeat constructor; lia|]. split; [done|by left].
    - unfold decimal. intros [_ Hd]. revert Hd. bcase; [by intros (?&[= ? <-]&_)|].
      intros [[_ ->]|(?&?&[= <- <-]&?&_)]%udecimal_inv; [done|lia]. }
  bdestr (c =? 45).
  - subst c. bdestr (true && (0 + 1 =? 1 + blen B)).
    { exists None. split; [done|]. intros v; split; [done|]. assert (B = []) as -> by (apply blen_0; lia).
      unfold decimal. intros [_ Hd]. revert Hd. bcase.
      - intros (s' & [= <-] & Hd). by destruct Hd as (_ & _ & [?|(?&?&?&_)]).
      - intros [[? _]|(?&?&[= <- <-]&?&_)]%udecimal_inv; [done|lia]. }
    destruct B as [|d B]; [rewrite blen_nil in *; lia|].
    destruct (string2ll_rest_ok [45] d B true) as (r & Hr & Hspec).
    exists r. split; [rewrite <- blen_cons with (x := 45); exact Hr|].
    intros v. rewrite Hspec. unfold decimal. split.
    + intros (Hv & Hd & HB & ->). split; [done|]. pose proof (dec_acc_no_zero d B Hd HB).
      bdec. exists (d :: B). split; [done|]. rewrite Z.opp_involutive. by apply udecimal_cons.
    + intros [Hv Hd]. revert Hd. bcase.
      * intros (s' & [= <-] & [[_ ?]|(?&?&[= <- <-]&?&?&?)]%udecimal_inv); [lia|]. split_and!; try done; lia.
      * intros [[? _]|(?&?&[= <- <-]&?&_)]%udecimal_inv; [done|lia].
  - cbn [andb]. destruct (string2ll_rest_ok [] c B false) as (r & Hr & Hspec).
    exists r. split; [rewrite <- blen_cons with (x := c); exact Hr|].
    intros v. rewrite Hspec. unfold decimal. split.
    + intros (Hv & Hd & HB & ->). split; [done|]. pose proof (dec_acc_no_zero c B Hd HB).
      bdec. by apply udecimal_cons.
    + intros [Hv Hd]. revert Hd. bcase; [by intros (?&[= ? <-]&_)|].
      intros [[[= -> ->] _]|(?&?&[= <- <-]&?&?&->)]%udecimal_inv; [rewrite blen_nil in *; lia|done].
Qed.

(** C22: [string2ll] accepts a string exactly when it is the canonical decimal
    notation of a 64-bit integer, and then returns that integer: no sign,
    leading zero or overflow variant is accepted. It reads only the [slen]
    bytes it is given. *)
Theorem string2ll_correct s :
  exists r, string2ll s (blen s) = Some r /\
    forall v, r = Some v <-> in_sint 64 v /\ decimal s v.
Proof. apply string2ll_spec. Qed.

(** The notation of a 64-bit integer has at most 20 characters. *)
Lemma decimal_short v s : in_sint 64 v -> decimal s v -> blen s <= 20.
Proof.
  unfold in_sint, decimal. intros Hv Hd.
  assert (forall s u, udecimal s u -> 0 <= u -> 2 <= blen s -> 10 ^ (blen s - 1) <= u) as Hb.
  { intros s' u (_ & _ & [?|?])%udecimal_ndigits; lia. }
  destruct (Z_lt_le_dec 20 (blen s)) as [Hl|]; [exfalso|done]. revert Hd. bcase.
  - intros (s' & -> & Hs). rewrite blen_cons in Hl. apply Hb in Hs; [|lia|lia].
    pose proof (Z.pow_le_mono_r 10 19 (blen s' - 1) ltac:(lia) ltac:(lia)). lia.
  - intros Hs. apply Hb in Hs; [|lia|lia].
    pose proof (Z.pow_le_mono_r 10 20 (blen s - 1) ltac:(lia) ltac:(lia)). lia.
Qed.

(** Printing then parsing gives the integer back, and parsing then
    printing gives the string back, for every 64-bit integer. *)
Theorem ll2string_string2ll_roundtrip :
  (forall v dst, in_sint 64 v -> blen dst = 21 ->
    exists dst' n, ll2string dst 21 v = Some (dst', n) /\
      string2ll (take (Z.to_nat n) dst') n = Some (Some v)) /\
  (forall s v dst, string2ll s (blen s) = Some (Some v) -> blen dst = 21 ->
    exists dst', ll2string dst 21 v = Some (dst', blen s) /\ take (length s) dst' = s).
Proof.
  split.
  - intros v dst Hv Hdst. destruct (ll2string_spec dst 21 v Hv ltac:(lia)) as (s & Hs & _ & ->).
    pose proof (decimal_short v s Hv Hs). bdec. eexists _, _. split; [done|].
    rewrite to_nat_blen, take_app_exact by done.
    destruct (string2ll_spec s) as (r & -> & Hr). f_equal. by apply Hr.
  - intros s v dst Hp Hdst. destruct (string2ll_spec s) as (r & Hr & Hspec).
    rewrite Hr in Hp. injection Hp as ->. destruct (proj1 (Hspec v) eq_refl) as [Hv Hs].
    destruct (ll2string_spec dst 21 v Hv ltac:(lia)) as (s' & Hs' & _ & ->).
    rewrite (decimal_unique s' s v) by done.
    pose proof (decimal_short v s Hv Hs). bdec. eexists. split; [done|]. by rewrite take_app_exact.
Qed.

End Util.
