(* ===== verification/Glob.v ===== *)
(** util.c, [stringmatchlen]: glob-style pattern matching.

    The pattern is a C string: a buffer whose byte at [patternLen] is the
    terminator, which the code reads. The string is given by its length only. *)

From S2P Require Import Prelude.

Module Glob.

(** ['*' '?' '[' '^' '-' ']' '\\'] *)
Definition STAR : Z := 42.
Definition QUEST : Z := 63.
Definition LBRACK : Z := 91.
Definition CARET : Z := 94.
Definition DASH : Z := 45.
Definition RBRACK : Z := 93.
Definition BSLASH : Z := 92.

Section Code.
Context (pat : bytes) (str : bytes) (nocase : bool).

(** [while (patternLen && pattern[1] == '*') { pattern++; patternLen--; }] *)
Fixpoint skip_stars (fuel : nat) (p plen : Z) : option (Z * Z) :=
  match fuel with
  | O => None
  | S fuel =>
      if negb (plen =? 0) then
        c ← bget pat (p + 1);
        if c =? STAR then skip_stars fuel (p + 1) (plen - 1) else Some (p, plen)
      else Some (p, plen)
  end.

(** [while( *pattern == '*') { pattern++; patternLen--; }] *)
Fixpoint skip_trailing (fuel : nat) (p plen : Z) : option Z :=
  match fuel with
  | O => None
  | S fuel =>
      c ← bget pat p;
      if c =? STAR then skip_trailing fuel (p + 1) (plen - 1) else Some plen
  end.

(** The [while(1)] loop of a character class. [c0] is [string[0]]. Returns
    [pattern], [patternLen] and [match]. *)
Fixpoint class_loop (fuel : nat) (c0 p plen : Z) (m : bool) : option (Z * Z * bool) :=
  match fuel with
  | O => None
  | S fuel =>
      c ← bget pat p;
      if (c =? BSLASH) && (plen >=? 2) then
        let p := p + 1 in let plen := plen - 1 in
        x ← bget pat p;
        class_loop fuel c0 (p + 1) (plen - 1) (m || (x =? c0))
      else if c =? RBRACK then Some (p, plen, m)
      else if plen =? 0 then Some (p - 1, plen + 1, m)
      else
        isrange ← (if plen >=? 3 then d ← bget pat (p + 1); Some (d =? DASH) else Some false);
        if (isrange : bool) then
          e ← bget pat (p + 2);
          let start := schar c in
          let end_ := schar e in
          let c := schar c0 in
          let '(start, end_) := if start >? end_ then (end_, start) else (start, end_) in
          let '(start, end_, c) :=
            if nocase then (tolower start, tolower end_, tolower c) else (start, end_, c) in
          let p := p + 2 in let plen := plen - 2 in
          class_loop fuel c0 (p + 1) (plen - 1) (m || ((c >=? start) && (c <=? end_)))
        else
          let eq := if negb nocase then c =? c0
                    else tolower (schar c) =? tolower (schar c0) in
          class_loop fuel c0 (p + 1) (plen - 1) (m || eq)
  end.

(** [while(stringLen)] of the ['*'] case, [call] being the recursive call on
    the rest of the pattern. *)
Fixpoint star_loop (call : Z -> Z -> option bool) (n : nat) (s slen : Z) : option bool :=
  match n with
  | O => Some false
  | S n =>
      r ← call s slen;
      if (r : bool) then Some true else star_loop call n (s + 1) (slen - 1)
  end.

(** One call of [stringmatchlen], or one more turn of its loop, on the pattern
    at [p] and the string at [s]. [fuel] bounds the nesting. *)
Fixpoint stringmatchlen_rec (fuel : nat) (p plen s slen : Z) : option bool :=
  match fuel with
  | O => None
  | S fuel =>
      if negb (plen =? 0) && negb (slen =? 0) then
        (* after the switch: [pattern++; patternLen--; if (stringLen == 0) ...] *)
        let next p plen s slen :=
          let p := p + 1 in let plen := plen - 1 in
          if slen =? 0 then
            plen ← skip_trailing (S (Z.to_nat plen)) p plen;
            Some (plen =? 0)
          else stringmatchlen_rec fuel p plen s slen in
        c ← bget pat p;
        if c =? STAR then
          '(p, plen) ← skip_stars (S (Z.to_nat plen)) p plen;
          if plen =? 1 then Some true
          else star_loop (stringmatchlen_rec fuel (p + 1) (plen - 1)) (Z.to_nat slen) s slen
        else if c =? QUEST then next p plen (s + 1) (slen - 1)
        else if c =? LBRACK then
          let p := p + 1 in let plen := plen - 1 in
          c1 ← bget pat p;
          let not := c1 =? CARET in
          let '(p, plen) := if not then (p + 1, plen - 1) else (p, plen) in
          c0 ← bget str s;
          '(p, plen, m) ← class_loop (S (Z.to_nat plen)) c0 p plen false;
          let m := if not then negb m else m in
          if negb m then Some false else next p plen (s + 1) (slen - 1)
        else
          let '(p, plen) :=
            if (c =? BSLASH) && (plen >=? 2) then (p + 1, plen - 1) else (p, plen) in
          c ← bget pat p;
          c0 ← bget str s;
          let differs := if negb nocase then negb (c =? c0)
                         else negb (tolower (schar c) =? tolower (schar c0)) in
          if differs then Some false else next p plen (s + 1) (slen - 1)
      else Some ((plen =? 0) && (slen =? 0))
  end.
End Code.

Definition stringmatchlen (pattern : bytes) (patternLen : Z) (string : bytes) (stringLen : Z)
    (nocase : bool) : option bool :=
  stringmatchlen_rec pattern string nocase (S (Z.to_nat patternLen)) 0 patternLen 0 stringLen.

(** [strlen]: the offset of the first terminator. *)
Fixpoint strlen (s : bytes) : option Z :=
  match s with
  | [] => None
  | c :: s => if c =? 0 then Some 0 else n ← strlen s; Some (1 + n)
  end.

Definition stringmatch (pattern string : bytes) (nocase : bool) : option bool :=
  n ← strlen pattern; m ← strlen string; stringmatchlen pattern n string m nocase.

(** ** Specification *)

(** An element of a character class. *)
Inductive item :=
| IExact (c : Z)            (* escaped: compared as is *)
| IChar (c : Z)
| IRange (a b : Z).

Inductive token :=
| TStar
| TAny
| TLit (c : Z)
| TClass (neg : bool) (items : list item).

Section Spec.
Context (nocase : bool).

Definition char_eq (a b : Z) : bool :=
  if nocase then tolower (schar a) =? tolower (schar b) else a =? b.

Definition item_match (c : Z) (i : item) : bool :=
  match i with
  | IExact x => x =? c
  | IChar x => char_eq x c
  | IRange a b =>
      let lo := Z.min (schar a) (schar b) in
      let hi := Z.max (schar a) (schar b) in
      if nocase then (tolower lo <=? tolower (schar c)) && (tolower (schar c) <=? tolower hi)
      else (lo <=? schar c) && (schar c <=? hi)
  end.

(** One character against a token other than a star. *)
Definition tok_match (t : token) (c : Z) : bool :=
  match t with
  | TStar => false
  | TAny => true
  | TLit x => char_eq x c
  | TClass neg items => xorb neg (existsb (item_match c) items)
  end.

(** A token list matches a string: a star stands for any substring, any
    other token for one character. *)
Inductive matches : list token -> bytes -> Prop :=
| matches_nil : matches [] []
| matches_star ts s1 s2 : matches ts s2 -> matches (TStar :: ts) (s1 ++ s2)
| matches_one t ts c s :
    t <> TStar -> tok_match t c = true -> matches ts s -> matches (t :: ts) (c :: s).
End Spec.

(** The items of a class and what follows its closing bracket; a class that is
    not closed extends to the end of the pattern. *)
Fixpoint class_items (P : bytes) : list item * bytes :=
  match P with
  | [] => ([], [])
  | a :: P1 =>
      if a =? RBRACK then ([], P1)
      else
        match P1 with
        | [] => ([IChar a], [])
        | x :: P2 =>
            if a =? BSLASH then let '(l, R) := class_items P2 in (IExact x :: l, R)
            else
              match P2 with
              | b :: P3 =>
                  if x =? DASH then let '(l, R) := class_items P3 in (IRange a b :: l, R)
                  else let '(l, R) := class_items P1 in (IChar a :: l, R)
              | [] => let '(l, R) := class_items P1 in (IChar a :: l, R)
              end
        end
  end.

(** A class is negated by a leading caret. *)
Definition class_neg (P : bytes) : bool := match P with a :: _ => a =? CARET | [] => false end.
Definition class_body (P : bytes) : bytes := if class_neg P then tail P else P.

(** The tokens of a pattern; [fuel] is at least its length. *)
Fixpoint tokens (fuel : nat) (P : bytes) : list token :=
  match fuel with
  | O => []
  | S fuel =>
      match P with
      | [] => []
      | c :: P1 =>
          if c =? STAR then TStar :: tokens fuel P1
          else if c =? QUEST then TAny :: tokens fuel P1
          else if c =? LBRACK then
            let '(l, R) := class_items (class_body P1) in
            TClass (class_neg P1) l :: tokens fuel R
          else
            match P1 with
            | x :: P2 => if c =? BSLASH then TLit x :: tokens fuel P2 else TLit c :: tokens fuel P1
            | [] => [TLit c]
            end
      end
  end.
Definition tokenize (P : bytes) : list token := tokens (length P) P.

(** ** The tokenizer *)

Fixpoint drop_stars (P : bytes) : bytes :=
  match P with
  | c :: P1 => if c =? STAR then drop_stars P1 else P
  | [] => []
  end.

Lemma class_items_length P : (length (class_items P).2 <= length P)%nat.
Proof.
  enough (forall n P, (length P <= n)%nat -> (length (class_items P).2 <= length P)%nat) by eauto.
  clear P. induction n as [|n IH]; intros [|a P1] Hn; simpl in *; try lia.
  destruct (a =? RBRACK); [simpl; lia|].
  destruct P1 as [|x P2]; [simpl; lia|].
  pose proof (IH (x :: P2) ltac:(simpl in *; lia)) as H1.
  pose proof (IH P2 ltac:(simpl in *; lia)) as H2.
  destruct (a =? BSLASH); [destruct (class_items P2); simpl in *; lia|].
  destruct P2 as [|b P3]; [destruct (class_items [x]); simpl in *; lia|].
  pose proof (IH P3 ltac:(simpl in *; lia)) as H3.
  destruct (x =? DASH); [destruct (class_items P3)|destruct (class_items (x :: b :: P3))];
    simpl in *; lia.
Qed.

Lemma class_body_length P : (length (class_body P) <= length P)%nat.
Proof. unfold class_body. destruct P; simpl; [lia|]. destruct (z =? CARET); simpl; lia. Qed.

Lemma tokens_fuel n m P : (length P <= n)%nat -> (length P <= m)%nat -> tokens n P = tokens m P.
Proof.
  revert m P. induction n as [|n IH]; intros m [|c P1] Hn Hm; try (simpl in *; lia).
  - by destruct m.
  - by destruct m.
  - destruct m as [|m]; [simpl in *; lia|]. cbn [tokens]. simpl in Hn, Hm.
    rewrite !(IH m P1) by lia. destruct (c =? STAR); [done|]. destruct (c =? QUEST); [done|].
    destruct (c =? LBRACK).
    + pose proof (class_body_length P1). pose proof (class_items_length (class_body P1)).
      destruct (class_items (class_body P1)) as [l R]. simpl in *.
      by rewrite (IH m R) by lia.
    + destruct P1 as [|x P2]; [done|]. simpl in *. by rewrite (IH m P2) by lia.
Qed.

Lemma tokenize_star P : tokenize (STAR :: P) = TStar :: tokenize P.
Proof. done. Qed.
Lemma tokenize_quest P : tokenize (QUEST :: P) = TAny :: tokenize P.
Proof. done. Qed.
Lemma tokenize_class P l R :
  class_items (class_body P) = (l, R) -> tokenize (LBRACK :: P) = TClass (class_neg P) l :: tokenize R.
Proof.
  intros H. unfold tokenize at 1. cbn [tokens length].
  change (LBRACK =? STAR) with false. change (LBRACK =? QUEST) with false.
  change (LBRACK =? LBRACK) with true. cbv iota.
  rewrite H. f_equal. apply tokens_fuel; [|done].
  pose proof (class_items_length (class_body P)) as Hl. rewrite H in Hl. simpl in Hl.
  pose proof (class_body_length P). lia.
Qed.

(** A literal token: an escaped or an ordinary character. *)
Lemma tokenize_escape x P : tokenize (BSLASH :: x :: P) = TLit x :: tokenize P.
Proof.
  change (tokenize (BSLASH :: x :: P)) with (TLit x :: tokens (S (length P)) P).
  f_equal. apply tokens_fuel; lia.
Qed.
Lemma tokenize_lit c P :
  c <> STAR -> c <> QUEST -> c <> LBRACK -> (c <> BSLASH \/ P = []) ->
  tokenize (c :: P) = TLit c :: tokenize P.
Proof.
  intros H1 H2 H3 H4. unfold tokenize. cbn [tokens length].
  replace (c =? STAR) with false by lia. replace (c =? QUEST) with false by lia.
  replace (c =? LBRACK) with false by lia.
  destruct P as [|x P]; [done|]. destruct H4 as [H4|]; [|done].
  replace (c =? BSLASH) with false by lia. done.
Qed.

Lemma tokenize_head c P : c <> STAR -> exists t ts, tokenize (c :: P) = t :: ts /\ t <> TStar.
Proof.
  intros Hc. destruct (decide (c = QUEST)) as [->|]; [by eexists _, _|].
  destruct (decide (c = LBRACK)) as [->|].
  { destruct (class_items (class_body P)) as [l R] eqn:E.
    rewrite (tokenize_class P l R E). by eexists _, _. }
  destruct (decide (c = BSLASH)) as [->|].
  - destruct P as [|x P]; [by eexists _, _|]. rewrite tokenize_escape. by eexists _, _.
  - rewrite tokenize_lit by auto. by eexists _, _.
Qed.

Lemma drop_stars_head P : match drop_stars P with [] => True | c :: _ => c <> STAR end.
Proof. induction P as [|c P IH]; [done|]. simpl. bcase; [done|lia]. Qed.

Lemma drop_stars_length P : (length (drop_stars P) <= length P)%nat.
Proof. induction P as [|c P IH]; simpl; [lia|]. bcase; simpl; lia. Qed.

Lemma drop_stars_suffix P : exists pre, P = pre ++ drop_stars P.
Proof.
  induction P as [|c P [pre IH]]; [by exists []|]. simpl. bcase; [exists (c :: pre); simpl; congruence|by exists []].
Qed.

Lemma class_items_suffix P : exists pre, P = pre ++ (class_items P).2.
Proof.
  enough (forall n P, (length P <= n)%nat -> exists pre, P = pre ++ (class_items P).2) by eauto.
  clear P. induction n as [|n IH]; intros [|a P1] Hn; [by exists []|simpl in Hn; lia|by exists []|].
  cbn [class_items]. destruct (a =? RBRACK); [by exists [a]|].
  destruct P1 as [|x P2]; [by exists [a]|].
  destruct (IH (x :: P2) ltac:(simpl in *; lia)) as [p1 H1].
  destruct (IH P2 ltac:(simpl in *; lia)) as [p2 H2].
  destruct (a =? BSLASH).
  { destruct (class_items P2) as [l2 R2]. simpl in *. exists (a :: x :: p2). simpl. by rewrite <- H2. }
  assert (exists pre, a :: x :: P2 = pre ++ (class_items (x :: P2)).2) as Hc
    by (exists (a :: p1); by rewrite <- app_comm_cons, <- H1).
  destruct P2 as [|b P3]; [by destruct (class_items [x])|].
  destruct (IH P3 ltac:(simpl in *; lia)) as [p3 H3].
  destruct (x =? DASH); [|by destruct (class_items (x :: b :: P3))].
  destruct (class_items P3) as [l3 R3]. simpl in *. exists (a :: x :: b :: p3). simpl. by rewrite <- H3.
Qed.

Section Matching.
Context (nocase : bool).
Abbreviation matches := (matches nocase).

Lemma matches_star_iff ts s :
  matches (TStar :: ts) s <-> exists s1 s2, s = s1 ++ s2 /\ matches ts s2.
Proof.
  split; [intros H; inv H; eauto|]. intros (s1 & s2 & -> & H). by constructor.
Qed.

Lemma matches_one_iff t ts c s :
  t <> TStar -> matches (t :: ts) (c :: s) <-> tok_match nocase t c = true /\ matches ts s.
Proof. intros Ht. split; [intros H; inv H; done|]. intros []. by constructor. Qed.

Lemma matches_head_nil t ts : t <> TStar -> ~ matches (t :: ts) [].
Proof. intros Ht H. by inv H. Qed.

Lemma matches_star_star ts s : matches (TStar :: TStar :: ts) s <-> matches (TStar :: ts) s.
Proof.
  rewrite !matches_star_iff. split.
  - intros (s1 & s2 & -> & (s3 & s4 & -> & H)%matches_star_iff).
    exists (s1 ++ s3), s4. by rewrite app_assoc.
  - intros (s1 & s2 & -> & H). exists [], (s1 ++ s2). split; [done|]. rewrite matches_star_iff. eauto.
Qed.

Lemma matches_drop_stars P s :
  matches (tokenize (STAR :: P)) s <-> matches (TStar :: tokenize (drop_stars P)) s.
Proof.
  rewrite tokenize_star. induction P as [|c P IH]; [done|]. simpl drop_stars.
  bdestr (c =? STAR); [|done]. subst c. by rewrite tokenize_star, matches_star_star.
Qed.

Lemma matches_nil_iff P : matches (tokenize P) [] <-> drop_stars P = [].
Proof.
  induction P as [|c P IH]; [split; [done|constructor]|]. simpl drop_stars.
  bdestr (c =? STAR).
  - subst c. rewrite tokenize_star, matches_star_iff, <- IH. split.
    + intros (s1 & s2 & H & Hm). symmetry in H. apply app_nil in H as [-> ->]. done.
    + intros H. by exists [], [].
  - destruct (tokenize_head c P E) as (t & ts & -> & Ht). split; [|done].
    intros H. by apply matches_head_nil in H.
Qed.

(** ** The matcher *)

(** The pattern [P], its terminator, and whatever follows in memory. *)
Context (P : bytes) (junk : bytes) (S : bytes).
Abbreviation pat := (P ++ 0 :: junk).

Lemma pat_get A B : P = A ++ B -> bget pat (blen A) = Some (List.hd 0 B).
Proof.
  intros ->. rewrite <- app_assoc. destruct B as [|c B]; simpl; by apply bget_app.
Qed.

Lemma pat_get1 A c B : P = A ++ c :: B -> bget pat (blen A + 1) = Some (List.hd 0 B).
Proof.
  intros HP. rewrite <- (pat_get (A ++ [c]) B).
  - f_equal. by autorewrite with cmem.
  - by rewrite <- app_assoc.
Qed.

Lemma pat_get2 A c d B : P = A ++ c :: d :: B -> bget pat (blen A + 2) = Some (List.hd 0 B).
Proof.
  intros HP. rewrite <- (pat_get (A ++ [c; d]) B).
  - f_equal. by autorewrite with cmem.
  - by rewrite <- app_assoc.
Qed.

Lemma skip_trailing_ok B : forall A fuel,
  P = A ++ B -> (length B < fuel)%nat ->
  skip_trailing pat fuel (blen A) (blen B) = Some (blen (drop_stars B)).
Proof.
  induction B as [|c B IH]; intros A fuel HP Hf; (destruct fuel as [|fuel]; [simpl in Hf; lia|]);
    cbn [skip_trailing]; rewrite (pat_get A _ HP); cbn [mbind option_bind List.hd drop_stars].
  - done.
  - bcase; [|done]. subst c. rewrite <- (IH (A ++ [STAR]) fuel).
    + autorewrite with cmem. f_equal; lia.
    + by rewrite <- app_assoc.
    + simpl in Hf. lia.
Qed.

Lemma skip_stars_ok B : forall A fuel,
  P = A ++ STAR :: B -> (length B < fuel)%nat ->
  skip_stars pat fuel (blen A) (1 + blen B)
  = Some (blen A + (blen B - blen (drop_stars B)), 1 + blen (drop_stars B)).
Proof.
  induction B as [|c B IH]; intros A fuel HP Hf; (destruct fuel as [|fuel]; [simpl in Hf; lia|]);
    cbn [skip_stars].
  - cbn [negb Z.eqb blen length Z.of_nat Z.add]. rewrite (pat_get1 A _ _ HP). cbn. do 2 f_equal; lia.
  - pose proof (blen_nonneg B). rewrite blen_cons. bdec. rewrite (pat_get1 A _ _ HP).
    cbn [mbind option_bind List.hd drop_stars]. bdestr (c =? STAR).
    + subst c. replace (1 + (1 + blen B) - 1) with (1 + blen B) by lia.
      replace (blen A + 1) with (blen (A ++ [STAR])) by by autorewrite with cmem.
      rewrite (IH (A ++ [STAR]) fuel); [|by rewrite <- app_assoc|simpl in Hf; lia].
      autorewrite with cmem. do 2 f_equal. lia.
    + rewrite blen_cons. do 2 f_equal. lia.
Qed.

Lemma class_loop_ok c0 : forall n A B fuel m l R,
  (length B <= n)%nat -> P = A ++ B -> (length B < fuel)%nat -> class_items B = (l, R) ->
  class_loop pat nocase fuel c0 (blen A) (blen B) m
  = Some (blen A + blen B - blen R - 1, blen R + 1, m || existsb (item_match nocase c0) l).
Proof.
  induction n as [|n IH]; intros A B fuel m l R Hn HP Hf Hl;
    (destruct fuel as [|fuel]; [lia|]); destruct B as [|a P1]; try (simpl in *; lia);
    cbn [class_loop]; rewrite (pat_get A _ HP); cbn [mbind option_bind List.hd].
  1, 2: simpl in Hl; injection Hl as Hl0 Hl1; subst l R; change (blen []) with 0; cbn; rewrite orb_false_r; do 3 f_equal; lia.
  assert (forall Q fuel0 m0 pre l0 R0, (length Q <= n)%nat -> (length Q < fuel0)%nat -> P1 = pre ++ Q ->
    class_items Q = (l0, R0) ->
    class_loop pat nocase fuel0 c0 (blen A + 1 + blen pre) (blen Q) m0
    = Some (blen A + blen (a :: P1) - blen R0 - 1, blen R0 + 1, m0 || existsb (item_match nocase c0) l0)) as Hstep.
  { intros Q fuel0 m0 pre l0 R0 HQ Hf0 -> Hq. specialize (IH (A ++ a :: pre) Q fuel0 m0 l0 R0).
    replace (blen A + 1 + blen pre) with (blen (A ++ a :: pre)) by (autorewrite with cmem; lia).
    rewrite IH; try done; [autorewrite with cmem; do 3 f_equal; lia|]. by rewrite <- app_assoc. }
  rewrite blen_cons. pose proof (blen_nonneg P1). simpl in Hn, Hf.
  assert (forall Q pre, P1 = pre ++ Q -> length Q = (length P1 - length pre)%nat) as Hlen
    by (intros Q pre ->; rewrite length_app; lia).
  cbn [class_items] in Hl. bdestr ((a =? BSLASH) && (1 + blen P1 >=? 2)).
  { (* escape *)
    destruct P1 as [|x P2]; [rewrite blen_nil in *; lia|].
    replace (a =? RBRACK) with false in Hl by (unfold BSLASH, RBRACK in *; lia).
    replace (a =? BSLASH) with true in Hl by lia.
    destruct (class_items P2) as [l2 R2] eqn:E2. injection Hl as Hl0 Hl1; subst l R.
    rewrite (pat_get1 A _ _ HP). cbn [mbind option_bind List.hd].
    pose proof (Hstep P2 fuel (m || (x =? c0)) [x] l2 R2) as Hs.
    rewrite blen_cons in *. rewrite blen_cons, blen_nil in Hs.
    replace (blen A + 1 + (1 + 0)) with (blen A + 1 + 1) in Hs by lia.
    replace (1 + (1 + blen P2) - 1 - 1) with (blen P2) by lia.
    rewrite Hs; [|simpl in *; lia|simpl in *; lia|done|done].
    cbn [existsb item_match]. by rewrite orb_assoc, !blen_cons. }
  bdestr (a =? RBRACK).
  { injection Hl as Hl0 Hl1; subst l R. cbn [existsb]. rewrite orb_false_r. do 3 f_equal; lia. }
  bdec.
  destruct P1 as [|x P2].
  { injection Hl as Hl0 Hl1; subst l R. rewrite blen_nil in *. bdec. cbn [mbind option_bind].
    pose proof (Hstep [] fuel (m || (if negb nocase then a =? c0 else tolower (schar a) =? tolower (schar c0))) [] [] []) as Hs.
    rewrite blen_nil, Z.add_0_r in Hs. replace (1 + 0 - 1) with 0 by lia.
    rewrite Hs; [|simpl; lia|lia|done|done].
    cbn [existsb item_match]. rewrite blen_cons, blen_nil, !orb_false_r. unfold char_eq. by destruct nocase. }
  replace (a =? BSLASH) with false in Hl
    by (pose proof (blen_nonneg P2); rewrite blen_cons in *; unfold BSLASH in *; lia).
  assert (forall l1 R1, class_items (x :: P2) = (l1, R1) -> l = IChar a :: l1 -> R = R1 ->
    class_loop pat nocase fuel c0 (blen A + 1) (1 + blen (x :: P2) - 1)
      (m || (if negb nocase then a =? c0 else tolower (schar a) =? tolower (schar c0)))
    = Some (blen A + (1 + blen (x :: P2)) - blen R - 1, blen R + 1, m || existsb (item_match nocase c0) l)) as Hchar.
  { intros l1 R1 H1 -> ->.
    pose proof (Hstep (x :: P2) fuel (m || (if negb nocase then a =? c0 else tolower (schar a) =? tolower (schar c0))) [] l1 R1) as Hs.
    rewrite blen_nil, Z.add_0_r in Hs. replace (1 + blen (x :: P2) - 1) with (blen (x :: P2)) by lia.
    rewrite Hs; [|simpl in *; lia|lia|done|done].
    rewrite !blen_cons. cbn [existsb item_match]. rewrite orb_assoc. unfold char_eq. by destruct nocase. }
  destruct P2 as [|b P3].
  { cbv iota in Hl. destruct (class_items [x]) as [l1 R1] eqn:E1. injection Hl as Hl0 Hl1; subst l R.
    replace (1 + blen [x] >=? 3) with false by done. cbn [mbind option_bind]. by eapply Hchar. }
  replace (1 + blen (x :: b :: P3) >=? 3) with true
    by (rewrite !blen_cons; pose proof (blen_nonneg P3); lia).
  rewrite (pat_get1 A _ _ HP). cbn [mbind option_bind List.hd].
  bdestr (x =? DASH).
  - destruct (class_items P3) as [l3 R3] eqn:E3. injection Hl as Hl0 Hl1; subst l R.
    rewrite (pat_get2 A _ _ _ HP). cbn [mbind option_bind List.hd].
    set (hit := item_match nocase c0 (IRange a b)).
    assert (forall k : bool -> option (Z * Z * bool), 
      (let '(start, end_) := if schar a >? schar b then (schar b, schar a) else (schar a, schar b) in
       let '(start0, end_0, c) := if nocase then (tolower start, tolower end_, tolower (schar c0)) else (start, end_, schar c0) in
       k ((c >=? start0) && (c <=? end_0))) = k hit) as Hhit.
    { intros k. unfold hit, item_match. rewrite Z.gtb_ltb. bcase.
      - rewrite Z.min_r, Z.max_l by lia. destruct nocase; by rewrite Z.geb_leb.
      - rewrite Z.min_l, Z.max_r by lia. destruct nocase; by rewrite Z.geb_leb. }
    etransitivity; [exact (Hhit (fun h => class_loop pat nocase fuel c0 (blen A + 2 + 1)
      (1 + blen (x :: b :: P3) - 2 - 1) (m || h)))|].
    pose proof (Hstep P3 fuel (m || hit) [x; b] l3 R3) as Hs.
    rewrite !blen_cons, blen_nil in *. replace (blen A + 1 + (1 + (1 + 0))) with (blen A + 2 + 1) in Hs by lia.
    replace (1 + (1 + (1 + blen P3)) - 2 - 1) with (blen P3) by lia.
    rewrite Hs; [|simpl in *; lia|simpl in *; lia|done|done].
    cbn [existsb]. by rewrite orb_assoc.
  - destruct (class_items (x :: b :: P3)) as [l1 R1] eqn:Ex. injection Hl as Hl0 Hl1; subst l R. by eapply Hchar.
Qed.

(** What the rest of the loop body answers once a token has consumed a
    character: [B] is left of the pattern, [S2] of the string. *)
Definition answers (r : option bool) (B S2 : bytes) : Prop :=
  exists b, r = Some b /\ (b = true <-> matches (tokenize B) S2).

Lemma star_loop_ok call B : forall S2 S1 n,
  S = S1 ++ S2 -> n = length S2 ->
  (forall S1' S2', S = S1' ++ S2' -> S2' <> [] -> answers (call (blen S1') (blen S2')) B S2') ->
  exists b, star_loop call n (blen S1) (blen S2) = Some b /\
    (b = true <-> exists s1 s2, S2 = s1 ++ s2 /\ s2 <> [] /\ matches (tokenize B) s2).
Proof.
  induction S2 as [|c S2 IH]; intros S1 n HS -> Hcall; cbn [star_loop length].
  - exists false. split; [done|]. split; [done|]. intros (s1 & s2 & H & Hne & _).
    symmetry in H. by apply app_nil in H as [_ ->].
  - destruct (Hcall S1 (c :: S2) HS ltac:(done)) as (b & -> & Hb). cbn [mbind option_bind].
    destruct b.
    + exists true. split; [done|]. split; [|done]. intros _. exists [], (c :: S2).
      split; [done|]. split; [done|]. by apply Hb.
    + destruct (IH (S1 ++ [c]) (length S2)) as (b & Hrun & Hb2); [by rewrite <- app_assoc|done|done|].
      replace (blen S1 + 1) with (blen (S1 ++ [c])) by by autorewrite with cmem.
      replace (blen (c :: S2) - 1) with (blen S2) by (rewrite blen_cons; lia).
      exists b. split; [done|]. rewrite Hb2. split.
      * intros (s1 & s2 & -> & ? & ?). by exists (c :: s1), s2.
      * intros (s1 & s2 & H & ? & ?). destruct s1 as [|x s1]; simpl in H.
        { subst s2. exfalso. by apply diff_false_true, Hb. }
        injection H as -> ->. by exists s1, s2.
Qed.

Lemma star_case B S2 :
  S2 <> [] -> drop_stars B <> [] ->
  matches (tokenize (STAR :: B)) S2 <->
  exists s1 s2, S2 = s1 ++ s2 /\ s2 <> [] /\ matches (tokenize (drop_stars B)) s2.
Proof.
  intros HS HB. rewrite matches_drop_stars, matches_star_iff. split.
  - intros (s1 & s2 & -> & Hm). exists s1, s2. split; [done|]. split; [|done].
    intros ->. apply matches_nil_iff in Hm.
    pose proof (drop_stars_head B) as Hh. destruct (drop_stars B) as [|c D]; [done|].
    simpl in Hm. revert Hm. bcase; [lia|done].
  - intros (s1 & s2 & ? & _ & ?). by exists s1, s2.
Qed.

(** The end of the loop body: [pattern++; patternLen--; if (stringLen == 0)]. *)
Lemma next_ok fuel A B S1 S2 p plen s slen :
  P = A ++ B -> S = S1 ++ S2 -> (length B < fuel)%nat ->
  p + 1 = blen A -> plen - 1 = blen B -> s = blen S1 -> slen = blen S2 ->
  (S2 <> [] -> answers (stringmatchlen_rec pat S nocase fuel (blen A) (blen B) (blen S1) (blen S2)) B S2) ->
  answers (if slen =? 0
           then plen ← skip_trailing pat (Datatypes.S (Z.to_nat (plen - 1))) (p + 1) (plen - 1); Some (plen =? 0)
           else stringmatchlen_rec pat S nocase fuel (p + 1) (plen - 1) s slen) B S2.
Proof.
  intros HP HS Hf -> -> -> -> Hrec. destruct S2 as [|c S2].
  - change (blen [] =? 0) with true. cbv iota.
    rewrite (skip_trailing_ok B A) by (rewrite ?to_nat_blen; done || lia).
    cbn [mbind option_bind]. eexists; split; [done|]. rewrite matches_nil_iff. split.
    + intros H. apply blen_0. lia.
    + by intros ->.
  - replace (blen (c :: S2) =? 0) with false by (rewrite blen_cons; pose proof (blen_nonneg S2); lia).
    by apply Hrec.
Qed.

Lemma answers_one r t B B' c S2 :
  tokenize B = t :: tokenize B' -> t <> TStar ->
  (if tok_match nocase t c then answers r B' S2 else r = Some false) -> answers r B (c :: S2).
Proof.
  intros HB Ht Hr. unfold answers. rewrite HB. destruct (tok_match nocase t c) eqn:E.
  - destruct Hr as (b & -> & Hb). exists b. split; [done|]. rewrite Hb, matches_one_iff, E by done. naive_solver.
  - exists false. split; [done|]. split; [done|]. rewrite matches_one_iff, E by done. naive_solver.
Qed.

Lemma stringmatchlen_rec_ok : forall fuel A B S1 S2,
  P = A ++ B -> S = S1 ++ S2 -> (length B < fuel)%nat -> S2 <> [] ->
  answers (stringmatchlen_rec pat S nocase fuel (blen A) (blen B) (blen S1) (blen S2)) B S2.
Proof.
  induction fuel as [|fuel IH]; intros A B S1 S2 HP HS Hf HS2; [lia|].
  cbn [stringmatchlen_rec]. destruct S2 as [|c0 S2]; [done|]. clear HS2.
  destruct B as [|c B].
  { eexists. split; [done|]. split; [|intros H; inv H].
    rewrite blen_cons. pose proof (blen_nonneg S2). cbn [negb andb blen length]. lia. }
  assert (HS' : S = (S1 ++ [c0]) ++ S2) by by rewrite <- app_assoc.
  rewrite !(blen_cons c0), !(blen_cons c B).
  pose proof (blen_nonneg B) as HlB. pose proof (blen_nonneg S2) as HlS. simpl in Hf.
  replace (negb (1 + blen B =? 0) && negb (1 + blen S2 =? 0)) with true by lia. cbv iota.
  rewrite (pat_get A _ HP). cbn [mbind option_bind List.hd].
  assert (Hnext : forall A' B' p plen, P = A' ++ B' -> (length B' < fuel)%nat ->
    p + 1 = blen A' -> plen - 1 = blen B' ->
    answers (if 1 + blen S2 - 1 =? 0
             then plen ← skip_trailing pat (Datatypes.S (Z.to_nat (plen - 1))) (p + 1) (plen - 1); Some (plen =? 0)
             else stringmatchlen_rec pat S nocase fuel (p + 1) (plen - 1) (blen S1 + 1) (1 + blen S2 - 1)) B' S2).
  { intros A' B' p plen HP' Hf' Hp Hplen. eapply (next_ok fuel A' B' (S1 ++ [c0]) S2); try done.
    - by autorewrite with cmem.
    - lia.
    - intros Hne. by apply IH. }
  assert (HA1 : P = (A ++ [c]) ++ B) by by rewrite <- app_assoc.
  bdestr (c =? STAR); [|bdestr (c =? QUEST); [|bdestr (c =? LBRACK)]].
  - subst c. rewrite skip_stars_ok by (done || (unfold blen; lia)). cbn [mbind option_bind].
    pose proof (drop_stars_length B) as Hdl.
    destruct (decide (drop_stars B = [])) as [Hnil|Hne].
    + rewrite Hnil. change (1 + blen [] =? 1) with true. cbv iota. exists true. split; [done|]. split; [|done].
      intros _. apply matches_drop_stars. rewrite Hnil, matches_star_iff. exists (c0 :: S2), [].
      split; [by rewrite app_nil_r|constructor].
    + replace (1 + blen (drop_stars B) =? 1) with false
        by (destruct (drop_stars B); [done|]; rewrite blen_cons; pose proof (blen_nonneg l); lia).
      destruct (drop_stars_suffix B) as [pre Hpre].
      unfold answers. setoid_rewrite star_case; [|done|done].
      replace (blen A + (blen B - blen (drop_stars B)) + 1) with (blen (A ++ STAR :: pre))
        by (rewrite Hpre at 1; autorewrite with cmem; lia).
      replace (1 + blen (drop_stars B) - 1) with (blen (drop_stars B)) by lia.
      rewrite <- (blen_cons c0). apply star_loop_ok; [done|unfold blen; simpl; lia|].
      intros S1' S2' HS1 Hne'. apply IH; [|done|lia|done].
      rewrite <- app_assoc. cbn [app]. by rewrite <- Hpre.
  - subst c. apply (answers_one _ TAny _ B); [done|done|]. cbn [tok_match].
    apply (Hnext (A ++ [QUEST]) B); [done|lia|by autorewrite with cmem|lia].
  - subst c. rewrite (pat_get1 A _ _ HP). cbn [mbind option_bind].
    assert (exists pre, B = pre ++ class_body B /\
      (if List.hd 0 B =? CARET then (blen A + 1 + 1, 1 + blen B - 1 - 1) else (blen A + 1, 1 + blen B - 1))
      = (blen (A ++ LBRACK :: pre), blen (class_body B)) /\ (List.hd 0 B =? CARET) = class_neg B)
      as (pre & Hpre & -> & ->).
    { unfold class_body, class_neg. destruct B as [|x B]; simpl List.hd.
      - exists []. split; [done|]. split; [|done]. autorewrite with cmem. cbn. f_equal; lia.
      - destruct (x =? CARET); [exists [x]|exists []]; (split; [done|]); (split; [|done]);
          cbn [tail]; autorewrite with cmem; f_equal; lia. }
    assert (bget S (blen S1) = Some c0) as -> by (rewrite HS; by apply bget_app).
    cbn [mbind option_bind]. destruct (class_items (class_body B)) as [l R] eqn:El.
    pose proof (class_body_length B) as Hcl. pose proof (class_items_length (class_body B)) as Hil.
    rewrite El in Hil. simpl in Hil.
    rewrite (class_loop_ok c0 (length (class_body B)) _ _ _ _ l R);
      [|done|by rewrite <- app_assoc; cbn [app]; rewrite <- Hpre|rewrite to_nat_blen; lia|done].
    cbn [mbind option_bind orb]. apply (answers_one _ (TClass (class_neg B) l) _ R); [by apply tokenize_class|done|].
    cbn [tok_match]. destruct (class_items_suffix (class_body B)) as [mid Hmid]. rewrite El in Hmid. simpl in Hmid.
    destruct (class_neg B), (existsb (item_match nocase c0) l); cbn [xorb negb]; try done;
      (apply (Hnext (A ++ LBRACK :: pre ++ mid) R); [|lia| |lia]).
    1, 3: rewrite <- app_assoc; cbn [app]; rewrite <- app_assoc, <- Hmid, <- Hpre; done.
    all: rewrite Hmid; autorewrite with cmem; lia.
  - assert (exists x A' B', P = (A' ++ [x]) ++ B' /\ (length B' < fuel)%nat /\
      tokenize (c :: B) = TLit x :: tokenize B' /\
      (if (c =? BSLASH) && (1 + blen B >=? 2) then (blen A + 1, 1 + blen B - 1) else (blen A, 1 + blen B))
      = (blen A', 1 + blen B')) as (x & A' & B' & HP' & Hf' & Htok & ->).
    { bdestr ((c =? BSLASH) && (1 + blen B >=? 2)).
      - destruct E2 as [-> E2]. destruct B as [|x B]; [rewrite blen_nil in E2; lia|].
        exists x, (A ++ [BSLASH]), B. rewrite tokenize_escape. simpl in Hf.
        split; [rewrite <- !app_assoc; exact HP|]. split; [lia|]. split; [done|].
        autorewrite with cmem. f_equal; lia.
      - exists c, A, B. split; [done|]. split; [lia|]. split; [|done]. apply tokenize_lit; try done.
        destruct B as [|y B]; [by right|left]. rewrite blen_cons in E2. pose proof (blen_nonneg B). lia. }
    rewrite (pat_get A' (x :: B')) by (by rewrite HP', <- app_assoc). cbn [mbind option_bind List.hd].
    assert (bget S (blen S1) = Some c0) as -> by (rewrite HS; by apply bget_app).
    cbn [mbind option_bind]. apply (answers_one _ (TLit x) _ B'); [done|done|].
    cbn [tok_match]. unfold char_eq.
    pose proof (Hnext (A' ++ [x]) B' (blen A') (1 + blen B') HP' Hf') as Hn.
    autorewrite with cmem in Hn. specialize (Hn eq_refl ltac:(lia)).
    by destruct nocase; cbn [negb]; bcase; cbn [negb].
Qed.
End Matching.

Lemma stringmatchlen_spec P junk S nocase :
  S <> [] -> exists b, stringmatchlen (P ++ 0 :: junk) (blen P) S (blen S) nocase = Some b /\
    (b = true <-> matches nocase (tokenize P) S).
Proof.
  intros HS. unfold stringmatchlen.
  apply (stringmatchlen_rec_ok nocase P junk S _ [] P [] S); try done.
  rewrite to_nat_blen. lia.
Qed.

(** C21: on a NUL-terminated pattern and a non-empty string [stringmatchlen]
    terminates, reads no pattern byte past the terminator and no string byte
    past the end, and answers exactly whether the tokens of the pattern match
    the string. *)
Theorem stringmatchlen_correct P junk S nocase :
  S <> [] -> exists b, stringmatchlen (P ++ 0 :: junk) (blen P) S (blen S) nocase = Some b /\
    (b = true <-> matches nocase (tokenize P) S).
Proof. apply stringmatchlen_spec. Qed.

Lemma stringmatchlen_correct_witness : exists b,
  stringmatchlen (str "h[a-e]*o" ++ 0 :: []) (blen (str "h[a-e]*o")) (str "hello") (blen (str "hello")) false = Some b /\
  (b = true <-> matches false (tokenize (str "h[a-e]*o")) (str "hello")).
Proof. by apply (stringmatchlen_correct (str "h[a-e]*o") [] (str "hello") false). Defined.

(** On the empty string the answer is whether the pattern is empty: a
    pattern made of stars, which the specification matches with the empty
    string, is refused. *)
Theorem stringmatchlen_empty_string P junk nocase :
  stringmatchlen (P ++ 0 :: junk) (blen P) [] 0 nocase = Some (bool_decide (P = [])) /\
  (forall n, matches nocase (tokenize (replicate (S n) STAR)) [] /\
     stringmatchlen (replicate (S n) STAR ++ 0 :: junk) (Z.of_nat (S n)) [] 0 nocase = Some false).
Proof.
  assert (forall Q, stringmatchlen (Q ++ 0 :: junk) (blen Q) [] 0 nocase = Some (bool_decide (Q = []))) as H.
  { intros Q. unfold stringmatchlen. cbn [stringmatchlen_rec]. rewrite andb_false_r, andb_true_r.
    f_equal. destruct Q as [|z Q]; [done|]. rewrite bool_decide_eq_false_2 by done.
    rewrite blen_cons. pose proof (blen_nonneg Q). lia. }
  split; [done|]. intros n. split.
  - apply matches_nil_iff. induction n; [done|]. done.
  - specialize (H (replicate (S n) STAR)). unfold blen in H. rewrite length_replicate in H. done.
Qed.

End Glob.
