(* ===== verification/Listpack.v ===== *)
(** listpack.c: lists of strings and integers in one allocation.

    A listpack is the buffer of its allocation; a pointer into it is an offset.
    [NULL] is [None], and an access outside the allocation or a failed assert
    has no result: [option (option Z)] is the type of a returned pointer. *)

From S2P Require Import Prelude Util.
Import Util.

Module Listpack.

Definition LP_HDR_SIZE : Z := 6.
Definition LP_HDR_NUMELE_UNKNOWN : Z := 65535.
Definition LP_EOF : Z := 255.
Definition UINT32_MAX : Z := 2 ^ 32 - 1.
Definition UINT64_MAX : Z := 2 ^ 64 - 1.

Definition LP_ENCODING_IS_7BIT_UINT (b : Z) : bool := Z.land b 0x80 =? 0.
Definition LP_ENCODING_IS_6BIT_STR (b : Z) : bool := Z.land b 0xC0 =? 0x80.
Definition LP_ENCODING_IS_13BIT_INT (b : Z) : bool := Z.land b 0xE0 =? 0xC0.
Definition LP_ENCODING_IS_12BIT_STR (b : Z) : bool := Z.land b 0xF0 =? 0xE0.
Definition LP_ENCODING_IS_16BIT_INT (b : Z) : bool := Z.land b 0xFF =? 0xF1.
Definition LP_ENCODING_IS_24BIT_INT (b : Z) : bool := Z.land b 0xFF =? 0xF2.
Definition LP_ENCODING_IS_32BIT_INT (b : Z) : bool := Z.land b 0xFF =? 0xF3.
Definition LP_ENCODING_IS_64BIT_INT (b : Z) : bool := Z.land b 0xFF =? 0xF4.
Definition LP_ENCODING_IS_32BIT_STR (b : Z) : bool := Z.land b 0xFF =? 0xF0.

(** [p[i] | p[i+1]<<8 | ...], [n] bytes. *)
Fixpoint get_le (lp : bytes) (p : Z) (n : nat) (shift : Z) : option Z :=
  match n with
  | O => Some 0
  | S n =>
      b ← bget lp p;
      r ← get_le lp (p + 1) n (shift + 8);
      Some (Z.lor (Z.shiftl b shift) r)
  end.

Definition LP_ENCODING_6BIT_STR_LEN (lp : bytes) (p : Z) : option Z :=
  b ← bget lp p; Some (Z.land b 0x3F).
Definition LP_ENCODING_12BIT_STR_LEN (lp : bytes) (p : Z) : option Z :=
  b0 ← bget lp p; b1 ← bget lp (p + 1);
  Some (Z.lor (Z.shiftl (Z.land b0 0xF) 8) b1).
Definition LP_ENCODING_32BIT_STR_LEN (lp : bytes) (p : Z) : option Z := get_le lp (p + 1) 4 0.

Definition lpGetTotalBytes (lp : bytes) : option Z := get_le lp 0 4 0.
Definition lpGetNumElements (lp : bytes) : option Z := get_le lp 4 2 0.

Definition lpSetTotalBytes (lp : bytes) (v : Z) : option bytes :=
  lp ← bset lp 0 (Z.land v 0xff);
  lp ← bset lp 1 (Z.land (Z.shiftr v 8) 0xff);
  lp ← bset lp 2 (Z.land (Z.shiftr v 16) 0xff);
  bset lp 3 (Z.land (Z.shiftr v 24) 0xff).

Definition lpSetNumElements (lp : bytes) (v : Z) : option bytes :=
  lp ← bset lp 4 (Z.land v 0xff);
  bset lp 5 (Z.land (Z.shiftr v 8) 0xff).

(** The two assertions. *)
Definition ASSERT_INTEGRITY (lp : bytes) (p : Z) : option unit :=
  t ← lpGetTotalBytes lp;
  assert! (LP_HDR_SIZE <=? p) && (p <? t); Some tt.
Definition ASSERT_INTEGRITY_LEN (lp : bytes) (p len : Z) : option unit :=
  t ← lpGetTotalBytes lp;
  assert! (LP_HDR_SIZE <=? p) && (p + len <? t); Some tt.

(** As [string2ll], with one more (redundant) case for "0". *)
Definition lpStringToInt64 (s : bytes) (slen : Z) : option (option Z) :=
  let plen := 0 in
  if plen =? slen then Some None
  else
    c0 ← bget s 0;
    if (slen =? 1) && (c0 =? 48) then Some (Some 0)
    else
      let negative := c0 =? 45 in
      let plen := if negative then plen + 1 else plen in
      if negative && (plen =? slen) then Some None
      else
        c ← bget s plen;
        if (49 <=? c) && (c <=? 57) then
          r ← string2ll_loop (S (Z.to_nat slen)) s slen (c - 48) (plen + 1);
          match r with
          | None => Some None
          | Some (v, plen) =>
              if plen <? slen then Some None
              else if negative then
                if v >? - (- 2 ^ 63 + 1) + 1 then Some None
                else Some (Some (sint 64 (- v)))
              else if v >? 2 ^ 63 - 1 then Some None
              else Some (Some v)
          end
        else if (c =? 48) && (slen =? 1) then Some (Some 0)
        else Some None.

Section Alloc.
Context (indet : nat -> Z).

Definition lpNew (capacity : Z) : option bytes :=
  let lp := brealloc indet [] (if capacity >? LP_HDR_SIZE + 1 then capacity else LP_HDR_SIZE + 1) in
  lp ← lpSetTotalBytes lp (LP_HDR_SIZE + 1);
  lp ← lpSetNumElements lp 0;
  bset lp LP_HDR_SIZE LP_EOF.

(** [lp_malloc_size(lp)] is the size of the allocation. *)
Definition lpShrinkToFit (lp : bytes) : option bytes :=
  size ← lpGetTotalBytes lp;
  Some (if size <? blen lp then brealloc indet lp size else lp).
End Alloc.

Inductive enctype := LP_ENCODING_INT | LP_ENCODING_STRING.

(** [intenc] for the integer [v]. *)
Definition int_encoding (v : Z) : bytes :=
  if (v >=? 0) && (v <=? 127) then [uint 8 v]
  else if (v >=? -4096) && (v <=? 4095) then
    let v := if v <? 0 then Z.shiftl 1 13 + v else v in
    [uint 8 (Z.lor (Z.shiftr v 8) 0xC0); Z.land v 0xff]
  else if (v >=? -32768) && (v <=? 32767) then
    let v := if v <? 0 then Z.shiftl 1 16 + v else v in
    [0xF1; Z.land v 0xff; uint 8 (Z.shiftr v 8)]
  else if (v >=? -8388608) && (v <=? 8388607) then
    let v := if v <? 0 then Z.shiftl 1 24 + v else v in
    [0xF2; Z.land v 0xff; Z.land (Z.shiftr v 8) 0xff; uint 8 (Z.shiftr v 16)]
  else if (v >=? -2147483648) && (v <=? 2147483647) then
    let v := if v <? 0 then Z.shiftl 1 32 + v else v in
    [0xF3; Z.land v 0xff; Z.land (Z.shiftr v 8) 0xff; Z.land (Z.shiftr v 16) 0xff;
     uint 8 (Z.shiftr v 24)]
  else
    let uv := uint 64 v in
    [0xF4; Z.land uv 0xff; Z.land (Z.shiftr uv 8) 0xff; Z.land (Z.shiftr uv 16) 0xff;
     Z.land (Z.shiftr uv 24) 0xff; Z.land (Z.shiftr uv 32) 0xff; Z.land (Z.shiftr uv 40) 0xff;
     Z.land (Z.shiftr uv 48) 0xff; uint 8 (Z.shiftr uv 56)].

(** Returns the encoding, [intenc] and [*enclen]. *)
Definition lpEncodeGetType (ele : bytes) (size : Z) : option (enctype * bytes * Z) :=
  r ← lpStringToInt64 ele size;
  match r with
  | Some v =>
      let intenc := int_encoding v in
      Some (LP_ENCODING_INT, intenc, blen intenc)
  | None =>
      let enclen := if size <? 64 then 1 + size
                    else if size <? 4096 then 2 + size
                    else 5 + size in
      Some (LP_ENCODING_STRING, [], enclen)
  end.

(** The bytes stored in [buf] (their number is the return value). *)
Definition lpEncodeBacklen (l : Z) : bytes :=
  if l <=? 127 then [uint 8 l]
  else if l <? 16383 then
    [uint 8 (Z.shiftr l 7); Z.lor (Z.land l 127) 128]
  else if l <? 2097151 then
    [uint 8 (Z.shiftr l 14); Z.lor (Z.land (Z.shiftr l 7) 127) 128; Z.lor (Z.land l 127) 128]
  else if l <? 268435455 then
    [uint 8 (Z.shiftr l 21); Z.lor (Z.land (Z.shiftr l 14) 127) 128;
     Z.lor (Z.land (Z.shiftr l 7) 127) 128; Z.lor (Z.land l 127) 128]
  else
    [uint 8 (Z.shiftr l 28); Z.lor (Z.land (Z.shiftr l 21) 127) 128;
     Z.lor (Z.land (Z.shiftr l 14) 127) 128; Z.lor (Z.land (Z.shiftr l 7) 127) 128;
     Z.lor (Z.land l 127) 128].
(** The return value of [lpEncodeBacklen(NULL,l)]. *)
Definition lpBacklenSize (l : Z) : Z := blen (lpEncodeBacklen l).

(** The [do ... while(1)] of [lpDecodeBacklen]: at most five turns. *)
Fixpoint lpDecodeBacklen_loop (fuel : nat) (lp : bytes) (p val shift : Z) : option Z :=
  match fuel with
  | O => None
  | S fuel =>
      b ← bget lp p;
      let val := Z.lor val (uint 64 (Z.shiftl (Z.land b 127) shift)) in
      if Z.land b 128 =? 0 then Some val
      else
        let shift := shift + 7 in
        let p := p - 1 in
        if shift >? 28 then Some UINT64_MAX
        else lpDecodeBacklen_loop fuel lp p val shift
  end.
Definition lpDecodeBacklen (lp : bytes) (p : Z) : option Z := lpDecodeBacklen_loop 5 lp p 0 0.

(** Writes at offset [buf] of the listpack. *)
Definition lpEncodeString (lp : bytes) (buf : Z) (s : bytes) (len : Z) : option bytes :=
  if len <? 64 then
    lp ← bset lp buf (uint 8 (Z.lor len 0x80));
    bwrite lp (buf + 1) s
  else if len <? 4096 then
    lp ← bset lp buf (uint 8 (Z.lor (Z.shiftr len 8) 0xE0));
    lp ← bset lp (buf + 1) (Z.land len 0xff);
    bwrite lp (buf + 2) s
  else
    lp ← bset lp buf 0xF0;
    lp ← bset lp (buf + 1) (Z.land len 0xff);
    lp ← bset lp (buf + 2) (Z.land (Z.shiftr len 8) 0xff);
    lp ← bset lp (buf + 3) (Z.land (Z.shiftr len 16) 0xff);
    lp ← bset lp (buf + 4) (Z.land (Z.shiftr len 24) 0xff);
    bwrite lp (buf + 5) s.

Definition lpCurrentEncodedSizeUnsafe (lp : bytes) (p : Z) : option Z :=
  b ← bget lp p;
  if LP_ENCODING_IS_7BIT_UINT b then Some 1
  else if LP_ENCODING_IS_6BIT_STR b then n ← LP_ENCODING_6BIT_STR_LEN lp p; Some (1 + n)
  else if LP_ENCODING_IS_13BIT_INT b then Some 2
  else if LP_ENCODING_IS_16BIT_INT b then Some 3
  else if LP_ENCODING_IS_24BIT_INT b then Some 4
  else if LP_ENCODING_IS_32BIT_INT b then Some 5
  else if LP_ENCODING_IS_64BIT_INT b then Some 9
  else if LP_ENCODING_IS_12BIT_STR b then n ← LP_ENCODING_12BIT_STR_LEN lp p; Some (2 + n)
  else if LP_ENCODING_IS_32BIT_STR b then
    n ← LP_ENCODING_32BIT_STR_LEN lp p; Some (uint 32 (5 + n))
  else if b =? LP_EOF then Some 1
  else Some 0.

Definition lpCurrentEncodedSizeBytes (lp : bytes) (p : Z) : option Z :=
  b ← bget lp p;
  Some (if LP_ENCODING_IS_7BIT_UINT b then 1
        else if LP_ENCODING_IS_6BIT_STR b then 1
        else if LP_ENCODING_IS_13BIT_INT b then 1
        else if LP_ENCODING_IS_16BIT_INT b then 1
        else if LP_ENCODING_IS_24BIT_INT b then 1
        else if LP_ENCODING_IS_32BIT_INT b then 1
        else if LP_ENCODING_IS_64BIT_INT b then 1
        else if LP_ENCODING_IS_12BIT_STR b then 2
        else if LP_ENCODING_IS_32BIT_STR b then 5
        else if b =? LP_EOF then 1
        else 0).

Definition lpSkip (lp : bytes) (p : Z) : option Z :=
  entrylen ← lpCurrentEncodedSizeUnsafe lp p;
  Some (p + (entrylen + lpBacklenSize entrylen)).

Definition lpNext (lp : bytes) (p : Z) : option (option Z) :=
  p ← lpSkip lp p;
  _ ← ASSERT_INTEGRITY lp p;
  b ← bget lp p;
  Some (if b =? LP_EOF then None else Some p).

Definition lpPrev (lp : bytes) (p : Z) : option (option Z) :=
  if p =? LP_HDR_SIZE then Some None
  else
    let p := p - 1 in
    prevlen ← lpDecodeBacklen lp p;
    let prevlen := uint 64 (prevlen + lpBacklenSize prevlen) in
    let p := p - uint 64 (prevlen - 1) in
    _ ← ASSERT_INTEGRITY lp p;
    Some (Some p).

Definition lpFirst (lp : bytes) : option (option Z) :=
  b ← bget lp LP_HDR_SIZE;
  Some (if b =? LP_EOF then None else Some LP_HDR_SIZE).

Definition lpLast (lp : bytes) : option (option Z) :=
  t ← lpGetTotalBytes lp;
  lpPrev lp (t - 1).

(** [while(p) { count++; p = lpNext(lp,p); }] *)
Fixpoint lpLength_loop (fuel : nat) (lp : bytes) (p : option Z) (count : Z) : option Z :=
  match p with
  | None => Some count
  | Some p =>
      match fuel with
      | O => None
      | S fuel =>
          p ← lpNext lp p;
          lpLength_loop fuel lp p (uint 32 (count + 1))
      end
  end.

(** Returns the length and the listpack, whose header may be updated. *)
Definition lpLength (lp : bytes) : option (Z * bytes) :=
  numele ← lpGetNumElements lp;
  if negb (numele =? LP_HDR_NUMELE_UNKNOWN) then Some (numele, lp)
  else
    p ← lpFirst lp;
    count ← lpLength_loop (length lp) lp p 0;
    lp ← (if count <? LP_HDR_NUMELE_UNKNOWN then lpSetNumElements lp count else Some lp);
    Some (count, lp).

(** What [lpGet] returns with [intbuf] NULL: an integer by reference, or a
    pointer to a string and its length. *)
Inductive lpval := LInt (v : Z) | LStr (p len : Z).

(** The conversion of the unsigned value to the signed one. *)
Definition lp_signed (uval negstart negmax : Z) : lpval :=
  LInt (if uval >=? negstart
        then let uval := uint 64 (negmax - uval) in
             let val := sint 64 uval in sint 64 (- val - 1)
        else sint 64 uval).

Definition lpGet (lp : bytes) (p : Z) : option lpval :=
  b ← bget lp p;
  if LP_ENCODING_IS_7BIT_UINT b then Some (lp_signed (Z.land b 0x7f) UINT64_MAX 0)
  else if LP_ENCODING_IS_6BIT_STR b then
    n ← LP_ENCODING_6BIT_STR_LEN lp p; Some (LStr (p + 1) n)
  else if LP_ENCODING_IS_13BIT_INT b then
    b1 ← bget lp (p + 1);
    Some (lp_signed (Z.lor (Z.shiftl (Z.land b 0x1f) 8) b1) (Z.shiftl 1 12) 8191)
  else if LP_ENCODING_IS_16BIT_INT b then
    u ← get_le lp (p + 1) 2 0; Some (lp_signed u (Z.shiftl 1 15) 65535)
  else if LP_ENCODING_IS_24BIT_INT b then
    u ← get_le lp (p + 1) 3 0; Some (lp_signed u (Z.shiftl 1 23) (Z.shiftr UINT32_MAX 8))
  else if LP_ENCODING_IS_32BIT_INT b then
    u ← get_le lp (p + 1) 4 0; Some (lp_signed u (Z.shiftl 1 31) UINT32_MAX)
  else if LP_ENCODING_IS_64BIT_INT b then
    u ← get_le lp (p + 1) 8 0; Some (lp_signed u (Z.shiftl 1 63) UINT64_MAX)
  else if LP_ENCODING_IS_12BIT_STR b then
    n ← LP_ENCODING_12BIT_STR_LEN lp p; Some (LStr (p + 2) n)
  else if LP_ENCODING_IS_32BIT_STR b then
    n ← LP_ENCODING_32BIT_STR_LEN lp p; Some (LStr (p + 5) n)
  else Some (lp_signed (12345678900000000 + b) UINT64_MAX 0).

Inductive position := LP_BEFORE | LP_AFTER | LP_REPLACE.

Section Insert.
Context (indet : nat -> Z).

(** The state of [lpInsert] once the sizes are known: reallocate, move the
    tail, store the entry, update the header. [repl] tells LP_REPLACE. *)
Definition lpInsert_store (lp : bytes) (ele : option bytes) (enc : option enctype)
    (intenc backlen : bytes) (enclen replaced_len old_bytes new_bytes poff : Z) (repl : bool)
    : option (bytes * option Z) :=
  let backlen_size := blen backlen in
  let lp := if (new_bytes >? old_bytes) && (new_bytes >? blen lp)
            then brealloc indet lp new_bytes else lp in
  lp ← (if negb repl then memmove lp (poff + enclen + backlen_size) poff (old_bytes - poff)
        else
          let lendiff := enclen + backlen_size - replaced_len in
          memmove lp (poff + replaced_len + lendiff) (poff + replaced_len)
            (old_bytes - poff - replaced_len));
  let lp := if new_bytes <? old_bytes then brealloc indet lp new_bytes else lp in
  newp ← (match ele with
          | Some _ => Some (Some poff)
          | None => b ← bget lp poff; Some (if b =? LP_EOF then None else Some poff)
          end);
  lp ← (match ele with
        | Some ele =>
            lp ← (match enc with
                  | Some LP_ENCODING_INT => bwrite lp poff intenc
                  | _ => lpEncodeString lp poff ele (blen ele)
                  end);
            bwrite lp (poff + enclen) backlen
        | None => Some lp
        end);
  lp ← (if negb repl || (match ele with None => true | _ => false end) then
          num ← lpGetNumElements lp;
          if negb (num =? LP_HDR_NUMELE_UNKNOWN) then
            match ele with
            | Some _ => lpSetNumElements lp (uint 32 (num + 1))
            | None => lpSetNumElements lp (uint 32 (num - 1))
            end
          else Some lp
        else Some lp);
  lp ← lpSetTotalBytes lp new_bytes;
  Some (lp, newp).

(** [Some None] is the return value NULL; otherwise the listpack and [*newp].
    [ele = None] is a NULL element: deletion. *)
Definition lpInsert (lp : bytes) (ele : option bytes) (p : Z) (where_ : position)
    : option (option (bytes * option Z)) :=
  let where_ := match ele with None => LP_REPLACE | Some _ => where_ end in
  '(p, repl) ← (match where_ with
                | LP_AFTER => p ← lpSkip lp p; _ ← ASSERT_INTEGRITY lp p; Some (p, false)
                | LP_BEFORE => Some (p, false)
                | LP_REPLACE => Some (p, true)
                end);
  let poff := p in
  '(enc, intenc, enclen) ← (match ele with
                            | Some ele => '(t, ie, n) ← lpEncodeGetType ele (blen ele); Some (Some t, ie, n)
                            | None => Some (None, [], 0)
                            end);
  let backlen := match ele with Some _ => lpEncodeBacklen enclen | None => [] end in
  old_bytes ← lpGetTotalBytes lp;
  replaced_len ← (if (repl : bool) then
                    n ← lpCurrentEncodedSizeUnsafe lp p;
                    let n := uint 32 (n + lpBacklenSize n) in
                    _ ← ASSERT_INTEGRITY_LEN lp p n; Some n
                  else Some 0);
  let new_bytes := uint 64 (old_bytes + enclen + blen backlen - replaced_len) in
  if new_bytes >? UINT32_MAX then Some None
  else
    r ← lpInsert_store lp ele enc intenc backlen enclen replaced_len old_bytes new_bytes poff repl;
    Some (Some r).

Definition lpAppend (lp ele : bytes) : option (option (bytes * option Z)) :=
  t ← lpGetTotalBytes lp;
  lpInsert lp (Some ele) (t - 1) LP_BEFORE.

Definition lpDelete (lp : bytes) (p : Z) : option (option (bytes * option Z)) :=
  lpInsert lp None p LP_REPLACE.
End Insert.

Definition lpBytes (lp : bytes) : option Z := lpGetTotalBytes lp.

Fixpoint seek_forward (n : nat) (lp : bytes) (ele : option Z) : option (option Z) :=
  match n, ele with
  | S n, Some p => e ← lpNext lp p; seek_forward n lp e
  | _, _ => Some ele
  end.

Fixpoint seek_backward (n : nat) (lp : bytes) (ele : option Z) : option (option Z) :=
  match n, ele with
  | S n, Some p => e ← lpPrev lp p; seek_backward n lp e
  | _, _ => Some ele
  end.

Definition lpSeek (lp : bytes) (index : Z) : option (option Z) :=
  numele ← lpGetNumElements lp;
  let forward index := e ← lpFirst lp; seek_forward (Z.to_nat index) lp e in
  let backward index := e ← lpLast lp; seek_backward (Z.to_nat (-1 - index)) lp e in
  if negb (numele =? LP_HDR_NUMELE_UNKNOWN) then
    let index := if index <? 0 then numele + index else index in
    if index <? 0 then Some None
    else if index >=? numele then Some None
    else if index >? numele / 2 then backward (index - numele)
    else forward index
  else if index <? 0 then backward index else forward index.

(** Returns the result and the advanced [*pp]. *)
Definition lpValidateNext (lp : bytes) (pp : option Z) (lpbytes : Z) : option (bool * option Z) :=
  let OUT_OF_RANGE p := (p <? LP_HDR_SIZE) || (p >? lpbytes - 1) in
  match pp with
  | None => Some (false, pp)
  | Some p =>
      b ← bget lp p;
      if b =? LP_EOF then Some (true, None)
      else
        lenbytes ← lpCurrentEncodedSizeBytes lp p;
        if lenbytes =? 0 then Some (false, pp)
        else if OUT_OF_RANGE (p + lenbytes) then Some (false, pp)
        else
          entrylen ← lpCurrentEncodedSizeUnsafe lp p;
          let encodedBacklen := lpBacklenSize entrylen in
          let entrylen := entrylen + encodedBacklen in
          if OUT_OF_RANGE (p + entrylen) then Some (false, pp)
          else
            let p := p + entrylen in
            prevlen ← lpDecodeBacklen lp (p - 1);
            if negb (uint 64 (prevlen + encodedBacklen) =? entrylen) then Some (false, pp)
            else Some (true, Some p)
  end.

(** [while(p) { if (!lpValidateNext(lp, &p, bytes)) return 0; count++; }];
    [None] inside is the early return. *)
Fixpoint validate_entries (fuel : nat) (lp : bytes) (p : option Z) (bytes count : Z)
    : option (option Z) :=
  match p with
  | None => Some (Some count)
  | Some _ =>
      match fuel with
      | O => None
      | S fuel =>
          '(ok, p) ← lpValidateNext lp p bytes;
          if (ok : bool) then validate_entries fuel lp p bytes (uint 32 (count + 1))
          else Some None
      end
  end.

Definition lpValidateIntegrity (lp : bytes) (size : Z) (deep : bool) : option bool :=
  if size <? LP_HDR_SIZE + 1 then Some false
  else
    bytes ← lpGetTotalBytes lp;
    if negb (bytes =? size) then Some false
    else
      last ← bget lp (size - 1);
      if negb (last =? LP_EOF) then Some false
      else if negb deep then Some true
      else
        p ← lpFirst lp;
        r ← validate_entries (length lp) lp p bytes 0;
        match r with
        | None => Some false
        | Some count =>
            numele ← lpGetNumElements lp;
            Some (negb (negb (numele =? LP_HDR_NUMELE_UNKNOWN) && negb (numele =? count)))
        end.

(** ** Encoding of one element *)

Lemma lpStringToInt64_eq s : lpStringToInt64 s (blen s) = string2ll s (blen s).
Proof.
  unfold lpStringToInt64, string2ll. destruct (0 =? blen s); [done|].
  destruct (bget s 0) as [c0|] eqn:E0; [|done]. cbn [mbind option_bind].
  destruct ((blen s =? 1) && (c0 =? 48)) eqn:E1; [done|].
  destruct (c0 =? 45) eqn:E2.
  - destruct (true && (0 + 1 =? blen s)) eqn:E3; [done|].
    destruct (bget s (0 + 1)) as [c|]; [|done]. cbn [mbind option_bind].
    destruct ((49 <=? c) && (c <=? 57)); [done|].
    replace (blen s =? 1) with false by lia. by rewrite andb_false_r.
  - cbn [andb]. rewrite E0. cbn [mbind option_bind]. destruct ((49 <=? c0) && (c0 <=? 57)); [done|].
    by rewrite andb_comm, E1.
Qed.

(** The integer a string is stored as, if any. *)
Definition int_of (s : bytes) : option Z := default None (lpStringToInt64 s (blen s)).

Lemma int_of_spec s :
  lpStringToInt64 s (blen s) = Some (int_of s) /\
  forall v, int_of s = Some v <-> in_sint 64 v /\ decimal s v.
Proof.
  unfold int_of. rewrite lpStringToInt64_eq. destruct (string2ll_spec s) as (r & -> & Hr). done.
Qed.

Definition str_encoding (s : bytes) : bytes :=
  let len := blen s in
  (if len <? 64 then [uint 8 (Z.lor len 0x80)]
   else if len <? 4096 then [uint 8 (Z.lor (Z.shiftr len 8) 0xE0); Z.land len 0xff]
   else [0xF0; Z.land len 0xff; Z.land (Z.shiftr len 8) 0xff; Z.land (Z.shiftr len 16) 0xff;
         Z.land (Z.shiftr len 24) 0xff]) ++ s.

Definition enc (s : bytes) : bytes :=
  match int_of s with Some v => int_encoding v | None => str_encoding s end.

Definition entry (s : bytes) : bytes := enc s ++ lpEncodeBacklen (blen (enc s)).

(** Little endian fields read and written byte by byte. *)
Lemma get_le_app A bs C n p sh :
  is_bytes bs -> p = blen A -> n = length bs -> 0 <= sh ->
  get_le (A ++ bs ++ C) p n sh = Some (Z.shiftl (le_val bs) sh).
Proof.
  intros Hb -> ->. revert A sh. induction Hb as [|b bs Hb Hbs IH]; intros A sh Hs; cbn [get_le length le_val].
  - by rewrite Z.shiftl_0_l.
  - rewrite (bget_app A b (bs ++ C) _ eq_refl : bget (A ++ (b :: bs) ++ C) _ = _).
    cbn [mbind option_bind]. specialize (IH (A ++ [b]) (sh + 8) ltac:(lia)).
    rewrite <- app_assoc in IH. cbn [app] in IH.
    replace (blen (A ++ [b])) with (blen A + 1) in IH by by autorewrite with cmem.
    cbn [app]. rewrite IH. cbn [mbind option_bind]. f_equal.
    rewrite (Z.add_comm sh 8), <- Z.shiftl_shiftl by lia.
    rewrite <- Z.shiftl_lor. f_equal.
    rewrite lor_shiftl by (unfold is_byte in Hb; lia). lia.
Qed.

Lemma get_le_0 A bs C n p :
  is_bytes bs -> p = blen A -> n = length bs -> get_le (A ++ bs ++ C) p n 0 = Some (le_val bs).
Proof. intros. by rewrite get_le_app, Z.shiftl_0_r. Qed.

Lemma get_le_1 A x bs C n :
  is_bytes bs -> n = length bs -> get_le (A ++ x :: bs ++ C) (blen A + 1) n 0 = Some (le_val bs).
Proof.
  intros. replace (A ++ x :: bs ++ C) with ((A ++ [x]) ++ bs ++ C) by by rewrite <- app_assoc.
  apply get_le_0; [done|by autorewrite with cmem|done].
Qed.

Lemma le4 v : [Z.land v 255; Z.land (Z.shiftr v 8) 255; Z.land (Z.shiftr v 16) 255; Z.land (Z.shiftr v 24) 255]
  = le_bytes 4 v.
Proof.
  rewrite !land_ff, !Z.shiftr_div_pow2 by lia. cbn [le_bytes].
  rewrite !Z.div_div by lia. done.
Qed.
Lemma le2 v : [Z.land v 255; Z.land (Z.shiftr v 8) 255] = le_bytes 2 v.
Proof. by rewrite !land_ff, !Z.shiftr_div_pow2 by lia. Qed.

Section Header.
Context (total num : Z) (R : bytes).
Abbreviation hd := (le_bytes 4 total ++ le_bytes 2 num ++ R).

Lemma total_hd : in_uint 32 total -> lpGetTotalBytes hd = Some total.
Proof.
  intros H. unfold lpGetTotalBytes.
  pose proof (get_le_0 [] (le_bytes 4 total) (le_bytes 2 num ++ R) 4 0) as Hg.
  rewrite app_nil_l in Hg. rewrite Hg;
    [by rewrite uint_le_bytes|apply le_bytes_is_bytes|done|by rewrite length_le_bytes].
Qed.
Lemma num_hd : in_uint 16 num -> lpGetNumElements hd = Some num.
Proof.
  intros H. unfold lpGetNumElements. rewrite get_le_0;
    [by rewrite uint_le_bytes|apply le_bytes_is_bytes|by rewrite blen_le_bytes|by rewrite length_le_bytes].
Qed.
End Header.

Lemma set_total_hd a R total :
  blen a = 4 -> lpSetTotalBytes (a ++ R) total = Some (le_bytes 4 total ++ R).
Proof.
  intros Ha. assert (lpSetTotalBytes (a ++ R) total = bwrite (a ++ R) 0 (le_bytes 4 total)) as ->.
  { rewrite <- le4. unfold lpSetTotalBytes. bset_chain. }
  by apply (bwrite_app [] a).
Qed.

Lemma set_num_hd a b R num :
  blen a = 4 -> blen b = 2 -> lpSetNumElements (a ++ b ++ R) num = Some (a ++ le_bytes 2 num ++ R).
Proof.
  intros Ha Hb.
  assert (lpSetNumElements (a ++ b ++ R) num = bwrite (a ++ b ++ R) 4 (le_bytes 2 num)) as ->.
  { rewrite <- le2. unfold lpSetNumElements. bset_chain. }
  by apply bwrite_app; rewrite ?blen_le_bytes.
Qed.

(** Which of the encoding tests a first byte passes. *)
Definition classify (b : Z) : list bool :=
  [LP_ENCODING_IS_7BIT_UINT b; LP_ENCODING_IS_6BIT_STR b; LP_ENCODING_IS_13BIT_INT b;
   LP_ENCODING_IS_16BIT_INT b; LP_ENCODING_IS_24BIT_INT b; LP_ENCODING_IS_32BIT_INT b;
   LP_ENCODING_IS_64BIT_INT b; LP_ENCODING_IS_12BIT_STR b; LP_ENCODING_IS_32BIT_STR b].

Lemma byte_7bit x : 0 <= x < 128 ->
  classify x = [true; false; false; false; false; false; false; false; false] /\
  uint 8 x = x /\ Z.land x 127 = x /\ x <> 255.
Proof. revert x. by_enum 128%nat. Qed.
Lemma byte_6bit x : 0 <= x < 64 -> let b := uint 8 (Z.lor x 0x80) in
  classify b = [false; true; false; false; false; false; false; false; false] /\
  Z.land b 0x3F = x /\ b <> 255 /\ is_byte b.
Proof. revert x. by_enum 64%nat. Qed.
Lemma byte_13bit x : 0 <= x < 32 -> let b := uint 8 (Z.lor x 0xC0) in
  classify b = [false; false; true; false; false; false; false; false; false] /\
  Z.land b 0x1f = x /\ b <> 255 /\ is_byte b.
Proof. revert x. by_enum 32%nat. Qed.
Lemma byte_12bit x : 0 <= x < 16 -> let b := uint 8 (Z.lor x 0xE0) in
  classify b = [false; false; false; false; false; false; false; true; false] /\
  Z.land b 0xF = x /\ b <> 255 /\ is_byte b.
Proof. revert x. by_enum 16%nat. Qed.

(** The tests on a constant first byte. *)
Ltac const_class b :=
  repeat match goal with
  | |- context [?f b] =>
      lazymatch type of (f b) with
      | bool => let v := eval vm_compute in (f b) in change (f b) with v
      end
  end; cbv iota.

Ltac use_class H :=
  let h := fresh in pose proof H as h; unfold classify in h;
  injection h; clear h; intros;
  repeat match goal with
  | h : LP_ENCODING_IS_7BIT_UINT _ = _ |- _ => rewrite ?h; clear h
  | h : LP_ENCODING_IS_6BIT_STR _ = _ |- _ => rewrite ?h; clear h
  | h : LP_ENCODING_IS_13BIT_INT _ = _ |- _ => rewrite ?h; clear h
  | h : LP_ENCODING_IS_16BIT_INT _ = _ |- _ => rewrite ?h; clear h
  | h : LP_ENCODING_IS_24BIT_INT _ = _ |- _ => rewrite ?h; clear h
  | h : LP_ENCODING_IS_32BIT_INT _ = _ |- _ => rewrite ?h; clear h
  | h : LP_ENCODING_IS_64BIT_INT _ = _ |- _ => rewrite ?h; clear h
  | h : LP_ENCODING_IS_12BIT_STR _ = _ |- _ => rewrite ?h; clear h
  | h : LP_ENCODING_IS_32BIT_STR _ = _ |- _ => rewrite ?h; clear h
  end.

(** The shapes an encoded element has: its first byte, what it announces, and
    the rest. *)
Inductive shape : bytes -> lpval -> bytes -> Prop :=
| shape7 v : 0 <= v < 128 -> shape [v] (LInt v) []
| shape13 v : -4096 <= v < 4096 ->
    shape [uint 8 (Z.lor ((v mod 2 ^ 13) / 256) 0xC0); (v mod 2 ^ 13) mod 256] (LInt v) []
| shape16 v : in_sint 16 v -> shape (0xF1 :: le_bytes 2 v) (LInt v) []
| shape24 v : in_sint 24 v -> shape (0xF2 :: le_bytes 3 v) (LInt v) []
| shape32 v : in_sint 32 v -> shape (0xF3 :: le_bytes 4 v) (LInt v) []
| shape64 v : in_sint 64 v -> shape (0xF4 :: le_bytes 8 v) (LInt v) []
| shape6s s : blen s < 64 -> shape [uint 8 (Z.lor (blen s) 0x80)] (LStr 1 (blen s)) s
| shape12s s : 64 <= blen s < 4096 ->
    shape [uint 8 (Z.lor (blen s / 256) 0xE0); blen s mod 256] (LStr 2 (blen s)) s
| shape32s s : 4096 <= blen s < 2 ^ 32 - 5 ->
    shape (0xF0 :: le_bytes 4 (blen s)) (LStr 5 (blen s)) s.

Lemma signed_mod v k : 0 <= k -> - 2 ^ k <= v < 2 ^ k -> (if v <? 0 then Z.shiftl 1 k + v else v) = v mod 2 ^ k.
Proof.
  intros Hk Hv. rewrite Z.shiftl_mul_pow2, Z.mul_1_l by lia. bcase.
  - apply (Z.mod_unique_pos _ _ (-1)); lia.
  - by rewrite Z.mod_small by lia.
Qed.

Lemma le_bytes_wrap n v : le_bytes n (v mod 2 ^ (8 * Z.of_nat n)) = le_bytes n v.
Proof. apply le_bytes_mod. rewrite Z.mod_mod; [done|]. apply Z.pow_nonzero; lia. Qed.

Lemma int_shape v : in_sint 64 v -> shape (int_encoding v) (LInt v) [].
Proof.
  intros Hv. unfold int_encoding.
  assert (forall u, uint 8 u = u mod 256) as Hu8 by done.
  bcase; [rewrite uint_small by (unfold in_uint; lia); constructor; lia|].
  bcase.
  { rewrite signed_mod by lia. rewrite land_ff, Z.shiftr_div_pow2 by lia. by constructor; lia. }
  bcase.
  { rewrite signed_mod by lia. rewrite land_ff, Z.shiftr_div_pow2, Hu8 by lia.
    pose proof (shape16 v ltac:(unfold in_sint; lia)) as Hs. by rewrite <- (le_bytes_wrap 2) in Hs. }
  bcase.
  { rewrite signed_mod by lia. rewrite !land_ff, !Z.shiftr_div_pow2, Hu8 by lia.
    pose proof (shape24 v ltac:(unfold in_sint; lia)) as Hs. rewrite <- (le_bytes_wrap 3) in Hs.
    cbn [le_bytes] in Hs. by rewrite !Z.div_div in Hs by lia. }
  bcase.
  { rewrite signed_mod by lia. rewrite !land_ff, !Z.shiftr_div_pow2, Hu8 by lia.
    pose proof (shape32 v ltac:(unfold in_sint; lia)) as Hs. rewrite <- (le_bytes_wrap 4) in Hs.
    cbn [le_bytes] in Hs. by rewrite !Z.div_div in Hs by lia. }
  rewrite !land_ff, !Z.shiftr_div_pow2, Hu8 by lia.
  pose proof (shape64 v Hv) as Hs. rewrite <- (le_bytes_wrap 8) in Hs.
  cbn [le_bytes] in Hs. by rewrite !Z.div_div in Hs by lia.
Qed.

Lemma lp_signed_ok k u :
  0 < k <= 64 -> 0 <= u < 2 ^ k -> lp_signed u (Z.shiftl 1 (k - 1)) (2 ^ k - 1) = LInt (sint k u).
Proof.
  intros Hk Hu. pose proof (pow2_half k ltac:(lia)).
  pose proof (Z.pow_le_mono_r 2 (k - 1) 63 ltac:(lia) ltac:(lia)).
  assert (sint k u = if u <? 2 ^ (k - 1) then u else u - 2 ^ k) as ->
    by (unfold sint; by rewrite Z.mod_small by lia).
  unfold lp_signed. rewrite Z.shiftl_mul_pow2, Z.mul_1_l, Z.geb_leb by lia. f_equal.
  bdestr (2 ^ (k - 1) <=? u); bdec.
  - rewrite uint_small by (unfold in_uint; lia). 
    rewrite (sint_small 64 (2 ^ k - 1 - u)), sint_small by (unfold in_sint; lia). lia.
  - by rewrite sint_small by (unfold in_sint; lia).
Qed.

Section Element.
Context (A C : bytes).

(** An encoded element at [blen A] announces its size and its value. *)
Lemma shape_size h v s :
  shape h v s -> lpCurrentEncodedSizeUnsafe (A ++ h ++ s ++ C) (blen A) = Some (blen (h ++ s)).
Proof.
  intros Hs. unfold lpCurrentEncodedSizeUnsafe. destruct Hs; cbn [app].
  all: rewrite bget_app by done; cbn [mbind option_bind].
  - by use_class (proj1 (byte_7bit v H)).
  - assert (0 <= v mod 2 ^ 13 / 256 < 32) as Hb by (pose proof (Z.mod_pos_bound v (2 ^ 13)); dlia).
    by use_class (proj1 (byte_13bit _ Hb)).
  - done.
  - done.
  - done.
  - done.
  - destruct (byte_6bit (blen s)) as (Hc & Hl & _); [pose proof (blen_nonneg s); lia|].
    use_class Hc. unfold LP_ENCODING_6BIT_STR_LEN. rewrite bget_app by done. cbn [mbind option_bind].
    by rewrite Hl, blen_cons.
  - destruct (byte_12bit (blen s / 256)) as (Hc & Hl & _); [dlia|].
    use_class Hc. unfold LP_ENCODING_12BIT_STR_LEN. rewrite (bget_app A _ _ (blen A)) by done. cbn [mbind option_bind].
    rewrite Hl, bget_app1. cbn [mbind option_bind]. rewrite Z.lor_comm, lor_shiftl, !blen_cons; [f_equal; dlia|lia|dlia].
  - const_class 240. unfold LP_ENCODING_32BIT_STR_LEN.
    rewrite (get_le_1 A 240 (le_bytes 4 (blen s))) by (done || apply le_bytes_is_bytes).
    cbn [mbind option_bind]. rewrite uint_le_bytes, uint_small by (unfold in_uint; lia).
    autorewrite with cmem. f_equal. lia.
Qed.

Lemma shape_bytes h v s :
  shape h v s -> exists k, lpCurrentEncodedSizeBytes (A ++ h ++ s ++ C) (blen A) = Some k /\
    1 <= k <= blen (h ++ s).
Proof.
  intros Hs. unfold lpCurrentEncodedSizeBytes. destruct Hs; cbn [app].
  all: rewrite bget_app by done; cbn [mbind option_bind].
  - use_class (proj1 (byte_7bit v H)). by exists 1.
  - assert (0 <= v mod 2 ^ 13 / 256 < 32) as Hb by (pose proof (Z.mod_pos_bound v (2 ^ 13)); dlia).
    use_class (proj1 (byte_13bit _ Hb)). by exists 1.
  - by exists 1.
  - by exists 1.
  - by exists 1.
  - by exists 1.
  - destruct (byte_6bit (blen s)) as (Hc & _); [pose proof (blen_nonneg s); lia|].
    use_class Hc. exists 1. rewrite blen_cons. pose proof (blen_nonneg s). split; [done|lia].
  - destruct (byte_12bit (blen s / 256)) as (Hc & _); [dlia|].
    use_class Hc. exists 2. rewrite !blen_cons. split; [done|lia].
  - const_class 240. exists 5. autorewrite with cmem. split; [done|lia].
Qed.

(** The value as [lpGet] returns it, relative to the element. *)
Definition lpval_at (p : Z) (v : lpval) : lpval :=
  match v with LInt v => LInt v | LStr o n => LStr (p + o) n end.

Lemma shape_get h v s :
  shape h v s -> lpGet (A ++ h ++ s ++ C) (blen A) = Some (lpval_at (blen A) v).
Proof.
  intros Hs. unfold lpGet.
  assert (forall k v bs, 0 < k <= 64 -> in_sint k v -> bs = v mod 2 ^ k ->
    lp_signed bs (Z.shiftl 1 (k - 1)) (2 ^ k - 1) = LInt v) as Hsig.
  { intros k v0 bs Hk Hv ->. rewrite lp_signed_ok by (try apply Z.mod_pos_bound, pow2_pos; lia).
    rewrite sint_uint, sint_small by (done || lia). done. }
  destruct Hs; cbn [app]; rewrite (bget_app A _ _ (blen A)) by done; cbn [mbind option_bind].
  - destruct (byte_7bit v H) as (Hc & _ & Hl & _). use_class Hc. rewrite Hl. do 2 f_equal.
    unfold lp_signed, UINT64_MAX. bdec. by rewrite sint_small by (unfold in_sint; lia).
  - assert (0 <= v mod 2 ^ 13 / 256 < 32) as Hb by (pose proof (Z.mod_pos_bound v (2 ^ 13)); dlia).
    destruct (byte_13bit _ Hb) as (Hc & Hl & _). use_class Hc. rewrite bget_app1, Hl.
    cbn [mbind option_bind]. f_equal. apply (Hsig 13); [lia|unfold in_sint; lia|].
    rewrite Z.lor_comm, lor_shiftl by (try apply Z.mod_pos_bound; lia).
    pose proof (Z.div_mod (v mod 2 ^ 13) 256). lia.
  - const_class 241. rewrite get_le_1 by (done || apply le_bytes_is_bytes). cbn [mbind option_bind]. f_equal.
    apply (Hsig 16); [lia|done|]. apply (le_val_le_bytes 2).
  - const_class 242. rewrite get_le_1 by (done || apply le_bytes_is_bytes). cbn [mbind option_bind]. f_equal.
    apply (Hsig 24); [lia|done|]. apply (le_val_le_bytes 3).
  - const_class 243. rewrite get_le_1 by (done || apply le_bytes_is_bytes). cbn [mbind option_bind]. f_equal.
    apply (Hsig 32); [lia|done|]. apply (le_val_le_bytes 4).
  - const_class 244. rewrite get_le_1 by (done || apply le_bytes_is_bytes). cbn [mbind option_bind]. f_equal.
    apply (Hsig 64); [lia|done|]. apply (le_val_le_bytes 8).
  - destruct (byte_6bit (blen s)) as (Hc & Hl & _); [pose proof (blen_nonneg s); lia|].
    use_class Hc. unfold LP_ENCODING_6BIT_STR_LEN. rewrite (bget_app A _ _ (blen A)) by done.
    cbn [mbind option_bind]. by rewrite Hl.
  - destruct (byte_12bit (blen s / 256)) as (Hc & Hl & _); [dlia|].
    use_class Hc. unfold LP_ENCODING_12BIT_STR_LEN. rewrite (bget_app A _ _ (blen A)) by done. cbn [mbind option_bind].
    rewrite Hl, bget_app1. cbn [mbind option_bind lpval_at].
    rewrite Z.lor_comm, lor_shiftl; [do 2 f_equal; dlia|lia|dlia].
  - const_class 240. unfold LP_ENCODING_32BIT_STR_LEN.
    rewrite (get_le_1 A 240 (le_bytes 4 (blen s))) by (done || apply le_bytes_is_bytes).
    cbn [mbind option_bind]. by rewrite uint_le_bytes by (unfold in_uint; lia).
Qed.

Lemma shape_head h v s : shape h v s -> exists b r, h ++ s = b :: r /\ b <> LP_EOF.
Proof.
  intros Hs. destruct Hs; eexists _, _; (split; [done|]); unfold LP_EOF; try done.
  - lia.
  - assert (0 <= v mod 2 ^ 13 / 256 < 32) as Hb by (pose proof (Z.mod_pos_bound v (2 ^ 13)); dlia).
    by destruct (byte_13bit _ Hb) as (_ & _ & ? & _).
  - destruct (byte_6bit (blen s)) as (_ & _ & ? & _); [pose proof (blen_nonneg s); lia|done].
  - destruct (byte_12bit (blen s / 256)) as (_ & _ & ? & _); [dlia|done].
Qed.
End Element.

(** ** The backward length field *)

Lemma cont_byte x :
  Z.land (Z.lor (Z.land x 127) 128) 127 = x mod 128 /\
  (Z.land (Z.lor (Z.land x 127) 128) 128 =? 0) = false.
Proof.
  rewrite (land_7f x). pose proof (Z.mod_pos_bound x 128 ltac:(lia)) as H. revert H.
  generalize (x mod 128). by_enum 128%nat.
Qed.

Lemma last_byte b : 0 <= b < 128 -> Z.land b 127 = b /\ (Z.land b 128 =? 0) = true.
Proof. revert b. by_enum 128%nat. Qed.

Lemma decode_digit val y shift :
  0 <= shift <= 28 -> 0 <= val < 2 ^ shift -> 0 <= y < 128 ->
  Z.lor val (uint 64 (Z.shiftl y shift)) = val + y * 2 ^ shift.
Proof.
  intros Hs Hv Hy. rewrite uint_small; [apply lor_shiftl; lia|].
  unfold in_uint. rewrite Z.shiftl_mul_pow2 by lia.
  pose proof (Z.pow_le_mono_r 2 shift 28 ltac:(lia) ltac:(lia)). pose proof (pow2_pos shift). nia.
Qed.

Lemma decode_cont f lp p val shift x :
  bget lp p = Some (Z.lor (Z.land x 127) 128) -> 0 <= shift -> shift + 7 <= 28 -> 0 <= val < 2 ^ shift ->
  lpDecodeBacklen_loop (S f) lp p val shift
  = lpDecodeBacklen_loop f lp (p - 1) (val + (x mod 128) * 2 ^ shift) (shift + 7).
Proof.
  intros Hb Hs Hs2 Hv. cbn [lpDecodeBacklen_loop]. rewrite Hb. cbn [mbind option_bind].
  destruct (cont_byte x) as [-> ->]. rewrite decode_digit by (try apply Z.mod_pos_bound; lia). by bdec.
Qed.

Lemma decode_last f lp p val shift b :
  bget lp p = Some b -> 0 <= b < 128 -> 0 <= shift <= 28 -> 0 <= val < 2 ^ shift ->
  lpDecodeBacklen_loop (S f) lp p val shift = Some (val + b * 2 ^ shift).
Proof.
  intros Hb Hr Hs Hv. cbn [lpDecodeBacklen_loop]. rewrite Hb. cbn [mbind option_bind].
  destruct (last_byte b Hr) as [-> ->]. by rewrite decode_digit.
Qed.

Ltac decode_cont_step pre :=
  erewrite decode_cont;
  [ | eapply (bget_at _ _ pre); [rewrite <- ?app_assoc; reflexivity|autorewrite with cmem; lia]
    | lia | lia | rewrite ?Z.shiftr_div_pow2 by lia; dlia ].

Lemma lpDecodeBacklen_encode A C l :
  0 <= l < 2 ^ 35 ->
  lpDecodeBacklen (A ++ lpEncodeBacklen l ++ C) (blen A + lpBacklenSize l - 1) = Some l.
Proof.
  intros Hl. unfold lpBacklenSize, lpDecodeBacklen, lpEncodeBacklen. repeat bcase.
  - rewrite uint_small by (unfold in_uint; lia).
    rewrite (decode_last _ _ _ _ _ l); [f_equal; lia|apply (bget_at _ _ A _ C); [done|autorewrite with cmem; lia]|lia|lia|lia].
  - set (b0 := uint 8 _). decode_cont_step (A ++ [b0]).
    erewrite (decode_last _ _ _ _ _ b0);
      [|eapply (bget_at _ _ A); [done|autorewrite with cmem; lia]| |lia|dlia];
      subst b0; rewrite Z.shiftr_div_pow2, uint_small by (unfold in_uint; dlia); [f_equal; dlia|dlia].
  - set (b0 := uint 8 _). set (b1 := Z.lor (Z.land (Z.shiftr l 7) 127) 128).
    decode_cont_step (A ++ [b0; b1]). decode_cont_step (A ++ [b0]).
    erewrite (decode_last _ _ _ _ _ b0);
      [|eapply (bget_at _ _ A); [done|autorewrite with cmem; lia]| |lia|rewrite Z.shiftr_div_pow2 by lia; dlia];
      subst b0; rewrite !Z.shiftr_div_pow2, uint_small by (unfold in_uint; dlia); [f_equal; dlia|dlia].
  - set (b0 := uint 8 _). set (b1 := Z.lor (Z.land (Z.shiftr l 14) 127) 128).
    set (b2 := Z.lor (Z.land (Z.shiftr l 7) 127) 128).
    decode_cont_step (A ++ [b0; b1; b2]). decode_cont_step (A ++ [b0; b1]). decode_cont_step (A ++ [b0]).
    erewrite (decode_last _ _ _ _ _ b0);
      [|eapply (bget_at _ _ A); [done|autorewrite with cmem; lia]| |lia|rewrite !Z.shiftr_div_pow2 by lia; dlia];
      subst b0; rewrite !Z.shiftr_div_pow2, uint_small by (unfold in_uint; dlia); [f_equal; dlia|dlia].
  - set (b0 := uint 8 _). set (b1 := Z.lor (Z.land (Z.shiftr l 21) 127) 128).
    set (b2 := Z.lor (Z.land (Z.shiftr l 14) 127) 128). set (b3 := Z.lor (Z.land (Z.shiftr l 7) 127) 128).
    decode_cont_step (A ++ [b0; b1; b2; b3]). decode_cont_step (A ++ [b0; b1; b2]).
    decode_cont_step (A ++ [b0; b1]). decode_cont_step (A ++ [b0]).
    erewrite (decode_last _ _ _ _ _ b0);
      [|eapply (bget_at _ _ A); [done|autorewrite with cmem; lia]| |lia|rewrite !Z.shiftr_div_pow2 by lia; dlia];
      subst b0; rewrite !Z.shiftr_div_pow2, uint_small by (unfold in_uint; dlia); [f_equal; dlia|dlia].
Qed.

(** ** Representation of a list of strings *)

Definition body (L : list bytes) : bytes := L ≫= entry.
Definition lpsize (L : list bytes) : Z := 7 + blen (body L).
(** Where the element that follows the elements [L1] starts. *)
Definition off (L1 : list bytes) : Z := LP_HDR_SIZE + blen (body L1).
(** The element count of the header. *)
Definition num_ok (num : Z) (L : list bytes) : Prop :=
  num = LP_HDR_NUMELE_UNKNOWN \/ num = Z.of_nat (length L) /\ num < LP_HDR_NUMELE_UNKNOWN.

Definition layout (num : Z) (slack : bytes) (L : list bytes) : bytes :=
  le_bytes 4 (lpsize L) ++ le_bytes 2 num ++ body L ++ LP_EOF :: slack.

Definition rep (lp : bytes) (L : list bytes) : Prop :=
  exists num slack, lp = layout num slack L /\ lpsize L < 2 ^ 32 /\ num_ok num L.

(** The pointer to element [i]. *)
Definition ptr (L : list bytes) (i : nat) : option Z :=
  if (i <? length L)%nat then Some (off (take i L)) else None.

Lemma body_app L K : body (L ++ K) = body L ++ body K.
Proof. apply bind_app. Qed.
Lemma body_cons s L : body (s :: L) = entry s ++ body L.
Proof. done. Qed.
Lemma off_nonneg L : LP_HDR_SIZE <= off L.
Proof. unfold off. pose proof (blen_nonneg (body L)). lia. Qed.
Lemma off_snoc L s : off (L ++ [s]) = off L + blen (entry s).
Proof. unfold off. rewrite body_app, body_cons, app_nil_r, blen_app. lia. Qed.
Lemma off_lt L1 L2 : off L1 < lpsize (L1 ++ L2).
Proof.
  unfold off, lpsize, LP_HDR_SIZE. rewrite body_app, blen_app. pose proof (blen_nonneg (body L2)). lia.
Qed.

Lemma ptr_mid L1 s L2 : ptr (L1 ++ s :: L2) (length L1) = Some (off L1).
Proof.
  unfold ptr. rewrite length_app, take_app_length. simpl.
  destruct (Nat.ltb_spec (length L1) (length L1 + S (length L2))); [done|lia].
Qed.
Lemma ptr_end L : ptr L (length L) = None.
Proof. unfold ptr. by rewrite Nat.ltb_irrefl. Qed.

(** What reading the element of [s] gives. *)
Definition value_of (s : bytes) : lpval :=
  match int_of s with
  | Some v => LInt v
  | None => LStr (if blen s <? 64 then 1 else if blen s <? 4096 then 2 else 5) (blen s)
  end.

Lemma enc_shape s :
  blen (enc s) < 2 ^ 32 ->
  exists h t, enc s = h ++ t /\ shape h (value_of s) t /\ (int_of s = None -> t = s).
Proof.
  unfold enc, value_of. destruct (int_of_spec s) as [_ Hi]. destruct (int_of s) as [v|] eqn:E.
  - intros _. exists (int_encoding v), []. rewrite app_nil_r. split; [done|]. split; [|done].
    apply int_shape. by apply Hi.
  - intros Hl. unfold str_encoding in *. pose proof (blen_nonneg s).
    revert Hl. repeat bcase; intros Hl; rewrite blen_app in Hl; change (blen (_ :: _)) with 5 in Hl || idtac.
    + eexists _, _. split; [done|]. split; [by constructor|done].
    + eexists _, _. split; [done|]. split; [|done]. rewrite land_ff, Z.shiftr_div_pow2 by lia. constructor. lia.
    + eexists _, _. split; [done|]. split; [|done]. rewrite le4. constructor. lia.
Qed.

Section Nav.
Context (num : Z) (slack : bytes).

(** The listpack split at an element. *)
Lemma layout_at L1 s L2 : exists A C,
  layout num slack (L1 ++ s :: L2) = A ++ enc s ++ lpEncodeBacklen (blen (enc s)) ++ C /\ blen A = off L1.
Proof.
  exists (le_bytes 4 (lpsize (L1 ++ s :: L2)) ++ le_bytes 2 num ++ body L1),
    (body L2 ++ LP_EOF :: slack). split.
  - unfold layout. rewrite (body_app L1), body_cons. unfold entry. by rewrite <- !app_assoc.
  - autorewrite with cmem. unfold off, LP_HDR_SIZE. lia.
Qed.

Lemma enc_bound L1 s L2 :
  lpsize (L1 ++ s :: L2) < 2 ^ 32 ->
  blen (entry s) + 6 < 2 ^ 32 /\ blen (entry s) = blen (enc s) + lpBacklenSize (blen (enc s)) /\
  1 <= lpBacklenSize (blen (enc s)) <= 5.
Proof.
  unfold lpsize. rewrite body_app, body_cons, !blen_app. intros H.
  pose proof (blen_nonneg (body L1)). pose proof (blen_nonneg (body L2)).
  split; [lia|]. unfold entry. rewrite blen_app. split; [done|].
  unfold lpBacklenSize, lpEncodeBacklen. repeat bcase; rewrite !blen_cons, blen_nil; lia.
Qed.

Lemma size_at L1 s L2 :
  lpsize (L1 ++ s :: L2) < 2 ^ 32 ->
  lpCurrentEncodedSizeUnsafe (layout num slack (L1 ++ s :: L2)) (off L1) = Some (blen (enc s)).
Proof.
  intros H. destruct (enc_bound L1 s L2 H) as (H1 & H2 & H3).
  destruct (enc_shape s) as (h & t & He & Hs & _); [lia|].
  destruct (layout_at L1 s L2) as (A & C & -> & <-). rewrite He at 1. rewrite <- app_assoc.
  rewrite (shape_size A _ h (value_of s) t) by done. by rewrite He.
Qed.

Lemma skip_at L1 s L2 :
  lpsize (L1 ++ s :: L2) < 2 ^ 32 ->
  lpSkip (layout num slack (L1 ++ s :: L2)) (off L1) = Some (off (L1 ++ [s])).
Proof.
  intros H. unfold lpSkip. rewrite size_at by done. cbn [mbind option_bind].
  destruct (enc_bound L1 s L2 H) as (_ & Hl & _). rewrite off_snoc. by rewrite Hl.
Qed.

Lemma byte_at L1 L2 :
  lpsize (L1 ++ L2) < 2 ^ 32 ->
  exists b, bget (layout num slack (L1 ++ L2)) (off L1) = Some b /\
    (b =? LP_EOF) = match L2 with [] => true | _ => false end.
Proof.
  intros H. destruct L2 as [|s L2].
  - exists LP_EOF. split; [|done]. rewrite app_nil_r. unfold layout. rewrite !app_assoc.
    apply bget_app. autorewrite with cmem. unfold off, LP_HDR_SIZE. lia.
  - destruct (enc_bound L1 s L2 H) as (H1 & H2 & H3).
    destruct (enc_shape s) as (h & t & He & Hs & _); [lia|].
    destruct (shape_head h (value_of s) t Hs) as (b & r & Hhd & Hb). exists b.
    destruct (layout_at L1 s L2) as (A & C & -> & <-). rewrite He at 1. rewrite Hhd.
    split; [by apply bget_app|]. by apply Z.eqb_neq.
Qed.

Lemma total_at L : lpsize L < 2 ^ 32 -> lpGetTotalBytes (layout num slack L) = Some (lpsize L).
Proof. intros. apply total_hd. split; [unfold lpsize; pose proof (blen_nonneg (body L)); lia|done]. Qed.

Lemma integrity_at L1 L2 :
  lpsize (L1 ++ L2) < 2 ^ 32 -> ASSERT_INTEGRITY (layout num slack (L1 ++ L2)) (off L1) = Some tt.
Proof.
  intros H. unfold ASSERT_INTEGRITY. rewrite total_at by done. cbn [mbind option_bind].
  pose proof (off_nonneg L1). pose proof (off_lt L1 L2). by bdec.
Qed.

Lemma lpNext_at L1 s L2 :
  lpsize (L1 ++ s :: L2) < 2 ^ 32 ->
  lpNext (layout num slack (L1 ++ s :: L2)) (off L1) = Some (ptr (L1 ++ s :: L2) (S (length L1))).
Proof.
  intros H. unfold lpNext. rewrite skip_at by done. cbn [mbind option_bind].
  replace (L1 ++ s :: L2) with ((L1 ++ [s]) ++ L2) in * by by rewrite <- app_assoc.
  rewrite integrity_at by done. cbn [mbind option_bind].
  destruct (byte_at (L1 ++ [s]) L2 H) as (b & -> & Hb). cbn [mbind option_bind]. rewrite Hb. f_equal.
  replace (S (length L1)) with (length (L1 ++ [s])) by (rewrite length_app; simpl; lia).
  destruct L2; [by rewrite app_nil_r, ptr_end|by rewrite ptr_mid].
Qed.

Lemma lpPrev_at L1 s L2 :
  lpsize (L1 ++ s :: L2) < 2 ^ 32 ->
  lpPrev (layout num slack (L1 ++ s :: L2)) (off (L1 ++ [s])) = Some (Some (off L1)).
Proof.
  intros H. unfold lpPrev. destruct (enc_bound L1 s L2 H) as (H1 & H2 & H3).
  pose proof (off_nonneg L1). pose proof (blen_nonneg (enc s)). rewrite off_snoc. bdec.
  assert (lpDecodeBacklen (layout num slack (L1 ++ s :: L2)) (off L1 + blen (entry s) - 1)
    = Some (blen (enc s))) as ->.
  { destruct (layout_at L1 s L2) as (A & C & -> & <-). rewrite app_assoc.
    etrans; [|apply (lpDecodeBacklen_encode (A ++ enc s) C); lia]. f_equal. rewrite H2, blen_app. lia. }
  cbn [mbind option_bind].
  rewrite (uint_small 64 (_ + _)), uint_small by (unfold in_uint; lia).
  replace (off L1 + blen (entry s) - 1 - (blen (enc s) + lpBacklenSize (blen (enc s)) - 1)) with (off L1) by lia.
  by rewrite integrity_at.
Qed.

Lemma lpGet_at L1 s L2 :
  lpsize (L1 ++ s :: L2) < 2 ^ 32 ->
  lpGet (layout num slack (L1 ++ s :: L2)) (off L1) = Some (lpval_at (off L1) (value_of s)) /\
  (int_of s = None ->
   match lpval_at (off L1) (value_of s) with
   | LStr p n => bread (layout num slack (L1 ++ s :: L2)) p n = Some s
   | LInt _ => False
   end).
Proof.
  intros H. destruct (enc_bound L1 s L2 H) as (H1 & H2 & H3).
  destruct (enc_shape s) as (h & t & He & Hs & Ht); [lia|].
  destruct (layout_at L1 s L2) as (A & C & -> & <-). rewrite !He, <- !(app_assoc h t). split.
  - by apply shape_get.
  - intros Hn. rewrite Ht in * by done. unfold value_of in *. rewrite Hn in *. cbn [lpval_at].
    rewrite app_assoc. apply bread_app; [|done]. rewrite blen_app. f_equal.
    by inv Hs; autorewrite with cmem.
Qed.
End Nav.

(** ** Insertion, replacement, deletion *)

Lemma lpEncodeString_bwrite lp buf s :
  lpEncodeString lp buf s (blen s) = bwrite lp buf (str_encoding s).
Proof.
  unfold lpEncodeString, str_encoding.
  repeat bcase; cbn [app]; bset_chain.
Qed.

Section Store.
Context (indet : nat -> Z).

(** Making room: the tail [T] moves from after [R] to after [n] bytes. *)
Definition make_room (lp : bytes) (old new dst src : Z) : option bytes :=
  let lp := if (new >? old) && (new >? blen lp) then brealloc indet lp new else lp in
  lp ← memmove lp dst src (old - src);
  Some (if new <? old then brealloc indet lp new else lp).

Lemma make_room_ok A R T slack n :
  0 <= n -> let lp := A ++ R ++ T ++ slack in
  let old := blen (A ++ R ++ T) in
  exists X slack', make_room lp old (old + n - blen R) (blen A + n) (blen A + blen R)
    = Some (A ++ X ++ T ++ slack') /\ blen X = n.
Proof.
  intros Hn. cbv zeta. unfold make_room. autorewrite with cmem.
  pose proof (blen_nonneg A). pose proof (blen_nonneg R). pose proof (blen_nonneg T). pose proof (blen_nonneg slack).
  set (new := blen A + (blen R + blen T) + n - blen R).
  assert (exists slack1, (if (new >? blen A + (blen R + blen T)) && (new >? blen A + (blen R + (blen T + blen slack)))
     then brealloc indet (A ++ R ++ T ++ slack) new else A ++ R ++ T ++ slack)
     = A ++ R ++ T ++ slack1 /\ n <= blen R + blen slack1) as (slack1 & -> & Hs1).
  { bcase.
    - destruct (brealloc_grow indet (A ++ R ++ T ++ slack) new) as (t & -> & Ht); [autorewrite with cmem; lia|].
      exists (slack ++ t). rewrite <- !app_assoc. split; [done|]. autorewrite with cmem in *. lia.
    - exists slack. split; [done|lia]. }
  destruct (split_blen (R ++ T ++ slack1) n) as (X & Y & HX & <-); [autorewrite with cmem; lia|].
  assert (blen Y = blen R + blen T + blen slack1 - blen X) as HY.
  { apply (f_equal blen) in HX. autorewrite with cmem in HX. lia. }
  destruct (split_blen Y (blen T)) as (T' & slack2 & -> & HT'); [lia|].
  rewrite HX. rewrite (app_assoc A X).
  rewrite (memmove_app _ T' slack2 _ _ _ T T);
    [|rewrite <- app_assoc, <- HX, app_assoc; apply bread_app; autorewrite with cmem; lia
     |autorewrite with cmem; lia|lia|done].
  cbn [mbind option_bind]. bcase.
  - exists X, []. split; [|done]. f_equal. rewrite app_assoc, brealloc_shrink by (autorewrite with cmem; lia).
    by rewrite app_nil_r, <- app_assoc.
  - exists X, slack2. split; [|done]. by rewrite <- app_assoc.
Qed.

(** What [lpInsert] computes of the new element before it stores it. *)
Inductive to_store : option bytes -> option enctype -> bytes -> Z -> bytes -> list bytes -> Prop :=
| store_none : to_store None None [] 0 [] []
| store_some e t ie : lpEncodeGetType e (blen e) = Some (t, ie, blen (enc e)) ->
    to_store (Some e) (Some t) ie (blen (enc e)) (lpEncodeBacklen (blen (enc e))) [e].

Lemma lpEncodeGetType_enc e : exists t ie, lpEncodeGetType e (blen e) = Some (t, ie, blen (enc e)).
Proof.
  unfold lpEncodeGetType, enc. destruct (int_of_spec e) as [-> _]. cbn [mbind option_bind].
  destruct (int_of e) as [v|]; eexists _, _; [done|]. do 2 f_equal.
  unfold str_encoding. repeat bcase; autorewrite with cmem; lia.
Qed.

Lemma store_entry A X C e t ie :
  lpEncodeGetType e (blen e) = Some (t, ie, blen (enc e)) -> blen X = blen (entry e) ->
  (lp ← (match Some t with
         | Some LP_ENCODING_INT => bwrite (A ++ X ++ C) (blen A) ie
         | _ => lpEncodeString (A ++ X ++ C) (blen A) e (blen e)
         end);
   bwrite lp (blen A + blen (enc e)) (lpEncodeBacklen (blen (enc e)))) = Some (A ++ entry e ++ C).
Proof.
  intros Ht HX. unfold entry in *. rewrite blen_app in HX.
  destruct (split_blen X (blen (enc e))) as (X1 & X2 & -> & H1); [pose proof (blen_nonneg (lpEncodeBacklen (blen (enc e)))); pose proof (blen_nonneg (enc e)); lia|].
  rewrite blen_app in HX.
  assert ((match Some t with
         | Some LP_ENCODING_INT => bwrite (A ++ (X1 ++ X2) ++ C) (blen A) ie
         | _ => lpEncodeString (A ++ (X1 ++ X2) ++ C) (blen A) e (blen e)
         end) = bwrite (A ++ (X1 ++ X2) ++ C) (blen A) (enc e)) as ->.
  { rewrite lpEncodeString_bwrite. revert Ht. unfold lpEncodeGetType, enc.
    destruct (int_of_spec e) as [-> _]. cbn [mbind option_bind]. by destruct (int_of e); intros [= <- <-]. }
  rewrite <- app_assoc, (bwrite_app A X1) by lia. cbn [mbind option_bind].
  rewrite (app_assoc A), (bwrite_app _ X2) by (autorewrite with cmem; lia). by rewrite <- !app_assoc.
Qed.

(** The last part of [lpInsert]: the element count, then the total size. *)
Lemma store_header (upd ins : bool) num old new R n n' :
  num_ok num n -> new < 2 ^ 32 ->
  (if upd then Z.of_nat (length n') = Z.of_nat (length n) + (if ins then 1 else -1)
   else length n' = length n) ->
  exists num', num_ok num' n' /\
  (lp ← (if upd then
          m ← lpGetNumElements (le_bytes 4 old ++ le_bytes 2 num ++ R);
          if negb (m =? LP_HDR_NUMELE_UNKNOWN) then
            if ins then lpSetNumElements (le_bytes 4 old ++ le_bytes 2 num ++ R) (uint 32 (m + 1))
            else lpSetNumElements (le_bytes 4 old ++ le_bytes 2 num ++ R) (uint 32 (m - 1))
          else Some (le_bytes 4 old ++ le_bytes 2 num ++ R)
        else Some (le_bytes 4 old ++ le_bytes 2 num ++ R));
   lpSetTotalBytes lp new) = Some (le_bytes 4 new ++ le_bytes 2 num' ++ R).
Proof.
  intros Hnum Hnew Hlen. unfold num_ok, LP_HDR_NUMELE_UNKNOWN in *. destruct upd.
  - rewrite num_hd by (unfold in_uint; lia). cbn [mbind option_bind].
    bdestr (num =? 65535); cbn [negb].
    + exists num. split; [lia|]. by apply set_total_hd.
    + exists (num + if ins then 1 else -1). destruct ins; (split; [lia|]); rewrite uint_small, set_num_hd by (unfold in_uint; lia || done); by apply set_total_hd.
  - exists num. split; [lia|]. by apply set_total_hd.
Qed.

(** The element at the insertion point, whatever the bytes before it are. *)
Lemma eof_at A L2 slack L1 :
  lpsize (L1 ++ L2) < 2 ^ 32 -> blen A = off L1 ->
  (b ← bget (A ++ body L2 ++ LP_EOF :: slack) (off L1);
   Some (if b =? LP_EOF then None else Some (off L1))) = Some (ptr (L1 ++ L2) (length L1)).
Proof.
  intros Hs HA. destruct (byte_at 0 slack L1 L2 Hs) as (b & Hb & HE).
  assert (bget (A ++ body L2 ++ LP_EOF :: slack) (off L1) = Some b) as ->.
  { rewrite <- Hb. unfold layout. rewrite body_app, <- app_assoc.
    set (T := body L2 ++ LP_EOF :: slack).
    assert (exists y T', T = y :: T') as (y & T' & ->) by (subst T; destruct (body L2); simpl; eauto).
    rewrite bget_app by done. rewrite !app_assoc. rewrite bget_app; [done|].
    autorewrite with cmem. unfold off, LP_HDR_SIZE. lia. }
  cbn [mbind option_bind]. rewrite HE. destruct L2; [by rewrite app_nil_r, ptr_end|by rewrite ptr_mid].
Qed.

Lemma lpInsert_store_room lp ele en ie bl el rl old new poff (repl : bool) :
  (repl = false -> rl = 0) -> lpInsert_store indet lp ele en ie bl el rl old new poff repl =
  (lp ← make_room lp old new (poff + (el + blen bl)) (poff + rl);
   newp ← (match ele with
           | Some _ => Some (Some poff)
           | None => b ← bget lp poff; Some (if b =? LP_EOF then None else Some poff)
           end);
   lp ← (match ele with
         | Some ele =>
             lp ← (match en with
                   | Some LP_ENCODING_INT => bwrite lp poff ie
                   | _ => lpEncodeString lp poff ele (blen ele)
                   end);
             bwrite lp (poff + el) bl
         | None => Some lp
         end);
   let ins := match ele with None => false | _ => true end in
   lp ← (lp ← (if negb repl || negb ins then
          num ← lpGetNumElements lp;
          if negb (num =? LP_HDR_NUMELE_UNKNOWN) then
            if ins then lpSetNumElements lp (uint 32 (num + 1))
            else lpSetNumElements lp (uint 32 (num - 1))
          else Some lp
         else Some lp);
         lpSetTotalBytes lp new);
   Some (lp, newp)).
Proof.
  intros Hr. unfold lpInsert_store, make_room. cbv zeta.
  replace (if negb repl then _ else _) with
    (memmove (if (new >? old) && (new >? blen lp) then brealloc indet lp new else lp)
      (poff + (el + blen bl)) (poff + rl) (old - (poff + rl))).
  2: { destruct repl; cbn [negb]; [f_equal; lia|]. rewrite (Hr eq_refl). f_equal; lia. }
  destruct (memmove _ _ _ _) as [lp1|]; [|done]. cbn [mbind option_bind].
  destruct ele as [e|].
  - cbn [mbind option_bind negb orb]. set (lp2 := if new <? old then _ else _).
    destruct (match en with Some LP_ENCODING_INT => _ | _ => _ end) as [lp3|]; [|done]. cbn [mbind option_bind].
    destruct (bwrite lp3 _ _) as [lp4|]; [|done]. cbn [mbind option_bind].
    by destruct (if negb repl || false then _ else _).
  - cbn [mbind option_bind negb orb]. set (lp2 := if new <? old then _ else _).
    destruct (bget lp2 _); [|done]. cbn [mbind option_bind].
    by destruct (if negb repl || true then _ else _).
Qed.

(** [*newp] and the stored element, once there is room for it. *)
Lemma store_element A X slack L1 N L2 ele en ie el bl :
  to_store ele en ie el bl N -> blen A = off L1 -> blen X = blen (body N) ->
  lpsize (L1 ++ N ++ L2) < 2 ^ 32 ->
  let lp := A ++ X ++ (body L2 ++ [LP_EOF]) ++ slack in
  (match ele with
   | Some _ => Some (Some (blen A))
   | None => b ← bget lp (blen A); Some (if b =? LP_EOF then None else Some (blen A))
   end) = Some (ptr (L1 ++ N ++ L2) (length L1)) /\
  (match ele with
   | Some ele =>
       lp ← (match en with
             | Some LP_ENCODING_INT => bwrite lp (blen A) ie
             | _ => lpEncodeString lp (blen A) ele (blen ele)
             end);
       bwrite lp (blen A + el) bl
   | None => Some lp
   end) = Some (A ++ body N ++ body L2 ++ LP_EOF :: slack).
Proof.
  intros Hst HA HX Hs. cbv zeta. rewrite <- (app_assoc (body L2)). inv Hst as [|e t ie' Ht].
  - apply blen_0 in HX as ->. cbn [app]. split; [|done]. rewrite HA. by apply eof_at.
  - rewrite body_cons, app_nil_r in *. rewrite store_entry by done.
    split; [|done]. rewrite HA. symmetry. f_equal. apply ptr_mid.
Qed.

Lemma lpInsert_store_ok num slack L1 R L2 N ele en ie el bl repl :
  let old := lpsize (L1 ++ R ++ L2) in let new := lpsize (L1 ++ N ++ L2) in
  old < 2 ^ 32 -> new < 2 ^ 32 -> num_ok num (L1 ++ R ++ L2) ->
  to_store ele en ie el bl N ->
  (repl = false /\ R = [] /\ N <> [] \/ repl = true /\ length R = 1%nat) ->
  exists lp', rep lp' (L1 ++ N ++ L2) /\
    lpInsert_store indet (layout num slack (L1 ++ R ++ L2)) ele en ie bl el (blen (body R)) old new (off L1) repl
    = Some (lp', ptr (L1 ++ N ++ L2) (length L1)).
Proof.
  cbv zeta. intros Hold Hnew Hnum Hst HR. set (old := lpsize (L1 ++ R ++ L2)) in *.
  assert (Hel : el + blen bl = blen (body N)).
  { inv Hst; [done|]. rewrite body_cons, app_nil_r. unfold entry. by rewrite blen_app. }
  assert (Hhd : layout num slack (L1 ++ R ++ L2) =
    (le_bytes 4 old ++ le_bytes 2 num ++ body L1) ++ body R ++ (body L2 ++ [LP_EOF]) ++ slack).
  { unfold layout. rewrite !body_app, <- !app_assoc. done. }
  rewrite Hhd, lpInsert_store_room by (intros ->; by destruct HR as [(_ & -> & _)|[? _]]).
  set (A := le_bytes 4 old ++ le_bytes 2 num ++ body L1).
  assert (HA : blen A = off L1) by (subst A; autorewrite with cmem; unfold off, LP_HDR_SIZE; lia).
  destruct (make_room_ok A (body R) (body L2 ++ [LP_EOF]) slack (blen (body N)) (blen_nonneg _)) as (X & slack' & Hroom & HX).
  assert (Hb : blen (A ++ body R ++ body L2 ++ [LP_EOF]) = old).
  { unfold old, lpsize. rewrite !body_app, !blen_app, HA. unfold off, LP_HDR_SIZE.
    change (blen [LP_EOF]) with 1. lia. }
  rewrite Hb in Hroom. rewrite <- HA, Hel.
  assert (Hsz : lpsize (L1 ++ N ++ L2) = old + blen (body N) - blen (body R))
    by (unfold old, lpsize; rewrite !body_app, !blen_app; lia).
  rewrite <- Hsz in Hroom.
  destruct (store_element A X slack' L1 N L2 ele en ie el bl) as [Hnewp Hele]; [done..|].
  destruct (store_header (negb repl || negb (match ele with None => false | _ => true end))
    (match ele with None => false | _ => true end) num old (lpsize (L1 ++ N ++ L2))
    (body L1 ++ body N ++ body L2 ++ LP_EOF :: slack') (L1 ++ R ++ L2) (L1 ++ N ++ L2))
    as (num' & Hnum' & Hh); [done|done| |].
  { rewrite !length_app. destruct HR as [(-> & -> & HN)|(-> & ->)]; inv Hst; cbn [negb orb length] in *; done || lia. }
  exists (layout num' slack' (L1 ++ N ++ L2)). split; [by exists num', slack'; split_and!|].
  rewrite Hroom. cbn [mbind option_bind]. rewrite Hnewp. cbn [mbind option_bind]. rewrite Hele. cbn [mbind option_bind].
  subst A. rewrite <- !app_assoc in *. cbv zeta. rewrite Hh. cbn [mbind option_bind].
  unfold layout. by rewrite !body_app, <- !app_assoc.
Qed.

(** The sizes [lpInsert] computes, at a resolved position. *)
Definition lpInsert_at (lp : bytes) (ele : option bytes) (p : Z) (repl : bool)
    : option (option (bytes * option Z)) :=
  '(en, intenc, enclen) ← (match ele with
                            | Some ele => '(t, ie, n) ← lpEncodeGetType ele (blen ele); Some (Some t, ie, n)
                            | None => Some (None, [], 0)
                            end);
  let backlen := match ele with Some _ => lpEncodeBacklen enclen | None => [] end in
  old_bytes ← lpGetTotalBytes lp;
  replaced_len ← (if repl then
                    n ← lpCurrentEncodedSizeUnsafe lp p;
                    let n := uint 32 (n + lpBacklenSize n) in
                    _ ← ASSERT_INTEGRITY_LEN lp p n; Some n
                  else Some 0);
  let new_bytes := uint 64 (old_bytes + enclen + blen backlen - replaced_len) in
  if new_bytes >? UINT32_MAX then Some None
  else
    r ← lpInsert_store indet lp ele en intenc backlen enclen replaced_len old_bytes new_bytes p repl;
    Some (Some r).

Lemma replaced_len_ok num slack L1 R L2 (repl : bool) :
  lpsize (L1 ++ R ++ L2) < 2 ^ 32 ->
  (repl = false /\ R = [] \/ repl = true /\ length R = 1%nat) ->
  let lp := layout num slack (L1 ++ R ++ L2) in
  (if repl then
     n ← lpCurrentEncodedSizeUnsafe lp (off L1);
     let n := uint 32 (n + lpBacklenSize n) in
     _ ← ASSERT_INTEGRITY_LEN lp (off L1) n; Some n
   else Some 0) = Some (blen (body R)).
Proof.
  intros Hs [[-> ->]|[-> HR]]; [done|]. destruct R as [|s [|]]; try discriminate HR. cbn [app] in *.
  cbv zeta. rewrite size_at by done. cbn [mbind option_bind].
  destruct (enc_bound L1 s L2 Hs) as (H1 & H2 & H3). rewrite <- H2.
  pose proof (blen_nonneg (entry s)). rewrite uint_small by (unfold in_uint; lia).
  unfold ASSERT_INTEGRITY_LEN. rewrite total_at by done. cbn [mbind option_bind].
  pose proof (off_lt (L1 ++ [s]) L2) as Ho. rewrite off_snoc, <- app_assoc in Ho. cbn [app] in Ho.
  pose proof (off_nonneg L1). bdec. cbn [mbind option_bind]. by rewrite body_cons, app_nil_r.
Qed.

Lemma enc_len_bound e : blen (entry e) <= blen e + 20.
Proof.
  unfold entry, enc. rewrite blen_app. pose proof (blen_nonneg e).
  assert (forall l, blen (lpEncodeBacklen l) <= 5) as Hb by (intros; unfold lpEncodeBacklen; repeat bcase; done).
  specialize (Hb (blen (match int_of e with Some v => int_encoding v | None => str_encoding e end))).
  destruct (int_of e) as [v|].
  - assert (blen (int_encoding v) <= 9) by (unfold int_encoding; repeat bcase; done). lia.
  - unfold str_encoding in *. rewrite !blen_app in *.
    assert (blen (if blen e <? 64 then [uint 8 (Z.lor (blen e) 128)] else
       if blen e <? 4096 then [uint 8 (Z.lor (Z.shiftr (blen e) 8) 224); Z.land (blen e) 255]
       else [240; Z.land (blen e) 255; Z.land (Z.shiftr (blen e) 8) 255;
             Z.land (Z.shiftr (blen e) 16) 255; Z.land (Z.shiftr (blen e) 24) 255]) <= 5)
      by (repeat bcase; done). lia.
Qed.

Lemma lpInsert_at_ok num slack L1 R L2 ele repl :
  lpsize (L1 ++ R ++ L2) < 2 ^ 32 -> num_ok num (L1 ++ R ++ L2) ->
  (forall e, ele = Some e -> blen e < 2 ^ 62) ->
  (repl = false /\ R = [] /\ ele <> None \/ repl = true /\ length R = 1%nat) ->
  let L' := L1 ++ option_list ele ++ L2 in
  let r := lpInsert_at (layout num slack (L1 ++ R ++ L2)) ele (off L1) repl in
  if lpsize L' <? 2 ^ 32
  then exists lp', r = Some (Some (lp', ptr L' (length L1))) /\ rep lp' L'
  else r = Some None.
Proof.
  intros Hold Hnum He HR. cbv zeta. unfold lpInsert_at.
  assert (exists en ie el bl, to_store ele en ie el bl (option_list ele) /\
    (match ele with
     | Some ele => '(t, ie, n) ← lpEncodeGetType ele (blen ele); Some (Some t, ie, n)
     | None => Some (None, [], 0)
     end) = Some (en, ie, el) /\ match ele with Some _ => lpEncodeBacklen el | None => [] end = bl /\
     el + blen bl = blen (body (option_list ele)))
    as (en & ie & el & bl & Hst & -> & Hbl & Hel).
  { destruct ele as [e|]; [|by repeat eexists; constructor].
    destruct (lpEncodeGetType_enc e) as (t & ie & Ht). rewrite Ht. do 4 eexists.
    split_and!; [by constructor|done|done|]. change (option_list (Some e)) with [e]. rewrite body_cons, app_nil_r.
    unfold entry. by rewrite blen_app. }
  cbn [mbind option_bind]. rewrite Hbl, total_at by done. cbn [mbind option_bind].
  rewrite replaced_len_ok by (done || naive_solver). cbn [mbind option_bind].
  replace (lpsize (L1 ++ R ++ L2) + el + blen bl - blen (body R)) with (lpsize (L1 ++ option_list ele ++ L2))
    by (unfold lpsize; rewrite !body_app, !blen_app; lia).
  rewrite uint_small.
  2: { assert (blen (body (option_list ele)) < 2 ^ 63).
       { destruct ele as [e|]; [|done]. change (option_list (Some e)) with [e]. rewrite body_cons, app_nil_r.
         pose proof (enc_len_bound e). specialize (He e eq_refl). lia. }
       unfold lpsize, in_uint in *. rewrite !body_app, !blen_app in *.
       pose proof (blen_nonneg (body L1)). pose proof (blen_nonneg (body L2)).
       pose proof (blen_nonneg (body R)). pose proof (blen_nonneg (body (option_list ele))). lia. }
  unfold UINT32_MAX. bcase.
  - bdec. destruct (lpInsert_store_ok num slack L1 R L2 (option_list ele) ele en ie el bl repl) as (lp' & Hr & ->);
      [done..|by destruct ele; naive_solver|]. by exists lp'.
  - by bdec.
Qed.

Lemma lpInsert_resolve lp ele p where_ :
  lpInsert indet lp ele p where_ =
  match ele, where_ with
  | None, _ | _, LP_REPLACE => lpInsert_at lp ele p true
  | _, LP_BEFORE => lpInsert_at lp ele p false
  | _, LP_AFTER => p ← lpSkip lp p; _ ← ASSERT_INTEGRITY lp p; lpInsert_at lp ele p false
  end.
Proof.
  unfold lpInsert, lpInsert_at. destruct ele as [e|]; [|done]. destruct where_; [done| |done].
  destruct (lpSkip lp p) as [q|]; [|done]. cbn [mbind option_bind].
  by destruct (ASSERT_INTEGRITY lp q).
Qed.

(** The list after [lpInsert], and the index [*newp] refers to. *)
Definition insert_at (L : list bytes) (i : nat) (where_ : position) (ele : option bytes) : list bytes * nat :=
  match ele, where_ with
  | None, _ => (take i L ++ drop (S i) L, i)
  | Some e, LP_BEFORE => (take i L ++ e :: drop i L, i)
  | Some e, LP_AFTER => (take (S i) L ++ e :: drop (S i) L, S i)
  | Some e, LP_REPLACE => (take i L ++ e :: drop (S i) L, i)
  end.

(** A position [lpInsert] accepts: an element, or the end to insert before it. *)
Definition insertable (L : list bytes) (i : nat) (where_ : position) (ele : option bytes) : Prop :=
  (i < length L)%nat \/ i = length L /\ where_ = LP_BEFORE /\ ele <> None.

Lemma lpInsert_spec lp L ele i where_ :
  rep lp L -> insertable L i where_ ele -> (forall e, ele = Some e -> blen e < 2 ^ 62) ->
  let '(L', j) := insert_at L i where_ ele in
  let r := lpInsert indet lp ele (off (take i L)) where_ in
  if lpsize L' <? 2 ^ 32
  then exists lp', r = Some (Some (lp', ptr L' j)) /\ rep lp' L'
  else r = Some None.
Proof.
  intros (num & slack & -> & Hs & Hnum) Hi He. unfold insert_at. rewrite lpInsert_resolve.
  assert (Hrepl : (i < length L)%nat ->
    let L' := take i L ++ option_list ele ++ drop (S i) L in
    let r := lpInsert_at (layout num slack L) ele (off (take i L)) true in
    if lpsize L' <? 2 ^ 32 then exists lp', r = Some (Some (lp', ptr L' i)) /\ rep lp' L' else r = Some None).
  { intros Hlt. destruct (lookup_lt_is_Some_2 L i Hlt) as [s E].
    pose proof (lpInsert_at_ok num slack (take i L) [s] (drop (S i) L) ele true) as H. cbn [app] in H.
    rewrite (take_drop_middle L i s E), (length_take_le L i) in H by lia. apply H; [done..|]. by right. }
  assert (Hins : forall k, (k <= length L)%nat -> ele <> None ->
    let L' := take k L ++ option_list ele ++ drop k L in
    let r := lpInsert_at (layout num slack L) ele (off (take k L)) false in
    if lpsize L' <? 2 ^ 32 then exists lp', r = Some (Some (lp', ptr L' k)) /\ rep lp' L' else r = Some None).
  { intros k Hk Hne. pose proof (lpInsert_at_ok num slack (take k L) [] (drop k L) ele false) as H.
    cbn [app] in H. rewrite take_drop, (length_take_le L k) in H by lia. apply H; [done..|]. by left. }
  unfold insertable in Hi. destruct ele as [e|]; [|apply Hrepl; naive_solver]. destruct where_.
  - apply Hins; [lia|done].
  - destruct Hi as [Hi|(_ & ? & _)]; [|done]. destruct (lookup_lt_is_Some_2 L i Hi) as [s E].
    assert (Hsk : lpSkip (layout num slack L) (off (take i L)) = Some (off (take (S i) L))).
    { rewrite <- (take_drop_middle L i s E) at 1. rewrite skip_at by by rewrite take_drop_middle.
      by rewrite (take_S_r L i s E). }
    pose proof (integrity_at num slack (take (S i) L) (drop (S i) L)) as Hint. rewrite take_drop in Hint.
    rewrite Hsk. cbn [mbind option_bind]. rewrite Hint by done. cbn [mbind option_bind]. apply Hins; [lia|done].
  - apply Hrepl. destruct Hi as [?|(_ & ? & _)]; done.
Qed.
End Store.

(** ** Traversal *)

Section Traversal.
Context (lp : bytes) (L : list bytes) (Hrep : rep lp L).

Lemma rep_total : lpGetTotalBytes lp = Some (lpsize L).
Proof. destruct Hrep as (num & slack & -> & Hs & _). by apply total_at. Qed.

Lemma rep_next i : (i < length L)%nat -> lpNext lp (off (take i L)) = Some (ptr L (S i)).
Proof.
  intros Hi. destruct Hrep as (num & slack & -> & Hs & _).
  destruct (lookup_lt_is_Some_2 L i Hi) as [s E].
  pose proof (lpNext_at num slack (take i L) s (drop (S i) L)) as H.
  rewrite (take_drop_middle L i s E), length_take_le in H by lia. by apply H.
Qed.

Lemma rep_prev i : (i < length L)%nat -> lpPrev lp (off (take (S i) L)) = Some (ptr L i).
Proof.
  intros Hi. destruct Hrep as (num & slack & -> & Hs & _).
  destruct (lookup_lt_is_Some_2 L i Hi) as [s E].
  pose proof (lpPrev_at num slack (take i L) s (drop (S i) L)) as H.
  rewrite (take_drop_middle L i s E) in H. rewrite (take_S_r L i s E), H by done.
  unfold ptr. by destruct (Nat.ltb_spec i (length L)); [|lia].
Qed.

Lemma rep_prev_first : lpPrev lp (off []) = Some None.
Proof. done. Qed.

Lemma rep_first : lpFirst lp = Some (ptr L 0).
Proof.
  destruct Hrep as (num & slack & -> & Hs & _). unfold lpFirst.
  destruct (byte_at num slack [] L Hs) as (b & Hb & HE). change (off []) with LP_HDR_SIZE in Hb.
  rewrite app_nil_l in Hb. rewrite Hb. cbn [mbind option_bind]. rewrite HE. by destruct L.
Qed.

Lemma rep_last : lpLast lp = Some (match length L with O => None | S n => ptr L n end).
Proof.
  unfold lpLast. rewrite rep_total. cbn [mbind option_bind].
  replace (lpsize L - 1) with (off L) by (unfold lpsize, off, LP_HDR_SIZE; lia).
  destruct (length L) as [|n] eqn:E.
  - by apply nil_length_inv in E as ->.
  - rewrite <- (rep_prev n) by lia. by rewrite <- E, firstn_all.
Qed.

Lemma ptr_Some i : (i < length L)%nat -> ptr L i = Some (off (take i L)).
Proof. intros. unfold ptr. by destruct (Nat.ltb_spec i (length L)); [|lia]. Qed.
Lemma ptr_None i : (length L <= i)%nat -> ptr L i = None.
Proof. intros. unfold ptr. by destruct (Nat.ltb_spec i (length L)); [lia|]. Qed.

Lemma seek_forward_ok n i : seek_forward n lp (ptr L i) = Some (ptr L (i + n)).
Proof.
  revert i. induction n as [|n IH]; intros i; cbn [seek_forward].
  - by rewrite Nat.add_0_r.
  - destruct (Nat.lt_ge_cases i (length L)).
    + rewrite ptr_Some, rep_next by done. cbn [mbind option_bind]. rewrite IH. do 2 f_equal. lia.
    + by rewrite !ptr_None by lia.
Qed.

Lemma seek_backward_ok n i :
  (i < length L)%nat ->
  seek_backward n lp (ptr L i) = Some (if (n <=? i)%nat then ptr L (i - n) else None).
Proof.
  revert i. induction n as [|n IH]; intros i Hi; cbn [seek_backward].
  - by rewrite Nat.sub_0_r.
  - rewrite ptr_Some by done. destruct i as [|i].
    + by destruct n.
    + rewrite rep_prev by lia. cbn [mbind option_bind]. rewrite IH by lia. done.
Qed.

(** The element index a possibly negative [index] denotes. *)
Definition seek_spec (index : Z) : option Z :=
  let i := if index <? 0 then Z.of_nat (length L) + index else index in
  if i <? 0 then None else ptr L (Z.to_nat i).

Lemma seek_backward_spec index :
  index < 0 -> (e ← lpLast lp; seek_backward (Z.to_nat (-1 - index)) lp e) = Some (seek_spec index).
Proof.
  intros Hi. rewrite rep_last. cbn [mbind option_bind]. unfold seek_spec. bdec.
  destruct (length L) as [|n] eqn:E.
  - bdec. by destruct (Z.to_nat _).
  - rewrite seek_backward_ok by lia. f_equal.
    destruct (Nat.leb_spec (Z.to_nat (-1 - index)) n); bdec; [|done]. f_equal. lia.
Qed.

Lemma seek_forward_spec index :
  0 <= index -> (e ← lpFirst lp; seek_forward (Z.to_nat index) lp e) = Some (seek_spec index).
Proof.
  intros Hi. rewrite rep_first. cbn [mbind option_bind]. rewrite seek_forward_ok.
  unfold seek_spec. by bdec.
Qed.

Lemma rep_num : exists num, lpGetNumElements lp = Some num /\ num_ok num L.
Proof.
  destruct Hrep as (num & slack & -> & Hs & Hn). exists num. split; [|done].
  apply num_hd. unfold num_ok, LP_HDR_NUMELE_UNKNOWN, in_uint in *. lia.
Qed.

Lemma seek_spec_wrap index : index < Z.of_nat (length L) -> 0 <= index -> seek_spec (index - Z.of_nat (length L)) = seek_spec index.
Proof.
  intros. unfold seek_spec. bdec. by replace (Z.of_nat (length L) + (index - Z.of_nat (length L))) with index by lia.
Qed.

Lemma lpSeek_spec index : lpSeek lp index = Some (seek_spec index).
Proof.
  unfold lpSeek. destruct rep_num as (num & -> & Hn). cbn [mbind option_bind].
  unfold num_ok, LP_HDR_NUMELE_UNKNOWN in *. bdestr (num =? 65535); cbn [negb].
  - bcase; [by apply seek_backward_spec|apply seek_forward_spec; lia].
  - assert (num = Z.of_nat (length L)) as -> by lia. clear Hn E.
    assert (Hneg : index < 0 -> seek_spec index = if Z.of_nat (length L) + index <? 0 then None
      else seek_spec (Z.of_nat (length L) + index)).
    { intros. unfold seek_spec. bdec. bcase; [done|]. by bdec. }
    assert (Hge : Z.of_nat (length L) <= index -> seek_spec index = None).
    { intros. unfold seek_spec. bdec. apply ptr_None. lia. }
    set (i := if index <? 0 then Z.of_nat (length L) + index else index).
    assert (seek_spec index = if i <? 0 then None else seek_spec i) as ->.
    { subst i. bdestr (index <? 0); [by apply Hneg|]. by bdec. }
    clear Hneg Hge. bcase; [done|]. bcase.
    + unfold seek_spec. bdec. rewrite ptr_None by lia. done.
    + bcase; [|apply seek_forward_spec; lia].
      rewrite <- (seek_spec_wrap i) by lia. apply seek_backward_spec. lia.
Qed.

(** *** Counting *)

Lemma entry_2 s : 2 <= blen (entry s).
Proof.
  unfold entry, enc. rewrite blen_app.
  assert (forall l, 1 <= blen (lpEncodeBacklen l)) as Hb by (intros; unfold lpEncodeBacklen; repeat bcase; done).
  specialize (Hb (blen (match int_of s with Some v => int_encoding v | None => str_encoding s end))).
  destruct (int_of s) as [v|].
  - assert (1 <= blen (int_encoding v)) by (unfold int_encoding; repeat bcase; done). lia.
  - unfold str_encoding in *. pose proof (blen_nonneg s). revert Hb. repeat bcase; cbn [app]; rewrite !blen_cons; lia.
Qed.

Lemma body_len K : 2 * Z.of_nat (length K) <= blen (body K).
Proof.
  induction K as [|s K IH]; [done|]. rewrite body_cons, blen_app. cbn [length]. pose proof (entry_2 s). lia.
Qed.

Lemma lpLength_loop_ok fuel i count :
  (length L <= fuel + i)%nat -> 0 <= count -> count + Z.of_nat (length L - i) < 2 ^ 32 ->
  lpLength_loop fuel lp (ptr L i) count = Some (count + Z.of_nat (length L - i)).
Proof.
  revert i count. induction fuel as [|fuel IH]; intros i count Hf Hc Hb.
  - rewrite ptr_None by lia. cbn [lpLength_loop]. f_equal. lia.
  - destruct (Nat.lt_ge_cases i (length L)).
    + rewrite ptr_Some by done. cbn [lpLength_loop]. rewrite rep_next by done. cbn [mbind option_bind].
      rewrite uint_small, IH by (unfold in_uint; lia). f_equal. lia.
    + rewrite ptr_None by lia. cbn [lpLength_loop]. f_equal. lia.
Qed.

Lemma lpLength_spec : exists lp', lpLength lp = Some (Z.of_nat (length L), lp') /\ rep lp' L.
Proof.
  unfold lpLength. destruct rep_num as (num & Hg & Hn). rewrite Hg. cbn [mbind option_bind].
  bdestr (num =? LP_HDR_NUMELE_UNKNOWN); cbn [negb].
  - rewrite rep_first. cbn [mbind option_bind].
    assert (2 * Z.of_nat (length L) + 7 <= blen lp /\ 2 * Z.of_nat (length L) + 7 < 2 ^ 32) as [Hlen Hb].
    { destruct Hrep as (n & slack & -> & Hs & _). unfold layout, lpsize in *. pose proof (body_len L).
      pose proof (blen_nonneg slack). autorewrite with cmem. lia. }
    rewrite lpLength_loop_ok by (unfold blen in *; lia). cbn [mbind option_bind].
    replace (0 + Z.of_nat (length L - 0)) with (Z.of_nat (length L)) by lia. bcase.
    + destruct Hrep as (n & slack & -> & Hs & _). unfold layout.
      rewrite set_num_hd by by rewrite ?blen_le_bytes. cbn [mbind option_bind]. eexists. split; [done|].
      exists (Z.of_nat (length L)), slack. split_and!; [done|done|]. by right.
    + by eexists.
  - exists lp. split; [|done]. do 2 f_equal. unfold num_ok in Hn. lia.
Qed.
End Traversal.

(** ** Validation *)

Section Validate.
Context (num : Z) (L : list bytes) (Hs : lpsize L < 2 ^ 32) (Hnum : num_ok num L).
Abbreviation lp := (layout num [] L).

Lemma blen_layout slack : blen (layout num slack L) = lpsize L + blen slack.
Proof. unfold layout, lpsize. autorewrite with cmem. lia. Qed.

Lemma size_bytes_at L1 s L2 :
  L = L1 ++ s :: L2 ->
  exists n, lpCurrentEncodedSizeBytes lp (off L1) = Some n /\ 1 <= n <= blen (enc s).
Proof.
  intros EL. rewrite EL in Hs. destruct (enc_bound L1 s L2 Hs) as (H1 & H2 & H3).
  destruct (enc_shape s) as (h & t & He & Hsh & _); [lia|].
  destruct (layout_at num [] L1 s L2) as (A & C & HL & <-). rewrite EL, HL, He, <- !(app_assoc h t).
  by eapply shape_bytes.
Qed.

Lemma lpValidateNext_at i :
  (i < length L)%nat ->
  lpValidateNext lp (Some (off (take i L))) (lpsize L) = Some (true, Some (off (take (S i) L))).
Proof.
  intros Hi. destruct (lookup_lt_is_Some_2 L i Hi) as [s E]. unfold lpValidateNext.
  rewrite (take_S_r L i s E). apply take_drop_middle in E as EL. symmetry in EL.
  set (L1 := take i L) in *. set (L2 := drop (S i) L) in *.
  destruct (size_bytes_at L1 s L2 EL) as (n & -> & Hn).
  pose proof (off_lt (L1 ++ [s]) L2) as Ho. rewrite off_snoc, <- app_assoc in Ho. cbn [app] in Ho. rewrite <- EL in Ho.
  pose proof Hs as Hs'. rewrite EL in Hs'. destruct (enc_bound L1 s L2 Hs') as (H1 & H2 & H3).
  pose proof (size_at num [] L1 s L2 Hs') as Hsz. rewrite <- EL in Hsz.
  pose proof (byte_at num [] L1 (s :: L2) Hs') as (b & Hb & Heof). rewrite <- EL in Hb. rewrite Hb.
  cbn [mbind option_bind]. rewrite Heof. pose proof (off_nonneg L1). bdec. rewrite Hsz. cbn [mbind option_bind].
  rewrite <- H2. bdec.
  assert (lpDecodeBacklen lp (off L1 + blen (entry s) - 1) = Some (blen (enc s))) as ->.
  { rewrite EL. destruct (layout_at num [] L1 s L2) as (A & C & -> & <-). rewrite app_assoc.
    etrans; [|apply (lpDecodeBacklen_encode (A ++ enc s) C); lia]. f_equal. rewrite H2, blen_app. lia. }
  cbn [mbind option_bind]. rewrite uint_small by (unfold in_uint; lia). rewrite off_snoc. bdec. done.
Qed.

Lemma lpValidateNext_eof : lpValidateNext lp (Some (off L)) (lpsize L) = Some (true, None).
Proof.
  unfold lpValidateNext. pose proof (byte_at num [] L []) as Hb. rewrite app_nil_r in Hb.
  destruct (Hb Hs) as (b & -> & HE). cbn [mbind option_bind]. by rewrite HE.
Qed.

(** The loop counts the terminator as well. *)
Lemma validate_entries_at fuel i count :
  (length L < fuel + i)%nat -> (i <= length L)%nat -> 0 <= count -> count + Z.of_nat (length L - i) + 1 < 2 ^ 32 ->
  validate_entries fuel lp (Some (off (take i L))) (lpsize L) count
  = Some (Some (count + Z.of_nat (length L - i) + 1)).
Proof.
  revert i count. induction fuel as [|fuel IH]; intros i count Hf Hi Hc Hb; [lia|]. cbn [validate_entries].
  destruct (Nat.eq_dec i (length L)) as [->|].
  - rewrite firstn_all, lpValidateNext_eof. cbn [mbind option_bind].
    rewrite uint_small by (unfold in_uint; lia). destruct fuel; cbn [validate_entries]; do 2 f_equal; lia.
  - rewrite lpValidateNext_at by lia. cbn [mbind option_bind].
    rewrite uint_small, IH by (unfold in_uint; lia). do 2 f_equal. lia.
Qed.

Lemma lpValidateIntegrity_shallow : lpValidateIntegrity lp (lpsize L) false = Some true.
Proof.
  unfold lpValidateIntegrity. pose proof (blen_nonneg (body L)) as Hb.
  rewrite total_at by done. unfold lpsize, LP_HDR_SIZE in *. bdec. cbn [mbind option_bind]. bdec.
  rewrite (bget_at _ _ (le_bytes 4 (lpsize L) ++ le_bytes 2 num ++ body L) LP_EOF []); [done| |autorewrite with cmem; lia].
  unfold layout. by rewrite <- !app_assoc.
Qed.

Lemma lpValidateIntegrity_deep_spec :
  lpValidateIntegrity lp (lpsize L) true
  = Some (match L with [] => true | _ => num =? LP_HDR_NUMELE_UNKNOWN end).
Proof.
  pose proof lpValidateIntegrity_shallow as Hsh. unfold lpValidateIntegrity in *.
  destruct (lpsize L <? LP_HDR_SIZE + 1); [done|].
  destruct (lpGetTotalBytes lp) as [t|] eqn:Et; [|done]. cbn [mbind option_bind] in *.
  rewrite total_at in Et by done. injection Et as <-.
  destruct (negb (lpsize L =? lpsize L)); [done|].
  destruct (bget lp (lpsize L - 1)) as [c|]; [|done]. cbn [mbind option_bind] in *.
  destruct (negb (c =? LP_EOF)); [done|]. cbn [negb] in *. clear Hsh.
  rewrite (rep_first _ L) by (exists num, []; done). cbn [mbind option_bind].
  assert (Hg : lpGetNumElements lp = Some num).
  { apply num_hd. unfold num_ok, LP_HDR_NUMELE_UNKNOWN, in_uint in *. lia. }
  pose proof (body_len L) as Hbl. pose proof (blen_layout []) as Hlen. rewrite blen_nil in Hlen.
  destruct (Nat.eq_dec (length L) 0) as [HL|HL].
  - rewrite ptr_None by lia.
    assert (num = 65535 \/ num = 0) by (unfold num_ok, LP_HDR_NUMELE_UNKNOWN in *; lia).
    replace (match L with [] => true | _ => _ end) with true by (by destruct L).
    destruct (length lp); cbn [validate_entries mbind option_bind]; rewrite Hg; cbn [mbind option_bind];
      f_equal; unfold LP_HDR_NUMELE_UNKNOWN; lia.
  - replace (match L with [] => true | _ => num =? LP_HDR_NUMELE_UNKNOWN end)
      with (num =? LP_HDR_NUMELE_UNKNOWN) by (by destruct L).
    rewrite ptr_Some by lia.
    rewrite validate_entries_at by (unfold lpsize, blen in *; lia). cbn [mbind option_bind].
    rewrite Hg. cbn [mbind option_bind]. f_equal. unfold num_ok, LP_HDR_NUMELE_UNKNOWN in *. lia.
Qed.
End Validate.

(** *** Arbitrary buffers *)

Section Hostile.
Context (lp : bytes) (Hlp : is_bytes lp).

Lemma get_le_safe n p sh : 0 <= p -> p + Z.of_nat n <= blen lp -> 0 <= sh -> exists v, get_le lp p n sh = Some v /\ 0 <= v.
Proof.
  revert p sh. induction n as [|n IH]; intros p sh H1 H2 H3; cbn [get_le]; [by eexists|].
  destruct (bget_is_Some lp p) as [b Hb]; [lia|]. rewrite Hb. cbn [mbind option_bind].
  destruct (IH (p + 1) (sh + 8)) as (v & -> & Hv); [lia..|]. cbn [mbind option_bind]. eexists. split; [done|].
  apply (bget_is_byte _ _ _ Hlp) in Hb. unfold is_byte in Hb.
  apply Z.lor_nonneg. split; [apply Z.shiftl_nonneg; lia|done].
Qed.

Lemma lpDecodeBacklen_safe p : 4 <= p < blen lp -> exists v, lpDecodeBacklen lp p = Some v /\ 0 <= v.
Proof.
  intros Hp. unfold lpDecodeBacklen.
  assert (forall fuel q val, Z.of_nat fuel <= 5 -> p - 5 + Z.of_nat fuel = q -> 0 <= val -> (0 < fuel)%nat ->
    exists v, lpDecodeBacklen_loop fuel lp q val (7 * (5 - Z.of_nat fuel)) = Some v /\ 0 <= v) as H.
  { induction fuel as [|fuel IH]; intros q val Hf Hq Hv H0; [lia|]. cbn [lpDecodeBacklen_loop].
    destruct (bget_is_Some lp q) as [b Hb]; [lia|]. rewrite Hb. cbn [mbind option_bind].
    set (val' := Z.lor val _). assert (0 <= val').
    { apply Z.lor_nonneg. split; [done|]. apply uint_range. lia. }
    bcase; [by eexists|]. bcase; [by eexists|].
    replace (7 * (5 - Z.of_nat (S fuel)) + 7) with (7 * (5 - Z.of_nat fuel)) in * by lia.
    apply IH; lia. }
  apply (H 5%nat p 0); lia.
Qed.

Lemma lpCurrentEncodedSize_safe p n :
  0 <= p -> lpCurrentEncodedSizeBytes lp p = Some n -> 1 <= n -> p + n <= blen lp ->
  exists m, lpCurrentEncodedSizeUnsafe lp p = Some m /\ 0 <= m.
Proof.
  intros Hp. unfold lpCurrentEncodedSizeBytes, lpCurrentEncodedSizeUnsafe.
  destruct (bget lp p) as [b|] eqn:Eb; [|done]. cbn [mbind option_bind]. intros [= Hn] H1 H2.
  apply (bget_is_byte _ _ _ Hlp) in Eb as Hb. unfold is_byte in Hb.
  assert (Hland : forall x y, 0 <= x -> 0 <= Z.land x y) by (intros; apply Z.land_nonneg; by left).
  revert Hn. repeat bcase; intros Hn; try (by eexists).
  - unfold LP_ENCODING_6BIT_STR_LEN. rewrite Eb. cbn [mbind option_bind]. eexists. split; [done|].
    specialize (Hland b 63). lia.
  - unfold LP_ENCODING_12BIT_STR_LEN. rewrite Eb. cbn [mbind option_bind].
    destruct (bget_is_Some lp (p + 1)) as [c Hc]; [lia|]. rewrite Hc. cbn [mbind option_bind]. eexists. split; [done|].
    apply (bget_is_byte _ _ _ Hlp) in Hc. unfold is_byte in Hc.
    assert (0 <= Z.lor (Z.shiftl (Z.land b 15) 8) c); [|lia].
    apply Z.lor_nonneg. split; [apply Z.shiftl_nonneg, Hland|]; lia.
  - unfold LP_ENCODING_32BIT_STR_LEN. destruct (get_le_safe 4 (p + 1) 0) as (v & -> & Hv); [lia..|].
    eexists. split; [done|]. apply uint_range. lia.
Qed.

Lemma lpValidateNext_safe p :
  LP_HDR_SIZE <= p < blen lp ->
  exists ok q, lpValidateNext lp (Some p) (blen lp) = Some (ok, q) /\
    forall q', q = Some q' -> ok = true -> p < q' < blen lp.
Proof.
  unfold LP_HDR_SIZE. intros Hp. unfold lpValidateNext, LP_HDR_SIZE.
  destruct (bget_is_Some lp p) as [b Hb]; [lia|]. rewrite Hb. cbn [mbind option_bind].
  bcase; [by eexists _, _|].
  destruct (lpCurrentEncodedSizeBytes lp p) as [n|] eqn:En;
    [|by unfold lpCurrentEncodedSizeBytes in En; rewrite Hb in En]. cbn [mbind option_bind].
  bcase; [by eexists _, _|]. bcase; [by eexists _, _|].
  assert (0 <= n).
  { unfold lpCurrentEncodedSizeBytes in En. rewrite Hb in En. injection En as <-. repeat bcase; lia. }
  destruct (lpCurrentEncodedSize_safe p n) as (m & -> & Hm); [lia|done|lia|lia|]. cbn [mbind option_bind].
  bcase; [by eexists _, _|].
  assert (1 <= lpBacklenSize m) by (unfold lpBacklenSize, lpEncodeBacklen; repeat bcase; done).
  destruct (lpDecodeBacklen_safe (p + (m + lpBacklenSize m) - 1)) as (v & -> & Hv); [lia|]. cbn [mbind option_bind].
  bcase; [by eexists _, _|]. eexists _, _. split; [done|]. intros q' [= <-] _. lia.
Qed.

Lemma validate_entries_safe fuel p count :
  (forall q, p = Some q -> LP_HDR_SIZE <= q < blen lp /\ blen lp - q <= Z.of_nat fuel) ->
  is_Some (validate_entries fuel lp p (blen lp) count).
Proof.
  revert p count. induction fuel as [|fuel IH]; intros [p|] count Hp; cbn [validate_entries]; eauto.
  - destruct (Hp p eq_refl). lia.
  - destruct (Hp p eq_refl) as [H1 H2]. destruct (lpValidateNext_safe p H1) as (ok & q & -> & Hq).
    cbn [mbind option_bind]. destruct ok; [|eauto]. apply IH. intros q' ->.
    specialize (Hq q' eq_refl eq_refl). lia.
Qed.

Lemma lpValidateIntegrity_total deep : is_Some (lpValidateIntegrity lp (blen lp) deep).
Proof.
  unfold lpValidateIntegrity, LP_HDR_SIZE. bcase; [eauto|].
  unfold lpGetTotalBytes, lpGetNumElements. destruct (get_le_safe 4 0 0) as (t & -> & _); [lia..|].
  destruct (get_le_safe 2 4 0) as (num & -> & _); [lia..|]. cbn [mbind option_bind].
  bcase; [eauto|]. destruct (bget_is_Some lp (blen lp - 1)) as [c ->]; [lia|]. cbn [mbind option_bind].
  bcase; [eauto|]. bcase; [eauto|]. replace t with (blen lp) by lia.
  unfold lpFirst, LP_HDR_SIZE. destruct (bget_is_Some lp 6) as [f ->]; [lia|]. cbn [mbind option_bind].
  destruct (validate_entries_safe (length lp) (if f =? LP_EOF then None else Some 6) 0) as [[n|] ->];
    [|cbn [mbind option_bind]; eauto..].
  intros q. bcase; [done|]. intros [= <-]. unfold LP_HDR_SIZE, blen in *. lia.
Qed.
End Hostile.

Lemma lpNew_rep indet capacity : exists lp, lpNew indet capacity = Some lp /\ rep lp [].
Proof.
  unfold lpNew, LP_HDR_SIZE. set (n := if capacity >? 6 + 1 then capacity else 6 + 1).
  assert (7 <= n) as Hn by (subst n; bcase; lia). clearbody n.
  destruct (brealloc_grow indet [] n) as (t & -> & Ht); [rewrite blen_nil; lia|]. cbn [app].
  rewrite blen_nil in Ht. change (6 + 1) with 7.
  destruct (split_blen t 4) as (a & r & -> & Ha); [lia|]. rewrite blen_app in Ht.
  destruct (split_blen r 2) as (b & r' & -> & Hb); [lia|]. rewrite blen_app in Ht.
  destruct r' as [|x r']; [rewrite blen_nil in Ht; lia|].
  rewrite set_total_hd by done. cbn [mbind option_bind]. rewrite set_num_hd by done. cbn [mbind option_bind].
  rewrite app_assoc, bset_app by done. eexists. split; [done|]. exists 0, r'.
  split_and!; [by rewrite <- app_assoc|done|by right].
Qed.

(** A listpack of a string and an integer, with three bytes to spare. *)
Definition sample : list bytes := [str "a"; str "17"].
Lemma sample_rep : rep (layout 2 [1; 2; 3] sample) sample.
Proof. exists 2, [1; 2; 3]. split_and!; [done|by vm_compute|by right]. Qed.

(** ** The contract *)



(** C33: Reading element [i] gives its value: the string itself, or the integer
    it is the canonical decimal form of. *)
Theorem lpGet_correct lp L i s :
  rep lp L -> L !! i = Some s ->
  exists v, lpGet lp (off (take i L)) = Some v /\
    match v with
    | LInt n => in_sint 64 n /\ decimal s n
    | LStr p n => bread lp p n = Some s
    end.
Proof.
  intros (num & slack & -> & Hs & _) E. apply take_drop_middle in E as EL.
  pose proof (lpGet_at num slack (take i L) s (drop (S i) L)) as H. rewrite EL in H.
  destruct (H Hs) as [Hg Hstr]. eexists. split; [done|]. destruct (int_of_spec s) as [_ Hi].
  unfold value_of in *. destruct (int_of s) as [v|]; [by apply Hi|by apply Hstr].
Qed.

Lemma lpGet_correct_witness : exists v,
  lpGet (layout 2 [1; 2; 3] sample) (off (take 1 sample)) = Some v /\
  match v with
  | LInt n => in_sint 64 n /\ decimal (str "17") n
  | LStr p n => bread (layout 2 [1; 2; 3] sample) p n = Some (str "17")
  end.
Proof. by apply (lpGet_correct _ sample 1 _ sample_rep). Defined.

(** Every way of reaching an element agrees: [lpFirst], [lpLast], [lpNext],
    [lpPrev] and [lpSeek] (negative indexes count from the tail) give the
    pointer to the element of that index, and NULL outside the list. *)
Theorem lp_traversal lp L :
  rep lp L ->
  lpFirst lp = Some (ptr L 0) /\
  lpLast lp = Some (match length L with O => None | S n => ptr L n end) /\
  (forall i, (i < length L)%nat ->
     lpNext lp (off (take i L)) = Some (ptr L (S i)) /\
     lpPrev lp (off (take i L)) = Some (match i with O => None | S j => ptr L j end)) /\
  forall index, lpSeek lp index = Some (seek_spec L index).
Proof.
  intros Hr. split_and!; [by apply rep_first|by apply rep_last| |by intros; apply lpSeek_spec].
  intros i Hi. split; [by apply rep_next|]. destruct i; [done|]. apply rep_prev; [done|lia].
Qed.

Lemma lp_traversal_witness : lpSeek (layout 2 [1; 2; 3] sample) (-1) = Some (Some 9).
Proof. destruct (lp_traversal _ sample sample_rep) as (_ & _ & _ & Hseek). by rewrite Hseek. Defined.

(** [lpLength] is the number of elements, and recomputing an unknown
    count leaves the represented list unchanged. *)
Theorem lpLength_correct lp L :
  rep lp L -> exists lp', lpLength lp = Some (Z.of_nat (length L), lp') /\ rep lp' L.
Proof. apply lpLength_spec. Qed.

Lemma lpLength_correct_witness : exists lp',
  lpLength (layout 2 [1; 2; 3] sample) = Some (2, lp') /\ rep lp' sample.
Proof. exact (lpLength_correct _ sample sample_rep). Defined.

(** Deep validation of an arbitrary buffer always terminates and never
    reads outside it. *)
Theorem lpValidateIntegrity_safe lp deep :
  is_bytes lp -> is_Some (lpValidateIntegrity lp (blen lp) deep).
Proof. intros. by apply lpValidateIntegrity_total. Qed.

Lemma lpValidateIntegrity_safe_witness :
  is_Some (lpValidateIntegrity [12; 0; 0; 0; 1; 0; 240; 255; 255; 255; 255; 255] 12 true).
Proof.
  apply (lpValidateIntegrity_safe [12; 0; 0; 0; 1; 0; 240; 255; 255; 255; 255; 255] true). by repeat constructor.
Defined.

(** C34: Header validation accepts every listpack, but deep validation rejects
    every non-empty one whose header knows its element count: the loop counts
    the step onto the terminator as one more element. *)
Theorem lpValidateIntegrity_deep num L :
  lpsize L < 2 ^ 32 -> num_ok num L ->
  lpValidateIntegrity (layout num [] L) (lpsize L) false = Some true /\
  lpValidateIntegrity (layout num [] L) (lpsize L) true
  = Some (match L with [] => true | _ => num =? LP_HDR_NUMELE_UNKNOWN end).
Proof.
  intros. split; [by apply lpValidateIntegrity_shallow|by apply lpValidateIntegrity_deep_spec].
Qed.

Lemma lpValidateIntegrity_deep_witness : lpValidateIntegrity (layout 2 [] sample) (lpsize sample) true = Some false.
Proof. apply (lpValidateIntegrity_deep 2 sample); [by vm_compute|by right]. Defined.

End Listpack.
