(* ===== verification/Dict.v ===== *)
(** dict.c: hash tables with chaining and incremental rehashing.

    Keys are taken up to the equality that [keyCompare] decides, and the hash
    function is a parameter: what the table needs of it is that it is a
    function of the key. A chain is the list of its entries and a pointer to an
    entry is its table, bucket and place in the chain. [None] is a failed
    assertion, a NULL dereference or an index outside a table. *)

From stdpp Require Import gmap.
From S2P Require Import Prelude.

Module Dict.

Inductive status := DICT_OK | DICT_ERR.

Definition DICT_HT_INITIAL_SIZE : Z := 4.
Definition dict_force_resize_ratio : Z := 5.
Definition LONG_MAX : Z := 2 ^ 63 - 1.

(** [while(1) { if (i >= size) return i; i *= 2; }] *)
Fixpoint nextPower_loop (fuel : nat) (i size : Z) : option Z :=
  match fuel with
  | O => None
  | S fuel => if i >=? size then Some i else nextPower_loop fuel (uint 64 (i * 2)) size
  end.

Definition _dictNextPower (size : Z) : option Z :=
  if size >=? LONG_MAX then Some (LONG_MAX + 1)
  else nextPower_loop 64 DICT_HT_INITIAL_SIZE size.

Section Model.
Context {K V : Type} `{EqDecision K} (hash : K -> Z).

Abbreviation chain := (list (K * V)).

Record dictht := Ht {
  table : option (list chain);
  size_ : Z;
  sizemask : Z;
  used : Z;
}.

Record dict := Dict {
  ht0 : dictht;
  ht1 : dictht;
  rehashidx : Z;
  pauserehash : Z;
}.

(** [d->ht[t]] *)
Definition ht (d : dict) (t : bool) : dictht := if t then ht1 d else ht0 d.
Definition set_ht (d : dict) (t : bool) (h : dictht) : dict :=
  if t then Dict (ht0 d) h (rehashidx d) (pauserehash d)
  else Dict h (ht1 d) (rehashidx d) (pauserehash d).

(** [ht->table[i]], read and written. *)
Definition tget (h : dictht) (i : Z) : option chain :=
  b ← table h;
  if (0 <=? i) && (i <? Z.of_nat (length b)) then b !! Z.to_nat i else None.
Definition tset (h : dictht) (i : Z) (c : chain) : option dictht :=
  b ← table h;
  if (0 <=? i) && (i <? Z.of_nat (length b))
  then Some (Ht (Some (<[Z.to_nat i := c]> b)) (size_ h) (sizemask h) (used h)) else None.
Definition add_used (h : dictht) (n : Z) : dictht :=
  Ht (table h) (size_ h) (sizemask h) (uint 64 (used h + n)).

Definition dictIsRehashing (d : dict) : bool := negb (rehashidx d =? -1).
Definition dictSize (d : dict) : Z := uint 64 (used (ht0 d) + used (ht1 d)).
Definition dictPauseRehashing (d : dict) : dict :=
  Dict (ht0 d) (ht1 d) (rehashidx d) (sint 16 (pauserehash d + 1)).
Definition dictResumeRehashing (d : dict) : dict :=
  Dict (ht0 d) (ht1 d) (rehashidx d) (sint 16 (pauserehash d - 1)).

Definition _dictReset : dictht := Ht None 0 0 0.
Definition _dictInit : dict := Dict _dictReset _dictReset (-1) 0.
Definition dictCreate : dict := _dictInit.

(** [malloc_failed] is the pointer argument: [None] when it is NULL; otherwise
    [Some r], [r] telling whether [ztrycalloc] returns memory. The third
    component of the result is [*malloc_failed]. *)
Definition _dictExpand (d : dict) (size : Z) (malloc_failed : option bool)
    : option (dict * status * bool) :=
  if dictIsRehashing d || (used (ht0 d) >? size) then Some (d, DICT_ERR, false)
  else
    realsize ← _dictNextPower size;
    if realsize =? size_ (ht0 d) then Some (d, DICT_ERR, false)
    else
      if (match malloc_failed with Some r => negb r | None => false end) then Some (d, DICT_ERR, true)
      else
        let n := Ht (Some (replicate (Z.to_nat realsize) [])) realsize (uint 64 (realsize - 1)) 0 in
        match table (ht0 d) with
        | None => Some (Dict n (ht1 d) (rehashidx d) (pauserehash d), DICT_OK, false)
        | Some _ => Some (Dict (ht0 d) n 0 (pauserehash d), DICT_OK, false)
        end.

Definition dictExpand (d : dict) (size : Z) : option (dict * status) :=
  '(d, r, _) ← _dictExpand d size None; Some (d, r).

Definition dictTryExpand (d : dict) (size : Z) (mem : bool) : option (dict * status) :=
  '(d, _, malloc_failed) ← _dictExpand d size (Some mem);
  Some (d, if (malloc_failed : bool) then DICT_ERR else DICT_OK).

(** ** Rehashing *)

(** [while(table[rehashidx] == NULL) { rehashidx++; if (--empty_visits == 0) return 1; }];
    the last component tells the early return. *)
Fixpoint skip_empty (fuel : nat) (h : dictht) (rehashidx empty_visits : Z) : option (Z * Z * bool) :=
  match fuel with
  | O => None
  | S fuel =>
      c ← tget h rehashidx;
      match c with
      | [] =>
          let rehashidx := rehashidx + 1 in
          let empty_visits := empty_visits - 1 in
          if empty_visits =? 0 then Some (rehashidx, empty_visits, true)
          else skip_empty fuel h rehashidx empty_visits
      | _ => Some (rehashidx, empty_visits, false)
      end
  end.

(** The loop over the entries of a bucket: each goes to the head of its chain
    in the new table. *)
Fixpoint move_chain (de : chain) (h0 h1 : dictht) : option (dictht * dictht) :=
  match de with
  | [] => Some (h0, h1)
  | (k, v) :: nextde =>
      let h := Z.land (hash k) (sizemask h1) in
      c ← tget h1 h;
      h1 ← tset h1 h ((k, v) :: c);
      move_chain nextde (add_used h0 (-1)) (add_used h1 1)
  end.

Definition table_len (h : dictht) : nat := match table h with Some b => length b | None => 0 end.

(** [while(n-- && d->ht[0].used != 0)]; the boolean tells [return 1]. *)
Fixpoint rehash_loop (n : nat) (empty_visits : Z) (d : dict) : option (dict * bool) :=
  match n with
  | O => Some (d, false)
  | S n =>
      if used (ht0 d) =? 0 then Some (d, false)
      else
        assert! size_ (ht0 d) >? uint 64 (rehashidx d);
        '(idx, empty_visits, ret) ← skip_empty (S (table_len (ht0 d))) (ht0 d) (rehashidx d) empty_visits;
        if (ret : bool) then Some (Dict (ht0 d) (ht1 d) idx (pauserehash d), true)
        else
          de ← tget (ht0 d) idx;
          '(h0, h1) ← move_chain de (ht0 d) (ht1 d);
          h0 ← tset h0 idx [];
          rehash_loop n empty_visits (Dict h0 h1 (idx + 1) (pauserehash d))
  end.

(** Returns whether there is more to rehash. *)
Definition dictRehash (d : dict) (n : nat) : option (dict * bool) :=
  let empty_visits := Z.of_nat n * 10 in
  if negb (dictIsRehashing d) then Some (d, false)
  else
    '(d, ret) ← rehash_loop n empty_visits d;
    if (ret : bool) then Some (d, true)
    else if used (ht0 d) =? 0 then Some (Dict (ht1 d) _dictReset (-1) (pauserehash d), false)
    else Some (d, true).

Definition _dictRehashStep (d : dict) : option dict :=
  if pauserehash d =? 0 then '(d, _) ← dictRehash d 1; Some d else Some d.

(** [clock] gives the successive results of [timeInMilliseconds()]. *)
Fixpoint rehashMilliseconds_loop (fuel : nat) (d : dict) (clock : nat -> Z) (start ms rehashes : Z)
    : option (dict * Z) :=
  match fuel with
  | O => None
  | S fuel =>
      '(d, more) ← dictRehash d 100;
      if negb more then Some (d, rehashes)
      else
        let rehashes := rehashes + 100 in
        if clock O - start >? ms then Some (d, rehashes)
        else rehashMilliseconds_loop fuel d (fun i => clock (S i)) start ms rehashes
  end.

Definition dictRehashMilliseconds (fuel : nat) (d : dict) (ms : Z) (clock : nat -> Z) : option (dict * Z) :=
  if pauserehash d >? 0 then Some (d, 0)
  else rehashMilliseconds_loop fuel d (fun i => clock (S i)) (clock O) ms 0.

(** ** Lookup and update *)

(** A pointer to an entry. *)
Record eref := Eref { r_table : bool; r_idx : Z; r_pos : nat }.

Definition deref (d : dict) (r : eref) : option (K * V) :=
  c ← tget (ht d (r_table r)) (r_idx r); c !! r_pos r.

(** The place of [key] in a chain. *)
Fixpoint chain_find (key : K) (he : chain) : option nat :=
  match he with
  | [] => None
  | (k, _) :: next => if decide (key = k) then Some O else S <$> chain_find key next
  end.

(** [for (table = 0; table <= 1; table++) { ...; if (!dictIsRehashing(d)) break; }]
    with the search of the chain; the index of the last table is returned too. *)
Definition search_table (d : dict) (key : K) (h : Z) (t : bool) : option (Z * option eref) :=
  let idx := Z.land h (sizemask (ht d t)) in
  he ← tget (ht d t) idx;
  Some (idx, Eref t idx <$> chain_find key he).

Definition search (d : dict) (key : K) (h : Z) : option (Z * option eref) :=
  '(idx, r) ← search_table d key h false;
  match r with
  | Some _ => Some (idx, r)
  | None => if negb (dictIsRehashing d) then Some (idx, None) else search_table d key h true
  end.

Section Resize.
(** The global [dict_can_resize], and the callback [expandAllowed] of the type,
    if any: it is given the memory needed and the ratio, as two integers. *)
Context (dict_can_resize : bool) (expandAllowed : option (Z -> Z * Z -> bool)).

Definition dictResize (d : dict) : option (dict * status) :=
  if negb dict_can_resize || dictIsRehashing d then Some (d, DICT_ERR)
  else
    let minimal := used (ht0 d) in
    let minimal := if minimal <? DICT_HT_INITIAL_SIZE then DICT_HT_INITIAL_SIZE else minimal in
    dictExpand d minimal.

Definition dictTypeExpandAllowed (d : dict) : option bool :=
  match expandAllowed with
  | None => Some true
  | Some f =>
      n ← _dictNextPower (uint 64 (used (ht0 d) + 1));
      Some (f (uint 64 (n * 8)) (used (ht0 d), size_ (ht0 d)))
  end.

Definition _dictExpandIfNeeded (d : dict) : option (dict * status) :=
  if dictIsRehashing d then Some (d, DICT_OK)
  else if size_ (ht0 d) =? 0 then dictExpand d DICT_HT_INITIAL_SIZE
  else if (used (ht0 d) >=? size_ (ht0 d)) &&
          (dict_can_resize || (used (ht0 d) / size_ (ht0 d) >? dict_force_resize_ratio)) then
    allowed ← dictTypeExpandAllowed d;
    if (allowed : bool) then dictExpand d (uint 64 (used (ht0 d) + 1)) else Some (d, DICT_OK)
  else Some (d, DICT_OK).

(** The index (-1 when there is none) and [*existing]. *)
Definition _dictKeyIndex (d : dict) (key : K) (h : Z) : option (dict * Z * option eref) :=
  '(d, r) ← _dictExpandIfNeeded d;
  match r with
  | DICT_ERR => Some (d, -1, None)
  | DICT_OK =>
      '(idx, e) ← search d key h;
      match e with
      | Some _ => Some (d, -1, e)
      | None => Some (d, idx, None)
      end
  end.

(** [junk] is the value the new entry has until the caller sets it. Returns the
    new entry (NULL when the key exists) and [*existing]. *)
Definition dictAddRaw (d : dict) (key : K) (junk : V) : option (dict * option eref * option eref) :=
  d ← (if dictIsRehashing d then _dictRehashStep d else Some d);
  '(d, index, existing) ← _dictKeyIndex d key (hash key);
  if index =? -1 then Some (d, None, existing)
  else
    let t := dictIsRehashing d in
    c ← tget (ht d t) index;
    h ← tset (ht d t) index ((key, junk) :: c);
    Some (set_ht d t (add_used h 1), Some (Eref t index 0), existing).

(** [dictSetVal(d, entry, val)] *)
Definition dictSetVal (d : dict) (r : eref) (val : V) : option dict :=
  c ← tget (ht d (r_table r)) (r_idx r);
  '(k, _) ← c !! r_pos r;
  h ← tset (ht d (r_table r)) (r_idx r) (<[r_pos r := (k, val)]> c);
  Some (set_ht d (r_table r) h).

Definition dictAdd (d : dict) (key : K) (val junk : V) : option (dict * status) :=
  '(d, entry, _) ← dictAddRaw d key junk;
  match entry with
  | None => Some (d, DICT_ERR)
  | Some e => d ← dictSetVal d e val; Some (d, DICT_OK)
  end.

(** Returns whether the key was added. *)
Definition dictReplace (d : dict) (key : K) (val junk : V) : option (dict * bool) :=
  '(d, entry, existing) ← dictAddRaw d key junk;
  match entry with
  | Some e => d ← dictSetVal d e val; Some (d, true)
  | None => e ← existing; d ← dictSetVal d e val; Some (d, false)
  end.

Definition dictAddOrFind (d : dict) (key : K) (junk : V) : option (dict * option eref) :=
  '(d, entry, existing) ← dictAddRaw d key junk;
  Some (d, match entry with Some e => Some e | None => existing end).
End Resize.

(** Unlinks the entry and returns it. *)
Definition unlink (d : dict) (r : eref) : option (dict * (K * V)) :=
  c ← tget (ht d (r_table r)) (r_idx r);
  he ← c !! r_pos r;
  h ← tset (ht d (r_table r)) (r_idx r) (delete (r_pos r) c);
  Some (set_ht d (r_table r) (add_used h (-1)), he).

Definition dictGenericDelete (d : dict) (key : K) : option (dict * option (K * V)) :=
  if (used (ht0 d) =? 0) && (used (ht1 d) =? 0) then Some (d, None)
  else
    d ← (if dictIsRehashing d then _dictRehashStep d else Some d);
    '(_, r) ← search d key (hash key);
    match r with
    | Some r => '(d, he) ← unlink d r; Some (d, Some he)
    | None => Some (d, None)
    end.

Definition dictDelete (d : dict) (key : K) : option (dict * status) :=
  '(d, he) ← dictGenericDelete d key;
  Some (d, match he with Some _ => DICT_OK | None => DICT_ERR end).

Definition dictUnlink (d : dict) (key : K) : option (dict * option (K * V)) := dictGenericDelete d key.

Definition dictFind (d : dict) (key : K) : option (dict * option eref) :=
  if dictSize d =? 0 then Some (d, None)
  else
    d ← (if dictIsRehashing d then _dictRehashStep d else Some d);
    '(_, r) ← search d key (hash key);
    Some (d, r).

Definition dictFetchValue (d : dict) (key : K) : option (dict * option V) :=
  '(d, he) ← dictFind d key;
  match he with
  | Some r => '(_, v) ← deref d r; Some (d, Some v)
  | None => Some (d, None)
  end.

(** [for (i = 0; i < ht->size && ht->used > 0; i++)] with the freeing of each chain. *)
Fixpoint clear_loop (n : nat) (i : Z) (h : dictht) : option dictht :=
  match n with
  | O => Some h
  | S n =>
      if used h >? 0 then
        he ← tget h i;
        clear_loop n (i + 1) (add_used h (- Z.of_nat (length he)))
      else Some h
  end.

Definition _dictClear (h : dictht) : option dictht :=
  _ ← clear_loop (Z.to_nat (size_ h)) 0 h; Some _dictReset.

Definition dictEmpty (d : dict) : option dict :=
  h0 ← _dictClear (ht0 d);
  h1 ← _dictClear (ht1 d);
  Some (Dict h0 h1 (-1) 0).

End Model.

(** ** Sizes *)

Lemma nextPower_loop_ok fuel n size :
  0 <= n -> n + Z.of_nat fuel = 66 -> size <= 2 ^ 63 -> n <= 63 -> (0 < fuel)%nat ->
  exists k, nextPower_loop fuel (2 ^ n) size = Some (2 ^ k) /\ n <= k <= 63 /\ size <= 2 ^ k /\
    (n < k -> 2 ^ (k - 1) < size).
Proof.
  revert n. induction fuel as [|fuel IH]; intros n Hn Hf Hs Hn63 H0; [lia|]. cbn [nextPower_loop].
  bcase; [exists n; split_and!; [done|lia..]|].
  destruct (Z.eq_dec n 63) as [->|]; [lia|].
  assert (2 ^ n * 2 = 2 ^ (n + 1)) as -> by (rewrite Z.pow_add_r by lia; lia).
  rewrite uint_small by (split; [apply Z.pow_nonneg; lia|apply Z.pow_lt_mono_r; lia]).
  destruct (IH (n + 1)) as (k & -> & Hk & Hsz & Hmin); [lia..|].
  exists k. split_and!; [done|lia|lia|done|]. intros _.
  destruct (Z.eq_dec k (n + 1)) as [->|]; [|apply Hmin; lia]. replace (n + 1 - 1) with n by lia. lia.
Qed.

(** The least power of two, at least 4, that holds [size] buckets. *)
Lemma _dictNextPower_ok size :
  exists k, _dictNextPower size = Some (2 ^ k) /\ 2 <= k <= 63 /\ (size <= 2 ^ 63 -> size <= 2 ^ k) /\
    (2 < k -> 2 ^ (k - 1) < size).
Proof.
  unfold _dictNextPower, LONG_MAX. bcase.
  - exists 63. split_and!; [done|lia|lia|lia|]. intros _. lia.
  - destruct (nextPower_loop_ok 64 2 size) as (k & Hk & ? & ? & ?); [lia..|].
    exists k. split_and!; [done|lia..|]. done.
Qed.

Lemma concat_insert {A} (b : list (list A)) i c :
  b !! i = Some c ->
  exists r, concat b ≡ₚ c ++ r /\ forall c', concat (<[i := c']> b) ≡ₚ c' ++ r.
Proof.
  intros Hi. exists (concat (take i b) ++ concat (drop (S i) b)).
  assert (i < length b)%nat by (eapply lookup_lt_Some; done).
  split.
  - rewrite <- (take_drop_middle b i c Hi) at 1. rewrite concat_app. cbn [concat]. solve_Permutation.
  - intros c'. rewrite insert_take_drop by done. rewrite concat_app. cbn [concat]. solve_Permutation.
Qed.

Section Facts.
Context {K V : Type} `{Countable K} (hash : K -> Z).
Abbreviation chain := (list (K * V)).
Abbreviation ht_t := (@dictht K V).
Abbreviation dict_t := (@dict K V).

(** ** Well-formedness *)

Definition entries (h : ht_t) : list (K * V) := match table h with Some b => concat b | None => [] end.
Definition contents (d : dict_t) : list (K * V) := entries (ht0 d) ++ entries (ht1 d).
(** The finite map a dictionary stands for. *)
Definition abs (d : dict_t) : gmap K V := list_to_map (contents d).

Definition placed (b : list chain) (mask : Z) : Prop :=
  forall i c k v, b !! i = Some c -> (k, v) ∈ c -> Z.land (hash k) mask = Z.of_nat i.

(** An allocated table of [2 ^ n] buckets. *)
Record table_ok (h : ht_t) (b : list chain) (n : Z) : Prop := {
  t_table : table h = Some b;
  t_log : 2 <= n <= 63;
  t_size : size_ h = 2 ^ n;
  t_len : Z.of_nat (length b) = 2 ^ n;
  t_mask : sizemask h = 2 ^ n - 1;
  t_used : used h = Z.of_nat (length (concat b));
  t_placed : placed b (2 ^ n - 1);
}.
Definition ht_ok (h : ht_t) : Prop := exists b n, table_ok h b n.

(** The part of the old table already moved is empty. *)
Definition moved (h : ht_t) (idx : Z) : Prop :=
  forall b, table h = Some b -> forall i, Z.of_nat i < idx -> (i < length b)%nat -> b !! i = Some [].

Definition rehashing (d : dict_t) : Prop :=
  ht_ok (ht0 d) /\ ht_ok (ht1 d) /\ 0 <= rehashidx d <= size_ (ht0 d) /\ moved (ht0 d) (rehashidx d).
Definition stable (d : dict_t) : Prop :=
  rehashidx d = -1 /\ ht1 d = _dictReset /\ (ht0 d = _dictReset \/ ht_ok (ht0 d)).

Record dict_ok (d : dict_t) : Prop := {
  d_state : stable d \/ rehashing d;
  d_keys : NoDup (contents d).*1;
  d_bound : Z.of_nat (length (contents d)) < 2 ^ 62;
}.

Lemma isRehashing_stable d : stable d -> dictIsRehashing d = false.
Proof. intros (Hi & _). unfold dictIsRehashing. by rewrite Hi. Qed.
Lemma isRehashing_rehashing d : rehashing d -> dictIsRehashing d = true.
Proof. intros (_ & _ & Hi & _). unfold dictIsRehashing. lia. Qed.

Lemma entries_ok h b n : table_ok h b n -> entries h = concat b.
Proof. intros []. unfold entries. by rewrite t_table0. Qed.
Lemma used_ok h : ht_ok h -> used h = Z.of_nat (length (entries h)).
Proof. intros (b & n & Hb). rewrite (entries_ok h b n Hb). apply Hb. Qed.

(** ** Table accesses *)

Lemma tget_at (h : ht_t) b i c : table h = Some b -> b !! i = Some c -> tget h (Z.of_nat i) = Some c.
Proof.
  intros Hb Hi. unfold tget. rewrite Hb. cbn [mbind option_bind].
  assert (i < length b)%nat by (eapply lookup_lt_Some; done). bdec. by rewrite Nat2Z.id.
Qed.
Lemma tset_at (h : ht_t) b i c : table h = Some b -> (i < length b)%nat ->
  tset h (Z.of_nat i) c = Some (Ht (Some (<[i := c]> b)) (size_ h) (sizemask h) (used h)).
Proof. intros Hb Hi. unfold tset. rewrite Hb. cbn [mbind option_bind]. bdec. by rewrite Nat2Z.id. Qed.

Lemma tget_Z (h : ht_t) b i c : table h = Some b -> 0 <= i -> b !! Z.to_nat i = Some c -> tget h i = Some c.
Proof. intros. rewrite <- (Z2Nat.id i) by done. by apply (tget_at _ b). Qed.
Lemma tset_Z (h : ht_t) b i c : table h = Some b -> 0 <= i < Z.of_nat (length b) ->
  tset h i c = Some (Ht (Some (<[Z.to_nat i := c]> b)) (size_ h) (sizemask h) (used h)).
Proof. intros. rewrite <- (Z2Nat.id i) at 1 by lia. apply tset_at; [done|lia]. Qed.

Lemma bucket_of h b n x : table_ok h b n ->
  exists i c, Z.land x (sizemask h) = Z.of_nat i /\ b !! i = Some c.
Proof.
  intros [Ht Hn Hs Hl Hm _ _]. rewrite Hm, land_ones_mod by lia.
  pose proof (Z.mod_pos_bound x (2 ^ n) (pow2_pos n ltac:(lia))).
  exists (Z.to_nat (x mod 2 ^ n)). destruct (lookup_lt_is_Some_2 b (Z.to_nat (x mod 2 ^ n))) as [c Hc]; [lia|].
  exists c. split; [lia|done].
Qed.

(** Replacing the chain of a bucket. *)
Lemma table_ok_insert h b n i c c' u :
  table_ok h b n -> b !! i = Some c ->
  (forall k v, (k, v) ∈ c' -> Z.land (hash k) (2 ^ n - 1) = Z.of_nat i) ->
  u = Z.of_nat (length (concat b)) + Z.of_nat (length c') - Z.of_nat (length c) ->
  table_ok (Ht (Some (<[i := c']> b)) (size_ h) (sizemask h) u) (<[i := c']> b) n.
Proof.
  intros [Ht Hn Hs Hl Hm Hu Hp] Hi Hc' ->. split; cbn; [done|done|done|by rewrite length_insert|done| |].
  - destruct (concat_insert b i c Hi) as (r & Hr & Hr'). rewrite Hr, Hr', !length_app. lia.
  - intros j cj k v [[<- [<- _]]|[Hne Hj]]%list_lookup_insert_Some Hin; [by apply (Hc' k v)|by eapply Hp].
Qed.

(** ** Rehashing keeps the contents *)

Definition same_shape (h h' : ht_t) : Prop :=
  table h' = table h /\ size_ h' = size_ h /\ sizemask h' = sizemask h.

Lemma move_chain_ok de h0 h1 :
  ht_ok h1 -> Z.of_nat (length de) <= used h0 < 2 ^ 64 ->
  used h1 + Z.of_nat (length de) < 2 ^ 64 ->
  exists h0' h1', move_chain hash de h0 h1 = Some (h0', h1') /\
    same_shape h0 h0' /\ used h0' = used h0 - Z.of_nat (length de) /\
    ht_ok h1' /\ entries h1' ≡ₚ de ++ entries h1 /\ size_ h1' = size_ h1.
Proof.
  revert h0 h1. induction de as [|[k v] de IH]; intros h0 h1 (b & n & Hb) H0 H1; cbn [move_chain].
  - exists h0, h1. split_and!; [done|done|simpl; lia|by exists b, n|done|done].
  - destruct (bucket_of h1 b n (hash k) Hb) as (i & c & Ei & Hc). rewrite Ei.
    assert (Hi : (i < length b)%nat) by (eapply lookup_lt_Some; done).
    rewrite (tget_at h1 b i c) by (done || apply Hb). cbn [mbind option_bind].
    rewrite (tset_at h1 b i) by (done || apply Hb). cbn [mbind option_bind length] in *.
    set (h1a := add_used _ 1).
    assert (Hu1 : 0 <= used h1) by (rewrite (t_used _ _ _ Hb); lia).
    assert (Hb' : table_ok h1a (<[i := (k, v) :: c]> b) n).
    { unfold h1a, add_used. cbn. rewrite uint_small by (split; lia).
      eapply table_ok_insert; [done|done| |rewrite (t_used _ _ _ Hb); simpl; lia].
      intros k' v' [[= -> ->]|Hin]%elem_of_cons; [by rewrite <- (t_mask _ _ _ Hb)|by eapply (t_placed _ _ _ Hb)]. }
    assert (Hua : used h1a = used h1 + 1) by (unfold h1a, add_used; cbn; apply uint_small; split; lia).
    assert (Hu0 : used (add_used h0 (-1)) = used h0 - 1) by (unfold add_used; cbn; apply uint_small; split; lia).
    destruct (IH (add_used h0 (-1)) h1a) as (h0' & h1' & -> & Hsh & Hu & Hok & Hperm & Hsz);
      [by eexists _, _|lia|lia|].
    exists h0', h1'. split_and!; [done|done|lia|done| |done].
    rewrite Hperm, (entries_ok _ _ _ Hb'), (entries_ok _ _ _ Hb).
    destruct (concat_insert b i c Hc) as (r & Hr & Hr'). rewrite Hr, Hr'. solve_Permutation.
Qed.

Lemma moved_lt h b n idx : table_ok h b n -> moved h idx -> used h <> 0 -> idx < 2 ^ n.
Proof.
  intros Hb Hm Hu. destruct (Z_lt_le_dec idx (2 ^ n)); [done|]. exfalso. apply Hu.
  rewrite (t_used _ _ _ Hb). assert (concat b = []) as ->; [|done].
  apply concat_nil_Forall, Forall_lookup. intros i c Hi.
  assert (i < length b)%nat by (eapply lookup_lt_Some; done). pose proof (t_len _ _ _ Hb).
  specialize (Hm b (t_table _ _ _ Hb) i ltac:(lia) ltac:(done)). congruence.
Qed.

Lemma moved_next h b idx : table h = Some b -> moved h idx -> 0 <= idx ->
  b !! Z.to_nat idx = Some [] -> moved h (idx + 1).
Proof.
  intros Hb Hm H0 Hc b' Hb' i Hi Hil. rewrite Hb in Hb'. injection Hb' as <-.
  destruct (Z.eq_dec (Z.of_nat i) idx) as [<-|]; [by rewrite Nat2Z.id in Hc|].
  apply (Hm b); [done|lia|done].
Qed.

(** The search for a bucket to move stops at one, or gives up before it. *)
Lemma skip_empty_ok fuel h b n idx ev :
  table_ok h b n -> moved h idx -> used h <> 0 -> 0 <= idx -> (length b < fuel + Z.to_nat idx)%nat ->
  exists idx' ev' ret, skip_empty fuel h idx ev = Some (idx', ev', ret) /\
    idx <= idx' < 2 ^ n /\ moved h idx' /\ (ret = true -> idx < idx') /\
    (ret = false -> exists c, b !! Z.to_nat idx' = Some c).
Proof.
  intros Hb. revert idx ev. induction fuel as [|fuel IH]; intros idx ev Hm Hu H0 Hf;
    pose proof (moved_lt h b n idx Hb Hm Hu) as Hlt; pose proof (t_len _ _ _ Hb) as Hlen; [lia|].
  cbn [skip_empty]. destruct (lookup_lt_is_Some_2 b (Z.to_nat idx)) as [c Hc]; [lia|].
  rewrite (tget_Z h b idx c) by (done || apply Hb).
  cbn [mbind option_bind]. destruct c as [|e c].
  - pose proof (moved_next h b idx (t_table _ _ _ Hb) Hm H0 Hc) as Hm'.
    pose proof (moved_lt h b n _ Hb Hm' Hu) as Hlt'. bcase.
    + exists (idx + 1), (ev - 1), true. split_and!; [done|lia|lia|done|lia|done].
    + destruct (IH (idx + 1) (ev - 1)) as (idx' & ev' & ret & -> & ? & ? & ? & ?); [done|done|lia|lia|].
      exists idx', ev', ret. split_and!; [done|lia|lia|done|lia|done].
  - exists idx, ev, false. split_and!; [done|lia|lia|done|done|]. intros _. by eexists.
Qed.

(** One pass of the loop. *)
Lemma move_bucket_ok d b n idx :
  rehashing d -> Z.of_nat (length (contents d)) < 2 ^ 62 -> table_ok (ht0 d) b n ->
  rehashidx d <= idx < 2 ^ n -> moved (ht0 d) idx ->
  exists de h0 h1 h0', tget (ht0 d) idx = Some de /\ move_chain hash de (ht0 d) (ht1 d) = Some (h0, h1) /\
    tset h0 idx [] = Some h0' /\
    let d' := Dict h0' h1 (idx + 1) (pauserehash d) in
    rehashing d' /\ contents d' ≡ₚ contents d /\ size_ h0' = size_ (ht0 d) /\ size_ h1 = size_ (ht1 d).
Proof.
  intros (_ & H1 & Hidx & _) Hlen Hb Hi Hm. pose proof (t_len _ _ _ Hb) as Hbl.
  destruct (lookup_lt_is_Some_2 b (Z.to_nat idx)) as [de Hde]; [lia|].
  assert (Hg : tget (ht0 d) idx = Some de) by (apply (tget_Z _ b); [apply Hb|lia|done]).
  destruct (concat_insert b (Z.to_nat idx) de Hde) as (r & Hr & Hr').
  pose proof (used_ok _ H1) as Hu1. pose proof (t_used _ _ _ Hb) as Hu0.
  pose proof (Permutation_length Hr) as Hrl. rewrite length_app in Hrl.
  unfold contents in Hlen. rewrite length_app, (entries_ok _ _ _ Hb) in Hlen.
  destruct (move_chain_ok de (ht0 d) (ht1 d)) as (h0 & h1 & Hmv & (Htb & Hs & Hmk) & Hu & Hok & Hperm & Hsz); [done|lia|lia|].
  assert (Hset : tset h0 idx [] = Some (Ht (Some (<[Z.to_nat idx := []]> b)) (size_ h0) (sizemask h0) (used h0))).
  { apply tset_Z; [rewrite Htb; apply Hb|lia]. }
  eexists _, _, _, _. split; [done|]. split; [done|]. split; [done|]. cbv zeta.
  assert (Hnew : table_ok (Ht (Some (<[Z.to_nat idx := []]> b)) (size_ h0) (sizemask h0) (used h0))
    (<[Z.to_nat idx := []]> b) n).
  { rewrite Hs, Hmk. eapply table_ok_insert; [done|done| |simpl; lia]. intros k v Hin. by apply elem_of_nil in Hin. }
  split_and!; cbn [size_ ht0 ht1 rehashidx].
  - split_and!; cbn [ht0 ht1 rehashidx size_]; [by eexists _, _|done|lia|rewrite Hs, (t_size _ _ _ Hb); lia|].
    intros b' [= <-] i Hi' Hil. rewrite length_insert in Hil.
    destruct (decide (i = Z.to_nat idx)) as [->|Hne]; [by apply list_lookup_insert_eq|].
    rewrite list_lookup_insert_ne by done. apply (Hm b); [apply Hb|lia|done].
  - unfold contents. cbn [ht0 ht1]. rewrite (entries_ok _ _ _ Hnew), (entries_ok _ _ _ Hb), Hperm, Hr, Hr'. solve_Permutation.
  - done.
  - done.
Qed.

Lemma rehash_loop_ok n ev d :
  rehashing d -> Z.of_nat (length (contents d)) < 2 ^ 62 ->
  exists d' ret, rehash_loop hash n ev d = Some (d', ret) /\ rehashing d' /\ contents d' ≡ₚ contents d /\
    pauserehash d' = pauserehash d /\ size_ (ht0 d') = size_ (ht0 d) /\ size_ (ht1 d') = size_ (ht1 d) /\
    rehashidx d <= rehashidx d' /\
    ((0 < n)%nat -> used (ht0 d) <> 0 -> rehashidx d < rehashidx d').
Proof.
  revert ev d. induction n as [|n IH]; intros ev d Hd Hlen; cbn [rehash_loop].
  { exists d, false. split_and!; [done..|lia|lia]. }
  bcase; [exists d, false; split_and!; [done..|lia|lia]|].
  pose proof Hd as ((b & k & Hb) & _ & Hidx & Hm).
  pose proof (moved_lt _ _ _ _ Hb Hm E) as Hlt. pose proof (t_size _ _ _ Hb) as Hsz.
  pose proof (t_log _ _ _ Hb) as Hk. assert (2 ^ k <= 2 ^ 63) by (apply Z.pow_le_mono_r; lia).
  rewrite uint_small by (split; lia). bdec.
  destruct (skip_empty_ok (S (table_len (ht0 d))) (ht0 d) b k (rehashidx d) ev)
    as (idx & ev' & ret & -> & Hi & Hm' & Hr1 & Hr2); [done|done|done|lia| |].
  { unfold table_len. rewrite (t_table _ _ _ Hb). lia. }
  cbn [mbind option_bind]. destruct ret.
  - eexists _, _. split; [done|]. specialize (Hr1 eq_refl). destruct Hd as (? & ? & ? & ?).
    unfold rehashing. split_and!; cbn [ht0 ht1 rehashidx pauserehash]; done || lia.
  - destruct (move_bucket_ok d b k idx) as (de & h0 & h1 & h0' & -> & Hmv & Hset & Hd' & Hperm & Hs0 & Hs1); [done|done|done|lia|done|].
    cbn [mbind option_bind]. rewrite Hmv. cbn [mbind option_bind]. rewrite Hset. cbn [mbind option_bind].
    destruct (IH ev' _ Hd') as (d' & ret & -> & Hd'' & Hp & Hpause & Hsz0 & Hsz1 & Hle & _); [by rewrite Hperm|].
    cbn [ht0 ht1 rehashidx pauserehash] in *. exists d', ret.
    split_and!; [done|done|by rewrite Hp|done|lia|lia|lia|lia].
Qed.

Lemma rehash_loop_empty n ev (d : dict_t) : used (ht0 d) = 0 -> rehash_loop hash n ev d = Some (d, false).
Proof. intros E. destruct n; cbn [rehash_loop]; [done|]. by rewrite E. Qed.

Lemma dict_ok_perm d d' : stable d' \/ rehashing d' -> contents d' ≡ₚ contents d -> dict_ok d -> dict_ok d'.
Proof. intros Hs Hp [_ Hk Hb]. split; [done|by rewrite Hp|by rewrite Hp]. Qed.

Lemma abs_perm d d' : contents d' ≡ₚ contents d -> dict_ok d -> abs d' = abs d.
Proof. intros Hp [_ Hk Hb]. unfold abs. apply list_to_map_proper; [by rewrite Hp|done]. Qed.

(** What is left to move, as a number of buckets. *)
Definition to_move (d : dict_t) : Z :=
  if dictIsRehashing d then 1 + size_ (ht0 d) - rehashidx d else 0.

Lemma dictRehash_ok n d :
  dict_ok d ->
  exists d' more, dictRehash hash d n = Some (d', more) /\ dict_ok d' /\ contents d' ≡ₚ contents d /\
    pauserehash d' = pauserehash d /\ more = dictIsRehashing d' /\ to_move d' <= to_move d /\
    ((0 < n)%nat -> dictIsRehashing d = true -> to_move d' < to_move d).
Proof.
  intros Hd. pose proof Hd as [[Hs|Hr] Hk Hb]; unfold dictRehash.
  { pose proof (isRehashing_stable d Hs) as E. rewrite E. cbn [negb].
    exists d, false. split_and!; try done; lia. }
  pose proof (isRehashing_rehashing d Hr) as E. rewrite E. cbn [negb].
  destruct (rehash_loop_ok n (Z.of_nat n * 10) d Hr Hb)
    as (d1 & ret & Eloop & Hr1 & Hp1 & Hpause & Hsz0 & Hsz1 & Hle & Hlt).
  rewrite Eloop. cbn [mbind option_bind].
  pose proof (isRehashing_rehashing d1 Hr1) as E1.
  assert (Hm0 : 0 < to_move d) by (unfold to_move; rewrite E; destruct Hr as (_ & _ & ? & _); lia).
  assert (Hused : forall b : bool, (if b then Some (d1, true) else if used (ht0 d1) =? 0 then
      Some (Dict (ht1 d1) _dictReset (-1) (pauserehash d1), false) else Some (d1, true))
    = (if b || negb (used (ht0 d1) =? 0) then Some (d1, true)
       else Some (Dict (ht1 d1) _dictReset (-1) (pauserehash d1), false))).
  { intros []; [done|]. by destruct (used (ht0 d1) =? 0). }
  rewrite Hused. destruct (ret || negb (used (ht0 d1) =? 0)) eqn:Eu.
  - exists d1, true. split_and!; [done|eapply dict_ok_perm; [by right|done|done]|done|done|done| |].
    + unfold to_move. rewrite E, E1. lia.
    + intros Hn _. unfold to_move. rewrite E, E1.
      destruct (Z.eq_dec (used (ht0 d)) 0) as [E0|E0]; [|specialize (Hlt Hn E0); lia].
      rewrite rehash_loop_empty in Eloop by done. injection Eloop as <- <-. rewrite E0 in Eu. done.
  - eexists _, _. split; [done|]. apply orb_false_iff in Eu as [-> Eu].
    assert (Hnil : entries (ht0 d1) = []).
    { destruct Hr1 as (H0 & _). apply used_ok in H0. apply nil_length_inv. lia. }
    assert (Hc : contents (Dict (ht1 d1) _dictReset (-1) (pauserehash d1)) ≡ₚ contents d).
    { rewrite <- Hp1. unfold contents. cbn [ht0 ht1]. by rewrite Hnil, app_nil_r. }
    split_and!; [|done|done|done| |].
    + eapply dict_ok_perm; [left|done|done]. destruct Hr1 as (_ & H1 & _). split_and!; cbn; [done|done|by right].
    + unfold to_move at 1. cbn. lia.
    + intros _ _. unfold to_move at 1. cbn. lia.
Qed.

Lemma maybe_step_ok d :
  dict_ok d -> exists d', (if dictIsRehashing d then _dictRehashStep hash d else Some d) = Some d' /\
    dict_ok d' /\ contents d' ≡ₚ contents d /\ pauserehash d' = pauserehash d.
Proof.
  intros Hd. destruct (dictIsRehashing d); [|by exists d]. unfold _dictRehashStep.
  bcase; [|by exists d]. destruct (dictRehash_ok 1 d Hd) as (d' & more & -> & Hd' & Hp & Hpause & _).
  cbn [mbind option_bind]. by exists d'.
Qed.

(** ** Searching *)

Lemma chain_find_Some k (c : chain) p : chain_find k c = Some p -> exists v, c !! p = Some (k, v).
Proof.
  revert p. induction c as [|[k' v'] c IH]; intros p; cbn [chain_find]; [done|].
  destruct (decide (k = k')) as [->|]; [intros [= <-]; by exists v'|].
  destruct (chain_find k c) as [q|]; [|done]. intros [= <-]. destruct (IH q eq_refl) as [v Hv]. by exists v.
Qed.
Lemma chain_find_None k (c : chain) : chain_find k c = None -> k ∉ c.*1.
Proof.
  induction c as [|[k' v'] c IH]; cbn [chain_find]; [intros _ Hin; by apply elem_of_nil in Hin|].
  destruct (decide (k = k')) as [->|Hne]; [done|]. destruct (chain_find k c); [done|]. intros _.
  cbn. rewrite not_elem_of_cons. split; [done|by apply IH].
Qed.

Lemma chain_in_concat {A} (b : list (list A)) i c x : b !! i = Some c -> x ∈ c -> x ∈ concat b.
Proof. intros Hi Hx. apply list_elem_of_In, in_concat. exists c. split; apply list_elem_of_In; [|done]. by eapply list_elem_of_lookup_2. Qed.

(** Where the entry of a key would go, and whether it is there. *)
Lemma search_table_ok d k t b n :
  table_ok (ht d t) b n ->
  exists i c r, search_table d k (hash k) t = Some (Z.of_nat i, r) /\
    b !! i = Some c /\ Z.land (hash k) (sizemask (ht d t)) = Z.of_nat i /\
    match r with
    | Some e => r_table e = t /\ r_idx e = Z.of_nat i /\ exists v, c !! r_pos e = Some (k, v)
    | None => k ∉ (entries (ht d t)).*1
    end.
Proof.
  intros Hb. destruct (bucket_of _ _ _ (hash k) Hb) as (i & c & Ei & Hc).
  unfold search_table. rewrite Ei, (tget_at _ b i c) by (done || apply Hb). cbn [mbind option_bind].
  exists i, c, (Eref t (Z.of_nat i) <$> chain_find k c). split_and!; [done|done|done|].
  destruct (chain_find k c) as [p|] eqn:E; cbn [fmap option_fmap option_map].
  - split_and!; [done|done|]. by apply chain_find_Some.
  - rewrite (entries_ok _ _ _ Hb). intros Hin. apply list_elem_of_fmap in Hin as ([k' v] & -> & Hin).
    apply list_elem_of_In, in_concat in Hin as (c' & Hc'%list_elem_of_In & Hin%list_elem_of_In).
    apply list_elem_of_lookup_1 in Hc' as (j & Hj).
    pose proof (t_placed _ _ _ Hb j c' k' v Hj Hin) as Hpl. cbn [fst] in *.
    rewrite (t_mask _ _ _ Hb), Hpl in Ei. assert (j = i) as -> by lia. rewrite Hc in Hj. injection Hj as <-.
    apply chain_find_None in E. apply E. apply list_elem_of_fmap. by exists (k', v).
Qed.

Lemma abs_lookup d k v : dict_ok d -> abs d !! k = Some v <-> (k, v) ∈ contents d.
Proof. intros [_ Hk _]. symmetry. by apply elem_of_list_to_map. Qed.
Lemma abs_lookup_None d k : abs d !! k = None <-> k ∉ (contents d).*1.
Proof. symmetry. apply not_elem_of_list_to_map. Qed.

(** The table new entries go to. *)
Lemma target_ok d : dict_ok d -> table (ht0 d) <> None -> ht_ok (ht d (dictIsRehashing d)).
Proof.
  intros [[Hs|Hr] _ _] Ht.
  - rewrite (isRehashing_stable d Hs). destruct Hs as (_ & _ & [E|?]); [by rewrite E in Ht|done].
  - rewrite (isRehashing_rehashing d Hr). apply Hr.
Qed.

Lemma ht_in_contents d t x : x ∈ entries (ht d t) -> x ∈ contents d.
Proof. unfold contents. rewrite elem_of_app. destruct t; [by right|by left]. Qed.

Lemma search_ok d k :
  dict_ok d -> table (ht0 d) <> None ->
  exists idx r, search d k (hash k) = Some (idx, r) /\
    match r with
    | Some e => exists b n i c v, table_ok (ht d (r_table e)) b n /\ r_idx e = Z.of_nat i /\ b !! i = Some c /\
        c !! r_pos e = Some (k, v) /\ abs d !! k = Some v
    | None => abs d !! k = None /\ exists b n i c, table_ok (ht d (dictIsRehashing d)) b n /\ idx = Z.of_nat i /\
        b !! i = Some c /\ Z.land (hash k) (2 ^ n - 1) = Z.of_nat i
    end.
Proof.
  intros Hd Ht. pose proof (target_ok d Hd Ht) as Htarget.
  assert (Hfound : forall t b n i c p v, table_ok (ht d t) b n -> b !! i = Some c -> c !! p = Some (k, v) ->
    abs d !! k = Some v).
  { intros t b n i c p v Hb Hc Hp. apply (abs_lookup d k v Hd), (ht_in_contents d t).
    rewrite (entries_ok _ _ _ Hb). eapply chain_in_concat; [done|]. by eapply list_elem_of_lookup_2. }
  assert (ht_ok (ht d false)) as (b & n & Hb).
  { destruct Hd as [[(_ & _ & [E|?])|(? & _)] _ _]; [by rewrite E in Ht|done|done]. }
  unfold search. destruct (search_table_ok d k false b n Hb) as (i & c & r & -> & Hc & Hm & Hr).
  cbn [mbind option_bind]. destruct r as [e|].
  - destruct Hr as (Et & Ei & v & Hv). eexists _, _. split; [done|]. cbv beta iota. rewrite Et. exists b, n, i, c, v.
    split_and!; try done. exact (Hfound false b n i c _ v Hb Hc Hv).
  - destruct (dictIsRehashing d) eqn:Er; cbn [negb].
    + destruct Htarget as (b1 & n1 & Hb1).
      destruct (search_table_ok d k true b1 n1 Hb1) as (j & c1 & r & -> & Hc1 & Hm1 & Hr1).
      eexists _, _. split; [done|]. destruct r as [e|].
      * destruct Hr1 as (Et & Ej & v & Hv). cbv beta iota. rewrite Et. exists b1, n1, j, c1, v. split_and!; try done. exact (Hfound true b1 n1 j c1 _ v Hb1 Hc1 Hv).
      * split.
        { apply abs_lookup_None. unfold contents. rewrite fmap_app, elem_of_app. intros [?|?]; done. }
        exists b1, n1, j, c1. split_and!; try done. by rewrite <- (t_mask _ _ _ Hb1).
    + eexists _, _. split; [done|]. split.
      * apply abs_lookup_None. unfold contents. rewrite fmap_app, elem_of_app. intros [?|Hin]; [done|].
        destruct Hd as [[(_ & E1 & _)|Hreh] _ _]; [by rewrite E1 in Hin; apply elem_of_nil in Hin|].
        by rewrite (isRehashing_rehashing d Hreh) in Er.
      * exists b, n, i, c. split_and!; try done. by rewrite <- (t_mask _ _ _ Hb).
Qed.

(** ** Updating one chain *)

Lemma set_chain_ok d t b n i c c' u :
  stable d \/ rehashing d -> table_ok (ht d t) b n -> b !! i = Some c ->
  (forall k v, (k, v) ∈ c' -> Z.land (hash k) (2 ^ n - 1) = Z.of_nat i) ->
  u = Z.of_nat (length (concat b)) + Z.of_nat (length c') - Z.of_nat (length c) ->
  (dictIsRehashing d = true -> t = false -> c <> []) ->
  let d' := set_ht d t (Ht (Some (<[i := c']> b)) (size_ (ht d t)) (sizemask (ht d t)) u) in
  (stable d' \/ rehashing d') /\ exists r, contents d ≡ₚ c ++ r /\ contents d' ≡ₚ c' ++ r.
Proof.
  intros Hst Hb Hi Hc' Hu Hne d'. pose proof (table_ok_insert _ _ _ _ _ _ u Hb Hi Hc' Hu) as Hnew.
  split.
  - destruct Hst as [Hs|Hr].
    + destruct Hs as (Hx & H1 & H0). left. destruct t; subst d'; cbn in *.
      * rewrite H1 in Hb. by destruct Hb.
      * split_and!; [done|done|]. right. by eexists _, _.
    + pose proof (isRehashing_rehashing d Hr) as Er. destruct Hr as (H0 & H1 & Hx & Hm). right.
      destruct t; subst d'; cbn in *; unfold rehashing; cbn.
      * split_and!; [done|by eexists _, _|lia|lia|done].
      * split_and!; [by eexists _, _|done|lia|lia|].
        intros b' [= <-] j Hj Hjl. rewrite length_insert in Hjl.
        destruct (decide (j = i)) as [->|]; [|rewrite list_lookup_insert_ne by done; apply (Hm b); [apply Hb|done|done]].
        specialize (Hm b (t_table _ _ _ Hb) i Hj Hjl). rewrite Hm in Hi. injection Hi as <-. by destruct (Hne Er eq_refl).
  - destruct (concat_insert b i c Hi) as (r & Hr & Hr'). unfold contents.
    destruct t; subst d'; cbn [set_ht ht0 ht1 ht] in *; rewrite (entries_ok _ _ _ Hb), (entries_ok _ _ _ Hnew).
    + exists (entries (ht0 d) ++ r). rewrite Hr, Hr'. split; solve_Permutation.
    + exists (r ++ entries (ht1 d)). rewrite Hr, Hr'. split; solve_Permutation.
Qed.

(** ** Growing *)

Lemma fresh_table_ok n :
  2 <= n <= 63 ->
  table_ok (Ht (Some (replicate (Z.to_nat (2 ^ n)) [])) (2 ^ n) (uint 64 (2 ^ n - 1)) 0)
    (replicate (Z.to_nat (2 ^ n)) []) n.
Proof.
  intros Hn. pose proof (pow2_pos n ltac:(lia)).
  assert (2 ^ n <= 2 ^ 63) by (apply Z.pow_le_mono_r; lia).
  assert (concat (replicate (Z.to_nat (2 ^ n)) ([] : chain)) = []) as Hnil.
  { generalize (Z.to_nat (2 ^ n)). by intros m; induction m. }
  split; cbn; [done|done|done|rewrite length_replicate; lia|apply uint_small; split; lia|by rewrite Hnil|].
  intros i c k v [-> _]%lookup_replicate Hin. by apply elem_of_nil in Hin.
Qed.

Lemma _dictExpand_ok d size mf :
  dict_ok d ->
  exists d' st fl, _dictExpand d size mf = Some (d', st, fl) /\ dict_ok d' /\ contents d' = contents d /\
    pauserehash d' = pauserehash d /\ (st = DICT_ERR -> d' = d) /\ (st = DICT_OK -> table (ht0 d') <> None) /\
    (stable d -> used (ht0 d) <= size -> size <= 2 ^ 63 -> size_ (ht0 d) < size -> mf = None -> st = DICT_OK).
Proof.
  intros Hd. unfold _dictExpand. bcase.
  { exists d, DICT_ERR, false. split_and!; try done. intros Hs Hu _ _ _.
    rewrite (isRehashing_stable d Hs) in E. lia. }
  destruct E as [Er Eu].
  assert (Hs : stable d). { destruct Hd as [[?|Hr] _ _]; [done|]. by rewrite (isRehashing_rehashing d Hr) in Er. }
  destruct (_dictNextPower_ok size) as (k & -> & Hk & Hge & _). cbn [mbind option_bind]. bcase.
  { exists d, DICT_ERR, false. split_and!; try done. intros _ _ Hle Hlt _. specialize (Hge Hle). lia. }
  destruct (match mf with Some r => negb r | None => false end) eqn:Em.
  { exists d, DICT_ERR, true. split_and!; try done. by intros _ _ _ _ ->. }
  pose proof (fresh_table_ok k Hk) as Hn. destruct Hs as (Hx & H1 & H0).
  destruct (table (ht0 d)) as [b|] eqn:Et.
  - eexists _, _, _. split; [done|].
    assert (Hc : contents (Dict (ht0 d) (Ht (Some (replicate (Z.to_nat (2 ^ k)) [])) (2 ^ k) (uint 64 (2 ^ k - 1)) 0) 0
      (pauserehash d)) = contents d).
    { unfold contents. cbn [ht0 ht1]. rewrite (entries_ok _ _ _ Hn), H1. f_equal. unfold entries. cbn.
      generalize (Z.to_nat (2 ^ k)). by intros m; induction m. }
    split_and!; [|done|done|done|cbn; by rewrite Et|done].
    eapply dict_ok_perm; [|by rewrite Hc|done]. right. destruct H0 as [E0|H0]; [by rewrite E0 in Et|].
    unfold rehashing. cbn. split_and!; [done|by eexists _, _|lia| |].
    + destruct H0 as (b0 & n0 & Hb0). rewrite (t_size _ _ _ Hb0). pose proof (pow2_pos n0). pose proof (t_log _ _ _ Hb0). lia.
    + intros b' _ i Hi. lia.
  - eexists _, _, _. split; [done|].
    assert (Hc : contents (Dict (Ht (Some (replicate (Z.to_nat (2 ^ k)) [])) (2 ^ k) (uint 64 (2 ^ k - 1)) 0) (ht1 d)
      (rehashidx d) (pauserehash d)) = contents d).
    { unfold contents. cbn [ht0 ht1]. rewrite (entries_ok _ _ _ Hn), H1. f_equal. unfold entries. rewrite Et.
      generalize (Z.to_nat (2 ^ k)). by intros m; induction m. }
    split_and!; [|done|done|done|done|done].
    eapply dict_ok_perm; [|by rewrite Hc|done]. left. unfold stable. cbn. split_and!; [done|done|right; by eexists _, _].
Qed.

Section Updates.
Context (dict_can_resize : bool) (expandAllowed : option (Z -> Z * Z -> bool)).

Lemma dictExpand_ok d size :
  dict_ok d -> stable d -> used (ht0 d) <= size -> size <= 2 ^ 63 -> size_ (ht0 d) < size ->
  exists d', dictExpand d size = Some (d', DICT_OK) /\ dict_ok d' /\ contents d' = contents d /\
    pauserehash d' = pauserehash d /\ table (ht0 d') <> None.
Proof.
  intros Hd Hs Hu Hle Hlt. unfold dictExpand.
  destruct (_dictExpand_ok d size None Hd) as (d' & st & fl & -> & Hd' & Hc & Hp & _ & Ht & Hst).
  rewrite Hst in * by done. cbn [mbind option_bind]. exists d'. split_and!; try done. by apply Ht.
Qed.

(** The expansion an insertion may trigger never fails. *)
Lemma _dictExpandIfNeeded_ok d :
  dict_ok d ->
  exists d', _dictExpandIfNeeded dict_can_resize expandAllowed d = Some (d', DICT_OK) /\ dict_ok d' /\
    contents d' = contents d /\ pauserehash d' = pauserehash d /\ table (ht0 d') <> None.
Proof.
  intros Hd. unfold _dictExpandIfNeeded. pose proof Hd as [[Hs|Hr] _ Hb].
  2: { rewrite (isRehashing_rehashing d Hr). exists d. split_and!; try done.
       destruct Hr as ((b & n & Ht) & _). by rewrite (t_table _ _ _ Ht). }
  rewrite (isRehashing_stable d Hs). pose proof Hs as (_ & _ & [E0|H0]).
  { rewrite E0. cbn [size_ _dictReset Z.eqb]. apply dictExpand_ok; try done; rewrite E0; done. }
  pose proof (used_ok _ H0) as Hu. destruct H0 as (b & n & Ht). pose proof (t_log _ _ _ Ht). pose proof (pow2_pos n).
  pose proof (t_size _ _ _ Ht). unfold contents in Hb. rewrite length_app in Hb. bdec.
  assert (Hsame : exists d', Some (d, DICT_OK) = Some (d', DICT_OK) /\ dict_ok d' /\
    contents d' = contents d /\ pauserehash d' = pauserehash d /\ table (ht0 d') <> None).
  { exists d. split_and!; try done. by rewrite (t_table _ _ _ Ht). }
  bcase; [|done].
  assert (exists r, dictTypeExpandAllowed expandAllowed d = Some r) as ([] & ->).
  { unfold dictTypeExpandAllowed. destruct expandAllowed as [f|]; [|by eexists].
    destruct (_dictNextPower_ok (uint 64 (used (ht0 d) + 1))) as (k & -> & _). by eexists. }
  - cbn [mbind option_bind]. rewrite uint_small by (split; lia). apply dictExpand_ok; try done; lia.
  - done.
Qed.

(** Adding a key that is not there: the new entry is at the returned place. *)
Lemma dictAddRaw_ok d k junk :
  dict_ok d -> Z.of_nat (length (contents d)) + 1 < 2 ^ 62 ->
  exists d' e ex, dictAddRaw hash dict_can_resize expandAllowed d k junk = Some (d', e, ex) /\
    dict_ok d' /\ pauserehash d' = pauserehash d /\
    match abs d !! k with
    | None => ex = None /\ exists e', e = Some e' /\ deref d' e' = Some (k, junk) /\ contents d' ≡ₚ (k, junk) :: contents d
    | Some v => e = None /\ contents d' ≡ₚ contents d /\ exists e', ex = Some e' /\ deref d' e' = Some (k, v)
    end.
Proof.
  intros Hd Hlen. unfold dictAddRaw.
  destruct (maybe_step_ok d Hd) as (d1 & -> & Hd1 & Hp1 & Hpa1). cbn [mbind option_bind]. unfold _dictKeyIndex.
  destruct (_dictExpandIfNeeded_ok d1 Hd1) as (d2 & -> & Hd2 & Hc2 & Hpa2 & Ht2). cbn [mbind option_bind].
  assert (Hp2 : contents d2 ≡ₚ contents d) by by rewrite Hc2.
  rewrite <- (abs_perm d d2 Hp2 Hd).
  destruct (search_ok d2 k Hd2 Ht2) as (idx & r & -> & Hr). cbn [mbind option_bind]. destruct r as [e|].
  - destruct Hr as (b & n & i & c & v & Hb & Ei & Hc & Hv & Hk). cbn [mbind option_bind Z.eqb].
    eexists _, _, _. split; [done|]. split; [done|]. split; [congruence|]. rewrite Hk. split_and!; [done|done|].
    eexists. split; [done|]. unfold deref. by rewrite Ei, (tget_at _ b i c) by (done || apply Hb).
  - destruct Hr as (Hk & b & n & i & c & Hb & -> & Hc & Hm). cbn [mbind option_bind]. bdec. set (t := dictIsRehashing d2) in *.
    assert (Hi : (i < length b)%nat) by (eapply lookup_lt_Some; done).
    rewrite (tget_at _ b i c) by (done || apply Hb). cbn [mbind option_bind].
    rewrite (tset_at _ b i) by (done || apply Hb). cbn [mbind option_bind].
    assert (Hub : used (ht d2 t) + 1 < 2 ^ 64 /\ 0 <= used (ht d2 t)).
    { rewrite (t_used _ _ _ Hb), <- (entries_ok _ _ _ Hb). rewrite <- Hp2 in Hlen.
      unfold contents in Hlen. rewrite length_app in Hlen. destruct t; cbn [ht]; lia. }
    destruct (set_chain_ok d2 t b n i c ((k, junk) :: c) (used (ht d2 t) + 1)) as (Hst & r & Hr & Hr').
    + apply Hd2.
    + done.
    + done.
    + intros k' v' [[= -> ->]|Hin]%elem_of_cons; [done|]. by eapply (t_placed _ _ _ Hb).
    + rewrite (t_used _ _ _ Hb). simpl length. lia.
    + intros E1 E2. subst t. congruence.
    + unfold add_used. cbn [table size_ sizemask used]. rewrite uint_small by (split; lia).
      set (d' := set_ht d2 t _) in *. assert (Hperm : contents d' ≡ₚ (k, junk) :: contents d).
      { rewrite Hr', <- Hp2, Hr. done. }
      eexists _, _, _. split; [done|]. split; [split|split].
      * done.
      * rewrite Hperm. cbn. constructor; [|apply Hd]. apply abs_lookup_None. by rewrite <- (abs_perm d d2 Hp2 Hd).
      * rewrite Hperm. simpl length. lia.
      * rewrite <- Hpa1, <- Hpa2. subst d'. by destruct t.
      * rewrite Hk. split; [done|]. eexists. split_and!; [done| |done]. unfold deref. cbn [r_table r_idx r_pos].
        assert (Hht : ht d' t = Ht (Some (<[i := (k, junk) :: c]> b)) (size_ (ht d2 t)) (sizemask (ht d2 t)) (used (ht d2 t) + 1))
          by (subst d'; by destruct t).
        rewrite Hht. erewrite tget_at; [|done|by apply list_lookup_insert_eq]. done.
Qed.
End Updates.

Lemma tget_inv (h : ht_t) i c : tget h i = Some c -> exists b, table h = Some b /\ 0 <= i /\ b !! Z.to_nat i = Some c.
Proof. unfold tget. destruct (table h) as [b|]; [|done]. cbn [mbind option_bind]. bcase; [|done]. intros. exists b. split_and!; [done|lia|done]. Qed.

Lemma dict_table_ok d t b : dict_ok d -> table (ht d t) = Some b -> exists n, table_ok (ht d t) b n.
Proof.
  intros [Hst _ _] Ht.
  assert (ht_ok (ht d t)) as (b' & n & Hb).
  { destruct Hst as [(_ & E1 & [E0|?])|(? & ? & _)], t; cbn [ht] in *; try done.
    - by rewrite E1 in Ht.
    - by rewrite E0 in Ht.
    - by rewrite E1 in Ht. }
  rewrite (t_table _ _ _ Hb) in Ht. injection Ht as <-. by exists n.
Qed.

(** Changing the values of a chain, or dropping some of its entries. *)
Lemma shrink_chain_ok d t idx c c' u :
  dict_ok d -> tget (ht d t) idx = Some c -> c <> [] ->
  (forall k v, (k, v) ∈ c' -> k ∈ c.*1) ->
  u = used (ht d t) + Z.of_nat (length c') - Z.of_nat (length c) ->
  exists h, tset (ht d t) idx c' = Some h /\ used h = used (ht d t) /\
    let d' := set_ht d t (Ht (table h) (size_ h) (sizemask h) u) in
    (stable d' \/ rehashing d') /\ exists r, contents d ≡ₚ c ++ r /\ contents d' ≡ₚ c' ++ r.
Proof.
  intros Hd Hg Hne Hsub ->. apply tget_inv in Hg as (b & Hb & H0 & Hi).
  destruct (dict_table_ok d t b Hd Hb) as (n & Ht).
  assert (Z.to_nat idx < length b)%nat by (eapply lookup_lt_Some; done).
  rewrite (tset_Z _ b) by (done || lia). eexists. split; [done|]. split; [done|]. cbn [table size_ sizemask].
  apply set_chain_ok with (n := n) (c := c); [apply Hd|done|done| |by rewrite (t_used _ _ _ Ht)|done].
  intros k v Hin. apply Hsub in Hin. apply list_elem_of_fmap in Hin as ([k' v'] & -> & Hin). by eapply (t_placed _ _ _ Ht).
Qed.

Lemma deref_inv (d : dict_t) e x : deref d e = Some x ->
  exists c, tget (ht d (r_table e)) (r_idx e) = Some c /\ c !! r_pos e = Some x.
Proof. unfold deref. destruct (tget _ _) as [c|]; [|done]. cbn [mbind option_bind]. by exists c. Qed.

Lemma dictSetVal_ok d e k v0 v :
  dict_ok d -> deref d e = Some (k, v0) ->
  exists d', dictSetVal d e v = Some d' /\ dict_ok d' /\ pauserehash d' = pauserehash d /\
    exists r, contents d ≡ₚ (k, v0) :: r /\ contents d' ≡ₚ (k, v) :: r.
Proof.
  intros Hd (c & Hg & Hc)%deref_inv. unfold dictSetVal. rewrite Hg. cbn [mbind option_bind]. rewrite Hc. cbn [mbind option_bind].
  destruct (shrink_chain_ok d (r_table e) (r_idx e) c (<[r_pos e := (k, v)]> c) (used (ht d (r_table e))))
    as (h & -> & Hu & Hst & r & Hr & Hr'); [done|done|by intros ->| |by rewrite length_insert; lia|].
  { intros k' v' Hin. apply list_elem_of_lookup_1 in Hin as (j & Hj).
    apply list_lookup_insert_Some in Hj as [(<- & [= <- <-] & _)|(_ & Hj)]; apply list_elem_of_fmap.
    - exists (k, v0). split; [done|]. by eapply list_elem_of_lookup_2.
    - exists (k', v'). split; [done|]. by eapply list_elem_of_lookup_2. }
  cbn [mbind option_bind]. rewrite <- Hu in *. destruct h as [ht_ hs hm hu]; cbn [table size_ sizemask used] in *.
  eexists. split; [done|].
  assert (Hpos : (r_pos e < length c)%nat) by (eapply lookup_lt_Some; done).
  assert (Hp0 : contents d ≡ₚ (k, v0) :: (take (r_pos e) c ++ drop (S (r_pos e)) c ++ r)).
  { rewrite Hr. rewrite <- (take_drop_middle c _ _ Hc) at 1. solve_Permutation. }
  assert (Hp1 : contents (set_ht d (r_table e) (Ht ht_ hs hm hu)) ≡ₚ (k, v) :: (take (r_pos e) c ++ drop (S (r_pos e)) c ++ r)).
  { rewrite Hr'. rewrite insert_take_drop by done. solve_Permutation. }
  split_and!; [split| |by eexists].
  - done.
  - rewrite Hp1. pose proof (d_keys _ Hd) as Hk. by rewrite Hp0 in Hk.
  - rewrite Hp1. pose proof (d_bound _ Hd) as Hk. by rewrite Hp0 in Hk.
  - by destruct (r_table e).
Qed.

Lemma unlink_ok d e k v :
  dict_ok d -> deref d e = Some (k, v) ->
  exists d', unlink d e = Some (d', (k, v)) /\ dict_ok d' /\ pauserehash d' = pauserehash d /\
    contents d ≡ₚ (k, v) :: contents d'.
Proof.
  intros Hd (c & Hg & Hc)%deref_inv. unfold unlink. rewrite Hg. cbn [mbind option_bind]. rewrite Hc. cbn [mbind option_bind].
  assert (Hpos : (r_pos e < length c)%nat) by (eapply lookup_lt_Some; done).
  destruct (shrink_chain_ok d (r_table e) (r_idx e) c (delete (r_pos e) c) (used (ht d (r_table e)) - 1))
    as (h & -> & Hu & Hst & r & Hr & Hr'); [done|done|by intros ->| |rewrite length_delete by eauto; lia|].
  { intros k' v' Hin. apply list_elem_of_fmap. exists (k', v'). split; [done|].
    apply list_elem_of_lookup_1 in Hin as (j & Hj). rewrite delete_take_drop in Hj.
    assert (Hin : (k', v') ∈ take (r_pos e) c ++ drop (S (r_pos e)) c) by by eapply list_elem_of_lookup_2.
    rewrite <- (take_drop_middle c _ _ Hc). rewrite elem_of_app in *. rewrite elem_of_cons. tauto. }
  cbn [mbind option_bind]. unfold add_used. rewrite Hu.
  assert (Hub : 0 <= used (ht d (r_table e)) - 1 < 2 ^ 64).
  { apply tget_inv in Hg as (b & Hb & H0 & Hi). destruct (dict_table_ok d _ b Hd Hb) as (n & Ht).
    rewrite (t_used _ _ _ Ht). destruct (concat_insert b _ c Hi) as (r' & Hr1 & _).
    pose proof (Permutation_length Hr1) as Hl. rewrite length_app in Hl.
    pose proof (d_bound _ Hd) as Hbd. unfold contents in Hbd. rewrite length_app in Hbd.
    assert (length (concat b) <= length (entries (ht0 d)) + length (entries (ht1 d)))%nat; [|lia].
    rewrite <- (entries_ok _ _ _ Ht). destruct (r_table e); cbn [ht]; lia. }
  rewrite uint_small by (split; lia). eexists. split; [done|].
  set (d' := set_ht d _ _) in *.
  assert (Hp : contents d ≡ₚ (k, v) :: contents d').
  { rewrite Hr, Hr', delete_take_drop. rewrite <- (take_drop_middle c _ _ Hc) at 1. solve_Permutation. }
  split_and!; [split| |done].
  - done.
  - pose proof (d_keys _ Hd) as Hk. rewrite Hp in Hk. by inv Hk.
  - pose proof (d_bound _ Hd) as Hk. rewrite Hp in Hk. simpl length in Hk. lia.
  - subst d'. by destruct (r_table e).
Qed.

Lemma abs_cons d d' k v : dict_ok d' -> contents d' ≡ₚ (k, v) :: contents d -> abs d' = <[k := v]> (abs d).
Proof.
  intros Hd' Hp. unfold abs. rewrite (list_to_map_proper _ ((k, v) :: contents d)); [done|apply Hd'|done].
Qed.

Lemma abs_uncons d d' k v : dict_ok d -> contents d ≡ₚ (k, v) :: contents d' -> abs d' = delete k (abs d).
Proof.
  intros Hd Hp. unfold abs. rewrite (list_to_map_proper (contents d) _ (d_keys _ Hd) Hp). cbn.
  rewrite delete_insert_id; [done|]. apply not_elem_of_list_to_map.
  pose proof (d_keys _ Hd) as Hk. rewrite Hp in Hk. by inv Hk.
Qed.

Lemma abs_update d d' k v v0 r :
  dict_ok d -> dict_ok d' -> contents d ≡ₚ (k, v0) :: r -> contents d' ≡ₚ (k, v) :: r -> abs d' = <[k := v]> (abs d).
Proof.
  intros Hd Hd' Hp Hp'. unfold abs. rewrite (list_to_map_proper _ _ (d_keys _ Hd) Hp).
  rewrite (list_to_map_proper _ _ (d_keys _ Hd') Hp'). cbn. by rewrite insert_insert_eq.
Qed.

Lemma used_any d t : dict_ok d -> used (ht d t) = Z.of_nat (length (entries (ht d t))).
Proof.
  intros [[(_ & E1 & [E0|?])|(? & ? & _)] _ _]; destruct t; cbn [ht]; rewrite ?E1, ?E0; try done; by apply used_ok.
Qed.

Lemma dictSize_ok d : dict_ok d -> dictSize d = Z.of_nat (length (contents d)).
Proof.
  intros Hd. unfold dictSize, contents. rewrite (used_any d false Hd : used (ht0 d) = _), (used_any d true Hd : used (ht1 d) = _).
  pose proof (d_bound _ Hd) as Hb. unfold contents in Hb. rewrite length_app in *. cbn [ht].
  rewrite uint_small by (split; lia). lia.
Qed.

Lemma size_abs d : dict_ok d -> size (abs d) = length (contents d).
Proof.
  intros Hd. unfold abs. rewrite <- size_dom, dom_list_to_map_L, size_list_to_set by apply Hd.
  by rewrite length_fmap.
Qed.

Lemma nonempty_table d : dict_ok d -> contents d <> [] -> table (ht0 d) <> None.
Proof.
  intros [[(_ & E1 & [E0|(b & n & Hb)])|((b & n & Hb) & _)] _ _] Hne.
  - by unfold contents in Hne; rewrite E0, E1 in Hne.
  - by rewrite (t_table _ _ _ Hb).
  - by rewrite (t_table _ _ _ Hb).
Qed.

Lemma abs_nil d k : contents d = [] -> abs d !! k = None.
Proof. intros E. unfold abs. by rewrite E. Qed.

(** The search of [dictFind] and [dictGenericDelete], after the rehashing step. *)
Lemma step_search_ok d k :
  dict_ok d -> contents d <> [] ->
  exists d' idx r, (if dictIsRehashing d then _dictRehashStep hash d else Some d) = Some d' /\
    search d' k (hash k) = Some (idx, r) /\ dict_ok d' /\ pauserehash d' = pauserehash d /\
    contents d' ≡ₚ contents d /\
    match r with
    | Some e => exists v, deref d' e = Some (k, v) /\ abs d !! k = Some v
    | None => abs d !! k = None
    end.
Proof.
  intros Hd Hne. destruct (maybe_step_ok d Hd) as (d1 & -> & Hd1 & Hp1 & Hpa1).
  assert (Hne1 : contents d1 <> []). { intros E. rewrite E in Hp1. by apply Permutation_nil in Hp1. }
  destruct (search_ok d1 k Hd1 (nonempty_table d1 Hd1 Hne1)) as (idx & r & Hs & Hr).
  exists d1, idx, r. split_and!; [done..|]. rewrite <- (abs_perm d d1 Hp1 Hd). destruct r as [e|]; [|by apply Hr].
  destruct Hr as (b & n & i & c & v & Hb & Ei & Hc & Hv & Hk). exists v. split; [|done].
  unfold deref. by rewrite Ei, (tget_at _ b i c) by (done || apply Hb).
Qed.

Lemma dictFind_spec d k :
  dict_ok d ->
  exists d' r, dictFind hash d k = Some (d', r) /\ dict_ok d' /\ abs d' = abs d /\
    match r with
    | Some e => exists v, deref d' e = Some (k, v) /\ abs d !! k = Some v
    | None => abs d !! k = None
    end.
Proof.
  intros Hd. unfold dictFind. rewrite dictSize_ok by done. bcase.
  { exists d, None. split_and!; [done..|]. apply abs_nil, nil_length_inv. lia. }
  destruct (step_search_ok d k Hd) as (d' & idx & r & -> & Hs & Hd' & Hpa & Hp & Hr); [by intros E'; rewrite E' in E|].
  cbn [mbind option_bind]. rewrite Hs. cbn [mbind option_bind]. exists d', r. split_and!; try done. by apply abs_perm.
Qed.

Lemma dictGenericDelete_spec d k :
  dict_ok d ->
  exists d', dictGenericDelete hash d k = Some (d', pair k <$> abs d !! k) /\ dict_ok d' /\
    abs d' = delete k (abs d) /\ pauserehash d' = pauserehash d.
Proof.
  intros Hd. unfold dictGenericDelete.
  rewrite (used_any d false Hd : used (ht0 d) = _), (used_any d true Hd : used (ht1 d) = _). bcase.
  { assert (Hnil : contents d = []) by (apply nil_length_inv; unfold contents; rewrite length_app; cbn [ht] in *; lia).
    exists d. rewrite (abs_nil d k Hnil). split_and!; [done|done| |done]. symmetry. apply delete_id. by apply abs_nil. }
  destruct (step_search_ok d k Hd) as (d1 & idx & r & -> & Hs & Hd1 & Hpa & Hp & Hr).
  { intros E'. unfold contents in E'. apply app_eq_nil in E' as [E0 E1]. cbn [ht] in E. rewrite E0, E1 in E. simpl in E. lia. }
  cbn [mbind option_bind]. rewrite Hs. cbn [mbind option_bind]. rewrite <- (abs_perm d d1 Hp Hd) in *. destruct r as [e|].
  - destruct Hr as (v & He & Hk). destruct (unlink_ok d1 e k v Hd1 He) as (d2 & -> & Hd2 & Hpa2 & Hp2).
    cbn [mbind option_bind]. exists d2. rewrite Hk. split_and!; [done|done| |congruence].
    by apply (abs_uncons d1 d2 k v).
  - exists d1. rewrite Hr. split_and!; [done|done| |done]. by rewrite delete_id.
Qed.

Lemma dictCreate_ok : dict_ok (dictCreate : dict_t) /\ abs dictCreate = ∅.
Proof.
  split; [|done]. split; [left|constructor|done]. split_and!; [done|done|by left].
Qed.

(** ** The contract *)

(** C13: [dictAdd] refines insertion in a finite map: it fails exactly when the
    key is there, and keeps every invariant of the two tables whatever stage an
    incremental rehashing is at and whether or not the insertion starts one. *)
Theorem dictAdd_refines can_resize expandAllowed d k v junk :
  dict_ok d -> Z.of_nat (size (abs d)) + 1 < 2 ^ 62 ->
  exists d' st, dictAdd hash can_resize expandAllowed d k v junk = Some (d', st) /\ dict_ok d' /\
    match abs d !! k with
    | None => st = DICT_OK /\ abs d' = <[k := v]> (abs d)
    | Some _ => st = DICT_ERR /\ abs d' = abs d
    end.
Proof.
  intros Hd Hlen. rewrite size_abs in Hlen by done. unfold dictAdd.
  destruct (dictAddRaw_ok can_resize expandAllowed d k junk Hd Hlen) as (d1 & e & ex & -> & Hd1 & _ & Hk).
  cbn [mbind option_bind]. destruct (abs d !! k) as [v0|] eqn:E.
  - destruct Hk as (-> & Hp & _). exists d1, DICT_ERR. split_and!; [done..|]. by apply abs_perm.
  - destruct Hk as (_ & e' & -> & Hderef & Hp).
    destruct (dictSetVal_ok d1 e' k junk v Hd1 Hderef) as (d2 & -> & Hd2 & _ & r & Hr & Hr').
    cbn [mbind option_bind]. exists d2, DICT_OK. split_and!; [done..|].
    rewrite (abs_update d1 d2 k v junk r), (abs_cons d d1 k junk) by done. by rewrite insert_insert_eq.
Qed.

(** [dictReplace] maps the key to the value whether or not the key was
    there, and reports which. *)
Theorem dictReplace_refines can_resize expandAllowed d k v junk :
  dict_ok d -> Z.of_nat (size (abs d)) + 1 < 2 ^ 62 ->
  exists d', dictReplace hash can_resize expandAllowed d k v junk = Some (d', bool_decide (abs d !! k = None)) /\
    dict_ok d' /\ abs d' = <[k := v]> (abs d).
Proof.
  intros Hd Hlen. rewrite size_abs in Hlen by done. unfold dictReplace.
  destruct (dictAddRaw_ok can_resize expandAllowed d k junk Hd Hlen) as (d1 & e & ex & -> & Hd1 & _ & Hk).
  cbn [mbind option_bind]. destruct (abs d !! k) as [v0|] eqn:E.
  - destruct Hk as (-> & Hp & e' & -> & Hderef). cbn [mbind option_bind].
    destruct (dictSetVal_ok d1 e' k v0 v Hd1 Hderef) as (d2 & -> & Hd2 & _ & r & Hr & Hr').
    cbn [mbind option_bind]. exists d2. split_and!; [done..|].
    rewrite (abs_update d1 d2 k v v0 r) by done. by rewrite (abs_perm d d1).
  - destruct Hk as (_ & e' & -> & Hderef & Hp).
    destruct (dictSetVal_ok d1 e' k junk v Hd1 Hderef) as (d2 & -> & Hd2 & _ & r & Hr & Hr').
    cbn [mbind option_bind]. exists d2. split_and!; [done..|].
    rewrite (abs_update d1 d2 k v junk r), (abs_cons d d1 k junk) by done. by rewrite insert_insert_eq.
Qed.

(** [dictDelete] and [dictUnlink] remove the key from the map, and report
    or return the entry exactly when the key was there. *)
Theorem dictDelete_refines d k :
  dict_ok d ->
  exists d', dict_ok d' /\ abs d' = delete k (abs d) /\
    dictDelete hash d k = Some (d', match abs d !! k with Some _ => DICT_OK | None => DICT_ERR end) /\
    dictUnlink hash d k = Some (d', pair k <$> abs d !! k).
Proof.
  intros Hd. destruct (dictGenericDelete_spec d k Hd) as (d' & E & Hd' & Habs & _).
  exists d'. unfold dictDelete, dictUnlink. rewrite E. cbn [mbind option_bind].
  split_and!; [done..| |done]. by destruct (abs d !! k).
Qed.

(** [dictFind] and [dictFetchValue] look the key up in the map and, although
    they may move buckets, do not change it. *)
Theorem dictFind_refines d k :
  dict_ok d ->
  exists d' r, dict_ok d' /\ abs d' = abs d /\ dictFind hash d k = Some (d', r) /\
    (r ≫= deref d') = pair k <$> abs d !! k /\ (r = None <-> abs d !! k = None) /\
    dictFetchValue hash d k = Some (d', abs d !! k).
Proof.
  intros Hd. destruct (dictFind_spec d k Hd) as (d' & r & E & Hd' & Habs & Hr).
  exists d', r. unfold dictFetchValue. rewrite E. cbn [mbind option_bind]. destruct r as [e|].
  - destruct Hr as (v & He & Hk). rewrite Hk. cbn [mbind option_bind]. rewrite He. by split_and!.
  - rewrite Hr. by split_and!.
Qed.

(** [n] calls of [dictRehash(d,1)]. *)
Fixpoint rehash_steps (n : nat) (d : dict_t) : option dict_t :=
  match n with
  | O => Some d
  | S n => '(d, _) ← dictRehash hash d 1; rehash_steps n d
  end.

(** C35: Incremental rehashing completes: as many single steps as the old table
    has buckets, and one more, move every entry, and no step changes the map. *)
Theorem dictRehash_completes d n :
  dict_ok d -> size_ (ht0 d) + 1 <= Z.of_nat n ->
  exists d', rehash_steps n d = Some d' /\ dict_ok d' /\ dictIsRehashing d' = false /\ abs d' = abs d.
Proof.
  intros Hd Hn.
  assert (Hm : to_move d <= Z.of_nat n).
  { unfold to_move. destruct (dictIsRehashing d) eqn:E; [|lia]. destruct Hd as [[Hs|Hr] _ _].
    - by rewrite (isRehashing_stable d Hs) in E.
    - destruct Hr as (_ & _ & ? & _). lia. }
  clear Hn. revert d Hd Hm. induction n as [|n IH]; intros d Hd Hm; cbn [rehash_steps].
  - exists d. split_and!; [done..| |done]. destruct (dictIsRehashing d) eqn:E; [|done].
    unfold to_move in Hm. rewrite E in Hm. destruct Hd as [[Hs|Hr] _ _].
    + by rewrite (isRehashing_stable d Hs) in E.
    + destruct Hr as (_ & _ & ? & _). lia.
  - destruct (dictRehash_ok 1 d Hd) as (d1 & more & -> & Hd1 & Hp & _ & _ & Hle & Hlt). cbn [mbind option_bind].
    destruct (IH d1) as (d' & -> & Hd' & Hnr & Habs); [done| |].
    + destruct (dictIsRehashing d) eqn:E; [specialize (Hlt ltac:(lia) eq_refl); lia|].
      unfold to_move in Hle at 2. rewrite E in Hle. lia.
    + exists d'. split_and!; [done..|]. by rewrite Habs, (abs_perm d d1).
Qed.
End Facts.

(** ** A dictionary in the middle of a rehashing *)

Definition sample_hash (k : Z) : Z := uint 64 k.
Definition sample : @dict Z Z :=
  Dict (Ht (Some [[]; [(1, 10)]; []; [(7, 70); (3, 30)]]) 4 3 3)
       (Ht (Some [[(8, 80)]; []; []; []; [(4, 40)]; []; []; []]) 8 7 2) 1 0.

Lemma sample_ok : dict_ok sample_hash sample.
Proof.
  split; [|by apply NoDup_ListNoDup; vm_compute; repeat constructor; cbn; intuition lia|done]. right. split_and!.
  - eexists _, 2. split; try done. intros i c k v Hi Hin.
    do 4 (destruct i as [|i]; [injection Hi as <-; set_unfold; naive_solver|]). done.
  - eexists _, 3. split; try done. intros i c k v Hi Hin.
    do 8 (destruct i as [|i]; [injection Hi as <-; set_unfold; naive_solver|]). done.
  - done.
  - done.
  - intros b [= <-] i Hi _. cbn in Hi. by destruct i as [|i]; [|lia].
Qed.

(** The same dictionary once the rehashing is over. *)
Definition sample_done : @dict Z Z :=
  Dict (Ht (Some [[(8, 80)]; [(1, 10)]; []; [(3, 30)]; [(4, 40)]; []; []; [(7, 70)]]) 8 7 5) _dictReset (-1) 0.

Lemma sample_done_ok : dict_ok sample_hash sample_done.
Proof.
  split; [|by apply NoDup_ListNoDup; vm_compute; repeat constructor; cbn; intuition lia|done]. left.
  split_and!; [done|done|right]. eexists _, 3. split; try done. intros i c k v Hi Hin.
  do 8 (destruct i as [|i]; [injection Hi as <-; set_unfold; naive_solver|]). done.
Qed.

Lemma dictAdd_refines_witness :
  exists d' st, dictAdd sample_hash true None sample 11 110 0 = Some (d', st) /\ dict_ok sample_hash d' /\
    st = DICT_OK /\ abs d' = <[11 := 110]> (abs sample).
Proof.
  destruct (dictAdd_refines sample_hash true None sample 11 110 0 sample_ok) as (d' & st & E & Hd & Hm); [by vm_compute|].
  replace (abs sample !! 11) with (@None Z) in Hm by by vm_compute. by exists d', st.
Defined.

Lemma dictReplace_refines_witness :
  exists d', dictReplace sample_hash true None sample 3 33 0 = Some (d', bool_decide (abs sample !! 3 = None)) /\
    dict_ok sample_hash d' /\ abs d' = <[3 := 33]> (abs sample).
Proof. apply (dictReplace_refines sample_hash true None sample 3 33 0 sample_ok). by vm_compute. Defined.

Lemma dictDelete_refines_witness :
  exists d', dict_ok sample_hash d' /\ abs d' = delete 7 (abs sample) /\
    dictDelete sample_hash sample 7 = Some (d', DICT_OK) /\ dictUnlink sample_hash sample 7 = Some (d', Some (7, 70)).
Proof.
  destruct (dictDelete_refines sample_hash sample 7 sample_ok) as (d' & Hd & Habs & Hdel & Hunl).
  replace (abs sample !! 7) with (Some 70) in * by by vm_compute. by exists d'.
Defined.

Lemma dictFind_refines_witness :
  exists d' r, dict_ok sample_hash d' /\ abs d' = abs sample /\ dictFind sample_hash sample 4 = Some (d', r) /\
    (r ≫= deref d') = Some (4, 40) /\ (r = None <-> abs sample !! 4 = None) /\
    dictFetchValue sample_hash sample 4 = Some (d', Some 40).
Proof.
  destruct (dictFind_refines sample_hash sample 4 sample_ok) as (d' & r & Hd & Habs & Hf & Hr & Hn & Hv).
  exists d', r. replace (Some (4, 40)) with (pair 4 <$> abs sample !! 4) by by vm_compute.
  replace (Some 40) with (abs sample !! 4) by by vm_compute. done.
Defined.

Lemma dictRehash_completes_witness :
  exists d', rehash_steps sample_hash 5 sample = Some d' /\ dict_ok sample_hash d' /\ dictIsRehashing d' = false /\
    abs d' = abs sample.
Proof. by apply (dictRehash_completes sample_hash sample 5 sample_ok). Defined.

End Dict.
