(* ===== verification/DictScan.v ===== *)
(** dict.c: the reverse binary cursor of [dictScan], and its guarantee.

    [dictScan] is modelled without a bucket callback; the entries it passes to
    [fn] are the list it returns beside the next cursor. *)

From stdpp Require Import gmap.
From S2P Require Import Prelude Dict.
Import Dict.

Module DictScan.

Definition lnot64 (v : Z) : Z := uint 64 (Z.lnot v).

(** [while ((s >>= 1) > 0) { mask ^= (mask << s); v = ((v >> s) & mask) | ((v << s) & ~mask); }] *)
Fixpoint rev_loop (fuel : nat) (s mask v : Z) : option Z :=
  match fuel with
  | O => None
  | S fuel =>
      let s := Z.shiftr s 1 in
      if s >? 0 then
        let mask := Z.lxor mask (uint 64 (Z.shiftl mask s)) in
        let v := Z.lor (Z.land (Z.shiftr v s) mask) (Z.land (uint 64 (Z.shiftl v s)) (lnot64 mask)) in
        rev_loop fuel s mask v
      else Some v
  end.

Definition rev (v : Z) : option Z := rev_loop 7 64 (2 ^ 64 - 1) v.

(** [v |= ~m; v = rev(v); v++; v = rev(v);] *)
Definition next_cursor (v m : Z) : option Z :=
  let v := Z.lor v (lnot64 m) in
  v ← rev v;
  let v := uint 64 (v + 1) in
  rev v.

Section Model.
Context {K V : Type}.
Abbreviation ht_t := (@dictht K V).
Abbreviation dict_t := (@dict K V).

(** [do { ... } while (v & (m0 ^ m1));] *)
Fixpoint scan_loop (fuel : nat) (t1 : ht_t) (m0 m1 v : Z) (out : list (K * V)) : option (Z * list (K * V)) :=
  match fuel with
  | O => None
  | S fuel =>
      de ← tget t1 (Z.land v m1);
      let out := out ++ de in
      v ← next_cursor v m1;
      if negb (Z.land v (Z.lxor m0 m1) =? 0) then scan_loop fuel t1 m0 m1 v out
      else Some (v, out)
  end.

(** Returns the dictionary, the next cursor and the entries passed to [fn]. *)
Definition dictScan (d : dict_t) (v : Z) : option (dict_t * Z * list (K * V)) :=
  if dictSize d =? 0 then Some (d, 0, [])
  else
    let d := dictPauseRehashing d in
    '(v, out) ← (if negb (dictIsRehashing d) then
      let t0 := ht0 d in
      let m0 := sizemask t0 in
      de ← tget t0 (Z.land v m0);
      v ← next_cursor v m0;
      Some (v, de)
    else
      let '(t0, t1) := if size_ (ht0 d) >? size_ (ht1 d) then (ht1 d, ht0 d) else (ht0 d, ht1 d) in
      let m0 := sizemask t0 in
      let m1 := sizemask t1 in
      de ← tget t0 (Z.land v m0);
      scan_loop (table_len t1) t1 m0 m1 v de);
    Some (dictResumeRehashing d, v, out).
End Model.

(** ** Bit reversal *)

(** One round of the loop. *)
Definition round (s mask v : Z) : Z :=
  Z.lor (Z.land (Z.shiftr v s) mask) (Z.land (uint 64 (Z.shiftl v s)) (lnot64 mask)).

(** [mask] selects the bits whose index lacks the bit [s]. *)
Definition selects (s mask i : Z) : Prop :=
  Z.testbit mask i = (Z.land i s =? 0) /\
  (if Z.land i s =? 0 then i + s else i - s) = Z.lxor i s /\ (0 <=? Z.lxor i s) && (Z.lxor i s <? 64) = true.

Lemma below_64 v i : 0 <= v < 2 ^ 64 -> 64 <= i -> Z.testbit v i = false.
Proof.
  intros Hv Hi. destruct (Z.eq_dec v 0) as [->|]; [apply Z.bits_0|].
  apply Z.bits_above_log2; [lia|]. assert (Z.log2 v < 64) by (apply Z.log2_lt_pow2; lia). lia.
Qed.

Lemma bits_64 v : 0 <= v -> (forall i, 64 <= i -> Z.testbit v i = false) -> v < 2 ^ 64.
Proof.
  intros Hv Hb. destruct (Z_lt_le_dec v (2 ^ 64)) as [|Hge]; [done|].
  assert (64 <= Z.log2 v) by (apply Z.log2_le_pow2; lia).
  specialize (Hb (Z.log2 v) ltac:(lia)). rewrite Z.bit_log2 in Hb by lia. done.
Qed.

(** A 64-bit word is determined by its bits. *)
Lemma word_eq v w : 0 <= v < 2 ^ 64 -> 0 <= w < 2 ^ 64 ->
  (forall i, 0 <= i < 64 -> Z.testbit v i = Z.testbit w i) -> v = w.
Proof.
  intros Hv Hw Hb. apply Z.bits_inj'. intros i Hi. destruct (Z_lt_le_dec i 64); [by apply Hb|].
  by rewrite !below_64.
Qed.

Lemma round_ok s mask v :
  0 <= s -> 0 <= mask -> (forall i, 0 <= i < 64 -> selects s mask i) -> 0 <= v < 2 ^ 64 ->
  0 <= round s mask v < 2 ^ 64 /\
  forall i, 0 <= i < 64 -> Z.testbit (round s mask v) i = Z.testbit v (Z.lxor i s).
Proof.
  intros Hs Hmask Hsel Hv.
  assert (0 <= round s mask v) as H0.
  { apply Z.lor_nonneg. split; apply Z.land_nonneg; right; [done|]. apply uint_range. lia. }
  assert (Hhi : forall i, 64 <= i -> Z.testbit (round s mask v) i = false).
  { intros i Hi. unfold round. rewrite Z.lor_spec, !Z.land_spec, Z.shiftr_spec by lia.
    rewrite (below_64 v) by lia. rewrite (below_64 (uint 64 _)) by (done || apply uint_range; lia). done. }
  split; [split; [done|by apply bits_64]|]. intros i Hi. destruct (Hsel i Hi) as (Hm & Hx & Hr).
  unfold round, lnot64, uint.
  rewrite Z.lor_spec, !Z.land_spec, !Z.mod_pow2_bits_low, Z.lnot_spec, Z.shiftr_spec, Z.shiftl_spec by lia.
  rewrite Hm. destruct (Z.land i s =? 0); rewrite <- Hx; cbn [negb];
    by rewrite ?andb_true_r, ?andb_false_r, ?orb_false_r, ?orb_false_l.
Qed.

Lemma rev_step fuel s mask v :
  (Z.shiftr s 1 >? 0) = true ->
  let mask' := Z.lxor mask (uint 64 (Z.shiftl mask (Z.shiftr s 1))) in
  rev_loop (S fuel) s mask v = rev_loop fuel (Z.shiftr s 1) mask' (round (Z.shiftr s 1) mask' v).
Proof. intros E. cbn [rev_loop]. by rewrite E. Qed.

(** The reversed word, as a total function. *)
Definition revz (v : Z) : Z := default 0 (rev v).

Lemma lxor_63 i : 0 <= i < 64 ->
  Z.lxor (Z.lxor (Z.lxor (Z.lxor (Z.lxor (Z.lxor i 1) 2) 4) 8) 16) 32 = 63 - i.
Proof. revert i. by_enum 64%nat. Qed.

Lemma lxor_range i s : 0 <= i < 64 -> s ∈ [1; 2; 4; 8; 16; 32] -> 0 <= Z.lxor i s < 64.
Proof.
  intros Hi Hs. assert (forall s, In s [1; 2; 4; 8; 16; 32] -> forall i, 0 <= i < 64 -> (0 <=? Z.lxor i s) && (Z.lxor i s <? 64) = true) as Hall.
  { cbn. intros s' [<-|[<-|[<-|[<-|[<-|[<-|[]]]]]]]; by_enum 64%nat. }
  specialize (Hall s ltac:(by apply list_elem_of_In) i Hi). lia.
Qed.

Lemma rev_rounds v : rev v = Some
  (round 1 0x5555555555555555 (round 2 0x3333333333333333 (round 4 0x0F0F0F0F0F0F0F0F
    (round 8 0x00FF00FF00FF00FF (round 16 0x0000FFFF0000FFFF (round 32 0x00000000FFFFFFFF v)))))).
Proof.
  unfold rev. do 6 (rewrite rev_step by done; cbv zeta).
  cbn [rev_loop]. change (Z.shiftr _ 1 >? 0) with false. cbv iota.
  change (2 ^ 64 - 1) with 18446744073709551615.
  repeat match goal with
  | |- context [Z.lxor ?a ?b] => let r := eval vm_compute in (Z.lxor a b) in progress change (Z.lxor a b) with r
  end.
  repeat match goal with
  | |- context [round (Z.shiftr ?a ?b)] =>
      let r := eval vm_compute in (Z.shiftr a b) in progress change (round (Z.shiftr a b)) with (round r)
  end. done.
Qed.

Lemma rev_ok v :
  0 <= v < 2 ^ 64 ->
  rev v = Some (revz v) /\ 0 <= revz v < 2 ^ 64 /\
  forall i, 0 <= i < 64 -> Z.testbit (revz v) i = Z.testbit v (63 - i).
Proof.
  intros Hv. unfold revz. rewrite rev_rounds. cbn [default id].
  destruct (round_ok 32 0x00000000FFFFFFFF v) as [H1 B1]; [done|done|by_enum 64%nat|done|]. set (v1 := round _ _ v) in *.
  destruct (round_ok 16 0x0000FFFF0000FFFF v1) as [H2 B2]; [done|done|by_enum 64%nat|done|]. set (v2 := round _ _ v1) in *.
  destruct (round_ok 8 0x00FF00FF00FF00FF v2) as [H3 B3]; [done|done|by_enum 64%nat|done|]. set (v3 := round _ _ v2) in *.
  destruct (round_ok 4 0x0F0F0F0F0F0F0F0F v3) as [H4 B4]; [done|done|by_enum 64%nat|done|]. set (v4 := round _ _ v3) in *.
  destruct (round_ok 2 0x3333333333333333 v4) as [H5 B5]; [done|done|by_enum 64%nat|done|]. set (v5 := round _ _ v4) in *.
  destruct (round_ok 1 0x5555555555555555 v5) as [H6 B6]; [done|done|by_enum 64%nat|done|]. set (v6 := round _ _ v5) in *.
  split_and!; [done|lia|lia|]. intros i Hi. rewrite B6 by done.
  pose proof (lxor_range i 1 Hi ltac:(set_solver)) as R1. rewrite B5 by done.
  pose proof (lxor_range _ 2 R1 ltac:(set_solver)) as R2. rewrite B4 by done.
  pose proof (lxor_range _ 4 R2 ltac:(set_solver)) as R3. rewrite B3 by done.
  pose proof (lxor_range _ 8 R3 ltac:(set_solver)) as R4. rewrite B2 by done.
  pose proof (lxor_range _ 16 R4 ltac:(set_solver)) as R5. rewrite B1 by done.
  by rewrite lxor_63.
Qed.

Lemma revz_range v : 0 <= v < 2 ^ 64 -> 0 <= revz v < 2 ^ 64.
Proof. intros. by apply rev_ok. Qed.
Lemma revz_bit v i : 0 <= v < 2 ^ 64 -> 0 <= i < 64 -> Z.testbit (revz v) i = Z.testbit v (63 - i).
Proof. intros. by apply rev_ok. Qed.
Lemma revz_involutive v : 0 <= v < 2 ^ 64 -> revz (revz v) = v.
Proof.
  intros Hv. pose proof (revz_range v Hv). apply word_eq; [by apply revz_range|done|]. intros i Hi.
  rewrite !revz_bit by (done || lia). f_equal. lia.
Qed.

(** ** The cursor *)

(** The reversed cursor moves to the start of the next block of hashes, a
    block being the hashes of one bucket. *)
Lemma next_cursor_ok v n :
  0 <= v < 2 ^ 64 -> 0 < n < 64 ->
  exists v', next_cursor v (2 ^ n - 1) = Some v' /\ 0 <= v' < 2 ^ 64 /\
    revz v' = ((revz v / 2 ^ (64 - n) + 1) * 2 ^ (64 - n)) mod 2 ^ 64.
Proof.
  intros Hv Hn. unfold next_cursor. pose proof (revz_range v Hv) as Hr.
  set (w := Z.lor v (lnot64 (2 ^ n - 1))).
  assert (Hbit : forall i, 0 <= i < 64 -> Z.testbit (lnot64 (2 ^ n - 1)) i = (n <=? i)).
  { intros i Hi. unfold lnot64, uint. rewrite Z.mod_pow2_bits_low, Z.lnot_spec by lia.
    replace (2 ^ n - 1) with (Z.ones n) by (rewrite Z.ones_equiv; lia).
    destruct (Z_lt_le_dec i n); [rewrite Z.ones_spec_low by lia|rewrite Z.ones_spec_high by lia]; lia. }
  assert (Hw : 0 <= w < 2 ^ 64).
  { assert (0 <= w) by (apply Z.lor_nonneg; split; [lia|apply uint_range; lia]). split; [done|].
    apply bits_64; [done|]. intros i Hi. unfold w. rewrite Z.lor_spec, !below_64; try done. apply uint_range. lia. }
  destruct (rev_ok w Hw) as (-> & Hrw & Bw). cbn [mbind option_bind].
  assert (Hblock : revz w = revz v / 2 ^ (64 - n) * 2 ^ (64 - n) + (2 ^ (64 - n) - 1)).
  { pose proof (pow2_pos (64 - n) ltac:(lia)) as Hp.
    replace (_ + _) with (Z.lor (Z.ones (64 - n)) (Z.shiftl (Z.shiftr (revz v) (64 - n)) (64 - n))).
    - apply Z.bits_inj'. intros i Hi. rewrite Z.lor_spec. destruct (Z_lt_le_dec i 64).
      + rewrite Bw by lia. unfold w. rewrite Z.lor_spec, Hbit by lia. rewrite <- (revz_bit v i) by (done || lia).
        destruct (Z_lt_le_dec i (64 - n)).
        * rewrite Z.ones_spec_low by lia. replace (n <=? 63 - i) with true by lia. by rewrite orb_true_r.
        * rewrite Z.ones_spec_high, Z.shiftl_spec, Z.shiftr_spec by lia.
          replace (n <=? 63 - i) with false by lia. rewrite orb_false_r. cbn [orb]. f_equal. lia.
      + rewrite below_64, Z.ones_spec_high, Z.shiftl_spec, Z.shiftr_spec by lia. cbn [orb].
        replace (i - (64 - n) + (64 - n)) with i by lia. by rewrite below_64.
    - rewrite lor_shiftl by (rewrite ?Z.ones_equiv; lia). rewrite Z.shiftr_div_pow2, Z.ones_equiv by lia. lia. }
  destruct (rev_ok (uint 64 (revz w + 1))) as (-> & Hr' & _); [apply uint_range; lia|].
  eexists. split; [done|]. split; [done|]. rewrite revz_involutive by (apply uint_range; lia).
  unfold uint. f_equal. rewrite Hblock. lia.
Qed.

(** The bucket of a hash depends on the block its reversal is in. *)
Lemma same_bucket v h n :
  0 <= v < 2 ^ 64 -> 0 <= h < 2 ^ 64 -> 0 < n < 64 ->
  revz v / 2 ^ (64 - n) = revz h / 2 ^ (64 - n) -> Z.land v (2 ^ n - 1) = Z.land h (2 ^ n - 1).
Proof.
  intros Hv Hh Hn Heq. rewrite !land_ones_mod by lia. apply Z.bits_inj'. intros i Hi.
  destruct (Z_lt_le_dec i n); [|by rewrite !Z.mod_pow2_bits_high by lia].
  rewrite !Z.mod_pow2_bits_low by lia.
  pose proof (revz_bit v (63 - i) Hv ltac:(lia)) as Bv. pose proof (revz_bit h (63 - i) Hh ltac:(lia)) as Bh.
  replace (63 - (63 - i)) with i in * by lia. rewrite <- Bv, <- Bh.
  replace (63 - i) with ((n - 1 - i) + (64 - n)) by lia.
  rewrite <- !Z.div_pow2_bits by lia. by rewrite Heq.
Qed.

Lemma zero_bits v : v = 0 <-> forall i, 0 <= i -> Z.testbit v i = false.
Proof.
  split; [intros -> i _; apply Z.bits_0|]. intros Hb. apply Z.bits_inj'. intros i Hi. rewrite Z.bits_0. by apply Hb.
Qed.

(** The loop over the larger table stops at a block boundary of the smaller. *)
Lemma block_end v n0 n1 :
  0 <= v < 2 ^ 64 -> 0 < n0 <= n1 -> n1 < 64 -> revz v mod 2 ^ (64 - n1) = 0 ->
  Z.land v (Z.lxor (2 ^ n0 - 1) (2 ^ n1 - 1)) = 0 <-> revz v mod 2 ^ (64 - n0) = 0.
Proof.
  intros Hv Hn Hn1 H1. rewrite !zero_bits in *.
  assert (Hdiff : forall i, 0 <= i -> Z.testbit (Z.lxor (2 ^ n0 - 1) (2 ^ n1 - 1)) i = (n0 <=? i) && (i <? n1)).
  { intros i Hi. rewrite Z.lxor_spec.
    replace (2 ^ n0 - 1) with (Z.ones n0) by (rewrite Z.ones_equiv; lia).
    replace (2 ^ n1 - 1) with (Z.ones n1) by (rewrite Z.ones_equiv; lia).
    destruct (Z_lt_le_dec i n0); [rewrite (Z.ones_spec_low n0) by lia|rewrite (Z.ones_spec_high n0) by lia];
      (destruct (Z_lt_le_dec i n1); [rewrite (Z.ones_spec_low n1) by lia|rewrite (Z.ones_spec_high n1) by lia]);
      cbn [xorb]; lia. }
  split; intros Hb i Hi.
  - destruct (Z_lt_le_dec i (64 - n0)); [|by rewrite Z.mod_pow2_bits_high by lia].
    rewrite Z.mod_pow2_bits_low by lia. destruct (Z_lt_le_dec i (64 - n1)).
    + specialize (H1 i Hi). by rewrite Z.mod_pow2_bits_low in H1 by lia.
    + specialize (Hb (63 - i) ltac:(lia)). rewrite Z.land_spec, Hdiff in Hb by lia.
      rewrite revz_bit by (done || lia). replace ((n0 <=? 63 - i) && (63 - i <? n1)) with true in Hb by lia.
      by rewrite andb_true_r in Hb.
  - rewrite Z.land_spec, Hdiff by lia. destruct ((n0 <=? i) && (i <? n1)) eqn:E; [|by rewrite andb_false_r].
    rewrite andb_true_r. specialize (Hb (63 - i) ltac:(lia)). rewrite Z.mod_pow2_bits_low, revz_bit in Hb by (done || lia).
    by replace (63 - (63 - i)) with i in Hb by lia.
Qed.

#[local] Opaque rev next_cursor.

Section Scan.
Context {K V : Type} `{Countable K} (hash : K -> Z) (Hhash : forall k, in_uint 64 (hash k)).
Abbreviation ht_t := (@dictht K V).
Abbreviation dict_t := (@dict K V).

(** The end of the block of [2 ^ k] hashes that [r] is in. *)
Definition block_up (r k : Z) : Z := (r / 2 ^ k + 1) * 2 ^ k.

Lemma block_up_bounds r k : 0 <= k -> r < block_up r k <= r + 2 ^ k.
Proof. intros Hk. unfold block_up. pose proof (pow2_pos k Hk). pose proof (Z.div_mod r (2 ^ k)). pose proof (Z.mod_pos_bound r (2 ^ k)). lia. Qed.

Lemma block_up_64 r n : 0 <= r < 2 ^ 64 -> 0 < n < 64 -> block_up r (64 - n) <= 2 ^ 64.
Proof.
  intros Hr Hn. unfold block_up. pose proof (pow2_pos (64 - n)).
  replace (2 ^ 64) with (2 ^ n * 2 ^ (64 - n)) in * by (rewrite <- Z.pow_add_r by lia; f_equal; lia).
  apply Z.mul_le_mono_nonneg_r; [lia|]. assert (r / 2 ^ (64 - n) < 2 ^ n); [|lia].
  apply Z.div_lt_upper_bound; lia.
Qed.

Lemma same_block r r' k : 0 <= k -> r <= r' < block_up r k -> r' / 2 ^ k = r / 2 ^ k.
Proof.
  intros Hk. unfold block_up. intros Hr. pose proof (pow2_pos k Hk).
  pose proof (Z.div_mod r (2 ^ k)). pose proof (Z.mod_pos_bound r (2 ^ k)).
  symmetry. apply (Z.div_unique r' (2 ^ k) (r / 2 ^ k) (r' - r / 2 ^ k * 2 ^ k)); lia.
Qed.

(** Every entry of a table is in the bucket of its hash. *)
Lemma entry_bucket (h : ht_t) b n k v :
  table_ok hash h b n -> (k, v) ∈ entries h ->
  exists c, tget h (Z.land (hash k) (2 ^ n - 1)) = Some c /\ (k, v) ∈ c.
Proof.
  intros Hb Hin. rewrite (entries_ok _ _ _ _ Hb) in Hin.
  apply list_elem_of_In, in_concat in Hin as (c & Hc%list_elem_of_In & Hin%list_elem_of_In).
  apply list_elem_of_lookup_1 in Hc as (i & Hi). exists c. split; [|done].
  rewrite (t_placed _ _ _ _ Hb i c k v Hi Hin). by apply (tget_at _ b); [apply Hb|].
Qed.

Lemma tget_mask (h : ht_t) b n x : table_ok hash h b n -> exists c, tget h (Z.land x (sizemask h)) = Some c.
Proof. intros Hb. destruct (bucket_of hash h b n x Hb) as (i & c & -> & Hi). exists c. by apply (tget_at _ b); [apply Hb|]. Qed.

(** The entries of [h] whose reversed hash is between [r] and [r'] are in [out]. *)
Definition covers (h : ht_t) (r r' : Z) (out : list (K * V)) : Prop :=
  forall k v, (k, v) ∈ entries h -> r <= revz (hash k) < r' -> (k, v) ∈ out.

(** One bucket covers its block. *)
Lemma bucket_covers (h : ht_t) b n v c :
  table_ok hash h b n -> 0 <= v < 2 ^ 64 -> tget h (Z.land v (sizemask h)) = Some c ->
  covers h (revz v) (block_up (revz v) (64 - n)) c.
Proof.
  intros Hb Hv Hc k x Hin Hr. destruct (entry_bucket h b n k x Hb Hin) as (c' & Hc' & Hx).
  pose proof (t_log _ _ _ _ Hb). rewrite (t_mask _ _ _ _ Hb), (same_bucket v (hash k) n) in Hc;
    [congruence|done|apply Hhash|lia|]. symmetry. apply same_block; [lia|done].
Qed.

Lemma bucket_entries (h : ht_t) i c : tget h i = Some c -> forall x, x ∈ c -> x ∈ entries h.
Proof.
  intros (b & Hb & _ & Hi)%tget_inv x Hx. unfold entries. rewrite Hb. by eapply chain_in_concat.
Qed.

Lemma wrap_mod x k : 0 <= k <= 64 -> (x mod 2 ^ 64) mod 2 ^ k = x mod 2 ^ k.
Proof.
  intros Hk. pose proof (pow2_pos k ltac:(lia)). rewrite (Z.mod_eq x (2 ^ 64)) by lia.
  replace (x - 2 ^ 64 * (x / 2 ^ 64)) with (x + - (x / 2 ^ 64) * 2 ^ (64 - k) * 2 ^ k).
  - apply Z.mod_add. lia.
  - replace (2 ^ 64) with (2 ^ (64 - k) * 2 ^ k) by (rewrite <- Z.pow_add_r by lia; f_equal; lia). lia.
Qed.

Lemma block_up_div r k : 0 <= k -> block_up r k / 2 ^ k = r / 2 ^ k + 1.
Proof. intros. unfold block_up. apply Z.div_mul. pose proof (pow2_pos k). lia. Qed.
Lemma block_up_mod r k : 0 <= k -> block_up r k mod 2 ^ k = 0.
Proof. intros. unfold block_up. apply Z.mod_mul. pose proof (pow2_pos k). lia. Qed.

(** Small blocks end at or before the end of the large block around them. *)
Lemma block_up_le r k1 k0 : 0 <= k1 <= k0 -> block_up r k1 <= block_up r k0.
Proof.
  intros Hk. pose proof (block_up_bounds r k0 ltac:(lia)) as H0. pose proof (pow2_pos k1 ltac:(lia)) as Hp1.
  unfold block_up in *. replace (2 ^ k0) with (2 ^ (k0 - k1) * 2 ^ k1) in * by (rewrite <- Z.pow_add_r by lia; f_equal; lia).
  set (q := r / (2 ^ (k0 - k1) * 2 ^ k1) + 1) in *.
  assert (r / 2 ^ k1 < q * 2 ^ (k0 - k1)) by (apply Z.div_lt_upper_bound; lia). nia.
Qed.

Lemma block_up_inside r k1 k0 :
  0 <= k1 <= k0 -> block_up r k1 < block_up r k0 ->
  block_up (block_up r k1) k0 = block_up r k0 /\ block_up r k1 mod 2 ^ k0 <> 0.
Proof.
  intros Hk Hlt. pose proof (block_up_bounds r k1 ltac:(lia)) as H1. pose proof (pow2_pos k0 ltac:(lia)).
  assert (Hd : block_up r k1 / 2 ^ k0 = r / 2 ^ k0) by (apply same_block; lia).
  split; [unfold block_up at 1; by rewrite Hd|]. intros Hm.
  pose proof (Z.div_mod (block_up r k1) (2 ^ k0)). pose proof (Z.div_mod r (2 ^ k0)). pose proof (Z.mod_pos_bound r (2 ^ k0)). lia.
Qed.

Lemma covers_app h r r1 r2 a b : covers h r r1 a -> covers h r1 r2 b -> covers h r r2 (a ++ b).
Proof.
  intros Ha Hb k v Hin Hr. rewrite elem_of_app. destruct (Z_lt_le_dec (revz (hash k)) r1).
  - left. apply Ha; [done|lia].
  - right. apply Hb; [done|lia].
Qed.

Lemma scan_loop_S fuel (t1 : ht_t) m0 m1 v out de v1 :
  tget t1 (Z.land v m1) = Some de -> next_cursor v m1 = Some v1 ->
  scan_loop (S fuel) t1 m0 m1 v out =
    if negb (Z.land v1 (Z.lxor m0 m1) =? 0) then scan_loop fuel t1 m0 m1 v1 (out ++ de) else Some (v1, out ++ de).
Proof. intros Ht Hn. cbn [scan_loop]. by rewrite Ht, bind_Some, Hn, bind_Some. Qed.

Lemma scan_loop_ok fuel (t1 : ht_t) b n0 n1 v out :
  table_ok hash t1 b n1 -> 0 < n0 <= n1 -> 0 <= v < 2 ^ 64 ->
  block_up (revz v) (64 - n0) / 2 ^ (64 - n1) - revz v / 2 ^ (64 - n1) <= Z.of_nat fuel ->
  exists v' out', scan_loop fuel t1 (2 ^ n0 - 1) (2 ^ n1 - 1) v out = Some (v', out ++ out') /\
    0 <= v' < 2 ^ 64 /\ revz v' = block_up (revz v) (64 - n0) mod 2 ^ 64 /\
    covers t1 (revz v) (block_up (revz v) (64 - n0)) out'.
Proof.
  intros Hb Hn. pose proof (t_log _ _ _ _ Hb) as Hn1.
  revert v out. induction fuel as [|fuel IH]; intros v out Hv Hf;
    pose proof (revz_range v Hv) as Hr; pose proof (block_up_le (revz v) (64 - n1) (64 - n0) ltac:(lia)) as Hle;
    pose proof (block_up_div (revz v) (64 - n1) ltac:(lia)) as Hd1; pose proof (pow2_pos (64 - n1) ltac:(lia)) as Hp1.
  { exfalso. pose proof (Z.div_le_mono _ _ (2 ^ (64 - n1)) Hp1 Hle) as Hm. rewrite Hd1 in Hm. clear - Hf Hm.
    revert Hf Hm. generalize (block_up (revz v) (64 - n0) / 2 ^ (64 - n1)) (revz v / 2 ^ (64 - n1)). lia. }
  destruct (tget_mask t1 b n1 v Hb) as (c & Hc).
  pose proof (bucket_covers t1 b n1 v c Hb Hv Hc) as Hcov. rewrite (t_mask _ _ _ _ Hb) in Hc.
  destruct (next_cursor_ok v n1 Hv) as (v1 & Hnext & Hv1 & Hr1); [lia|].
  rewrite (scan_loop_S fuel t1 _ _ v out c v1 Hc Hnext).
  fold (block_up (revz v) (64 - n1)) in Hr1.
  pose proof (block_end v1 n0 n1 Hv1 ltac:(lia) ltac:(lia)) as Hend. rewrite Hr1, !wrap_mod, block_up_mod in Hend by lia.
  specialize (Hend eq_refl).
  pose proof (block_up_64 (revz v) n0 Hr ltac:(lia)) as H64.
  destruct (Z.eq_dec (block_up (revz v) (64 - n1)) (block_up (revz v) (64 - n0))) as [Heq|Hne].
  - rewrite Heq, block_up_mod in Hend by lia. assert (Z.land v1 (Z.lxor (2 ^ n0 - 1) (2 ^ n1 - 1)) = 0) as -> by by apply Hend.
    exists v1, c. rewrite <- Heq. split_and!; done || lia.
  - assert (Hlt : block_up (revz v) (64 - n1) < block_up (revz v) (64 - n0)) by lia.
    destruct (block_up_inside (revz v) (64 - n1) (64 - n0) ltac:(lia) Hlt) as [Hsame Hmod].
    destruct (Z.land v1 (Z.lxor (2 ^ n0 - 1) (2 ^ n1 - 1)) =? 0) eqn:E; [lia|]. cbn [negb].
    pose proof (block_up_bounds (revz v) (64 - n1) ltac:(lia)).
    rewrite Z.mod_small in Hr1 by lia.
    destruct (IH v1 (out ++ c)) as (v' & out' & -> & Hv' & Hr' & Hcov'); [done|rewrite Hr1, Hsame, Hd1; lia|].
    exists v', (c ++ out'). rewrite app_assoc. rewrite Hr1, Hsame in Hr', Hcov'. split_and!; [done|lia|lia|done|].
    exact (covers_app _ _ _ _ _ _ Hcov Hcov').
Qed.

Lemma scan_loop_entries fuel (t1 : ht_t) m0 m1 v out v' out' :
  scan_loop fuel t1 m0 m1 v out = Some (v', out') -> forall x, x ∈ out' -> x ∈ out \/ x ∈ entries t1.
Proof.
  revert v out. induction fuel as [|fuel IH]; intros v out; cbn [scan_loop]; [done|].
  destruct (tget t1 (Z.land v m1)) as [de|] eqn:Hde; [|done]. rewrite ?bind_Some.
  destruct (next_cursor v m1) as [v1|]; [|done]. rewrite ?bind_Some.
  assert (Hout : forall x, x ∈ out ++ de -> x ∈ out \/ x ∈ entries t1).
  { intros x [?|?]%elem_of_app; [by left|right; by eapply bucket_entries]. }
  destruct (negb _).
  - intros E x Hx. destruct (IH _ _ E x Hx); [by apply Hout|by right].
  - intros [= _ <-]. done.
Qed.

(** The smallest table of the two, or the only one. *)
Definition scan_log (d : dict_t) (n : Z) : Prop :=
  2 <= n <= 63 /\
  2 ^ n = if dictIsRehashing d then Z.min (size_ (ht0 d)) (size_ (ht1 d)) else size_ (ht0 d).

Lemma covers_mono h r r' out out' : covers h r r' out -> (forall x, x ∈ out -> x ∈ out') -> covers h r r' out'.
Proof. intros Hc Hsub k v Hin Hr. by apply Hsub, Hc. Qed.

Lemma mask_pow n m : 0 < n -> 0 < m -> 2 ^ n <= 2 ^ m -> n <= m.
Proof. intros Hn Hm Hle. destruct (Z_lt_le_dec m n); [|done]. pose proof (Z.pow_lt_mono_r 2 m n). lia. Qed.

(** The two tables, the smaller one first. *)
Lemma scan_two_ok (t0 t1 : ht_t) b0 b1 n0 n1 v :
  table_ok hash t0 b0 n0 -> table_ok hash t1 b1 n1 -> n0 <= n1 -> 0 <= v < 2 ^ 64 ->
  exists v' out,
    (de ← tget t0 (Z.land v (sizemask t0)); scan_loop (table_len t1) t1 (sizemask t0) (sizemask t1) v de) = Some (v', out) /\
    0 <= v' < 2 ^ 64 /\ revz v' = block_up (revz v) (64 - n0) mod 2 ^ 64 /\
    covers t0 (revz v) (block_up (revz v) (64 - n0)) out /\ covers t1 (revz v) (block_up (revz v) (64 - n0)) out /\
    (forall x, x ∈ out -> x ∈ entries t0 \/ x ∈ entries t1).
Proof.
  intros Hb0 Hb1 Hn Hv. pose proof (t_log _ _ _ _ Hb0). pose proof (t_log _ _ _ _ Hb1).
  destruct (tget_mask t0 b0 n0 v Hb0) as (c & Hc). rewrite Hc. rewrite ?bind_Some.
  rewrite (t_mask _ _ _ _ Hb0), (t_mask _ _ _ _ Hb1).
  destruct (scan_loop_ok (table_len t1) t1 b1 n0 n1 v c) as (v' & out & Eloop & Hv' & Hr' & Hcov); [done|lia|done| |].
  - unfold table_len. rewrite (t_table _ _ _ _ Hb1), (t_len _ _ _ _ Hb1).
    pose proof (revz_range v Hv) as Hr. pose proof (block_up_64 (revz v) n0 Hr ltac:(lia)) as H64.
    pose proof (pow2_pos (64 - n1) ltac:(lia)) as Hp.
    pose proof (Z.div_le_mono _ _ (2 ^ (64 - n1)) Hp H64) as Hdm.
    replace (2 ^ 64) with (2 ^ n1 * 2 ^ (64 - n1)) in Hdm by (rewrite <- Z.pow_add_r by lia; f_equal; lia).
    rewrite Z.div_mul in Hdm by lia. pose proof (Z.div_pos (revz v) (2 ^ (64 - n1))). lia.
  - rewrite Eloop. exists v', (c ++ out). split_and!; [done|lia|lia|done| | |].
    + eapply covers_mono; [by eapply bucket_covers|]. intros x Hx. rewrite elem_of_app. by left.
    + eapply covers_mono; [done|]. intros x Hx. rewrite elem_of_app. by right.
    + intros x Hx. destruct (scan_loop_entries _ _ _ _ _ _ _ _ Eloop x Hx); [left; by eapply bucket_entries|by right].
Qed.

Lemma resume_pause (d : dict_t) : in_sint 16 (pauserehash d) -> dictResumeRehashing (dictPauseRehashing d) = d.
Proof.
  intros Hp. destruct d as [h0 h1 idx p]. unfold dictResumeRehashing, dictPauseRehashing. cbn in *. f_equal.
  unfold in_sint in Hp. unfold sint. repeat bcase; dlia.
Qed.

(** One call: the cursor moves to the end of a block, and every entry of the
    dictionary whose reversed hash is in between is emitted. *)
Lemma dictScan_ok (d : dict_t) v :
  dict_ok hash d -> contents d <> [] -> 0 <= v < 2 ^ 64 -> in_sint 16 (pauserehash d) ->
  exists v' out n, dictScan d v = Some (d, v', out) /\ 0 <= v' < 2 ^ 64 /\ scan_log d n /\
    revz v' = block_up (revz v) (64 - n) mod 2 ^ 64 /\
    (forall x, x ∈ out -> x ∈ contents d) /\
    forall k x, (k, x) ∈ contents d -> revz v <= revz (hash k) < block_up (revz v) (64 - n) -> (k, x) ∈ out.
Proof.
  intros Hd Hne Hv Hp. unfold dictScan. rewrite (dictSize_ok hash d Hd).
  assert (length (contents d) <> 0%nat) by (intros E; by apply nil_length_inv in E). bdec.
  cbv zeta. rewrite (resume_pause d Hp).
  change (dictIsRehashing (dictPauseRehashing d)) with (dictIsRehashing d).
  change (ht0 (dictPauseRehashing d)) with (ht0 d). change (ht1 (dictPauseRehashing d)) with (ht1 d).
  pose proof Hd as [[Hs|Hr] _ _].
  - rewrite (isRehashing_stable hash d Hs). cbn [negb].
    destruct Hs as (Hx & E1 & [E0|(b & n & Hb)]); [by unfold contents in Hne; rewrite E0, E1 in Hne|].
    pose proof (t_log _ _ _ _ Hb). destruct (tget_mask (ht0 d) b n v Hb) as (c & Hc). rewrite Hc. rewrite ?bind_Some.
    pose proof (bucket_covers _ _ _ _ _ Hb Hv Hc) as Hcov.
    rewrite (t_mask _ _ _ _ Hb). destruct (next_cursor_ok v n Hv) as (v' & -> & Hv' & Hr'); [lia|]. rewrite ?bind_Some.
    exists v', c, n. split_and!; [done|lia|lia| |done| |].
    + split; [done|]. rewrite (isRehashing_stable hash d) by (split_and!; [done|done|right; by eexists _, _]).
      symmetry. apply (t_size _ _ _ _ Hb).
    + intros x Hin. unfold contents. rewrite elem_of_app. left. by eapply bucket_entries.
    + intros k x Hin Hkr. unfold contents in Hin. rewrite E1, app_nil_r in Hin. by apply Hcov.
  - pose proof (isRehashing_rehashing hash d Hr) as Er. rewrite Er. cbn [negb].
    destruct Hr as ((b0 & n0 & Hb0) & (b1 & n1 & Hb1) & _). pose proof (t_log _ _ _ _ Hb0). pose proof (t_log _ _ _ _ Hb1).
    pose proof (t_size _ _ _ _ Hb0) as Hs0. pose proof (t_size _ _ _ _ Hb1) as Hs1.
    unfold contents. setoid_rewrite elem_of_app. bcase.
    + destruct (scan_two_ok (ht1 d) (ht0 d) b1 b0 n1 n0 v) as (v' & out & -> & Hv' & Hr' & Hc1 & Hc0 & Hsub);
        [done|done|apply mask_pow; lia|done|].
      rewrite ?bind_Some. exists v', out, n1. split_and!; [done|lia|lia| |done| |].
      * split; [done|]. rewrite Er. lia.
      * intros x Hin. apply Hsub in Hin. tauto.
      * intros k x [Hin|Hin] Hkr; [by apply Hc0|by apply Hc1].
    + destruct (scan_two_ok (ht0 d) (ht1 d) b0 b1 n0 n1 v) as (v' & out & -> & Hv' & Hr' & Hc1 & Hc0 & Hsub);
        [done|done|apply mask_pow; lia|done|].
      rewrite ?bind_Some. exists v', out, n0. split_and!; [done|lia|lia| |done| |].
      * split; [done|]. rewrite Er. lia.
      * intros x Hin. by apply Hsub in Hin.
      * intros k x [Hin|Hin] Hkr; [by apply Hc1|by apply Hc0].
Qed.

(** A scan from cursor [v] until the cursor is 0 again: the successive states
    of the dictionary, and everything emitted. *)
Inductive scan_from : Z -> list dict_t -> list (K * V) -> Prop :=
| scan_last d d' v es : dictScan d v = Some (d', 0, es) -> scan_from v [d] es
| scan_more d d' v v' es ds es' :
    dictScan d v = Some (d', v', es) -> v' <> 0 -> scan_from v' ds es' -> scan_from v (d :: ds) (es ++ es').

Definition scannable (d : dict_t) : Prop := dict_ok hash d /\ in_sint 16 (pauserehash d).

Lemma revz_0 : revz 0 = 0.
Proof. done. Qed.
Lemma revz_eq_0 v : 0 <= v < 2 ^ 64 -> revz v = 0 -> v = 0.
Proof. intros Hv E. by rewrite <- (revz_involutive v Hv), E. Qed.

Lemma dom_contents (d : dict_t) k : dict_ok hash d -> k ∈ dom (abs d) -> exists x, (k, x) ∈ contents d.
Proof. intros Hd [x Hx]%elem_of_dom. exists x. by apply (abs_lookup hash d k x Hd). Qed.

Lemma scan_from_covers v ds es k :
  scan_from v ds es -> 0 <= v < 2 ^ 64 -> Forall scannable ds -> Forall (fun d => k ∈ dom (abs d)) ds ->
  revz v <= revz (hash k) -> exists x, (k, x) ∈ es.
Proof.
  intros Hs. induction Hs as [d d' v es E|d d' v v' es ds es' E Hne Hs IH]; intros Hv Hok Hk Hr;
    inv Hok as [|? ? [Hd Hp] Hok']; inv Hk as [|? ? Hkd Hk'];
    destruct (dom_contents d k Hd Hkd) as (x & Hx);
    (destruct (dictScan_ok d v Hd) as (w & out & n & E' & Hw & (Hn & _) & Hrw & _ & Hcov); [by intros E0; rewrite E0 in Hx; apply elem_of_nil in Hx|done|done|]);
    rewrite E in E'; injection E' as _ <- <-;
    pose proof (revz_range (hash k) (Hhash k)) as Hh; pose proof (block_up_64 (revz v) n (revz_range v Hv) ltac:(lia)) as H64;
    pose proof (block_up_bounds (revz v) (64 - n) ltac:(lia)) as Hb; pose proof (revz_range v Hv) as Hv0.
  - exists x. apply Hcov; [done|]. rewrite revz_0 in Hrw.
    destruct (Z.eq_dec (block_up (revz v) (64 - n)) (2 ^ 64)); [lia|]. rewrite Z.mod_small in Hrw by lia. lia.
  - destruct (Z_lt_le_dec (revz (hash k)) (block_up (revz v) (64 - n))).
    + exists x. rewrite elem_of_app. left. apply Hcov; [done|lia].
    + destruct IH as (y & Hy); [done|done|done| |exists y; rewrite elem_of_app; by right].
      rewrite Hrw. rewrite Z.mod_small by lia. done.
Qed.

(** C2: The guarantee of SCAN: whatever is done to the dictionary between the
    calls (growing, shrinking, rehashing in either direction), a full iteration
    emits every key that was present from its start to its end. *)
Theorem dictScan_complete ds es k :
  scan_from 0 ds es -> Forall scannable ds -> Forall (fun d => k ∈ dom (abs d)) ds ->
  exists x, (k, x) ∈ es.
Proof.
  intros Hs Hok Hk. apply (scan_from_covers 0 ds es k Hs); [lia|done|done|].
  rewrite revz_0. by apply revz_range, Hhash.
Qed.

Lemma scan_finishes (d : dict_t) n m v :
  scannable d -> contents d <> [] -> scan_log d n -> (0 < m)%nat -> Z.of_nat m <= 2 ^ n -> 0 <= v < 2 ^ 64 ->
  revz v = (2 ^ n - Z.of_nat m) * 2 ^ (64 - n) ->
  exists es, scan_from v (replicate m d) es /\ forall x, x ∈ es -> x ∈ contents d.
Proof.
  intros [Hd Hp] Hne [Hn Hlog]. revert v. induction m as [|m IH]; intros v H0 Hm Hv Hr; [lia|].
  pose proof (pow2_pos (64 - n) ltac:(lia)) as Hp64.
  assert (H64 : 2 ^ n * 2 ^ (64 - n) = 2 ^ 64) by (rewrite <- Z.pow_add_r by lia; f_equal; lia).
  destruct (dictScan_ok d v Hd Hne Hv Hp) as (w & out & n' & E & Hw & (Hn' & Hlog') & Hrw & Hsub & _).
  assert (n' = n) as ->.
  { rewrite <- Hlog' in Hlog. apply Z.le_antisymm; apply mask_pow; lia. }
  assert (Hup : block_up (revz v) (64 - n) = (2 ^ n - Z.of_nat m) * 2 ^ (64 - n)).
  { unfold block_up. rewrite Hr, Z.div_mul by lia. f_equal. lia. }
  rewrite Hup in Hrw. cbn [replicate]. destruct m as [|m].
  - exists out. split; [|done]. apply (scan_last d d). rewrite E. do 3 f_equal. apply revz_eq_0; [done|].
    rewrite Hrw. replace ((2 ^ n - Z.of_nat 0) * 2 ^ (64 - n)) with (2 ^ 64) by lia. by apply Z.mod_same.
  - assert (Hlt : 0 < (2 ^ n - Z.of_nat (S m)) * 2 ^ (64 - n) < 2 ^ 64) by nia.
    rewrite Z.mod_small in Hrw by lia.
    destruct (IH w) as (es & Hes & Hsub'); [lia|lia|done|done|]. exists (out ++ es). split.
    + apply (scan_more d d v w); [done| |done]. intros ->. rewrite revz_0 in Hrw. lia.
    + intros x [?|?]%elem_of_app; [by apply Hsub|by apply Hsub'].
Qed.

(** A scan of a dictionary that is not modified ends after exactly as many
    calls as its smaller table has buckets, and emits its entries: all of them,
    and nothing else. *)
Theorem dictScan_terminates d :
  scannable d -> contents d <> [] ->
  exists n es, n = Z.to_nat (if dictIsRehashing d then Z.min (size_ (ht0 d)) (size_ (ht1 d)) else size_ (ht0 d)) /\
    scan_from 0 (replicate n d) es /\ forall x, x ∈ es <-> x ∈ contents d.
Proof.
  intros Hs Hne. destruct (dictScan_ok d 0 (proj1 Hs) Hne ltac:(lia) (proj2 Hs)) as (_ & _ & n & _ & _ & Hlog & _).
  pose proof Hlog as [Hn Hsz]. pose proof (pow2_pos n ltac:(lia)).
  destruct (scan_finishes d n (Z.to_nat (2 ^ n)) 0) as (es & Hes & Hsub); [done|done|done|lia|lia|lia| |].
  { rewrite revz_0. lia. }
  exists (Z.to_nat (2 ^ n)), es. split; [by rewrite <- Hsz|]. split; [done|].
  intros [k x]. split; [apply Hsub|]. intros Hin.
  assert (Hk : k ∈ dom (abs d)) by (apply elem_of_dom; exists x; by apply (abs_lookup hash d k x (proj1 Hs))).
  destruct (scan_from_covers 0 _ es k Hes ltac:(lia)) as (y & Hy).
  - by apply Forall_replicate.
  - by apply Forall_replicate.
  - rewrite revz_0. by apply revz_range, Hhash.
  - pose proof (Hsub _ Hy) as Hy'. apply (abs_lookup hash d k _ (proj1 Hs)) in Hin, Hy'. congruence.
Qed.
End Scan.

Lemma sample_hash_range k : in_uint 64 (sample_hash k).
Proof. apply uint_range. lia. Qed.
Lemma sample_scannable : scannable sample_hash sample.
Proof. split; [apply sample_ok|done]. Qed.

(** The rehashing ends between the first call and the others. *)
Lemma dictScan_complete_witness : exists x, (3, x) ∈ [(8, 80); (4, 40)] ++ [] ++ [] ++ [(1, 10)] ++ [] ++ [(3, 30)] ++ [(7, 70)].
Proof.
  apply (dictScan_complete sample_hash sample_hash_range (sample :: replicate 6 sample_done)).
  - eapply scan_more; [by vm_compute|done|].
    do 5 (eapply scan_more; [by vm_compute|done|]). eapply scan_last. by vm_compute.
  - constructor; [apply sample_scannable|]. apply Forall_replicate. split; [apply sample_done_ok|done].
  - constructor; [|apply Forall_replicate]; apply elem_of_dom; eexists; by vm_compute.
Defined.

Lemma dictScan_terminates_witness : exists n es, n = 4%nat /\
  scan_from 0 (replicate n sample) es /\ forall x, x ∈ es <-> x ∈ contents sample.
Proof. by apply (dictScan_terminates sample_hash sample_hash_range sample sample_scannable). Defined.

End DictScan.
