(* ===== verification/Crc.v ===== *)
(** crc16.c, crc64.c and crcspeed.c: checksums.

    The table-driven and the eight-bytes-at-a-time computations are compared
    with the bit-by-bit ones. *)

From S2P Require Import Prelude Endian DictScan.
Import Endian DictScan.

Module Crc.

(** ** crc16.c *)

Definition crc16tab : list Z :=
  [0x0000; 0x1021; 0x2042; 0x3063; 0x4084; 0x50a5; 0x60c6; 0x70e7;
   0x8108; 0x9129; 0xa14a; 0xb16b; 0xc18c; 0xd1ad; 0xe1ce; 0xf1ef;
   0x1231; 0x0210; 0x3273; 0x2252; 0x52b5; 0x4294; 0x72f7; 0x62d6;
   0x9339; 0x8318; 0xb37b; 0xa35a; 0xd3bd; 0xc39c; 0xf3ff; 0xe3de;
   0x2462; 0x3443; 0x0420; 0x1401; 0x64e6; 0x74c7; 0x44a4; 0x5485;
   0xa56a; 0xb54b; 0x8528; 0x9509; 0xe5ee; 0xf5cf; 0xc5ac; 0xd58d;
   0x3653; 0x2672; 0x1611; 0x0630; 0x76d7; 0x66f6; 0x5695; 0x46b4;
   0xb75b; 0xa77a; 0x9719; 0x8738; 0xf7df; 0xe7fe; 0xd79d; 0xc7bc;
   0x48c4; 0x58e5; 0x6886; 0x78a7; 0x0840; 0x1861; 0x2802; 0x3823;
   0xc9cc; 0xd9ed; 0xe98e; 0xf9af; 0x8948; 0x9969; 0xa90a; 0xb92b;
   0x5af5; 0x4ad4; 0x7ab7; 0x6a96; 0x1a71; 0x0a50; 0x3a33; 0x2a12;
   0xdbfd; 0xcbdc; 0xfbbf; 0xeb9e; 0x9b79; 0x8b58; 0xbb3b; 0xab1a;
   0x6ca6; 0x7c87; 0x4ce4; 0x5cc5; 0x2c22; 0x3c03; 0x0c60; 0x1c41;
   0xedae; 0xfd8f; 0xcdec; 0xddcd; 0xad2a; 0xbd0b; 0x8d68; 0x9d49;
   0x7e97; 0x6eb6; 0x5ed5; 0x4ef4; 0x3e13; 0x2e32; 0x1e51; 0x0e70;
   0xff9f; 0xefbe; 0xdfdd; 0xcffc; 0xbf1b; 0xaf3a; 0x9f59; 0x8f78;
   0x9188; 0x81a9; 0xb1ca; 0xa1eb; 0xd10c; 0xc12d; 0xf14e; 0xe16f;
   0x1080; 0x00a1; 0x30c2; 0x20e3; 0x5004; 0x4025; 0x7046; 0x6067;
   0x83b9; 0x9398; 0xa3fb; 0xb3da; 0xc33d; 0xd31c; 0xe37f; 0xf35e;
   0x02b1; 0x1290; 0x22f3; 0x32d2; 0x4235; 0x5214; 0x6277; 0x7256;
   0xb5ea; 0xa5cb; 0x95a8; 0x8589; 0xf56e; 0xe54f; 0xd52c; 0xc50d;
   0x34e2; 0x24c3; 0x14a0; 0x0481; 0x7466; 0x6447; 0x5424; 0x4405;
   0xa7db; 0xb7fa; 0x8799; 0x97b8; 0xe75f; 0xf77e; 0xc71d; 0xd73c;
   0x26d3; 0x36f2; 0x0691; 0x16b0; 0x6657; 0x7676; 0x4615; 0x5634;
   0xd94c; 0xc96d; 0xf90e; 0xe92f; 0x99c8; 0x89e9; 0xb98a; 0xa9ab;
   0x5844; 0x4865; 0x7806; 0x6827; 0x18c0; 0x08e1; 0x3882; 0x28a3;
   0xcb7d; 0xdb5c; 0xeb3f; 0xfb1e; 0x8bf9; 0x9bd8; 0xabbb; 0xbb9a;
   0x4a75; 0x5a54; 0x6a37; 0x7a16; 0x0af1; 0x1ad0; 0x2ab3; 0x3a92;
   0xfd2e; 0xed0f; 0xdd6c; 0xcd4d; 0xbdaa; 0xad8b; 0x9de8; 0x8dc9;
   0x7c26; 0x6c07; 0x5c64; 0x4c45; 0x3ca2; 0x2c83; 0x1ce0; 0x0cc1;
   0xef1f; 0xff3e; 0xcf5d; 0xdf7c; 0xaf9b; 0xbfba; 0x8fd9; 0x9ff8;
   0x6e17; 0x7e36; 0x4e55; 0x5e74; 0x2e93; 0x3eb2; 0x0ed1; 0x1ef0].

Fixpoint crc16_loop (crc : Z) (buf : bytes) : option Z :=
  match buf with
  | [] => Some crc
  | b :: buf =>
      t ← crc16tab !! Z.to_nat (Z.land (Z.lxor (Z.shiftr crc 8) (schar b)) 0x00FF);
      crc16_loop (uint 16 (Z.lxor (Z.shiftl crc 8) t)) buf
  end.

Definition crc16 (buf : bytes) : option Z := crc16_loop 0 buf.

(** ** crc64.c *)

Definition POLY : Z := 0xad93d23594c935a9.

Fixpoint reflect_loop (n : nat) (data ret : Z) : Z :=
  match n with
  | O => ret
  | S n =>
      let data := Z.shiftr data 1 in
      reflect_loop n data (uint 64 (Z.lor (Z.shiftl ret 1) (Z.land data 1)))
  end.
Definition crc_reflect (data : Z) (data_len : nat) : Z :=
  reflect_loop (data_len - 1) data (Z.land data 1).

(** [for (i = 0x01; i & 0xff; i <<= 1)] *)
Fixpoint crc64_bits (n : nat) (i c crc : Z) : Z :=
  match n with
  | O => crc
  | S n =>
      let bit := negb (Z.land crc 0x8000000000000000 =? 0) in
      let bit := if negb (Z.land c i =? 0) then negb bit else bit in
      let crc := uint 64 (Z.shiftl crc 1) in
      let crc := if bit then Z.lxor crc POLY else crc in
      crc64_bits n (Z.shiftl i 1) c crc
  end.

Definition _crc64 (crc : Z) (in_data : bytes) : Z :=
  let crc := foldl (fun crc c => Z.land (crc64_bits 8 1 c crc) 0xffffffffffffffff) crc in_data in
  let crc := Z.land crc 0xffffffffffffffff in
  Z.lxor (crc_reflect crc 64) 0.

(** ** crcspeed.c, 64 bits *)

Abbreviation table := (list (list Z)).
Definition tab (t : table) (k : nat) (n : Z) : option Z := row ← t !! k; row !! Z.to_nat n.

(** [crc = table[0][crc & 0xff] ^ (crc >> 8)] [k] times. *)
Fixpoint nested (k : nat) (row0 : list Z) (crc : Z) : option Z :=
  match k with
  | O => Some crc
  | S k =>
      t ← row0 !! Z.to_nat (Z.land crc 0xff);
      nested k row0 (Z.lxor t (Z.shiftr crc 8))
  end.

Definition crcspeed64little_init (crcfn : Z -> bytes -> Z) : option table :=
  let row0 := (fun n => crcfn 0 [n]) <$> seqZ 0 256 in
  mapM (fun k => mapM (fun n => c ← row0 !! n; nested k row0 c) (seq 0 256)) (seq 0 8).

(** [__builtin_bswap64] *)
Definition rev8 (a : Z) : Z := be_val (le_bytes 8 a).

Definition crcspeed64big_init (crcfn : Z -> bytes -> Z) : option table :=
  t ← crcspeed64little_init crcfn; Some (List.map (List.map rev8) t).

Section Speed.
Context (t : table).

Definition little_byte (crc b : Z) : option Z :=
  x ← tab t 0 (Z.land (Z.lxor crc b) 0xff); Some (Z.lxor x (Z.shiftr crc 8)).
Definition big_byte (crc b : Z) : option Z :=
  x ← tab t 0 (Z.lxor (Z.shiftr crc 56) b); Some (Z.lxor x (uint 64 (Z.shiftl crc 8))).

Definition little_slice (crc : Z) : option Z :=
  x7 ← tab t 7 (Z.land crc 0xff);
  x6 ← tab t 6 (Z.land (Z.shiftr crc 8) 0xff);
  x5 ← tab t 5 (Z.land (Z.shiftr crc 16) 0xff);
  x4 ← tab t 4 (Z.land (Z.shiftr crc 24) 0xff);
  x3 ← tab t 3 (Z.land (Z.shiftr crc 32) 0xff);
  x2 ← tab t 2 (Z.land (Z.shiftr crc 40) 0xff);
  x1 ← tab t 1 (Z.land (Z.shiftr crc 48) 0xff);
  x0 ← tab t 0 (Z.shiftr crc 56);
  Some (Z.lxor (Z.lxor (Z.lxor (Z.lxor (Z.lxor (Z.lxor (Z.lxor x7 x6) x5) x4) x3) x2) x1) x0).
Definition big_slice (crc : Z) : option Z :=
  x0 ← tab t 0 (Z.land crc 0xff);
  x1 ← tab t 1 (Z.land (Z.shiftr crc 8) 0xff);
  x2 ← tab t 2 (Z.land (Z.shiftr crc 16) 0xff);
  x3 ← tab t 3 (Z.land (Z.shiftr crc 24) 0xff);
  x4 ← tab t 4 (Z.land (Z.shiftr crc 32) 0xff);
  x5 ← tab t 5 (Z.land (Z.shiftr crc 40) 0xff);
  x6 ← tab t 6 (Z.land (Z.shiftr crc 48) 0xff);
  x7 ← tab t 7 (Z.shiftr crc 56);
  Some (Z.lxor (Z.lxor (Z.lxor (Z.lxor (Z.lxor (Z.lxor (Z.lxor x0 x1) x2) x3) x4) x5) x6) x7).

Section Loops.
Context (e : endian) (byte_step : Z -> Z -> option Z) (slice_step : Z -> option Z).

(** [while (len && ((uintptr_t)next & 7) != 0)] *)
Fixpoint align_loop (next crc : Z) (buf : bytes) : option (Z * bytes) :=
  match buf with
  | [] => Some (crc, [])
  | b :: rest =>
      if negb (Z.land next 7 =? 0) then crc ← byte_step crc b; align_loop (next + 1) crc rest
      else Some (crc, buf)
  end.

(** [while (len >= 8)] *)
Fixpoint slice_loop (crc : Z) (buf : bytes) : option (Z * bytes) :=
  match buf with
  | b0 :: b1 :: b2 :: b3 :: b4 :: b5 :: b6 :: b7 :: rest =>
      crc ← slice_step (Z.lxor crc (host_load e [b0; b1; b2; b3; b4; b5; b6; b7]));
      slice_loop crc rest
  | _ => Some (crc, buf)
  end.

(** [while (len)] *)
Fixpoint tail_loop (crc : Z) (buf : bytes) : option Z :=
  match buf with
  | [] => Some crc
  | b :: rest => crc ← byte_step crc b; tail_loop crc rest
  end.

Definition speed_loops (next crc : Z) (buf : bytes) : option Z :=
  '(crc, buf) ← align_loop next crc buf;
  '(crc, buf) ← slice_loop crc buf;
  tail_loop crc buf.
End Loops.

(** [next] is the address of the buffer. *)
Definition crcspeed64little (next crc : Z) (buf : bytes) : option Z :=
  speed_loops LITTLE_ENDIAN little_byte little_slice next crc buf.
Definition crcspeed64big (next crc : Z) (buf : bytes) : option Z :=
  let crc := rev8 crc in
  crc ← speed_loops BIG_ENDIAN big_byte big_slice next crc buf;
  Some (rev8 crc).
End Speed.

Definition crcspeed64native (e : endian) (t : table) (next crc : Z) (buf : bytes) : option Z :=
  match e with
  | LITTLE_ENDIAN => crcspeed64little t next crc buf
  | BIG_ENDIAN => crcspeed64big t next crc buf
  end.
Definition crcspeed64native_init (e : endian) (fn : Z -> bytes -> Z) : option table :=
  match e with
  | LITTLE_ENDIAN => crcspeed64little_init fn
  | BIG_ENDIAN => crcspeed64big_init fn
  end.

Definition crc64_init (e : endian) : option table := crcspeed64native_init e _crc64.
Definition crc64 (e : endian) (crc64_table : table) (next crc : Z) (s : bytes) : option Z :=
  crcspeed64native e crc64_table next crc s.

(** ** Reference computations *)

(** One step of the shift register of CRC-16, most significant bit first. *)
Definition crc16_bit (crc : Z) : Z :=
  Z.lxor (uint 16 (Z.shiftl crc 1)) (if Z.testbit crc 15 then 0x1021 else 0).
Definition crc16_byte (crc : Z) : Z := Nat.iter 8 crc16_bit crc.
Definition crc16_ref (buf : bytes) : Z :=
  foldl (fun crc b => crc16_byte (Z.lxor crc (Z.shiftl b 8))) 0 buf.

(** One step of the shift register of CRC-64, least significant bit first. *)
Definition RPOLY : Z := 0x95ac9329ac4bc9b5.
Definition crc64_bit (crc : Z) : Z := Z.lxor (Z.shiftr crc 1) (if Z.testbit crc 0 then RPOLY else 0).
Definition crc64_byte (crc : Z) : Z := Nat.iter 8 crc64_bit crc.
Definition crc64_ref (crc : Z) (buf : bytes) : Z := foldl (fun crc b => crc64_byte (Z.lxor crc b)) crc buf.

(** ** Linearity *)

Lemma lxor_swap a b c d : Z.lxor (Z.lxor a b) (Z.lxor c d) = Z.lxor (Z.lxor a c) (Z.lxor b d).
Proof. apply Z.bits_inj'. intros i _. rewrite !Z.lxor_spec. by destruct (Z.testbit a i), (Z.testbit b i), (Z.testbit c i), (Z.testbit d i). Qed.

Lemma lxor_if (x y : bool) p :
  (if xorb x y then p else 0) = Z.lxor (if x then p else 0) (if y then p else 0).
Proof. destruct x, y; cbn [xorb]; by rewrite ?Z.lxor_nilpotent, ?Z.lxor_0_r, ?Z.lxor_0_l. Qed.

Lemma mod_lxor a b n : 0 <= n -> (Z.lxor a b) mod 2 ^ n = Z.lxor (a mod 2 ^ n) (b mod 2 ^ n).
Proof.
  intros Hn. apply Z.bits_inj'. intros i Hi. rewrite Z.lxor_spec. destruct (Z_lt_le_dec i n).
  - by rewrite !Z.mod_pow2_bits_low, Z.lxor_spec by lia.
  - by rewrite !Z.mod_pow2_bits_high by lia.
Qed.

Lemma crc16_bit_lxor a b : crc16_bit (Z.lxor a b) = Z.lxor (crc16_bit a) (crc16_bit b).
Proof.
  unfold crc16_bit, uint. by rewrite Z.shiftl_lxor, mod_lxor, Z.lxor_spec, lxor_if, lxor_swap by lia.
Qed.
Lemma crc64_bit_lxor a b : crc64_bit (Z.lxor a b) = Z.lxor (crc64_bit a) (crc64_bit b).
Proof. unfold crc64_bit. by rewrite Z.shiftr_lxor, Z.lxor_spec, lxor_if, lxor_swap. Qed.

Lemma iter_lxor f n a b :
  (forall a b, f (Z.lxor a b) = Z.lxor (f a) (f b)) ->
  Nat.iter n f (Z.lxor a b) = Z.lxor (Nat.iter n f a) (Nat.iter n f b).
Proof. intros Hf. induction n as [|n IH]; [done|]. rewrite !Nat.iter_succ, IH. apply Hf. Qed.

Lemma crc16_byte_lxor a b : crc16_byte (Z.lxor a b) = Z.lxor (crc16_byte a) (crc16_byte b).
Proof. apply iter_lxor, crc16_bit_lxor. Qed.
Lemma crc64_byte_lxor a b : crc64_byte (Z.lxor a b) = Z.lxor (crc64_byte a) (crc64_byte b).
Proof. apply iter_lxor, crc64_bit_lxor. Qed.

(** A word is its low byte and the rest. *)
Lemma split_byte x : x = Z.lxor (x mod 256) (Z.shiftl (x / 256) 8).
Proof.
  apply Z.bits_inj'. intros i Hi. rewrite Z.lxor_spec, Z.shiftl_spec by lia.
  change 256 with (2 ^ 8). destruct (Z_lt_le_dec i 8).
  - rewrite Z.mod_pow2_bits_low, (Z.testbit_neg_r _ (i - 8)) by lia. by rewrite xorb_false_r.
  - rewrite Z.mod_pow2_bits_high, Z.div_pow2_bits by lia. cbn [xorb]. f_equal. lia.
Qed.

(** ** CRC-16 *)

Lemma crc16tab_ok n : 0 <= n < 256 -> crc16tab !! Z.to_nat n = Some (crc16_byte (Z.shiftl n 8)).
Proof. revert n. by_enum 256%nat. Qed.
Lemma crc16_low n : 0 <= n < 256 -> crc16_byte n = Z.shiftl n 8.
Proof. revert n. by_enum 256%nat. Qed.
Lemma crc16_byte_range n : 0 <= n < 256 -> (0 <=? crc16_byte (Z.shiftl n 8)) && (crc16_byte (Z.shiftl n 8) <? 65536) = true.
Proof. revert n. by_enum 256%nat. Qed.

Lemma lxor_byte a b : 0 <= a < 256 -> 0 <= b < 256 -> 0 <= Z.lxor a b < 256.
Proof.
  intros Ha Hb. assert (0 <= Z.lxor a b) by (apply Z.lxor_nonneg; lia). split; [done|].
  rewrite <- (Z.mod_small a 256), <- (Z.mod_small b 256) by done. change 256 with (2 ^ 8).
  rewrite <- mod_lxor by lia. apply Z.mod_pos_bound. lia.
Qed.

Lemma crc16_step crc b :
  in_uint 16 crc -> is_byte b ->
  exists t, crc16tab !! Z.to_nat (Z.land (Z.lxor (Z.shiftr crc 8) (schar b)) 0x00FF) = Some t /\
    uint 16 (Z.lxor (Z.shiftl crc 8) t) = crc16_byte (Z.lxor crc (Z.shiftl b 8)).
Proof.
  intros Hc Hb. unfold in_uint in Hc. unfold is_byte in Hb.
  assert (Hh : 0 <= crc / 256 < 256) by dlia. assert (Hl : 0 <= crc mod 256 < 256) by dlia.
  assert (Hs : schar b mod 256 = b).
  { unfold schar, sint. change (2 ^ 8) with 256. change (2 ^ (8 - 1)) with 128. bcase; dlia. }
  rewrite land_ff, Z.shiftr_div_pow2 by lia. change (2 ^ 8) with 256.
  change 256 with (2 ^ 8) at 2. rewrite mod_lxor by lia. change (2 ^ 8) with 256. rewrite Hs, (Z.mod_small (crc / 256)) by done.
  pose proof (lxor_byte (crc / 256) b Hh Hb) as Hx. rewrite crc16tab_ok by done. eexists. split; [done|].
  pose proof (crc16_byte_range _ Hx) as Hr.
  assert (Z.lxor crc (Z.shiftl b 8) = Z.lxor (crc mod 256) (Z.shiftl (Z.lxor (crc / 256) b) 8)) as ->.
  { rewrite (split_byte crc) at 1. by rewrite Z.lxor_assoc, <- Z.shiftl_lxor. }
  rewrite crc16_byte_lxor, (crc16_low (crc mod 256)) by done. unfold uint. rewrite mod_lxor by lia. f_equal.
  - rewrite !Z.shiftl_mul_pow2 by lia. dlia.
  - apply Z.mod_small. lia.
Qed.

Lemma lxor_uint w a b : 0 <= w -> in_uint w a -> in_uint w b -> in_uint w (Z.lxor a b).
Proof.
  intros Hw Ha Hb. rewrite <- (Z.mod_small a (2 ^ w)), <- (Z.mod_small b (2 ^ w)) by done.
  rewrite <- mod_lxor by done. apply uint_range. lia.
Qed.

Lemma crc16_byte_uint crc : in_uint 16 (crc16_byte crc).
Proof.
  unfold crc16_byte. rewrite Nat.iter_succ. generalize (Nat.iter 7 crc16_bit crc). intros x.
  apply lxor_uint; [lia|apply uint_range; lia|by destruct (Z.testbit x 15)].
Qed.

Lemma crc16_loop_ok buf crc :
  is_bytes buf -> in_uint 16 crc ->
  crc16_loop crc buf = Some (foldl (fun crc b => crc16_byte (Z.lxor crc (Z.shiftl b 8))) crc buf).
Proof.
  intros Hb. revert crc. induction Hb as [|b buf Hb _ IH]; intros crc Hc; cbn [crc16_loop foldl]; [done|].
  destruct (crc16_step crc b Hc Hb) as (t & -> & E). rewrite bind_Some, E. apply IH, crc16_byte_uint.
Qed.

(** The table-driven CRC-16 is the CRC of the polynomial 0x1021 computed
    bit by bit, for every sequence of bytes. *)
Theorem crc16_correct buf : is_bytes buf -> crc16 buf = Some (crc16_ref buf).
Proof. intros. by apply crc16_loop_ok. Qed.

Lemma crc16_correct_witness : crc16 (str "123456789") = Some (crc16_ref (str "123456789")).
Proof. apply (crc16_correct (str "123456789")). by repeat constructor. Defined.

(** ** CRC-64 *)

Lemma reflect_loop_ok n : forall data ret i,
  0 <= data -> 0 <= ret < 2 ^ (64 - Z.of_nat n) -> Z.of_nat n < 64 -> 0 <= i < 64 ->
  Z.testbit (reflect_loop n data ret) i =
    if i <? Z.of_nat n then Z.testbit data (Z.of_nat n - i) else Z.testbit ret (i - Z.of_nat n).
Proof.
  induction n as [|n IH]; intros data ret i Hd Hr Hn Hi; cbn [reflect_loop].
  - bdec. f_equal. lia.
  - set (y := Z.shiftr data 1). assert (Hb : 0 <= Z.land y 1 < 2).
    { rewrite (land_ones_mod _ 1) by lia. apply Z.mod_pos_bound. lia. }
    assert (Hlor : Z.lor (Z.shiftl ret 1) (Z.land y 1) = Z.land y 1 + ret * 2).
    { by rewrite Z.lor_comm, (lor_shiftl _ ret 1) by lia. }
    assert (2 ^ (64 - Z.of_nat n) = 2 * 2 ^ (64 - Z.of_nat (S n))).
    { rewrite <- Z.pow_succ_r by lia. f_equal. lia. }
    assert (2 ^ (64 - Z.of_nat (S n)) <= 2 ^ 63) by (apply Z.pow_le_mono_r; lia).
    rewrite uint_small by (unfold in_uint; lia).
    rewrite IH; [|apply Z.shiftr_nonneg; lia|lia|lia|lia].
    assert (Hbit : forall j, 0 <= j -> Z.testbit (Z.lor (Z.shiftl ret 1) (Z.land y 1)) j
      = if j =? 0 then Z.testbit data 1 else Z.testbit ret (j - 1)).
    { intros j Hj. rewrite Z.lor_spec, Z.shiftl_spec, Z.land_spec by lia. change 1 with (2 ^ 0) at 2.
      rewrite Z.pow2_bits_eqb by lia. unfold y. rewrite Z.shiftr_spec by lia. bcase.
      - rewrite Z.testbit_neg_r by lia. replace (0 =? j) with true by lia. rewrite andb_true_r, orb_false_l. f_equal. lia.
      - replace (0 =? j) with false by lia. by rewrite andb_false_r, orb_false_r. }
    repeat bcase; try lia.
    + unfold y. rewrite Z.shiftr_spec by lia. f_equal. lia.
    + rewrite Hbit by lia. bdec. f_equal. lia.
    + rewrite Hbit by lia. bdec. f_equal. lia.
Qed.

Lemma crc_reflect_revz data : 0 <= data < 2 ^ 64 -> crc_reflect data 64 = revz data.
Proof.
  intros Hd. unfold crc_reflect. change (64 - 1)%nat with 63%nat.
  assert (Hl : 0 <= Z.land data 1 < 2). { rewrite (land_ones_mod _ 1) by lia. apply Z.mod_pos_bound. lia. }
  apply word_eq; [|by apply revz_range|].
  - assert (forall n d r, 0 <= r < 2 ^ 64 -> 0 <= reflect_loop n d r < 2 ^ 64) as H; [|apply H; lia].
    induction n as [|n IH]; intros d r Hr; cbn [reflect_loop]; [done|]. apply IH, uint_range. lia.
  - intros i Hi. rewrite reflect_loop_ok, revz_bit by (done || lia). change (Z.of_nat 63) with 63.
    bcase; [done|]. assert (i = 63) as -> by lia. rewrite Z.land_spec. by rewrite andb_true_r.
Qed.

Lemma land_pow2 c k : 0 <= k -> negb (Z.land c (2 ^ k) =? 0) = Z.testbit c k.
Proof.
  intros Hk. assert (Hb : forall i, Z.testbit (Z.land c (2 ^ k)) i = Z.testbit c i && (k =? i)).
  { intros i. by rewrite Z.land_spec, Z.pow2_bits_eqb by done. }
  destruct (Z.testbit c k) eqn:E.
  - destruct (Z.eqb_spec (Z.land c (2 ^ k)) 0) as [Hz|]; [|done].
    specialize (Hb k). by rewrite E, Z.eqb_refl, Hz, Z.bits_0 in Hb.
  - replace (Z.land c (2 ^ k)) with 0; [done|]. symmetry. apply Z.bits_inj_0. intros i. rewrite Hb.
    destruct (Z.eqb_spec k i) as [<-|]; [by rewrite E|]. apply andb_false_r.
Qed.

(** The step of [_crc64], most significant bit first, and its reflection. *)
Definition normal_bit (crc : Z) (b : bool) : Z :=
  Z.lxor (uint 64 (Z.shiftl crc 1)) (if xorb (Z.testbit crc 63) b then POLY else 0).

Lemma normal_bit_range crc b : 0 <= normal_bit crc b < 2 ^ 64.
Proof. apply (lxor_uint 64); [lia|apply uint_range; lia|by destruct (xorb _ _)]. Qed.

Lemma poly_reflected i : 0 <= i < 64 -> Z.testbit RPOLY i = Z.testbit POLY (63 - i).
Proof. revert i. by_enum 64%nat. Qed.

Lemma normal_bit_revz crc b :
  0 <= crc < 2 ^ 64 ->
  revz (normal_bit crc b) =
    Z.lxor (Z.shiftr (revz crc) 1) (if xorb (Z.testbit (revz crc) 0) b then RPOLY else 0).
Proof.
  intros Hc. pose proof (revz_range _ Hc) as Hr.
  assert (Hs : 0 <= Z.shiftr (revz crc) 1 < 2 ^ 64).
  { rewrite Z.shiftr_div_pow2 by lia. change (2 ^ 1) with 2. dlia. }
  apply word_eq; [apply revz_range, normal_bit_range|apply (lxor_uint 64); [lia|done|by destruct (xorb _ _)]|].
  intros i Hi. rewrite revz_bit by (apply normal_bit_range || done).
  unfold normal_bit, uint. rewrite !Z.lxor_spec, Z.mod_pow2_bits_low, Z.shiftl_spec, Z.shiftr_spec by lia.
  rewrite (revz_bit crc 0) by lia. change (63 - 0) with 63. f_equal.
  - destruct (decide (i = 63)) as [->|].
    + rewrite Z.testbit_neg_r by lia. rewrite below_64 by (done || lia). done.
    + rewrite revz_bit by lia. f_equal. lia.
  - destruct (xorb _ _); [by rewrite poly_reflected|by rewrite !Z.bits_0].
Qed.

Lemma crc64_bits_S n k c crc :
  0 <= k ->
  crc64_bits (S n) (2 ^ k) c crc = crc64_bits n (2 ^ (k + 1)) c (normal_bit crc (Z.testbit c k)).
Proof.
  intros Hk. cbn [crc64_bits]. rewrite Z.shiftl_mul_pow2, <- Z.pow_add_r by lia. f_equal.
  change 0x8000000000000000 with (2 ^ 63). rewrite !land_pow2 by lia. unfold normal_bit.
  destruct (Z.testbit c k), (Z.testbit crc 63); cbn [negb xorb]; by rewrite ?Z.lxor_0_r.
Qed.

Lemma crc64_bits_ok n : forall k c crc,
  0 <= k -> 0 <= crc < 2 ^ 64 ->
  0 <= crc64_bits n (2 ^ k) c crc < 2 ^ 64 /\
  Nat.iter n crc64_bit (Z.lxor (revz crc) (Z.shiftr c k))
  = Z.lxor (revz (crc64_bits n (2 ^ k) c crc)) (Z.shiftr c (k + Z.of_nat n)).
Proof.
  induction n as [|n IH]; intros k c crc Hk Hc.
  - cbn [crc64_bits]. split; [done|]. by rewrite Z.add_0_r.
  - rewrite crc64_bits_S by done. destruct (IH (k + 1) c _ ltac:(lia) (normal_bit_range crc (Z.testbit c k))) as [Hr E].
    split; [done|]. rewrite Nat.iter_succ_r. replace (k + Z.of_nat (S n)) with (k + 1 + Z.of_nat n) by lia.
    rewrite <- E. f_equal. rewrite normal_bit_revz by done. unfold crc64_bit.
    rewrite Z.shiftr_lxor, Z.shiftr_shiftr, Z.lxor_spec, Z.shiftr_spec by lia. cbn [Z.add].
    rewrite !Z.lxor_assoc. f_equal. apply Z.lxor_comm.
Qed.

Lemma crc64_bits_byte c crc :
  is_byte c -> 0 <= crc < 2 ^ 64 ->
  0 <= crc64_bits 8 1 c crc < 2 ^ 64 /\ revz (crc64_bits 8 1 c crc) = crc64_byte (Z.lxor (revz crc) c).
Proof.
  intros Hb Hc. destruct (crc64_bits_ok 8 0 c crc ltac:(lia) Hc) as [Hr E]. split; [done|].
  unfold crc64_byte. rewrite Z.shiftr_0_r in E. rewrite E. change (0 + Z.of_nat 8) with 8.
  rewrite Z.shiftr_div_pow2, Z.div_small by (unfold is_byte in Hb; lia). by rewrite Z.lxor_0_r.
Qed.

Lemma land_word x : 0 <= x < 2 ^ 64 -> Z.land x 0xffffffffffffffff = x.
Proof. intros. change 0xffffffffffffffff with (2 ^ 64 - 1). by rewrite land_ones_mod, Z.mod_small by lia. Qed.

Lemma crc64_fold_ok s : forall crc,
  is_bytes s -> 0 <= crc < 2 ^ 64 ->
  let r := foldl (fun crc c => Z.land (crc64_bits 8 1 c crc) 0xffffffffffffffff) crc s in
  0 <= r < 2 ^ 64 /\ revz r = crc64_ref (revz crc) s.
Proof.
  induction s as [|c s IH]; intros crc Hs Hc; [done|]. apply Forall_cons in Hs as [Hb Hs].
  destruct (crc64_bits_byte c crc Hb Hc) as [Hr E]. unfold crc64_ref. cbn [foldl].
  rewrite (land_word (crc64_bits _ _ _ _) Hr), <- E. by apply IH.
Qed.

Lemma _crc64_ref crc s :
  is_bytes s -> 0 <= crc < 2 ^ 64 -> _crc64 crc s = crc64_ref (revz crc) s.
Proof.
  intros Hs Hc. destruct (crc64_fold_ok s crc Hs Hc) as [Hr E]. unfold _crc64.
  by rewrite (land_word _ Hr), Z.lxor_0_r, crc_reflect_revz, E.
Qed.

(** *** Peeling bytes off the register *)

Lemma crc64_bit_uint x : in_uint 64 x -> in_uint 64 (crc64_bit x).
Proof.
  intros Hx. apply lxor_uint; [lia| |by destruct (Z.testbit x 0)].
  unfold in_uint in *. rewrite Z.shiftr_div_pow2 by lia. change (2 ^ 1) with 2. dlia.
Qed.
Lemma iter_uint f n x : (forall x, in_uint 64 x -> in_uint 64 (f x)) -> in_uint 64 x -> in_uint 64 (Nat.iter n f x).
Proof. intros Hf Hx. induction n as [|n IH]; [done|]. rewrite Nat.iter_succ. by apply Hf. Qed.
Lemma crc64_byte_uint x : in_uint 64 x -> in_uint 64 (crc64_byte x).
Proof. apply iter_uint, crc64_bit_uint. Qed.

Lemma crc64_shiftl n y : Nat.iter n crc64_bit (Z.shiftl y (Z.of_nat n)) = y.
Proof.
  induction n as [|n IH]; [by rewrite Z.shiftl_0_r|]. rewrite Nat.iter_succ_r.
  replace (Z.of_nat (S n)) with (Z.of_nat n + 1) by lia. rewrite <- Z.shiftl_shiftl by lia.
  unfold crc64_bit at 2. rewrite Z.shiftl_spec_low, Z.shiftr_shiftl_l, Z.lxor_0_r by lia.
  by rewrite Z.shiftl_0_r.
Qed.
Lemma crc64_byte_shiftl y : crc64_byte (Z.shiftl y 8) = y.
Proof. apply (crc64_shiftl 8). Qed.

Lemma crc64_byte_split x : crc64_byte x = Z.lxor (crc64_byte (x mod 256)) (x / 256).
Proof. rewrite (split_byte x) at 1. by rewrite crc64_byte_lxor, crc64_byte_shiftl. Qed.

Lemma crc64_bytes_lxor n a b :
  Nat.iter n crc64_byte (Z.lxor a b) = Z.lxor (Nat.iter n crc64_byte a) (Nat.iter n crc64_byte b).
Proof. apply iter_lxor, crc64_byte_lxor. Qed.

Lemma crc64_bytes_split n x :
  Nat.iter (S n) crc64_byte x = Z.lxor (Nat.iter (S n) crc64_byte (x mod 256)) (Nat.iter n crc64_byte (x / 256)).
Proof.
  rewrite (split_byte x) at 1. rewrite crc64_bytes_lxor, (Nat.iter_succ_r n _ _ (Z.shiftl _ _)).
  by rewrite crc64_byte_shiftl.
Qed.

(** The bytes of a buffer enter the register as one little endian number. *)
Lemma crc64_ref_word bs : forall crc,
  is_bytes bs -> crc64_ref crc bs = Nat.iter (length bs) crc64_byte (Z.lxor crc (le_val bs)).
Proof.
  induction bs as [|b bs IH]; intros crc Hb; [by cbn; rewrite Z.lxor_0_r|].
  apply Forall_cons in Hb as [Hb Hbs]. unfold crc64_ref in *. cbn [foldl length le_val].
  rewrite IH by done. rewrite Nat.iter_succ_r. f_equal.
  replace (b + 256 * le_val bs) with (Z.lxor b (Z.shiftl (le_val bs) 8)).
  - by rewrite <- Z.lxor_assoc, (crc64_byte_lxor _ (Z.shiftl _ _)), crc64_byte_shiftl.
  - rewrite (split_byte (b + 256 * le_val bs)). unfold is_byte in Hb. f_equal; [dlia|]. f_equal. dlia.
Qed.

(** *** The tables *)

Definition table_ok (f : Z -> Z) (t : table) : Prop :=
  forall k n, (k < 8)%nat -> 0 <= n < 256 -> tab t k n = Some (f (Nat.iter (S k) crc64_byte n)).

Definition row0 : list Z := (fun n => _crc64 0 [n]) <$> seqZ 0 256.

Lemma row0_ok n : 0 <= n < 256 -> row0 !! Z.to_nat n = Some (crc64_byte n).
Proof.
  intros Hn. unfold row0. rewrite list_lookup_fmap, lookup_seqZ_lt by lia. cbn [fmap option_fmap option_map].
  rewrite Z2Nat.id, Z.add_0_l by lia. f_equal.
  rewrite _crc64_ref, revz_0; [by cbn; rewrite Z.lxor_0_l|by apply Forall_singleton|lia].
Qed.

Lemma nested_ok k : forall x, in_uint 64 x -> nested k row0 x = Some (Nat.iter k crc64_byte x).
Proof.
  induction k as [|k IH]; intros x Hx; cbn [nested]; [done|].
  rewrite land_ff, row0_ok, bind_Some by (apply Z.mod_pos_bound; lia).
  rewrite Z.shiftr_div_pow2, Nat.iter_succ_r by lia. change (2 ^ 8) with 256.
  rewrite <- crc64_byte_split. apply IH. by apply crc64_byte_uint.
Qed.

Lemma mapM_Some {A B} (f : A -> option B) (g : A -> B) l :
  (forall x, x ∈ l -> f x = Some (g x)) -> mapM f l = Some (g <$> l).
Proof.
  intros H. apply mapM_Some, Forall2_fmap_r, Forall_Forall2_diag, Forall_forall. intros x Hx. by apply H.
Qed.

Lemma little_init_ok :
  crcspeed64little_init _crc64
  = Some ((fun k => (fun n => Nat.iter (S k) crc64_byte (Z.of_nat n)) <$> seq 0 256) <$> seq 0 8).
Proof.
  unfold crcspeed64little_init. apply mapM_Some. intros k Hk.
  apply mapM_Some. intros n Hn. apply elem_of_seq in Hn. fold row0.
  rewrite <- (Nat2Z.id n) at 1. rewrite row0_ok, bind_Some, Nat.iter_succ_r by lia.
  apply nested_ok, crc64_byte_uint. unfold in_uint. lia.
Qed.

Lemma little_table_ok t : crcspeed64little_init _crc64 = Some t -> table_ok id t.
Proof.
  rewrite little_init_ok. intros E. apply (inj Some) in E as <-. intros k n Hk Hn. unfold tab.
  rewrite list_lookup_fmap, lookup_seq_lt by lia. cbn [fmap option_fmap option_map]. rewrite bind_Some.
  rewrite list_lookup_fmap, lookup_seq_lt by lia. cbn [fmap option_fmap option_map id].
  by rewrite !Nat.add_0_l, Z2Nat.id by lia.
Qed.

#[local] Opaque crc64_byte.

(** *** The loops *)

(** Steps on a register kept under [f] that consume a byte, and eight bytes
    already added to it. *)
Definition byte_ok (f : Z -> Z) (step : Z -> Z -> option Z) : Prop :=
  forall crc b, in_uint 64 crc -> is_byte b -> step (f crc) b = Some (f (crc64_byte (Z.lxor crc b))).
Definition slice_ok (f : Z -> Z) (step : Z -> option Z) : Prop :=
  forall x, in_uint 64 x -> step (f x) = Some (f (Nat.iter 8 crc64_byte x)).

Lemma byte_uint b : is_byte b -> in_uint 64 b.
Proof. unfold is_byte, in_uint. lia. Qed.
Lemma crc64_ref_uint s : forall crc, is_bytes s -> in_uint 64 crc -> in_uint 64 (crc64_ref crc s).
Proof.
  induction s as [|b s IH]; intros crc Hs Hc; [done|]. apply Forall_cons in Hs as [Hb Hs].
  apply IH; [done|]. apply crc64_byte_uint, lxor_uint; [lia|done|by apply byte_uint].
Qed.

Section LoopFacts.
Context (e : endian) (f : Z -> Z) (byte_step : Z -> Z -> option Z) (slice_step : Z -> option Z).
Context (Hbyte : byte_ok f byte_step) (Hslice : slice_ok f slice_step).
Context (Hload : forall crc bs, in_uint 64 crc -> is_bytes bs -> length bs = 8%nat ->
  Z.lxor (f crc) (host_load e bs) = f (Z.lxor crc (le_val bs))).

Lemma tail_loop_ok buf : forall crc,
  is_bytes buf -> in_uint 64 crc -> tail_loop byte_step (f crc) buf = Some (f (crc64_ref crc buf)).
Proof.
  induction buf as [|b buf IH]; intros crc Hb Hc; cbn [tail_loop]; [done|]. apply Forall_cons in Hb as [Hb Hbuf].
  rewrite Hbyte, bind_Some by done. apply IH; [done|].
  apply crc64_byte_uint, lxor_uint; [lia|done|by apply byte_uint].
Qed.

Lemma align_loop_ok buf : forall next crc,
  is_bytes buf -> in_uint 64 crc -> exists a c,
    buf = a ++ c /\ align_loop byte_step next (f crc) buf = Some (f (crc64_ref crc a), c).
Proof.
  induction buf as [|b buf IH]; intros next crc Hb Hc; cbn [align_loop]; [by exists [], []|].
  apply Forall_cons in Hb as [Hb Hbuf]. destruct (negb _); [|by exists [], (b :: buf)].
  rewrite Hbyte, bind_Some by done.
  destruct (IH (next + 1) (crc64_byte (Z.lxor crc b))) as (a & c & -> & E); [done| |by exists (b :: a), c].
  apply crc64_byte_uint, lxor_uint; [lia|done|by apply byte_uint].
Qed.

Lemma slice_loop_ok n : forall buf crc,
  (length buf < n)%nat -> is_bytes buf -> in_uint 64 crc -> exists a c,
    buf = a ++ c /\ slice_loop e slice_step (f crc) buf = Some (f (crc64_ref crc a), c).
Proof.
  induction n as [|n IH]; intros buf crc Hn Hb Hc; [lia|].
  do 8 (destruct buf as [|? buf]; [by eexists [], _|]). cbn [slice_loop].
  change (?a :: ?b :: ?c :: ?d :: ?g :: ?h :: ?i :: ?j :: buf) with ([a; b; c; d; g; h; i; j] ++ buf) in *.
  apply Forall_app in Hb as [Hb Hbuf].
  match goal with |- context [host_load _ ?l] => set (w := l) in * end.
  assert (Hx : in_uint 64 (Z.lxor crc (le_val w))).
  { apply lxor_uint; [lia|done|]. by apply (le_val_bound w). }
  rewrite Hload, Hslice, bind_Some by done. change 8%nat with (length w). rewrite <- crc64_ref_word by done.
  destruct (IH buf (crc64_ref crc w)) as (a & c & -> & E).
  - rewrite length_app in Hn. unfold w in Hn. cbn [length] in Hn. lia.
  - done.
  - by apply crc64_ref_uint.
  - exists (w ++ a), c. split; [by rewrite app_assoc|]. rewrite E. unfold crc64_ref. by rewrite foldl_app.
Qed.

Lemma speed_loops_ok next crc buf :
  is_bytes buf -> in_uint 64 crc ->
  speed_loops e byte_step slice_step next (f crc) buf = Some (f (crc64_ref crc buf)).
Proof.
  intros Hb Hc. unfold speed_loops.
  destruct (align_loop_ok buf next crc Hb Hc) as (a & c & -> & ->). rewrite bind_Some.
  apply Forall_app in Hb as [Ha Hb]. pose proof (crc64_ref_uint a crc Ha Hc) as Hc'.
  destruct (slice_loop_ok (S (length c)) c _ ltac:(lia) Hb Hc') as (a' & c' & -> & ->). rewrite bind_Some.
  apply Forall_app in Hb as [Ha' Hb]. rewrite tail_loop_ok by (done || by apply crc64_ref_uint).
  unfold crc64_ref. by rewrite !foldl_app.
Qed.
End LoopFacts.

Lemma little_byte_ok t : table_ok id t -> byte_ok id (little_byte t).
Proof.
  intros Ht crc b Hc Hb. unfold little_byte, id. rewrite land_ff, Ht, bind_Some by (lia || apply Z.mod_pos_bound; lia).
  rewrite (crc64_byte_split (Z.lxor crc b)). f_equal. cbn [Nat.iter nat_rect id]. f_equal.
  change 256 with (2 ^ 8). rewrite <- !Z.shiftr_div_pow2, Z.shiftr_lxor by lia.
  rewrite (Z.shiftr_div_pow2 b), (Z.div_small b) by (unfold is_byte in Hb; lia). by rewrite Z.lxor_0_r.
Qed.

(** Eight steps of the register, split by the byte that enters each table. *)
Lemma crc64_8 x :
  Nat.iter 8 crc64_byte x =
    let b k := Nat.iter (8 - k) crc64_byte ((x / 2 ^ (8 * Z.of_nat k)) mod 256) in
    Z.lxor (Z.lxor (Z.lxor (Z.lxor (Z.lxor (Z.lxor (Z.lxor (b 0%nat) (b 1%nat)) (b 2%nat)) (b 3%nat)) (b 4%nat)) (b 5%nat)) (b 6%nat))
      (crc64_byte (x / 2 ^ 56)).
Proof.
  cbv zeta. rewrite (crc64_bytes_split 7 x), (crc64_bytes_split 6 (x / 256)), (crc64_bytes_split 5 ((x / 256) / 256)), (crc64_bytes_split 4 (((x / 256) / 256) / 256)), (crc64_bytes_split 3 ((((x / 256) / 256) / 256) / 256)), (crc64_bytes_split 2 (((((x / 256) / 256) / 256) / 256) / 256)), (crc64_bytes_split 1 ((((((x / 256) / 256) / 256) / 256) / 256) / 256)).
  rewrite !Z.div_div by lia. change (2 ^ (8 * Z.of_nat 0)) with 1. rewrite Z.div_1_r.
  by rewrite <- !Z.lxor_assoc.
Qed.

Lemma little_slice_ok t : table_ok id t -> slice_ok id (little_slice t).
Proof.
  intros Ht x Hx. unfold little_slice, id.
  assert (0 <= x / 2 ^ 56 < 256) by (unfold in_uint in Hx; dlia).
  rewrite !land_ff, !Z.shiftr_div_pow2 by lia.
  rewrite !Ht by (lia || apply Z.mod_pos_bound; lia). rewrite !bind_Some, (crc64_8 x). cbv zeta beta.
  change (2 ^ (8 * Z.of_nat 0)) with 1. by rewrite Z.div_1_r.
Qed.

(** *** Big endian hosts keep the register with its bytes reversed *)

Lemma le_val_lookup bs : forall k b,
  is_bytes bs -> bs !! k = Some b -> (le_val bs / 256 ^ Z.of_nat k) mod 256 = b.
Proof.
  induction bs as [|x bs IH]; intros k b Hb Hk; [done|]. apply Forall_cons in Hb as [Hx Hb].
  unfold is_byte in Hx. destruct k as [|k]; cbn [lookup list_lookup le_val] in *.
  - injection Hk as <-. change (256 ^ Z.of_nat 0) with 1. dlia.
  - rewrite Nat2Z.inj_succ, Z.pow_succ_r, <- Z.div_div by lia.
    replace ((x + 256 * le_val bs) / 256) with (le_val bs) by dlia. by apply IH.
Qed.
Lemma le_bytes_lookup n : forall k v, (k < n)%nat -> le_bytes n v !! k = Some ((v / 256 ^ Z.of_nat k) mod 256).
Proof.
  induction n as [|n IH]; intros k v Hk; [lia|]. destruct k as [|k]; cbn [le_bytes lookup list_lookup].
  - change (256 ^ Z.of_nat 0) with 1. by rewrite Z.div_1_r.
  - rewrite IH, Nat2Z.inj_succ, Z.pow_succ_r, <- Z.div_div by lia. done.
Qed.

Definition byte_of (x : Z) (k : nat) : Z := (x / 256 ^ Z.of_nat k) mod 256.

Lemma byte_of_range x k : 0 <= byte_of x k < 256.
Proof. apply Z.mod_pos_bound. lia. Qed.

Lemma rev8_byte x k : (k < 8)%nat -> byte_of (rev8 x) k = byte_of x (7 - k).
Proof.
  intros Hk. apply le_val_lookup; [apply Forall_reverse, le_bytes_is_bytes|].
  rewrite reverse_lookup by (rewrite length_le_bytes; lia). rewrite length_le_bytes.
  rewrite le_bytes_lookup by lia. by replace (8 - S k)%nat with (7 - k)%nat by lia.
Qed.

Lemma rev8_uint x : in_uint 64 (rev8 x).
Proof.
  unfold rev8, be_val. apply (le_val_bound (reverse (le_bytes 8 x))). apply Forall_reverse, le_bytes_is_bytes.
Qed.

Lemma word_bytes x y :
  in_uint 64 x -> in_uint 64 y -> (forall k, (k < 8)%nat -> byte_of x k = byte_of y k) -> x = y.
Proof.
  intros Hx Hy H. rewrite <- (uint_le_bytes 8 x), <- (uint_le_bytes 8 y) by done. f_equal.
  apply list_eq_same_length with 8%nat; rewrite ?length_le_bytes; [done..|].
  intros k a b Hk. rewrite !le_bytes_lookup by done. specialize (H k Hk). unfold byte_of in H. congruence.
Qed.

Lemma pow256 k : 256 ^ Z.of_nat k = 2 ^ (8 * Z.of_nat k).
Proof. change 256 with (2 ^ 8). by rewrite <- Z.pow_mul_r by lia. Qed.

Lemma byte_of_lxor x y k : byte_of (Z.lxor x y) k = Z.lxor (byte_of x k) (byte_of y k).
Proof.
  unfold byte_of. rewrite pow256, <- !Z.shiftr_div_pow2, Z.shiftr_lxor by lia. by apply (mod_lxor _ _ 8).
Qed.

Lemma rev8_lxor x y : in_uint 64 x -> in_uint 64 y -> rev8 (Z.lxor x y) = Z.lxor (rev8 x) (rev8 y).
Proof.
  intros Hx Hy. apply word_bytes; [apply rev8_uint|apply lxor_uint; [lia|apply rev8_uint..]|].
  intros k Hk. by rewrite byte_of_lxor, !rev8_byte, byte_of_lxor.
Qed.

Lemma rev8_involutive x : in_uint 64 x -> rev8 (rev8 x) = x.
Proof.
  intros Hx. apply word_bytes; [apply rev8_uint|done|]. intros k Hk. rewrite !rev8_byte by lia. f_equal. lia.
Qed.

Lemma rev8_le_val bs : is_bytes bs -> length bs = 8%nat -> rev8 (le_val bs) = be_val bs.
Proof. intros Hb Hl. unfold rev8. by rewrite le_bytes_le_val_len. Qed.

Lemma byte_of_shiftl x k : (S k < 8)%nat -> byte_of (uint 64 (Z.shiftl x 8)) (S k) = byte_of x k.
Proof.
  intros Hk. unfold byte_of, uint. rewrite !pow256. change 256 with (2 ^ 8). apply Z.bits_inj'. intros i Hi.
  destruct (Z_lt_le_dec i 8).
  - rewrite !Z.mod_pow2_bits_low, !Z.div_pow2_bits, Z.mod_pow2_bits_low, Z.shiftl_spec by lia. f_equal. lia.
  - by rewrite !Z.mod_pow2_bits_high by lia.
Qed.

Lemma byte_of_shiftr x k : byte_of (Z.shiftr x 8) k = byte_of x (S k).
Proof.
  unfold byte_of. rewrite Z.shiftr_div_pow2, Z.div_div, Nat2Z.inj_succ, Z.pow_succ_r by lia. done.
Qed.

Lemma rev8_shiftr x : in_uint 64 x -> rev8 (Z.shiftr x 8) = uint 64 (Z.shiftl (rev8 x) 8).
Proof.
  intros Hx. apply word_bytes; [apply rev8_uint|apply uint_range; lia|]. intros k Hk.
  rewrite rev8_byte, byte_of_shiftr by done. destruct k as [|k].
  - unfold byte_of, uint. rewrite (Z.div_small x) by (unfold in_uint in Hx; cbn; lia).
    rewrite Z.div_1_r, Z.shiftl_mul_pow2 by lia. change (2 ^ 8) with 256. symmetry. dlia.
  - rewrite byte_of_shiftl, rev8_byte by lia. f_equal. lia.
Qed.

Lemma rev8_low x : in_uint 64 x -> Z.shiftr (rev8 x) 56 = x mod 256.
Proof.
  intros Hx. pose proof (rev8_byte x 7 ltac:(lia)) as E. pose proof (rev8_uint x) as Hr.
  unfold byte_of in E. change (256 ^ Z.of_nat (7 - 7)) with 1 in E. rewrite Z.div_1_r in E. rewrite <- E.
  rewrite Z.shiftr_div_pow2 by lia. symmetry. apply Z.mod_small. unfold in_uint in Hr.
  change (256 ^ Z.of_nat 7) with (2 ^ 56). dlia.
Qed.

Lemma big_byte_ok t : table_ok rev8 t -> byte_ok rev8 (big_byte t).
Proof.
  intros Ht crc b Hc Hb. pose proof (byte_uint _ Hb). unfold big_byte. rewrite rev8_low by done.
  assert (Hm : (Z.lxor crc b) mod 256 = Z.lxor (crc mod 256) b).
  { change 256 with (2 ^ 8). rewrite mod_lxor, (Z.mod_small b) by (done || lia). done. }
  assert (Hs : Z.lxor crc b / 256 = Z.shiftr crc 8).
  { change 256 with (2 ^ 8). rewrite <- Z.shiftr_div_pow2, Z.shiftr_lxor by lia.
    rewrite (Z.shiftr_div_pow2 b), (Z.div_small b) by (unfold is_byte in Hb; lia). apply Z.lxor_0_r. }
  assert (Hr : is_byte (Z.lxor (crc mod 256) b)) by (apply lxor_byte; [apply Z.mod_pos_bound; lia|done]).
  rewrite Ht, bind_Some by (lia || done). rewrite (crc64_byte_split (Z.lxor crc b)), Hm, Hs.
  rewrite rev8_lxor, rev8_shiftr; [done|done|by apply crc64_byte_uint, byte_uint|].
  unfold in_uint in *. rewrite Z.shiftr_div_pow2 by lia. dlia.
Qed.

Lemma lxor_chain a b c d e f g h :
  Z.lxor (Z.lxor (Z.lxor (Z.lxor (Z.lxor (Z.lxor (Z.lxor a b) c) d) e) f) g) h
  = Z.lxor (Z.lxor (Z.lxor (Z.lxor (Z.lxor (Z.lxor (Z.lxor h g) f) e) d) c) b) a.
Proof.
  rewrite (Z.lxor_comm h g), !Z.lxor_assoc. rewrite (Z.lxor_comm b a), <- !Z.lxor_assoc.
  apply Z.bits_inj'. intros i _. rewrite !Z.lxor_spec.
  destruct (Z.testbit a i), (Z.testbit b i), (Z.testbit c i), (Z.testbit d i); cbn [xorb];
  by destruct (Z.testbit e i), (Z.testbit f i), (Z.testbit g i), (Z.testbit h i).
Qed.

Lemma land_byte_of x k n : k = 8 * Z.of_nat n -> Z.land (Z.shiftr x k) 0xff = byte_of x n.
Proof. intros ->. unfold byte_of. by rewrite land_ff, Z.shiftr_div_pow2, pow256 by lia. Qed.

Lemma shiftr_byte_of x : in_uint 64 x -> Z.shiftr x 56 = byte_of x 7.
Proof.
  intros Hx. rewrite <- (land_byte_of x 56 7), land_ff by done. symmetry. apply Z.mod_small.
  unfold in_uint in Hx. rewrite Z.shiftr_div_pow2 by lia. dlia.
Qed.

Lemma crc64_8_bytes x :
  in_uint 64 x ->
  Nat.iter 8 crc64_byte x =
    let b k := Nat.iter (8 - k) crc64_byte (byte_of x k) in
    Z.lxor (Z.lxor (Z.lxor (Z.lxor (Z.lxor (Z.lxor (Z.lxor (b 0%nat) (b 1%nat)) (b 2%nat)) (b 3%nat)) (b 4%nat)) (b 5%nat)) (b 6%nat))
      (b 7%nat).
Proof.
  intros Hx. rewrite crc64_8. cbv zeta beta. change (8 - 7)%nat with 1%nat. cbn [Nat.iter nat_rect].
  rewrite <- shiftr_byte_of, Z.shiftr_div_pow2 by (done || lia). unfold byte_of. by rewrite !pow256.
Qed.

Lemma big_slice_ok t : table_ok rev8 t -> slice_ok rev8 (big_slice t).
Proof.
  intros Ht x Hx. unfold big_slice. rewrite <- (Z.shiftr_0_r (rev8 x)) at 1.
  rewrite (land_byte_of _ 0 0), (land_byte_of _ 8 1), (land_byte_of _ 16 2), (land_byte_of _ 24 3),
    (land_byte_of _ 32 4), (land_byte_of _ 40 5), (land_byte_of _ 48 6), shiftr_byte_of by (apply rev8_uint || lia).
  rewrite !rev8_byte by lia. rewrite !Ht by (lia || apply byte_of_range). rewrite !bind_Some.
  f_equal. rewrite lxor_chain, (crc64_8_bytes x) by done. cbv zeta beta.
  assert (Hu : forall n k, in_uint 64 (Nat.iter n crc64_byte (byte_of x k))).
  { intros. apply iter_uint; [apply crc64_byte_uint|]. apply byte_uint, byte_of_range. }
  rewrite !rev8_lxor by (repeat (apply lxor_uint; [lia| |]); apply Hu). done.
Qed.

Lemma big_table_ok t : crcspeed64big_init _crc64 = Some t -> table_ok rev8 t.
Proof.
  unfold crcspeed64big_init. destruct (crcspeed64little_init _crc64) as [u|] eqn:E; [|done].
  apply little_table_ok in E. rewrite bind_Some. intros Ht. apply (inj Some) in Ht as <-.
  intros k n Hk Hn. specialize (E k n Hk Hn). unfold tab in *.
  change (List.map (List.map rev8) u) with (List.map rev8 <$> u). rewrite list_lookup_fmap.
  destruct (u !! k) as [row|]; [|done]. rewrite bind_Some in E.
  change (Some row) with (@Some (list Z) row). cbn [fmap option_fmap option_map]. rewrite bind_Some.
  change (List.map rev8 row) with (rev8 <$> row). rewrite list_lookup_fmap, E. done.
Qed.

#[local] Opaque crcspeed64little_init crcspeed64big_init.
Lemma crc64_init_ok e t :
  crc64_init e = Some t -> table_ok (match e with LITTLE_ENDIAN => id | BIG_ENDIAN => rev8 end) t.
Proof. destruct e; [exact (little_table_ok t)|exact (big_table_ok t)]. Qed.
Lemma crc64_init_total e : is_Some (crc64_init e).
Proof.
  assert (is_Some (crcspeed64little_init _crc64)) as [t Ht] by by rewrite little_init_ok.
  destruct e; unfold crc64_init, crcspeed64native_init; [by exists t|]. exists (List.map (List.map rev8) t).
  with_strategy transparent [crcspeed64big_init] unfold crcspeed64big_init. by rewrite Ht, bind_Some.
Qed.
#[local] Opaque crc64_init.

Lemma crc64_spec e t next crc s :
  crc64_init e = Some t -> is_bytes s -> in_uint 64 crc -> crc64 e t next crc s = Some (crc64_ref crc s).
Proof.
  intros Ht%crc64_init_ok Hs Hc. destruct e.
  - unfold crc64, crcspeed64native, crcspeed64little. apply (speed_loops_ok LITTLE_ENDIAN id); [|by apply little_slice_ok|done..].
    by apply little_byte_ok.
  - unfold crc64, crcspeed64native, crcspeed64big.
    rewrite (speed_loops_ok BIG_ENDIAN rev8); [|by apply big_byte_ok|by apply big_slice_ok| |done..].
    + rewrite bind_Some, rev8_involutive; [done|]. by apply crc64_ref_uint.
    + intros c bs Hcc Hb Hl. cbn [host_load]. rewrite <- rev8_le_val, <- rev8_lxor; [done|done| |done..].
      pose proof (le_val_bound bs Hb) as Hv. unfold blen in Hv. by rewrite Hl in Hv.
Qed.

(** C18: On a little or a big endian host, whatever the alignment of the buffer,
    the slice-by-8 [crc64] over the tables that [crc64_init] builds returns the
    value of the bit-by-bit [_crc64] started on the reflected register. *)
Theorem crc64_equiv e t next crc s :
  crc64_init e = Some t -> is_bytes s -> in_uint 64 crc ->
  crc64 e t next crc s = Some (_crc64 (crc_reflect crc 64) s).
Proof.
  intros Ht Hs Hc. rewrite (crc64_spec e t) by done. rewrite crc_reflect_revz by done.
  rewrite _crc64_ref by (done || by apply revz_range). by rewrite revz_involutive.
Qed.

Lemma crc64_equiv_witness : exists t, crc64_init BIG_ENDIAN = Some t /\
  crc64 BIG_ENDIAN t 3 0 (str "123456789") = Some (_crc64 (crc_reflect 0 64) (str "123456789")).
Proof.
  destruct (crc64_init_total BIG_ENDIAN) as [t Ht]. exists t. split; [exact Ht|].
  assert (Hb : is_bytes (str "123456789") /\ in_uint 64 0) by (split; by repeat constructor).
  exact (crc64_equiv BIG_ENDIAN t 3 0 (str "123456789") Ht (proj1 Hb) (proj2 Hb)).
Defined.

(** The CRC-64 of a concatenation is the CRC of the second part continued
    from the CRC of the first: the checksum of a file can be computed while it is
    written in pieces of any size and alignment. *)
Theorem crc64_app e t next next' crc a b :
  crc64_init e = Some t -> is_bytes a -> is_bytes b -> in_uint 64 crc ->
  crc64 e t next crc (a ++ b) = (c ← crc64 e t next crc a; crc64 e t next' c b).
Proof.
  intros Ht Ha Hb Hc. rewrite !(crc64_spec e t) by (done || by apply Forall_app). rewrite bind_Some.
  rewrite (crc64_spec e t); [|done..|by apply crc64_ref_uint]. unfold crc64_ref. by rewrite foldl_app.
Qed.

Lemma crc64_app_witness : exists t, crc64_init LITTLE_ENDIAN = Some t /\
  crc64 LITTLE_ENDIAN t 0 0 (str "12345" ++ str "6789") =
  (c ← crc64 LITTLE_ENDIAN t 0 0 (str "12345"); crc64 LITTLE_ENDIAN t 5 c (str "6789")).
Proof.
  destruct (crc64_init_total LITTLE_ENDIAN) as [t Ht]. exists t. split; [exact Ht|].
  assert (Hb : is_bytes (str "12345") /\ is_bytes (str "6789") /\ in_uint 64 0) by (split_and!; by repeat constructor).
  destruct Hb as (Ha & Hb & Hc).
  exact (crc64_app LITTLE_ENDIAN t 0 5 0 (str "12345") (str "6789") Ht Ha Hb Hc).
Defined.

End Crc.
