(* ===== verification/Sds.v ===== *)
(** sds.c / sds.h: dynamic strings. A string carries its length and the free
    space behind it in a header whose width depends on the string, and always
    ends with a null byte. The file models the header accessors, creation,
    growth and the operations that edit a string in place or append to it. *)

From S2P Require Import Prelude.

Module Sds.

(** ** The header *)

Inductive sdstype := SDS_TYPE_5 | SDS_TYPE_8 | SDS_TYPE_16 | SDS_TYPE_32 | SDS_TYPE_64.

#[export] Instance sdstype_eq_dec : EqDecision sdstype.
Proof. solve_decision. Defined.

(** The width of the length field. *)
Definition type_bits (t : sdstype) : Z :=
  match t with SDS_TYPE_5 => 5 | SDS_TYPE_8 => 8 | SDS_TYPE_16 => 16 | SDS_TYPE_32 => 32 | SDS_TYPE_64 => 64 end.

(** The header fields and the memory from the first character to the end of
    the allocation. A string of type 5 keeps its length in the flags byte and
    has no [alloc] field. *)
Record sds := Sds { flags : sdstype; hlen : Z; halloc : Z; sbuf : bytes }.

Definition sdslen (s : sds) : Z := hlen s.

Definition sdsavail (s : sds) : Z :=
  match flags s with
  | SDS_TYPE_5 => 0
  | SDS_TYPE_32 => uint 32 (halloc s - hlen s)
  | _ => uint 64 (halloc s - hlen s)
  end.

Definition sdssetlen (s : sds) (newlen : Z) : sds :=
  Sds (flags s) (uint (type_bits (flags s)) newlen) (halloc s) (sbuf s).

Definition sdsinclen (s : sds) (inc : Z) : sds :=
  Sds (flags s) (uint (type_bits (flags s)) (hlen s + inc)) (halloc s) (sbuf s).

Definition sdsalloc (s : sds) : Z :=
  match flags s with SDS_TYPE_5 => hlen s | _ => halloc s end.

Definition sdssetalloc (s : sds) (newlen : Z) : sds :=
  match flags s with
  | SDS_TYPE_5 => s
  | _ => Sds (flags s) (hlen s) (uint (type_bits (flags s)) newlen) (sbuf s)
  end.

Definition sdsHdrSize (type : sdstype) : Z :=
  match type with SDS_TYPE_5 => 1 | SDS_TYPE_8 => 3 | SDS_TYPE_16 => 5 | SDS_TYPE_32 => 9 | SDS_TYPE_64 => 17 end.

Definition sdsReqType (string_size : Z) : sdstype :=
  if string_size <? 2 ^ 5 then SDS_TYPE_5
  else if string_size <? 2 ^ 8 then SDS_TYPE_8
  else if string_size <? 2 ^ 16 then SDS_TYPE_16
  else if string_size <? 2 ^ 32 then SDS_TYPE_32
  else SDS_TYPE_64.

Definition sdsTypeMaxSize (type : sdstype) : Z :=
  match type with
  | SDS_TYPE_5 => 2 ^ 5 - 1
  | SDS_TYPE_8 => 2 ^ 8 - 1
  | SDS_TYPE_16 => 2 ^ 16 - 1
  | SDS_TYPE_32 => 2 ^ 32 - 1
  | SDS_TYPE_64 => uint 64 (-1)
  end.

Definition is_type (t u : sdstype) : bool := bool_decide (t = u).

(** The code of a type, for [type > SDS_TYPE_8]. *)
Definition type_code (t : sdstype) : Z :=
  match t with SDS_TYPE_5 => 0 | SDS_TYPE_8 => 1 | SDS_TYPE_16 => 2 | SDS_TYPE_32 => 3 | SDS_TYPE_64 => 4 end.

Definition SDS_MAX_PREALLOC : Z := 1024 * 1024.

Definition with_buf (s : sds) (b : bytes) : sds := Sds (flags s) (hlen s) (halloc s) b.

(** [s[i] = c] and [memcpy(s+off, t, |t|)] *)
Definition sset (s : sds) (i c : Z) : option sds := b ← bset (sbuf s) i c; Some (with_buf s b).
Definition swrite (s : sds) (off : Z) (t : bytes) : option sds := b ← bwrite (sbuf s) off t; Some (with_buf s b).

(** The C string at the start of a memory area. *)
Fixpoint cstr (b : bytes) : option bytes :=
  match b with
  | [] => None
  | c :: b => if c =? 0 then Some [] else s ← cstr b; Some (c :: s)
  end.

(** The source of a new string: [SDS_NOINIT], [NULL] or a memory area. *)
Inductive sdsinit := NOINIT | INIT_NULL | INIT (p : bytes).

Section Alloc.
(** [usable n] is the usable size of the block that the allocator returns for
    [n] bytes, [try_ok n] tells whether a fallible allocation of [n] bytes
    succeeds, [indet] gives the contents of fresh memory. *)
Context (usable : Z -> Z) (try_ok : Z -> bool) (indet : nat -> Z).

Definition fresh (n : Z) : bytes := indet <$> seq 0 (Z.to_nat n).

(** [Some None] is a [NULL] result. *)
Definition _sdsnewlen (init : sdsinit) (initlen : Z) (trymalloc : bool) : option (option sds) :=
  let type := sdsReqType initlen in
  let type := if is_type type SDS_TYPE_5 && (initlen =? 0) then SDS_TYPE_8 else type in
  let hdrlen := sdsHdrSize type in
  assert! uint 64 (initlen + hdrlen + 1) >? initlen;
  let size := uint 64 (hdrlen + initlen + 1) in
  if trymalloc && negb (try_ok size) then Some None
  else
    let block := usable size in
    let buf := fresh (block - hdrlen) in
    buf ← match init with
          | INIT_NULL => bwrite buf 0 (replicate (Z.to_nat (initlen + 1)) 0)
          | _ => Some buf
          end;
    let usable := uint 64 (block - hdrlen - 1) in
    let usable := if usable >? sdsTypeMaxSize type then sdsTypeMaxSize type else usable in
    let s := sdssetalloc (sdssetlen (Sds type 0 0 buf) initlen) usable in
    s ← match init with
        | INIT p => if negb (initlen =? 0) then t ← bread p 0 initlen; swrite s 0 t else Some s
        | _ => Some s
        end;
    s ← sset s initlen 0;
    Some (Some s).

Definition sdsnewlen (init : sdsinit) (initlen : Z) : option sds :=
  r ← _sdsnewlen init initlen false; r.
Definition sdstrynewlen (init : sdsinit) (initlen : Z) : option (option sds) :=
  _sdsnewlen init initlen true.
Definition sdsempty : option sds := sdsnewlen (INIT [0]) 0.
(** [sdsnew] of a C string *)
Definition sdsnew (init : option bytes) : option sds :=
  match init with
  | None => sdsnewlen INIT_NULL 0
  | Some p => t ← cstr p; sdsnewlen (INIT p) (blen t)
  end.
Definition sdsdup (s : sds) : option sds := sdsnewlen (INIT (sbuf s)) (sdslen s).

Definition sdsupdatelen (s : sds) : option sds :=
  t ← cstr (sbuf s); Some (sdssetlen s (blen t)).

Definition sdsclear (s : sds) : option sds := sset (sdssetlen s 0) 0 0.

Definition sdsMakeRoomFor (s : sds) (addlen : Z) : option sds :=
  let avail := sdsavail s in
  let oldtype := flags s in
  if avail >=? addlen then Some s
  else
    let len := sdslen s in
    let newlen := uint 64 (len + addlen) in
    assert! newlen >? len;
    let newlen := if newlen <? SDS_MAX_PREALLOC then uint 64 (newlen * 2) else uint 64 (newlen + SDS_MAX_PREALLOC) in
    let type := sdsReqType newlen in
    let type := if is_type type SDS_TYPE_5 then SDS_TYPE_8 else type in
    let hdrlen := sdsHdrSize type in
    assert! uint 64 (hdrlen + newlen + 1) >? len;
    let block := usable (uint 64 (hdrlen + newlen + 1)) in
    s ← (if is_type oldtype type then Some (with_buf s (brealloc indet (sbuf s) (block - hdrlen)))
         else
           t ← bread (sbuf s) 0 (len + 1);
           b ← bwrite (fresh (block - hdrlen)) 0 t;
           Some (sdssetlen (Sds type 0 0 b) len));
    let usable := uint 64 (block - hdrlen - 1) in
    let usable := if usable >? sdsTypeMaxSize type then sdsTypeMaxSize type else usable in
    Some (sdssetalloc s usable).

Definition sdsRemoveFreeSpace (s : sds) : option sds :=
  let oldtype := flags s in
  let oldhdrlen := sdsHdrSize oldtype in
  let len := sdslen s in
  let avail := sdsavail s in
  if avail =? 0 then Some s
  else
    let type := sdsReqType len in
    let hdrlen := sdsHdrSize type in
    s ← (if is_type oldtype type || (type_code type >? 1)
         then Some (with_buf s (brealloc indet (sbuf s) (usable (oldhdrlen + len + 1) - oldhdrlen)))
         else
           t ← bread (sbuf s) 0 (len + 1);
           b ← bwrite (fresh (usable (hdrlen + len + 1) - hdrlen)) 0 t;
           Some (sdssetlen (Sds type 0 0 b) len));
    Some (sdssetalloc s len).

Definition sdsAllocSize (s : sds) : Z := sdsHdrSize (flags s) + sdsalloc s + 1.

(** The assertions compare at the widths of the C expressions. *)
Definition sdsIncrLen (s : sds) (incr : Z) : option sds :=
  let len := hlen s in
  let ok :=
    match flags s with
    | SDS_TYPE_5 => ((incr >? 0) && (len + incr <? 32)) || ((incr <? 0) && (len >=? uint 32 (- incr)))
    | SDS_TYPE_8 | SDS_TYPE_16 =>
        ((incr >=? 0) && (halloc s - len >=? incr)) || ((incr <? 0) && (len >=? uint 32 (- incr)))
    | SDS_TYPE_32 =>
        ((incr >=? 0) && (uint 32 (halloc s - len) >=? uint 32 incr)) || ((incr <? 0) && (len >=? uint 32 (- incr)))
    | SDS_TYPE_64 =>
        ((incr >=? 0) && (uint 64 (halloc s - len) >=? uint 64 incr)) || ((incr <? 0) && (len >=? uint 64 (- incr)))
    end in
  assert! ok;
  let s := sdssetlen s (len + incr) in
  sset s (match flags s with SDS_TYPE_5 => len + incr | _ => hlen s end) 0.

Definition sdsgrowzero (s : sds) (len : Z) : option sds :=
  let curlen := sdslen s in
  if len <=? curlen then Some s
  else
    s ← sdsMakeRoomFor s (len - curlen);
    s ← swrite s curlen (replicate (Z.to_nat (len - curlen + 1)) 0);
    Some (sdssetlen s len).

(** [t] is a memory area distinct from the string. *)
Definition sdscatlen (s : sds) (t : bytes) (len : Z) : option sds :=
  let curlen := sdslen s in
  s ← sdsMakeRoomFor s len;
  t ← bread t 0 len;
  s ← swrite s curlen t;
  sset (sdssetlen s (curlen + len)) (curlen + len) 0.

Definition sdscat (s : sds) (t : bytes) : option sds := c ← cstr t; sdscatlen s t (blen c).
Definition sdscatsds (s t : sds) : option sds := sdscatlen s (sbuf t) (sdslen t).

Definition sdscpylen (s : sds) (t : bytes) (len : Z) : option sds :=
  s ← (if sdsalloc s <? len then sdsMakeRoomFor s (uint 64 (len - sdslen s)) else Some s);
  t ← bread t 0 len;
  s ← swrite s 0 t;
  s ← sset s len 0;
  Some (sdssetlen s len).
Definition sdscpy (s : sds) (t : bytes) : option sds := c ← cstr t; sdscpylen s t (blen c).
End Alloc.

(** ** Editing in place *)

(** [strchr(cset, c)] is not [NULL]; the terminator counts. *)
Definition strchr (cset : bytes) (c : Z) : bool := (c =? 0) || existsb (Z.eqb c) cset.

(** [while (sp <= end && strchr(cset, *sp)) sp++] *)
Fixpoint trim_left (fuel : nat) (b cset : bytes) (sp end_ : Z) : option Z :=
  match fuel with
  | O => None
  | S fuel =>
      if sp <=? end_ then
        c ← bget b sp;
        if strchr cset c then trim_left fuel b cset (sp + 1) end_ else Some sp
      else Some sp
  end.
(** [while (ep > sp && strchr(cset, *ep)) ep--] *)
Fixpoint trim_right (fuel : nat) (b cset : bytes) (sp ep : Z) : option Z :=
  match fuel with
  | O => None
  | S fuel =>
      if ep >? sp then
        c ← bget b ep;
        if strchr cset c then trim_right fuel b cset sp (ep - 1) else Some ep
      else Some ep
  end.

Definition sdstrim (s : sds) (cset : bytes) : option sds :=
  cset ← cstr cset;
  let fuel := S (Z.to_nat (sdslen s)) in
  sp ← trim_left fuel (sbuf s) cset 0 (sdslen s - 1);
  ep ← trim_right fuel (sbuf s) cset sp (sdslen s - 1);
  let len := if sp >? ep then 0 else ep - sp + 1 in
  s ← (if negb (sp =? 0) then b ← memmove (sbuf s) 0 sp len; Some (with_buf s b) else Some s);
  s ← sset s len 0;
  Some (sdssetlen s len).

(** [(start > end) ? 0 : (end-start)+1], without signed overflow. *)
Definition range_len (start end_ : Z) : option Z :=
  if start >? end_ then Some 0
  else assert! end_ - start + 1 <? 2 ^ 63; Some (end_ - start + 1).

Definition sdsrange (s : sds) (start end_ : Z) : option sds :=
  let len := sdslen s in
  if len =? 0 then Some s
  else
    let start := if start <? 0 then let start := sint 64 (len + start) in if start <? 0 then 0 else start else start in
    let end_ := if end_ <? 0 then let end_ := sint 64 (len + end_) in if end_ <? 0 then 0 else end_ else end_ in
    newlen ← range_len start end_;
    newlen ← (if negb (newlen =? 0) then
                if start >=? sint 64 len then Some 0
                else if end_ >=? sint 64 len then range_len start (len - 1)
                else Some newlen
              else Some newlen);
    s ← (if negb (start =? 0) && negb (newlen =? 0)
         then b ← memmove (sbuf s) 0 start newlen; Some (with_buf s b) else Some s);
    s ← sset s newlen 0;
    Some (sdssetlen s newlen).

(** [for (j = 0; j < len; j++) s[j] = f(s[j])] *)
Fixpoint map_loop (f : Z -> Z) (n : nat) (j : Z) (b : bytes) : option bytes :=
  match n with
  | O => Some b
  | S n => c ← bget b j; b ← bset b j (f c); map_loop f n (j + 1) b
  end.

(** [toupper] in the "C" locale. *)
Definition toupper (c : Z) : Z := if (97 <=? c) && (c <=? 122) then c - 32 else c.

Definition sdstolower (s : sds) : option sds :=
  b ← map_loop tolower (Z.to_nat (sdslen s)) 0 (sbuf s); Some (with_buf s b).
Definition sdstoupper (s : sds) : option sds :=
  b ← map_loop toupper (Z.to_nat (sdslen s)) 0 (sbuf s); Some (with_buf s b).

(** The inner loop of [sdsmapchars]: the first match decides. *)
Fixpoint mapchar (from to : bytes) (c : Z) : Z :=
  match from, to with
  | f :: from, t :: to => if c =? f then t else mapchar from to c
  | _, _ => c
  end.
Definition sdsmapchars (s : sds) (from to : bytes) (setlen : Z) : option sds :=
  from ← bread from 0 setlen; to ← bread to 0 setlen;
  b ← map_loop (mapchar from to) (Z.to_nat (sdslen s)) 0 (sbuf s); Some (with_buf s b).

(** [memcmp] on two areas of the same size; the C standard fixes the sign. *)
Fixpoint memcmp (a b : bytes) : Z :=
  match a, b with
  | x :: a, y :: b => if x <? y then -1 else if y <? x then 1 else memcmp a b
  | _, _ => 0
  end.

Definition sdscmp (s1 s2 : sds) : option Z :=
  let l1 := sdslen s1 in
  let l2 := sdslen s2 in
  let minlen := if l1 <? l2 then l1 else l2 in
  a ← bread (sbuf s1) 0 minlen; b ← bread (sbuf s2) 0 minlen;
  let cmp := memcmp a b in
  Some (if cmp =? 0 then (if l1 >? l2 then 1 else if l1 <? l2 then -1 else 0) else cmp).

(** ** Representation *)

Definition fits (t : sdstype) (n : Z) : Prop := 0 <= n < 2 ^ type_bits t.

(** [s] is a string with contents [v] followed by the byte [c]. *)
Record ended (c : Z) (s : sds) (v : bytes) : Prop := {
  h_len : hlen s = blen v;
  h_fits : fits (flags s) (blen v);
  h_buf : exists rest, sbuf s = v ++ c :: rest;
  h_alloc : flags s <> SDS_TYPE_5 ->
    fits (flags s) (halloc s) /\ blen v <= halloc s /\ halloc s + 1 <= blen (sbuf s);
}.
Arguments h_len {c s v}.
Arguments h_fits {c s v}.
Arguments h_buf {c s v}.
Arguments h_alloc {c s v}.

(** A well-formed string. *)
Abbreviation holds := (ended 0).

Lemma type_max t : sdsTypeMaxSize t = 2 ^ type_bits t - 1.
Proof. by destruct t. Qed.
Lemma type_bits_range t : 0 <= type_bits t <= 64.
Proof. destruct t; cbn; lia. Qed.
Lemma fits_word t n : fits t n -> in_uint 64 n.
Proof.
  unfold fits, in_uint. pose proof (type_bits_range t).
  pose proof (Z.pow_le_mono_r 2 (type_bits t) 64 ltac:(lia) ltac:(lia)). lia.
Qed.
Lemma fits_le t n m : fits t m -> 0 <= n <= m -> fits t n.
Proof. unfold fits. lia. Qed.
Lemma req_type_fits n : in_uint 64 n -> fits (sdsReqType n) n.
Proof. unfold in_uint, sdsReqType, fits. intros. repeat bcase; cbn [type_bits]; lia. Qed.
Lemma hdr_size t : 1 <= sdsHdrSize t <= 17.
Proof. destruct t; cbn; lia. Qed.
Lemma is_type_spec t u : is_type t u = true <-> t = u.
Proof. apply bool_decide_eq_true. Qed.

Lemma holds_room {c} s v : ended c s v -> blen v + 1 <= blen (sbuf s).
Proof. intros [_ _ [r ->] _]. rewrite blen_app, blen_cons. pose proof (blen_nonneg r). lia. Qed.

Lemma sdsavail_ok {c} s v : ended c s v ->
  sdsavail s = match flags s with SDS_TYPE_5 => 0 | _ => halloc s - blen v end.
Proof.
  intros [Hl Hf _ Ha]. unfold sdsavail, uint. rewrite Hl. pose proof (blen_nonneg v).
  destruct (flags s); [done|..]; destruct Ha as ([? Hm] & ? & ?); try done; cbn [type_bits] in Hm;
    apply Z.mod_small; lia.
Qed.

(** Storing [t] after the first [pre] of a buffer. *)
Lemma bwrite_fit b pre r t :
  b = pre ++ r -> blen t <= blen r -> exists r',
    bwrite b (blen pre) t = Some (pre ++ t ++ r') /\ blen r' = blen r - blen t.
Proof.
  intros -> Ht. pose proof (blen_nonneg t). destruct (split_blen r (blen t)) as (x & y & -> & Hx); [lia|].
  exists y. split; [|rewrite blen_app; lia]. by rewrite (bwrite_app pre x t y).
Qed.

Lemma blen_replicate (n : nat) (x : Z) : blen (replicate n x) = Z.of_nat n.
Proof. unfold blen. by rewrite length_replicate. Qed.

Lemma blen_reverse (l : bytes) : blen (reverse l) = blen l.
Proof. unfold blen. by rewrite length_reverse. Qed.

(** A buffer holding [v] with room for [n] characters. *)
Definition room (s : sds) (v : bytes) (n : Z) : Prop :=
  (exists r, sbuf s = v ++ r) /\ fits (flags s) n /\ n + 1 <= blen (sbuf s) /\
  (flags s <> SDS_TYPE_5 -> fits (flags s) (halloc s) /\ n <= halloc s /\ halloc s + 1 <= blen (sbuf s)).

(** Terminating the string at its new end, the length set before or after. *)
Lemma seal_ok s v n :
  room s v n -> n = blen v ->
  exists s', sset s n 0 = Some s' /\ holds (sdssetlen s' n) v /\
    sset (sdssetlen s n) n 0 = Some (sdssetlen s' n).
Proof.
  intros ((r & Hb) & Hf & Hr & Ha) ->. rewrite Hb, blen_app in Hr.
  destruct (bwrite_fit (sbuf s) v r [0] Hb) as (r' & E & Hr'). { rewrite blen_cons, blen_nil. lia. }
  exists (with_buf s (v ++ [0] ++ r')). unfold sset, bset. cbn [sbuf sdssetlen]. rewrite E, !bind_Some.
  split_and!; [done| |done]. constructor; cbn [hlen flags sbuf halloc sdssetlen with_buf].
  - by apply uint_small.
  - done.
  - by exists r'.
  - intros Ht. destruct (Ha Ht) as (? & ? & Hle). split_and!; [done|done|].
    rewrite Hb in Hle. autorewrite with cmem in *. lia.
Qed.

Lemma swrite_ok s v t pre n :
  room s v n -> (exists r, v = pre ++ r) -> blen pre + blen t <= n + 1 ->
  exists s', swrite s (blen pre) t = Some s' /\ room s' (pre ++ t) n /\ flags s' = flags s /\ hlen s' = hlen s.
Proof.
  intros ((r & Hb) & Hf & Hr & Ha) (r0 & ->) Hn. rewrite <- app_assoc in Hb.
  assert (Hl : blen (sbuf s) = blen pre + blen (r0 ++ r)) by (rewrite Hb; apply blen_app).
  destruct (bwrite_fit (sbuf s) pre (r0 ++ r) t Hb) as (r' & E & Hr'); [lia|].
  exists (with_buf s (pre ++ t ++ r')). unfold swrite. rewrite E, bind_Some. split_and!; [done| |done..].
  assert (Hl' : blen (pre ++ t ++ r') = blen (sbuf s)) by (rewrite !blen_app; lia).
  split_and!; cbn [sbuf with_buf flags halloc]; rewrite ?Hl'; try done. exists r'. by rewrite app_assoc.
Qed.

Lemma holds_room_for {c} s v n : ended c s v -> blen v <= n <= sdsalloc s -> room s v n.
Proof.
  intros H Hn. pose proof (holds_room s v H) as Hr. destruct H as [Hl Hf [r Hb] Ha]. unfold sdsalloc in Hn.
  pose proof (blen_nonneg v). split_and!; [by eexists|..].
  - destruct (decide (flags s = SDS_TYPE_5)) as [E|E]; [rewrite E in *; by replace n with (blen v) by lia|].
    destruct (Ha E) as (? & ? & ?). destruct (flags s); [done|..]; eapply fits_le; (eassumption || lia).
  - destruct (decide (flags s = SDS_TYPE_5)) as [E|E]; [rewrite E in *; lia|].
    destruct (Ha E) as (? & ? & ?). destruct (flags s); [done|..]; lia.
  - intros E. destruct (Ha E) as (? & ? & ?). split_and!; [done| |done]. destruct (flags s); [done|..]; lia.
Qed.

Lemma room_le s v n m : room s v n -> 0 <= m <= n -> room s v m.
Proof.
  intros (Hb & Hf & Hr & Ha) Hm. split_and!; [done|by eapply fits_le|lia|].
  intros T. destruct (Ha T) as (? & ? & ?). split_and!; [done|lia|done].
Qed.
Lemma room_prefix s v w n : room s (v ++ w) n -> room s v n.
Proof. intros ((r & Hb) & ?). split; [|done]. exists (w ++ r). by rewrite app_assoc. Qed.

(** A string already terminated. *)
Lemma room_holds s v : room s (v ++ [0]) (blen v) -> holds (sdssetlen s (blen v)) v.
Proof.
  intros ((r & Hb) & Hf & Hr & Ha). constructor; cbn [sdssetlen hlen flags sbuf halloc].
  - by apply uint_small.
  - done.
  - exists r. by rewrite Hb, <- app_assoc.
  - done.
Qed.

Lemma holds_alloc {c} s v : ended c s v -> blen v <= sdsalloc s.
Proof.
  intros [Hl _ _ Ha]. unfold sdsalloc. rewrite Hl. destruct (flags s); [lia|..]; by destruct Ha as (_ & ? & _).
Qed.

(** ** Allocation *)

(** What [zmalloc_usable] promises about the usable size. *)
Definition alloc_ok (usable : Z -> Z) : Prop := forall n, in_uint 64 n -> n <= usable n < 2 ^ 64.

Definition clamp (t : sdstype) (u : Z) : Z := if u >? sdsTypeMaxSize t then sdsTypeMaxSize t else u.

Lemma setalloc_ok {c} s v n :
  hlen s = blen v -> (exists r, sbuf s = v ++ c :: r) -> blen v <= n -> fits (flags s) n ->
  n + 1 <= blen (sbuf s) < 2 ^ 64 ->
  let s' := sdssetalloc s (clamp (flags s) (uint 64 (blen (sbuf s) - 1))) in
  ended c s' v /\ (flags s <> SDS_TYPE_5 -> n <= sdsalloc s').
Proof.
  intros Hl Hb Hn Hf Hr. pose proof (blen_nonneg v).
  set (u := clamp _ _). assert (Hu : n <= u <= blen (sbuf s) - 1 /\ fits (flags s) u).
  { unfold u, clamp. rewrite type_max, uint_small by (unfold in_uint; lia). unfold fits in *. bcase; lia. }
  assert (Hw : uint (type_bits (flags s)) u = u) by (apply uint_small; apply Hu).
  unfold sdsalloc. cbv zeta. destruct (decide (flags s = SDS_TYPE_5)) as [E|E].
  - unfold sdssetalloc. rewrite E in *. split; [constructor; rewrite ?E; try done|done].
    eapply fits_le; [done|lia].
  - assert (sdssetalloc s u = Sds (flags s) (hlen s) u (sbuf s)) as ->
      by (unfold sdssetalloc; rewrite Hw; by destruct (flags s)).
    cbn [flags hlen halloc sbuf]. split; [|destruct (flags s); done || lia].
    constructor; cbn [flags hlen halloc sbuf]; [done|eapply fits_le; [done|lia]|done|].
    intros _. split_and!; [apply Hu|lia..].
Qed.

Section AllocFacts.
Context (usable : Z -> Z) (try_ok : Z -> bool) (indet : nat -> Z).
Context (Husable : alloc_ok usable).

Lemma blen_fresh n : 0 <= n -> blen (fresh indet n) = n.
Proof. intros. unfold fresh, blen. rewrite length_fmap, length_seq. lia. Qed.

(** The contents that [_sdsnewlen] is asked for. *)
Definition init_ok (init : sdsinit) (v : bytes) : Prop :=
  match init with
  | NOINIT => True
  | INIT_NULL => v = replicate (length v) 0
  | INIT p => exists r, p = v ++ r
  end.

(** The type chosen for a new string of [n] characters. *)
Lemma new_type n :
  in_uint 64 n ->
  let type := sdsReqType n in
  let type := if is_type type SDS_TYPE_5 && (n =? 0) then SDS_TYPE_8 else type in fits type n.
Proof.
  intros Hn. cbv zeta. destruct (is_type _ _ && _) eqn:E; [|by apply req_type_fits].
  unfold fits. cbn. lia.
Qed.

Lemma _sdsnewlen_ok p v r try :
  p = v ++ r -> blen v + 18 < 2 ^ 64 -> (try = false \/ forall n, try_ok n = true) ->
  exists s, _sdsnewlen usable try_ok indet (INIT p) (blen v) try = Some (Some s) /\ holds s v.
Proof.
  intros -> Hv Htry. pose proof (blen_nonneg v) as H0. unfold _sdsnewlen.
  pose proof (new_type (blen v) ltac:(unfold in_uint; lia)) as Hf. cbv zeta in *. set (t := if _ : bool then SDS_TYPE_8 else _) in *.
  pose proof (hdr_size t) as Hh. rewrite !(uint_small 64 (_ + _ + 1)) by (unfold in_uint; lia).
  replace (blen v + sdsHdrSize t + 1 >? blen v) with true by lia.
  destruct (Husable (sdsHdrSize t + blen v + 1)) as [Hu1 Hu2]; [unfold in_uint; lia|].
  set (block := usable _) in *. replace (try && _) with false by (destruct Htry as [->|Ht]; [done|by rewrite Ht, andb_false_r]).
  rewrite bind_Some. fold (clamp t (uint 64 (block - sdsHdrSize t - 1))).
  set (buf := fresh indet (block - sdsHdrSize t)).
  assert (Hb : blen buf = block - sdsHdrSize t) by (apply blen_fresh; lia).
  rewrite <- Hb. set (u := clamp _ _).
  assert (Hs : forall b, blen b = blen buf -> (exists r, b = v ++ 0 :: r) ->
    holds (sdssetalloc (sdssetlen (Sds t 0 0 b) (blen v)) u) v).
  { intros b Hlb Hbv. destruct (setalloc_ok (c:=0) (sdssetlen (Sds t 0 0 b) (blen v)) v (blen v)) as [H _];
      cbn [hlen flags sbuf sdssetlen] in *; rewrite ?Hlb in *; [by apply uint_small|done|lia|done|lia|exact H]. }
  assert (Hw : forall b b', with_buf (sdssetalloc (sdssetlen (Sds t 0 0 b) (blen v)) u) b' =
    sdssetalloc (sdssetlen (Sds t 0 0 b') (blen v)) u) by (intros; by destruct t).
  assert (Hg : forall b, sbuf (sdssetalloc (sdssetlen (Sds t 0 0 b) (blen v)) u) = b) by (intros; by destruct t).
  destruct (bwrite_fit buf [] buf v) as (r1 & E & Hr1); [done|lia|].
  destruct (bwrite_fit (v ++ r1) v r1 [0]) as (r2 & E2 & Hr2); [done|rewrite blen_cons, blen_nil; lia|].
  exists (sdssetalloc (sdssetlen (Sds t 0 0 (v ++ [0] ++ r2)) (blen v)) u). split.
  - assert (Hput : (if negb (blen v =? 0) then t0 ← bread (v ++ r) 0 (blen v);
        swrite (sdssetalloc (sdssetlen (Sds t 0 0 buf) (blen v)) u) 0 t0
      else Some (sdssetalloc (sdssetlen (Sds t 0 0 buf) (blen v)) u))
      = Some (sdssetalloc (sdssetlen (Sds t 0 0 (v ++ r1)) (blen v)) u)).
    { bcase.
      - rewrite (bread_app [] v r), bind_Some by (autorewrite with cmem; lia). unfold swrite. rewrite Hg.
        change 0 with (blen []). by rewrite E, bind_Some, Hw.
      - apply blen_0 in E0. clear - E E0. subst v. unfold bwrite in E. cbn [blen length app] in E.
        destruct (inside _ _ _); [|done]. cbn in E. injection E as <-. done. }
    rewrite Hput, bind_Some. unfold sset, bset. by rewrite Hg, E2, !bind_Some, Hw.
  - apply Hs; [autorewrite with cmem in *; lia|by eexists].
Qed.
Lemma brealloc_keep {c} b v r n :
  b = v ++ c :: r -> blen v + 1 <= n -> exists r', brealloc indet b n = v ++ c :: r' /\ blen (v ++ c :: r') = n.
Proof.
  intros -> Hn. pose proof (blen_nonneg v).
  assert (Hl : blen (brealloc indet (v ++ c :: r) n) = n).
  { unfold brealloc, blen. rewrite length_app, length_take, length_fmap, length_seq. lia. }
  assert (Ht : take (S (length v)) (brealloc indet (v ++ c :: r) n) = v ++ [c]).
  { unfold brealloc. rewrite take_app_le by (rewrite length_take, length_app; cbn [length]; unfold blen in *; lia).
    rewrite take_take, Nat.min_l by (unfold blen in *; lia).
    change (v ++ c :: r) with (v ++ [c] ++ r). rewrite app_assoc, take_app_exact; [done|].
    rewrite length_app. cbn. lia. }
  set (b := brealloc _ _ _) in *. exists (drop (S (length v)) b).
  assert (E : b = v ++ c :: drop (S (length v)) b).
  { rewrite <- (take_drop (S (length v)) b) at 1. by rewrite Ht, <- app_assoc. }
  split; [done|]. by rewrite <- E.
Qed.

(** Moving the string [v] to a block for [n] characters behind a header of
    type [t], by [realloc] or by copying. *)
Lemma move_ok {c} s v t n block :
  ended c s v -> blen v <= n -> fits t n -> n + 1 <= block - sdsHdrSize t -> block < 2 ^ 64 ->
  exists s',
    (if is_type (flags s) t then Some (with_buf s (brealloc indet (sbuf s) (block - sdsHdrSize t)))
     else
       t0 ← bread (sbuf s) 0 (sdslen s + 1);
       b ← bwrite (fresh indet (block - sdsHdrSize t)) 0 t0;
       Some (sdssetlen (Sds t 0 0 b) (sdslen s))) = Some s' /\
    flags s' = t /\ hlen s' = blen v /\ (exists r, sbuf s' = v ++ c :: r) /\ blen (sbuf s') = block - sdsHdrSize t.
Proof.
  intros [Hl Hf [r Hb] Ha] Hn Ht Hblock Hlt. pose proof (hdr_size t). pose proof (blen_nonneg v).
  destruct (is_type (flags s) t) eqn:Et.
  - apply is_type_spec in Et. destruct (brealloc_keep (sbuf s) v r (block - sdsHdrSize t) Hb) as (r' & E & Hr'); [lia|].
    eexists. split; [done|]. cbn [with_buf flags hlen sbuf]. rewrite E. split_and!; try done. by eexists.
  - unfold sdslen. rewrite Hl, Hb. change (v ++ c :: r) with (v ++ [c] ++ r). rewrite app_assoc.
    rewrite (bread_app [] (v ++ [c]) r), bind_Some by (autorewrite with cmem; lia).
    set (b := fresh _ _). assert (Hbl : blen b = block - sdsHdrSize t) by (apply blen_fresh; lia).
    destruct (bwrite_fit b [] b (v ++ [c])) as (r' & E & Hr'); [done|autorewrite with cmem; lia|].
    rewrite blen_nil in E. rewrite E, bind_Some. eexists. split; [done|]. cbn [sdssetlen flags hlen sbuf app].
    split_and!; [done| |exists r'; by rewrite <- app_assoc|autorewrite with cmem in *; lia].
    apply uint_small. eapply fits_le; [done|lia].
Qed.

Lemma sdsMakeRoomFor_spec {c} s v addlen :
  ended c s v -> 0 <= addlen -> blen v + addlen + SDS_MAX_PREALLOC + 18 < 2 ^ 64 ->
  exists s', sdsMakeRoomFor usable indet s addlen = Some s' /\ ended c s' v /\
    blen v + addlen <= sdsalloc s' /\ addlen <= sdsavail s'.
Proof.
  intros H Hadd Hmax. pose proof (sdsavail_ok s v H) as Hav. pose proof (blen_nonneg v).
  unfold SDS_MAX_PREALLOC in Hmax. unfold sdsMakeRoomFor. bcase.
  - exists s. split_and!; [done|done| |lia]. unfold sdsalloc. pose proof (h_len H). destruct (flags s); lia.
  - cbv zeta. assert (Hlen : sdslen s = blen v) by apply (h_len H). rewrite Hlen.
    assert (0 < addlen). { rewrite Hav in E. destruct (decide (flags s = SDS_TYPE_5)) as [T|T].
      - rewrite T in E. lia.
      - destruct (h_alloc H T) as (? & ? & ?). destruct (flags s); [done|..]; lia. }
    rewrite (uint_small 64 (blen v + addlen)) by (unfold in_uint; lia). replace (blen v + addlen >? blen v) with true by lia.
    set (n := if blen v + addlen <? _ then _ else _).
    assert (Hn : blen v + addlen <= n /\ n + 18 < 2 ^ 64).
    { unfold n, SDS_MAX_PREALLOC. bcase; rewrite uint_small by (unfold in_uint; lia); lia. }
    set (t := if is_type (sdsReqType n) SDS_TYPE_5 then _ else _).
    assert (Ht : fits t n /\ t <> SDS_TYPE_5).
    { pose proof (req_type_fits n ltac:(unfold in_uint; lia)) as Hq. unfold t, is_type.
      case_bool_decide as Eq; [rewrite Eq in Hq; unfold fits in *; cbn in *; split; [lia|done]|done]. }
    pose proof (hdr_size t). rewrite (uint_small 64 (sdsHdrSize t + n + 1)) by (unfold in_uint; lia).
    replace (sdsHdrSize t + n + 1 >? blen v) with true by lia.
    destruct (Husable (sdsHdrSize t + n + 1)) as [Hu1 Hu2]; [unfold in_uint; lia|]. set (block := usable _) in *.
    destruct (move_ok s v t n block H) as (s1 & E1 & Hfl & Hl1 & Hb1 & Hbl); [lia|apply Ht|lia|done|].
    rewrite Hlen in E1. rewrite E1, bind_Some. eexists. split; [done|]. subst t.
    replace (block - sdsHdrSize _ - 1) with (blen (sbuf s1) - 1) by lia.
    rewrite <- Hfl in *. fold (clamp (flags s1) (uint 64 (blen (sbuf s1) - 1))).
    destruct (setalloc_ok s1 v n Hl1 Hb1) as [Hh Hal]; [lia|apply Ht|lia|]. specialize (Hal (proj2 Ht)).
    split; [done|]. split; [lia|]. rewrite (sdsavail_ok _ v Hh). unfold sdsalloc in Hal.
    destruct (flags (sdssetalloc _ _)) eqn:Ef; [|lia..]. destruct Ht as [_ Ht]. by destruct s1 as [[] ? ? ?].
Qed.
Lemma bread_area t w r : t = w ++ r -> bread t 0 (blen w) = Some w.
Proof. intros ->. by apply (bread_app [] w r). Qed.

Lemma sdscatlen_spec s v t w r :
  holds s v -> t = w ++ r -> blen v + blen w + SDS_MAX_PREALLOC + 18 < 2 ^ 64 ->
  exists s', sdscatlen usable indet s t (blen w) = Some s' /\ holds s' (v ++ w).
Proof.
  intros H Ht Hmax. destruct (sdsMakeRoomFor_spec s v (blen w) H) as (s1 & E1 & H1 & Ha & _); [apply blen_nonneg|done|].
  unfold sdscatlen, sdslen. rewrite (h_len H), E1, bind_Some, (bread_area t w r Ht), bind_Some.
  pose proof (blen_nonneg v) as Hv0. pose proof (blen_nonneg w) as Hw0.
  destruct (swrite_ok s1 v w v (blen v + blen w)) as (s2 & E2 & H2 & _);
    [eapply holds_room_for; [done|lia]|exists []; by rewrite app_nil_r|lia|].
  rewrite E2, bind_Some. destruct (seal_ok s2 (v ++ w) (blen v + blen w) H2) as (s3 & _ & H3 & E3); [by rewrite blen_app|].
  rewrite E3. by eexists.
Qed.

Lemma sdscpylen_spec s v t w r :
  holds s v -> t = w ++ r -> blen v + blen w + SDS_MAX_PREALLOC + 18 < 2 ^ 64 ->
  exists s', sdscpylen usable indet s t (blen w) = Some s' /\ holds s' w.
Proof.
  intros H Ht Hmax. pose proof (blen_nonneg v) as Hv0. pose proof (blen_nonneg w) as Hw0.
  pose proof (holds_alloc s v H) as Hva.
  assert (exists s1, (if sdsalloc s <? blen w then sdsMakeRoomFor usable indet s (uint 64 (blen w - sdslen s)) else Some s) = Some s1
    /\ holds s1 v /\ blen w <= sdsalloc s1) as (s1 & E1 & H1 & Ha1).
  { bcase; [|exists s; split_and!; done || lia]. unfold sdslen. rewrite (h_len H), uint_small by (unfold in_uint, SDS_MAX_PREALLOC in *; lia).
    destruct (sdsMakeRoomFor_spec s v (blen w - blen v) H) as (s1 & -> & H1 & Ha & _); [lia|lia|].
    exists s1. split_and!; [done|done|lia]. }
  unfold sdscpylen. rewrite E1, bind_Some, (bread_area t w r Ht), bind_Some.
  pose proof (holds_alloc s1 v H1) as Hva1.
  destruct (swrite_ok s1 v w [] (Z.max (blen v) (blen w))) as (s2 & E2 & H2 & _);
    [eapply holds_room_for; [done|lia]|by exists v|rewrite blen_nil; lia|].
  rewrite blen_nil in E2. rewrite E2, bind_Some.
  destruct (seal_ok s2 w (blen w)) as (s3 & E3 & H3 & _); [eapply room_le; [exact H2|lia]|done|].
  rewrite E3, bind_Some. by eexists.
Qed.

Lemma sdsgrowzero_spec s v n :
  holds s v -> 0 <= n -> n + SDS_MAX_PREALLOC + 18 < 2 ^ 64 ->
  exists s', sdsgrowzero usable indet s n = Some s' /\
    holds s' (v ++ replicate (Z.to_nat (n - blen v)) 0).
Proof.
  intros H Hn Hmax. pose proof (blen_nonneg v) as Hv0. unfold sdsgrowzero, sdslen. rewrite (h_len H). bcase.
  - exists s. split; [done|]. replace (Z.to_nat (n - blen v)) with 0%nat by lia. by rewrite app_nil_r.
  - destruct (sdsMakeRoomFor_spec s v (n - blen v) H) as (s1 & -> & H1 & Ha & _); [lia|lia|]. rewrite bind_Some.
    replace (Z.to_nat (n - blen v + 1)) with (Z.to_nat (n - blen v) + 1)%nat by lia. rewrite replicate_add.
    set (z := replicate (Z.to_nat (n - blen v)) 0). assert (Hz : blen z = n - blen v) by (unfold z; rewrite blen_replicate; lia).
    destruct (swrite_ok s1 v (z ++ [0]) v n) as (s2 & E2 & H2 & _);
      [eapply holds_room_for; [done|lia]|exists []; by rewrite app_nil_r|rewrite blen_app, blen_cons, blen_nil; lia|].
    cbn [replicate] in *. rewrite E2, bind_Some. eexists. split; [done|].
    replace n with (blen (v ++ z)) in H2 |- * by (rewrite blen_app; lia). apply room_holds. by rewrite <- app_assoc.
Qed.

Lemma sdsRemoveFreeSpace_spec s v :
  holds s v -> blen v + 18 < 2 ^ 64 ->
  exists s', sdsRemoveFreeSpace usable indet s = Some s' /\ holds s' v /\ sdsalloc s' = blen v.
Proof.
  intros H Hmax. pose proof (blen_nonneg v). unfold sdsRemoveFreeSpace, sdslen. rewrite (h_len H), (sdsavail_ok s v H).
  bcase.
  { exists s. split_and!; [done|done|]. unfold sdsalloc. pose proof (h_len H). destruct (flags s); lia. }
  assert (Hset : forall s1, hlen s1 = blen v -> fits (flags s1) (blen v) -> (exists r, sbuf s1 = v ++ 0 :: r) ->
    holds (sdssetalloc s1 (blen v)) v /\ sdsalloc (sdssetalloc s1 (blen v)) = blen v).
  { intros s1 Hl Hf (r & Hb). assert (Hw : uint (type_bits (flags s1)) (blen v) = blen v) by by apply uint_small.
    destruct (decide (flags s1 = SDS_TYPE_5)) as [T|T].
    - unfold sdssetalloc, sdsalloc. rewrite T. split; [|by rewrite T]. constructor; [done|done|by eexists|done].
    - assert (sdssetalloc s1 (blen v) = Sds (flags s1) (hlen s1) (blen v) (sbuf s1)) as ->
        by (unfold sdssetalloc; rewrite Hw; by destruct (flags s1)).
      split; [|unfold sdsalloc; cbn [flags hlen halloc]; by destruct (flags s1)].
      constructor; cbn [flags hlen halloc sbuf]; [done|done|by eexists|]. intros _. rewrite Hb, blen_app, blen_cons.
      pose proof (blen_nonneg r). split_and!; [done|lia..]. }
  set (t := sdsReqType (blen v)). assert (Ht : fits t (blen v)) by (apply req_type_fits; unfold in_uint; lia).
  destruct (h_buf H) as [r Hb]. pose proof (hdr_size t) as Hh. pose proof (hdr_size (flags s)) as Hh'.
  destruct (Husable (sdsHdrSize (flags s) + blen v + 1)) as [Hu _]; [unfold in_uint; lia|].
  destruct (Husable (sdsHdrSize t + blen v + 1)) as [Hv _]; [unfold in_uint; lia|].
  destruct (is_type (flags s) t || (type_code t >? 1)).
  - rewrite bind_Some. eexists. split; [done|]. apply Hset; cbn [with_buf flags hlen sbuf]; [apply H|apply H|].
    edestruct (brealloc_keep (c:=0) (sbuf s) v r) as (r' & -> & _); [done| |by eexists]. lia.
  - rewrite Hb. change (v ++ 0 :: r) with (v ++ [0] ++ r). rewrite app_assoc.
    rewrite (bread_app [] (v ++ [0]) r), bind_Some by (autorewrite with cmem; lia). set (b := fresh _ _).
    assert (Hbl : blen b = usable (sdsHdrSize t + blen v + 1) - sdsHdrSize t) by (apply blen_fresh; lia).
    destruct (bwrite_fit b [] b (v ++ [0])) as (r' & E' & Hr'); [done|autorewrite with cmem; lia|].
    rewrite blen_nil in E'. rewrite E', !bind_Some. eexists. split; [done|].
    apply Hset; cbn [sdssetlen flags hlen sbuf]; [by apply uint_small|done|]. exists r'. cbn [app]. by rewrite <- app_assoc.
Qed.
End AllocFacts.

(** ** Editing in place *)

(** Keeping [n] characters copied to the front of the buffer. *)
Lemma shorten_ok s v s1 w :
  holds s v -> blen w <= blen v -> flags s1 = flags s -> halloc s1 = halloc s -> blen (sbuf s1) = blen (sbuf s) ->
  (exists r, sbuf s1 = w ++ r) ->
  exists s', sset s1 (blen w) 0 = Some s' /\ holds (sdssetlen s' (blen w)) w.
Proof.
  intros H Hw Hf Ha Hb Hs. destruct (seal_ok s1 w (blen w)) as (s' & E & Hh & _); [|done|by eexists].
  apply (room_le s1 w (blen v)); [|pose proof (blen_nonneg w); lia].
  destruct (holds_room_for s v (blen v) H) as (_ & H2 & H3 & H4); [pose proof (holds_alloc s v H); lia|].
  split_and!; rewrite ?Hf, ?Ha, ?Hb; done.
Qed.

Lemma sdsclear_spec s v : holds s v -> exists s', sdsclear s = Some s' /\ holds s' [].
Proof.
  intros H. pose proof (holds_alloc s v H). pose proof (blen_nonneg v).
  destruct (seal_ok s [] 0) as (s' & _ & Hh & E); [|done|by eexists].
  apply (room_le _ _ (blen v)); [|lia]. apply (room_prefix s [] v). cbn [app]. eapply holds_room_for; [done|lia].
Qed.

Definition drop_while (p : Z -> bool) : bytes -> bytes :=
  fix go v := match v with [] => [] | c :: v => if p c then go v else c :: v end.

Lemma drop_while_split p v : exists a, v = a ++ drop_while p v /\ Forall (fun c => p c = true) a.
Proof.
  induction v as [|c v IH]; [by exists []|]. cbn. destruct (p c) eqn:E; [|by exists []].
  destruct IH as (a & Ea & Ha). exists (c :: a). cbn. split; [by f_equal|by constructor].
Qed.

(** The contents without the characters of [cset] (or null) at its ends. *)
Definition trim_spec (cset v : bytes) : bytes :=
  reverse (drop_while (strchr cset) (reverse (drop_while (strchr cset) v))).

Lemma trim_left_ok cset v : forall fuel pre rest,
  (length v < fuel)%nat ->
  trim_left fuel (pre ++ v ++ rest) cset (blen pre) (blen pre + blen v - 1) =
    Some (blen pre + (blen v - blen (drop_while (strchr cset) v))).
Proof.
  induction v as [|c v IH]; intros fuel pre rest Hf; (destruct fuel as [|fuel]; [cbn in Hf; lia|]); cbn [trim_left].
  - rewrite blen_nil. bdec. f_equal. cbn [drop_while]. rewrite blen_nil. lia.
  - rewrite blen_cons. pose proof (blen_nonneg v). bdec. rewrite (bget_app pre c (v ++ rest)), bind_Some by done.
    cbn [drop_while]. destruct (strchr cset c).
    + specialize (IH fuel (pre ++ [c]) rest ltac:(cbn in Hf; lia)). rewrite <- app_assoc in IH.
      rewrite blen_app, blen_cons, blen_nil in IH. cbn [app] in *.
      replace (blen pre + (1 + blen v) - 1) with (blen pre + (1 + 0) + blen v - 1) by lia.
      replace (blen pre + 1) with (blen pre + (1 + 0)) by lia. rewrite IH. f_equal. lia.
    + rewrite blen_cons. f_equal. lia.
Qed.

Lemma trim_right_ok cset x v : strchr cset x = false -> forall fuel pre rest,
  (length v < fuel)%nat ->
  trim_right fuel (pre ++ (x :: reverse v) ++ rest) cset (blen pre) (blen pre + blen v) =
    Some (blen pre + blen (drop_while (strchr cset) v)).
Proof.
  intros Hx. induction v as [|c v IH]; intros fuel pre rest Hf; (destruct fuel as [|fuel]; [cbn in Hf; lia|]); cbn [trim_right].
  - rewrite blen_nil. bdec. done.
  - rewrite blen_cons. pose proof (blen_nonneg v). bdec. rewrite reverse_cons.
    replace (pre ++ (x :: reverse v ++ [c]) ++ rest) with ((pre ++ x :: reverse v) ++ c :: rest)
      by by rewrite <- !app_assoc; cbn; rewrite <- app_assoc.
    rewrite bget_app, bind_Some by (rewrite blen_app, blen_cons; unfold blen; rewrite length_reverse; lia).
    cbn [drop_while]. destruct (strchr cset c).
    + specialize (IH fuel pre (c :: rest) ltac:(cbn in Hf; lia)).
      replace ((pre ++ x :: reverse v) ++ c :: rest) with (pre ++ (x :: reverse v) ++ c :: rest) by by rewrite <- app_assoc.
      replace (blen pre + (1 + blen v) - 1) with (blen pre + blen v) by lia. exact IH.
    + by rewrite blen_cons.
Qed.

Lemma drop_while_head p v : match drop_while p v with [] => True | c :: _ => p c = false end.
Proof. induction v as [|c v IH]; [done|]. cbn. by destruct (p c) eqn:E. Qed.

(** What the two loops of [sdstrim] select. *)
Lemma trim_loops cset v rest : exists a b,
  v = a ++ trim_spec cset v ++ b /\
  forall fuel, (length v < fuel)%nat ->
    trim_left fuel (v ++ rest) cset 0 (blen v - 1) = Some (blen a) /\
    exists ep, trim_right fuel (v ++ rest) cset (blen a) (blen v - 1) = Some ep /\
      (if blen a >? ep then 0 else ep - blen a + 1) = blen (trim_spec cset v).
Proof.
  destruct (drop_while_split (strchr cset) v) as (a & Ea & _).
  pose proof (drop_while_head (strchr cset) v) as Hh. remember (drop_while (strchr cset) v) as m0 eqn:Em0.
  assert (Hla : blen v = blen a + blen m0) by (rewrite Ea at 1; apply blen_app).
  assert (Htl : forall fuel, (length v < fuel)%nat -> trim_left fuel (v ++ rest) cset 0 (blen v - 1) = Some (blen a)).
  { intros fuel Hf. pose proof (trim_left_ok cset v fuel [] rest Hf) as E.
    rewrite blen_nil, !Z.add_0_l in E. cbn [app] in E. rewrite E. f_equal. rewrite <- Em0. lia. }
  unfold trim_spec. rewrite <- Em0. clear Em0. destruct m0 as [|x m].
  - exists a, []. cbn. rewrite app_nil_r in *. split; [done|]. intros fuel Hf. split; [by apply Htl|].
    exists (blen v - 1). destruct fuel; [lia|]. cbn [trim_right]. rewrite blen_nil in Hla. by bdec.
  - destruct (drop_while_split (strchr cset) (reverse m)) as (b & Eb & _). set (k := drop_while (strchr cset) (reverse m)) in *.
    assert (Hk : drop_while (strchr cset) (reverse (x :: m)) = k ++ [x]).
    { rewrite reverse_cons. unfold k. clear -Hh. induction (reverse m) as [|c l IH]; cbn; [by rewrite Hh|].
      by destruct (strchr cset c). }
    rewrite Hk, reverse_snoc. exists a, (reverse b). split.
    { rewrite Ea at 1. f_equal. cbn. f_equal. rewrite <- reverse_app, <- Eb. by rewrite reverse_involutive. }
    intros fuel Hf. split; [by apply Htl|].
    pose proof (trim_right_ok cset x (reverse m) Hh fuel a rest) as E. rewrite length_reverse, reverse_involutive in E.
    rewrite blen_cons in Hla. exists (blen a + blen k). split.
    + rewrite Ea at 1. rewrite <- app_assoc. replace (blen v - 1) with (blen a + blen (reverse m)).
      * apply E. rewrite Ea, length_app in Hf. cbn in Hf. lia.
      * rewrite blen_reverse. lia.
    + pose proof (blen_nonneg k). rewrite blen_cons, blen_reverse. bdec. lia.
Qed.

Lemma sdstrim_spec s v cset w :
  holds s v -> cstr cset = Some w -> exists s', sdstrim s cset = Some s' /\ holds s' (trim_spec w v).
Proof.
  intros H Hc. unfold sdstrim. rewrite Hc, bind_Some. unfold sdslen. rewrite (h_len H).
  destruct (h_buf H) as [rest Hb]. rewrite Hb.
  destruct (trim_loops w v (0 :: rest)) as (a & b & Ev & Hloop).
  destruct (Hloop (S (Z.to_nat (blen v)))) as (E1 & ep & E2 & E3); [unfold blen; lia|].
  rewrite E1, bind_Some, E2, bind_Some, E3. set (m := trim_spec w v) in *.
  assert (Hl : blen v = blen a + blen m + blen b) by (rewrite Ev at 1; rewrite !blen_app; lia).
  pose proof (blen_nonneg a). pose proof (blen_nonneg b). pose proof (blen_nonneg m).
  assert (exists s1, (if negb (blen a =? 0) then b0 ← memmove (v ++ 0 :: rest) 0 (blen a) (blen m); Some (with_buf s b0)
      else Some s) = Some s1 /\ flags s1 = flags s /\ halloc s1 = halloc s /\ blen (sbuf s1) = blen (sbuf s) /\
      exists r, sbuf s1 = m ++ r) as (s1 & Es & Hf & Ha & Hbl & Hm).
  { rewrite Hb. bcase.
    - assert (Hvb : v ++ 0 :: rest = a ++ m ++ b ++ 0 :: rest) by (rewrite Ev at 1; by rewrite <- !app_assoc).
      assert (Hbr : bread (v ++ 0 :: rest) (blen a) (blen m) = Some m) by (rewrite Hvb; by apply bread_app).
      unfold memmove. rewrite Hbr, bind_Some.
      destruct (bwrite_fit (v ++ 0 :: rest) [] (v ++ 0 :: rest) m) as (r' & E' & Hr');
        [done|rewrite blen_app; pose proof (blen_nonneg (0 :: rest)); lia|].
      rewrite blen_nil in E'. rewrite E', bind_Some. eexists. split_and!; try done; [|by eexists].
      cbn [with_buf sbuf app]. rewrite blen_app. lia.
    - exists s. rewrite Hb. split_and!; try done. apply blen_0 in E. rewrite E in Ev.
      exists (b ++ 0 :: rest). rewrite Ev at 1. cbn [app]. symmetry. apply app_assoc. }
  rewrite Es, bind_Some. destruct (shorten_ok s v s1 m) as (s2 & -> & Hh); try done; [lia|].
  rewrite bind_Some. by eexists.
Qed.


(** The characters from [start] to [end_], both inclusive, negative indexes
    counted from the end and clamped to the first character. *)
Definition range_index (len i : Z) : Z := if i <? 0 then Z.max 0 (len + i) else i.
Definition range_spec (v : bytes) (start end_ : Z) : bytes :=
  let a := range_index (blen v) start in
  let b := Z.min (blen v - 1) (range_index (blen v) end_) in
  take (Z.to_nat (b - a + 1)) (drop (Z.to_nat a) v).

Lemma range_index_ok len i :
  0 <= len < 2 ^ 63 -> in_sint 64 i ->
  (if i <? 0 then let i := sint 64 (len + i) in if i <? 0 then 0 else i else i) = range_index len i.
Proof.
  intros Hl Hi. unfold in_sint in Hi. unfold range_index. bcase; [|done]. cbv zeta.
  rewrite sint_small by (unfold in_sint; lia). bcase; lia.
Qed.

Lemma range_newlen len a e :
  0 < len < 2 ^ 63 -> 0 <= a -> 0 <= e < 2 ^ 63 - 1 ->
  (newlen ← range_len a e;
   if negb (newlen =? 0) then
     if a >=? sint 64 len then Some 0
     else if e >=? sint 64 len then range_len a (len - 1)
     else Some newlen
   else Some newlen) = Some (Z.max 0 (Z.min (len - 1) e - a + 1)).
Proof.
  intros Hl Ha He. rewrite sint_small by (unfold in_sint; lia). unfold range_len. repeat bcase; try lia; cbn [mbind option_bind];
    repeat bcase; try lia; f_equal; lia.
Qed.

Lemma sdsrange_spec s v start end_ :
  holds s v -> blen v < 2 ^ 63 -> in_sint 64 start -> in_sint 64 end_ -> end_ < 2 ^ 63 - 1 ->
  exists s', sdsrange s start end_ = Some s' /\ holds s' (range_spec v start end_).
Proof.
  intros H Hv Hs He Hmax. unfold sdsrange, sdslen. rewrite (h_len H). pose proof (blen_nonneg v). bcase.
  { apply blen_0 in E. subst v. exists s. split; [done|]. unfold range_spec. by rewrite drop_nil, take_nil. }
  rewrite !range_index_ok by (done || lia). unfold range_spec.
  assert (Hb0 : 0 <= range_index (blen v) end_ < 2 ^ 63 - 1) by (unfold range_index, in_sint in *; bcase; lia).
  assert (Ha0 : 0 <= range_index (blen v) start) by (unfold range_index; bcase; lia).
  set (a := range_index (blen v) start) in *. set (e := range_index (blen v) end_) in *.
  pose proof (range_newlen (blen v) a e ltac:(lia) Ha0 Hb0) as Hn.
  set (b := Z.min (blen v - 1) e) in *. set (w := take _ (drop _ v)).
  destruct (range_len a e) as [n0|]; [|done]. cbn [mbind option_bind] in Hn.
  rewrite bind_Some, Hn, bind_Some. clear Hn.
  assert (Hw : blen w = Z.max 0 (b - a + 1)).
  { unfold w, blen. rewrite length_take, length_drop. unfold blen in b, E. lia. }
  assert (Hbm : b <= blen v - 1) by (unfold b; lia).
  rewrite <- Hw. destruct (h_buf H) as [rest Hb].
  assert (Hin : 0 < blen w -> exists x y, v = x ++ w ++ y /\ blen x = a).
  { intros Hp. exists (take (Z.to_nat a) v), (drop (Z.to_nat (b - a + 1)) (drop (Z.to_nat a) v)). unfold w.
    rewrite !take_drop. split; [done|].
    unfold blen in *. rewrite length_take. lia. }
  assert (exists s1, (if negb (a =? 0) && negb (blen w =? 0)
      then b0 ← memmove (sbuf s) 0 a (blen w); Some (with_buf s b0) else Some s) = Some s1 /\
      flags s1 = flags s /\ halloc s1 = halloc s /\ blen (sbuf s1) = blen (sbuf s) /\
      exists r, sbuf s1 = w ++ r) as (s1 & Es & Hf & Ha & Hbl & Hm).
  { pose proof (blen_nonneg w). rewrite Hb. bcase.
    - destruct Hin as (x & y & Ev & Hx); [lia|].
      assert (Hbr : bread (v ++ 0 :: rest) a (blen w) = Some w).
      { rewrite Ev, <- !app_assoc. by apply bread_app. }
      unfold memmove. rewrite Hbr, bind_Some.
      destruct (bwrite_fit (v ++ 0 :: rest) [] (v ++ 0 :: rest) w) as (r' & E' & Hr');
        [done|rewrite blen_app; pose proof (blen_nonneg (0 :: rest)); lia|].
      rewrite blen_nil in E'. rewrite E', bind_Some. eexists. split_and!; try done; [|by eexists].
      cbn [with_buf sbuf app]. rewrite blen_app. lia.
    - exists s. rewrite Hb. split_and!; try done. destruct (decide (blen w = 0)) as [Z0|Z0].
      + apply blen_0 in Z0. rewrite Z0. by eexists.
      + destruct Hin as (x & y & Ev & Hx); [lia|]. assert (x = []) as -> by (apply blen_0; lia).
        exists (y ++ 0 :: rest). rewrite Ev at 1. cbn [app]. symmetry. apply app_assoc. }
  rewrite Es, bind_Some. destruct (shorten_ok s v s1 w) as (s2 & -> & Hh); try done; [lia|].
  rewrite bind_Some. by eexists.
Qed.

Lemma map_loop_ok f v : forall pre rest,
  map_loop f (length v) (blen pre) (pre ++ v ++ rest) = Some (pre ++ (f <$> v) ++ rest).
Proof.
  induction v as [|c v IH]; intros pre rest; [done|]. cbn [length map_loop fmap list_fmap app].
  rewrite (bget_app pre c) by done. rewrite bind_Some, (bset_app pre c) by done. rewrite bind_Some.
  specialize (IH (pre ++ [f c]) rest). rewrite blen_app, blen_cons, blen_nil, <- !app_assoc in IH.
  replace (blen pre + 1) with (blen pre + (1 + 0)) by lia. exact IH.
Qed.

Lemma map_chars_spec f s v :
  holds s v -> exists b, map_loop f (Z.to_nat (sdslen s)) 0 (sbuf s) = Some b /\ holds (with_buf s b) (f <$> v).
Proof.
  intros H. destruct H as [Hl Hf [r Hb] Ha]. unfold sdslen. rewrite Hl, to_nat_blen, Hb.
  pose proof (map_loop_ok f v [] (0 :: r)) as E. rewrite blen_nil in E. cbn [app] in E. rewrite E. eexists. split; [done|].
  assert (Hlen : blen (f <$> v) = blen v) by (unfold blen; by rewrite length_fmap).
  constructor; cbn [with_buf flags hlen sbuf halloc]; rewrite ?Hlen; [done|done|by eexists|].
  intros T. destruct (Ha T) as (? & ? & Hle). split_and!; [done..|]. rewrite Hb, blen_app in Hle. rewrite blen_app, Hlen. done.
Qed.

Lemma sdsIncrLen_spec s v n :
  room s v n -> n = blen v -> 0 < n - hlen s -> 0 <= hlen s -> n < 2 ^ 63 ->
  exists s', sdsIncrLen s (n - hlen s) = Some s' /\ holds s' v.
Proof.
  intros Hr Hn Hp H0 Hmax. destruct (seal_ok s v n Hr Hn) as (s' & _ & Hh & E).
  exists (sdssetlen s' n). split; [|done]. unfold sdsIncrLen. cbv zeta. destruct Hr as (_ & Hf & _ & Ha).
  assert (Hl : match flags (sdssetlen s n) with SDS_TYPE_5 => n | _ => hlen (sdssetlen s n) end = n).
  { cbn [sdssetlen flags hlen]. rewrite uint_small by apply Hf. by destruct (flags s). }
  replace (hlen s + (n - hlen s)) with n by lia. rewrite Hl, E. apply guard_bool.
  unfold fits in *. destruct (flags s); cbn [type_bits] in *; [lia|..]; destruct Ha as (? & ? & ?); try done;
    rewrite ?(uint_small _ (halloc s - hlen s)), ?(uint_small _ (n - hlen s)) by (unfold in_uint; lia); lia.
Qed.

(** Lexicographic order, a proper prefix being smaller. *)
Fixpoint lex_lt (a b : bytes) : bool :=
  match a, b with
  | _, [] => false
  | [], _ :: _ => true
  | x :: a, y :: b => (x <? y) || ((x =? y) && lex_lt a b)
  end.

Lemma memcmp_lex a : forall b,
  let n := Nat.min (length a) (length b) in
  let c := memcmp (take n a) (take n b) in
  let r := if c =? 0 then (if blen a >? blen b then 1 else if blen a <? blen b then -1 else 0) else c in
  (r <? 0) = lex_lt a b /\ (r = 0 <-> a = b) /\ (0 <? r) = lex_lt b a.
Proof.
  induction a as [|x a IH]; intros [|y b]; cbv zeta; cbn [length Nat.min take memcmp lex_lt].
  - done.
  - rewrite blen_cons, blen_nil. pose proof (blen_nonneg b). cbn [Z.eqb]. bdec. done.
  - rewrite blen_cons, blen_nil. pose proof (blen_nonneg a). cbn [Z.eqb]. bdec. done.
  - specialize (IH b). cbv zeta in IH. destruct (Z.ltb_spec x y), (Z.ltb_spec y x); [lia|..].
    + cbn. destruct (Z.eqb_spec y x); [lia|]. split_and!; try done. split; [lia|]. intros [=]. lia.
    + cbn. destruct (Z.eqb_spec x y); [lia|]. split_and!; try done. split; [lia|]. intros [=]. lia.
    + assert (x = y) as -> by lia. rewrite Z.eqb_refl, !blen_cons. cbn [orb andb].
      replace (1 + blen a >? 1 + blen b) with (blen a >? blen b) by lia.
      replace (1 + blen a <? 1 + blen b) with (blen a <? blen b) by lia.
      destruct IH as (H1 & H2 & H3). split_and!; [done| |done]. rewrite H2. split; [by intros ->|by intros [=]].
Qed.

Lemma sdscmp_spec s1 s2 v1 v2 :
  holds s1 v1 -> holds s2 v2 -> exists c, sdscmp s1 s2 = Some c /\
    (c <? 0) = lex_lt v1 v2 /\ (c = 0 <-> v1 = v2) /\ (0 <? c) = lex_lt v2 v1.
Proof.
  intros H1 H2. unfold sdscmp, sdslen. rewrite (h_len H1), (h_len H2).
  set (n := Nat.min (length v1) (length v2)).
  assert (Hm : (if blen v1 <? blen v2 then blen v1 else blen v2) = Z.of_nat n) by (unfold n, blen; bcase; lia).
  assert (Hb : forall s v, holds s v -> (n <= length v)%nat -> bread (sbuf s) 0 (Z.of_nat n) = Some (take n v)).
  { intros s v [_ _ [r ->] _] Hle. rewrite <- (take_drop n v) at 1. rewrite <- app_assoc.
    apply (bread_app [] (take n v)); [done|]. unfold blen. rewrite length_take. lia. }
  cbv zeta. rewrite Hm, (Hb s1 v1), (Hb s2 v2), !bind_Some by (done || lia). eexists. split; [done|].
  apply (memcmp_lex v1 v2).
Qed.

(** ** Sequences of operations *)

Inductive sds_op :=
| Catlen (t : bytes)
| Cpylen (t : bytes)
| Growzero (n : Z)
| Clear
| Trim (cset : bytes)
| Range (start end_ : Z)
| Tolower
| Toupper
| MakeRoom (n : Z)
| RemoveFree
(** make room, store bytes behind the string, then extend the length *)
| Read (t : bytes).

Section Ops.
Context (usable : Z -> Z) (indet : nat -> Z).

Definition run_op (s : sds) (op : sds_op) : option sds :=
  match op with
  | Catlen t => sdscatlen usable indet s t (blen t)
  | Cpylen t => sdscpylen usable indet s t (blen t)
  | Growzero n => sdsgrowzero usable indet s n
  | Clear => sdsclear s
  | Trim cset => sdstrim s (cset ++ [0])
  | Range a b => sdsrange s a b
  | Tolower => sdstolower s
  | Toupper => sdstoupper s
  | MakeRoom n => sdsMakeRoomFor usable indet s n
  | RemoveFree => sdsRemoveFreeSpace usable indet s
  | Read t =>
      s ← sdsMakeRoomFor usable indet s (blen t);
      s ← swrite s (sdslen s) t;
      sdsIncrLen s (blen t)
  end.

Fixpoint run_ops (s : sds) (ops : list sds_op) : option sds :=
  match ops with
  | [] => Some s
  | op :: ops => s ← run_op s op; run_ops s ops
  end.
End Ops.

(** The effect of an operation on the contents. *)
Definition spec_op (v : bytes) (op : sds_op) : bytes :=
  match op with
  | Catlen t | Read t => v ++ t
  | Cpylen t => t
  | Growzero n => v ++ replicate (Z.to_nat (n - blen v)) 0
  | Clear => []
  | Trim cset => trim_spec cset v
  | Range a b => range_spec v a b
  | Tolower => tolower <$> v
  | Toupper => toupper <$> v
  | MakeRoom _ | RemoveFree => v
  end.

(** Lengths stay far below the address space, indexes are representable, and a
    set of characters is a C string. *)
Definition LIMIT : Z := 2 ^ 62.
Definition op_ok (v : bytes) (op : sds_op) : Prop :=
  blen v < LIMIT /\
  match op with
  | Catlen t | Cpylen t => blen t < LIMIT
  | Read t => 0 < blen t < LIMIT
  | Growzero n | MakeRoom n => 0 <= n < LIMIT
  | Trim cset => Forall (fun c => c <> 0) cset
  | Range a b => in_sint 64 a /\ in_sint 64 b /\ b < 2 ^ 63 - 1
  | _ => True
  end.
Fixpoint ops_ok (v : bytes) (ops : list sds_op) : Prop :=
  match ops with
  | [] => True
  | op :: ops => op_ok v op /\ ops_ok (spec_op v op) ops
  end.

Lemma cstr_app cset r : Forall (fun c => c <> 0) cset -> cstr (cset ++ 0 :: r) = Some cset.
Proof.
  induction 1 as [|c cset Hc _ IH]; [done|]. cbn. destruct (Z.eqb_spec c 0); [done|]. by rewrite IH.
Qed.

Section OpsFacts.
Context (usable : Z -> Z) (indet : nat -> Z) (Husable : alloc_ok usable).

Lemma run_op_ok s v op :
  holds s v -> op_ok v op -> exists s', run_op usable indet s op = Some s' /\ holds s' (spec_op v op).
Proof.
  intros H [Hv Hop]. unfold LIMIT in *. pose proof (blen_nonneg v).
  assert (HM : SDS_MAX_PREALLOC = 2 ^ 20) by done.
  destruct op; cbn [run_op spec_op]; try lia.
  - apply (sdscatlen_spec usable indet Husable s v t t []); [done|by rewrite app_nil_r|lia].
  - apply (sdscpylen_spec usable indet Husable s v t t []); [done|by rewrite app_nil_r|lia].
  - apply (sdsgrowzero_spec usable indet Husable); [done|lia|lia].
  - by eapply sdsclear_spec.
  - apply sdstrim_spec; [done|]. by apply cstr_app.
  - apply sdsrange_spec; [done|lia|apply Hop..].
  - destruct (map_chars_spec tolower s v H) as (b & E & Hb). unfold sdstolower. rewrite E. by eexists.
  - destruct (map_chars_spec toupper s v H) as (b & E & Hb). unfold sdstoupper. rewrite E. by eexists.
  - destruct (sdsMakeRoomFor_spec usable indet Husable s v n H) as (s' & -> & Hh & _); [lia|lia|by eexists].
  - destruct (sdsRemoveFreeSpace_spec usable indet Husable s v) as (s' & -> & Hh & _); [done|lia|by eexists].
  - destruct (sdsMakeRoomFor_spec usable indet Husable s v (blen t) H) as (s1 & -> & Hh & Ha & _); [lia|lia|].
    rewrite bind_Some. unfold sdslen. rewrite (h_len Hh).
    destruct (swrite_ok s1 v t v (blen v + blen t)) as (s2 & -> & Hr & Hf & Hl);
      [eapply holds_room_for; [done|lia]|exists []; by rewrite app_nil_r|lia|]. rewrite bind_Some, (h_len Hh) in *.
    destruct (sdsIncrLen_spec s2 (v ++ t) (blen v + blen t) Hr) as (s3 & E & Hs3); [by rewrite blen_app|lia..|].
    rewrite Hl in E. replace (blen v + blen t - blen v) with (blen t) in E by lia. by eexists.
Qed.

(** C38: Any sequence of string operations runs without touching memory outside
    the allocation or failing an assertion, and leaves a well-formed string whose
    contents are those of the same operations on byte lists, whatever the usable
    sizes the allocator reports and the contents of fresh memory. *)
Theorem sds_refines ops : forall s v,
  holds s v -> ops_ok v ops ->
  exists s', run_ops usable indet s ops = Some s' /\ holds s' (foldl spec_op v ops).
Proof.
  induction ops as [|op ops IH]; intros s v H Hok; cbn [run_ops foldl]; [by eexists|].
  destruct Hok as [Hop Hok]. destruct (run_op_ok s v op H Hop) as (s1 & -> & H1). rewrite bind_Some. by apply IH.
Qed.

(** [sdsMakeRoomFor] keeps the contents and leaves at least [addlen] free
    bytes that the header type can count, as long as the requested length stays
    one preallocation away from the largest [size_t]. *)
Theorem sdsMakeRoomFor_room s v addlen :
  holds s v -> 0 <= addlen -> blen v + addlen + SDS_MAX_PREALLOC + 18 < 2 ^ 64 ->
  exists s', sdsMakeRoomFor usable indet s addlen = Some s' /\ holds s' v /\ addlen <= sdsavail s'.
Proof. intros H H0 Hm. destruct (sdsMakeRoomFor_spec usable indet Husable s v addlen H) as (s' & ? & ? & _ & ?); eauto. Qed.
End OpsFacts.

(** The blocks of an allocator that rounds sizes up to 16 bytes. *)
Definition round16 (n : Z) : Z := Z.min (2 ^ 64 - 1) ((n + 15) / 16 * 16).

Lemma round16_ok : alloc_ok round16.
Proof. intros n Hn. unfold in_uint in Hn. unfold round16. dlia. Qed.

Definition sample : sds := Sds SDS_TYPE_8 3 5 [97; 98; 99; 0; 7; 7].
Lemma sample_holds : holds sample (str "abc").
Proof. constructor; [done|done|by exists [7; 7]|]. intros _. by repeat split. Qed.

Lemma sds_refines_witness : exists s',
  run_ops round16 (fun _ => 9) sample [Catlen (str "defgh"); Range 1 (-2); Read (str " "); Trim (str "b "); RemoveFree] = Some s'
  /\ holds s' (str "cdefg").
Proof.
  apply (sds_refines round16 (fun _ => 9) round16_ok
    [Catlen (str "defgh"); Range 1 (-2); Read (str " "); Trim (str "b "); RemoveFree] sample (str "abc") sample_holds).
  repeat split; by repeat constructor.
Defined.

Lemma sdsMakeRoomFor_room_witness : exists s',
  sdsMakeRoomFor round16 (fun _ => 9) sample 1000 = Some s' /\ holds s' (str "abc") /\ 1000 <= sdsavail s'.
Proof.
  apply (sdsMakeRoomFor_room round16 (fun _ => 9) round16_ok sample (str "abc") 1000 sample_holds); done.
Defined.

(** Close to the largest [size_t] the preallocation wraps around: on the
    empty string a request for 2^64 - 1 bytes passes both overflow assertions
    and returns a string with little more than one megabyte of free space. *)
Theorem sdsMakeRoomFor_wraps : exists s s',
  holds s [] /\ sdsMakeRoomFor id (fun _ => 0) s (2 ^ 64 - 1) = Some s' /\ sdsavail s' = 2 ^ 20 - 1.
Proof.
  exists (Sds SDS_TYPE_8 0 0 [0]).
  assert (H : holds (Sds SDS_TYPE_8 0 0 [0]) []).
  { constructor; [done|done|by exists []|]. intros _. by repeat split. }
  destruct (move_ok (fun _ => 0) _ [] SDS_TYPE_32 (2 ^ 20 - 1) (2 ^ 20 + 9) H) as (s1 & E & Hf & Hl & Hb & Hbl);
    [done..|].
  exists (sdssetalloc s1 (2 ^ 20 - 1)). split_and!; [done| |].
  - unfold sdsMakeRoomFor. cbv zeta. change (sdsavail _ >=? 2 ^ 64 - 1) with false. cbv iota.
    change (uint 64 (sdslen _ + (2 ^ 64 - 1))) with (2 ^ 64 - 1). change (2 ^ 64 - 1 >? _) with true. cbv iota.
    change (if 2 ^ 64 - 1 <? SDS_MAX_PREALLOC then _ else _) with (2 ^ 20 - 1).
    change (if is_type (sdsReqType (2 ^ 20 - 1)) SDS_TYPE_5 then _ else _) with SDS_TYPE_32.
    change (uint 64 (sdsHdrSize SDS_TYPE_32 + (2 ^ 20 - 1) + 1)) with (2 ^ 20 + 9).
    change (2 ^ 20 + 9 >? _) with true. cbv iota. unfold id. rewrite E, bind_Some. done.
  - destruct s1 as [t l a b]. cbn in Hf, Hl. subst. done.
Qed.

End Sds.
