(* ===== verification/SdsText.v ===== *)
(** sds.c: the text functions of the string library: integers to strings,
    formatted append, splitting and joining, quoted representation and
    splitting of a line into arguments. *)

From S2P Require Import Prelude Endian Util Sds.
Import Endian Util Sds.

Module SdsText.

(** ** Integers *)

Definition SDS_LLSTR_SIZE : Z := 21.

(** [do { *p++ = '0'+(v%10); v /= 10; } while(v)] *)
Fixpoint digits_loop (fuel : nat) (b : bytes) (p v : Z) : option (bytes * Z) :=
  match fuel with
  | O => None
  | S fuel =>
      b ← bset b p (48 + v mod 10);
      let p := p + 1 in
      let v := v / 10 in
      if v =? 0 then Some (b, p) else digits_loop fuel b p v
  end.

(** [while (s < p) { swap; s++; p--; }] *)
Fixpoint reverse_loop (fuel : nat) (b : bytes) (s p : Z) : option bytes :=
  match fuel with
  | O => None
  | S fuel => if s <? p then b ← swap b s p; reverse_loop fuel b (s + 1) (p - 1) else Some b
  end.

(** A 64-bit number has at most 20 digits. *)
Definition digits_fuel : nat := 20.

(** Negating [LLONG_MIN] has no value in C. *)
Definition sdsll2str (s : bytes) (value : Z) : option (bytes * Z) :=
  assert! negb (value =? LLONG_MIN);
  let v := if value <? 0 then - value else value in
  '(b, p) ← digits_loop digits_fuel s 0 v;
  '(b, p) ← (if value <? 0 then b ← bset b p 45; Some (b, p + 1) else Some (b, p));
  let l := p in
  b ← bset b p 0;
  b ← reverse_loop (S (length s)) b 0 (p - 1);
  Some (b, l).

Definition sdsull2str (s : bytes) (v : Z) : option (bytes * Z) :=
  '(b, p) ← digits_loop digits_fuel s 0 v;
  let l := p in
  b ← bset b p 0;
  b ← reverse_loop (S (length s)) b 0 (p - 1);
  Some (b, l).

Section Alloc.
Context (usable : Z -> Z) (try_ok : Z -> bool) (indet : nat -> Z).

Definition sdsfromlonglong (value : Z) : option sds :=
  let buf := fresh indet SDS_LLSTR_SIZE in
  '(buf, len) ← sdsll2str buf value;
  sdsnewlen usable try_ok indet (INIT buf) len.

(** ** Formatted append *)

(** The variable arguments, by the type they are fetched with. *)
Inductive fmtarg :=
| ArgStr (p : bytes)
| ArgSds (s : sds)
| ArgInt (v : Z)
| ArgLL (v : Z)
| ArgUInt (v : Z)
| ArgULL (v : Z).

(** Appends [l] bytes of [t] at [i]. *)
Definition fmt_put (s : sds) (i : Z) (t : bytes) (l : Z) : option (sds * Z) :=
  s ← (if sdsavail s <? l then sdsMakeRoomFor usable indet s l else Some s);
  t ← bread t 0 l;
  s ← swrite s i t;
  Some (sdsinclen s l, i + l).

(** [s[i++] = c; sdsinclen(s,1)] *)
Definition fmt_char (s : sds) (i c : Z) : option (sds * Z) :=
  s ← sset s i c; Some (sdsinclen s 1, i + 1).

Definition fmt_num (s : sds) (i : Z) (num : Z) : option (sds * Z) :=
  '(buf, l) ← sdsll2str (fresh indet SDS_LLSTR_SIZE) num; fmt_put s i buf l.
Definition fmt_unum (s : sds) (i : Z) (unum : Z) : option (sds * Z) :=
  '(buf, l) ← sdsull2str (fresh indet SDS_LLSTR_SIZE) unum; fmt_put s i buf l.

(** The conversion [next]; an argument of another type than the one fetched
    has no behaviour. *)
Definition fmt_conv (s : sds) (i next : Z) (args : list fmtarg) : option (sds * Z * list fmtarg) :=
  if next =? 115 (* s *) then
    match args with
    | ArgStr p :: args => t ← cstr p; '(s, i) ← fmt_put s i p (blen t); Some (s, i, args)
    | _ => None
    end
  else if next =? 83 (* S *) then
    match args with
    | ArgSds p :: args => '(s, i) ← fmt_put s i (sbuf p) (sdslen p); Some (s, i, args)
    | _ => None
    end
  else if next =? 105 (* i *) then
    match args with ArgInt v :: args => '(s, i) ← fmt_num s i v; Some (s, i, args) | _ => None end
  else if next =? 73 (* I *) then
    match args with ArgLL v :: args => '(s, i) ← fmt_num s i v; Some (s, i, args) | _ => None end
  else if next =? 117 (* u *) then
    match args with ArgUInt v :: args => '(s, i) ← fmt_unum s i v; Some (s, i, args) | _ => None end
  else if next =? 85 (* U *) then
    match args with ArgULL v :: args => '(s, i) ← fmt_unum s i v; Some (s, i, args) | _ => None end
  else '(s, i) ← fmt_char s i next; Some (s, i, args).

(** [while ( *f)] *)
Fixpoint fmt_loop (fuel : nat) (fmt : bytes) (f : Z) (s : sds) (i : Z) (args : list fmtarg) : option (sds * Z) :=
  match fuel with
  | O => None
  | S fuel =>
      c ← bget fmt f;
      if c =? 0 then Some (s, i)
      else
        s ← (if sdsavail s =? 0 then sdsMakeRoomFor usable indet s 1 else Some s);
        if c =? 37 (* % *) then
          next ← bget fmt (f + 1);
          '(s, i, args) ← fmt_conv s i next args;
          fmt_loop fuel fmt (f + 2) s i args
        else
          '(s, i) ← fmt_char s i c;
          fmt_loop fuel fmt (f + 1) s i args
  end.

Definition sdscatfmt (s : sds) (fmt : bytes) (args : list fmtarg) : option sds :=
  let initlen := sdslen s in
  n ← cstr fmt;
  s ← sdsMakeRoomFor usable indet s (blen n * 2);
  '(s, i) ← fmt_loop (S (length fmt)) fmt 0 s initlen args;
  sset s i 0.

(** ** Splitting and joining *)

(** The separator is found at [j]. *)
Definition sep_at (s : bytes) (j : Z) (sep : bytes) (seplen : Z) : option bool :=
  c ← bget s j; c0 ← bget sep 0;
  if (seplen =? 1) && (c =? c0) then Some true
  else a ← bread s j seplen; b ← bread sep 0 seplen; Some (memcmp a b =? 0).

(** [tokens[elements] = sdsnewlen(p, n)], in an array of [slots]. *)
Definition add_token (s : bytes) (start n slots : Z) (tokens : list sds) : option (list sds) :=
  assert! Z.of_nat (length tokens) <? slots;
  p ← bread s start n;
  t ← sdsnewlen usable try_ok indet (INIT p) n;
  Some (tokens ++ [t]).

Fixpoint split_loop (fuel : nat) (s : bytes) (len : Z) (sep : bytes) (seplen j start slots : Z) (tokens : list sds)
    : option (Z * Z * list sds) :=
  match fuel with
  | O => None
  | S fuel =>
      if j <? len - (seplen - 1) then
        let slots := if slots <? Z.of_nat (length tokens) + 2 then slots * 2 else slots in
        m ← sep_at s j sep seplen;
        if m : bool then
          tokens ← add_token s start (j - start) slots tokens;
          split_loop fuel s len sep seplen (j + seplen - 1 + 1) (j + seplen) slots tokens
        else split_loop fuel s len sep seplen (j + 1) start slots tokens
      else Some (start, slots, tokens)
  end.

(** [Some None] is [NULL]. *)
Definition sdssplitlen (s : bytes) (len : Z) (sep : bytes) (seplen : Z) : option (option (list sds)) :=
  if (seplen <? 1) || (len <? 0) then Some None
  else if len =? 0 then Some (Some [])
  else
    '(start, slots, tokens) ← split_loop (S (Z.to_nat len)) s len sep seplen 0 0 5 [];
    tokens ← add_token s start (len - start) slots tokens;
    Some (Some tokens).

Fixpoint join_loop (argv : list sds) (sep : bytes) (seplen : Z) (join : sds) : option sds :=
  match argv with
  | [] => Some join
  | a :: argv =>
      join ← sdscatsds usable indet join a;
      join ← (match argv with [] => Some join | _ => sdscatlen usable indet join sep seplen end);
      join_loop argv sep seplen join
  end.
Definition sdsjoinsds (argv : list sds) (sep : bytes) (seplen : Z) : option sds :=
  join ← sdsempty usable try_ok indet; join_loop argv sep seplen join.

(** ** Quoted representation *)

(** [isprint] and [isspace] in the "C" locale. *)
Definition isprint (c : Z) : bool := (32 <=? c) && (c <=? 126).
Definition isspace (c : Z) : bool := (c =? 32) || ((9 <=? c) && (c <=? 13)).

(** A digit of [%02x]. *)
Definition hexdigit (n : Z) : Z := if n <? 10 then 48 + n else 87 + n.

(** The bytes appended for one character. *)
Definition repr_char (c : Z) : bytes :=
  if (c =? 92) || (c =? 34) then [92; c]
  else if c =? 10 then [92; 110]
  else if c =? 13 then [92; 114]
  else if c =? 9 then [92; 116]
  else if c =? 7 then [92; 97]
  else if c =? 8 then [92; 98]
  else if isprint c then [c]
  else [92; 120; hexdigit (c / 16); hexdigit (c mod 16)].

Fixpoint repr_loop (s : sds) (p : bytes) : option sds :=
  match p with
  | [] => Some s
  | c :: p => s ← sdscatlen usable indet s (repr_char c) (blen (repr_char c)); repr_loop s p
  end.
Definition sdscatrepr (s : sds) (p : bytes) (len : Z) : option sds :=
  s ← sdscatlen usable indet s [34] 1;
  p ← bread p 0 len;
  s ← repr_loop s p;
  sdscatlen usable indet s [34] 1.

(** ** Arguments of a line *)

Definition is_hex_digit (c : Z) : bool :=
  ((48 <=? c) && (c <=? 57)) || ((97 <=? c) && (c <=? 102)) || ((65 <=? c) && (c <=? 70)).

Definition hex_digit_to_int (c : Z) : Z :=
  if (48 <=? c) && (c <=? 57) then c - 48
  else if (97 <=? c) && (c <=? 102) then c - 87
  else if (65 <=? c) && (c <=? 70) then c - 55
  else 0.

Definition unescape (c : Z) : Z :=
  if c =? 110 then 10 else if c =? 114 then 13 else if c =? 116 then 9
  else if c =? 98 then 8 else if c =? 97 then 7 else c.

Inductive quoting := PLAIN | INQ | INSQ.

(** One turn of [while(!done)]: [Some None] jumps to [err], otherwise the
    flags, the token and the position before [if ( *p) p++]. *)
Inductive turn := Err | Turn (done : bool) (q : quoting) (current : sds) (p : Z).

Definition append1 (current : sds) (c : Z) : option sds := sdscatlen usable indet current [c] 1.

Definition is_hex_escape (line : bytes) (p : Z) : option bool :=
  c ← bget line p;
  if c =? 92 then
    c1 ← bget line (p + 1);
    if c1 =? 120 then
      c2 ← bget line (p + 2);
      if is_hex_digit c2 then c3 ← bget line (p + 3); Some (is_hex_digit c3) else Some false
    else Some false
  else Some false.

(** A closing quote is followed by a space or by nothing. *)
Definition close_quote (line : bytes) (current : sds) (p : Z) : option turn :=
  c1 ← bget line (p + 1);
  if negb (c1 =? 0) && negb (isspace c1) then Some Err else Some (Turn true PLAIN current p).

Definition turn_inq (line : bytes) (current : sds) (p : Z) : option turn :=
  hex ← is_hex_escape line p;
  c ← bget line p;
  if hex : bool then
    c2 ← bget line (p + 2); c3 ← bget line (p + 3);
    let byte := uint 8 (hex_digit_to_int c2 * 16 + hex_digit_to_int c3) in
    current ← append1 current byte;
    Some (Turn false INQ current (p + 3))
  else
    c1 ← (if c =? 92 then bget line (p + 1) else Some 0);
    if (c =? 92) && negb (c1 =? 0) then
      current ← append1 current (unescape c1);
      Some (Turn false INQ current (p + 1))
    else if c =? 34 then close_quote line current p
    else if c =? 0 then Some Err
    else current ← append1 current c; Some (Turn false INQ current p).

Definition turn_insq (line : bytes) (current : sds) (p : Z) : option turn :=
  c ← bget line p;
  c1 ← (if c =? 92 then bget line (p + 1) else Some 0);
  if (c =? 92) && (c1 =? 39) then
    current ← append1 current 39; Some (Turn false INSQ current (p + 1))
  else if c =? 39 then close_quote line current p
  else if c =? 0 then Some Err
  else current ← append1 current c; Some (Turn false INSQ current p).

Definition turn_plain (line : bytes) (current : sds) (p : Z) : option turn :=
  c ← bget line p;
  if (c =? 32) || (c =? 10) || (c =? 13) || (c =? 9) || (c =? 0) then Some (Turn true PLAIN current p)
  else if c =? 34 then Some (Turn false INQ current p)
  else if c =? 39 then Some (Turn false INSQ current p)
  else current ← append1 current c; Some (Turn false PLAIN current p).

Definition take_turn (q : quoting) (line : bytes) (current : sds) (p : Z) : option turn :=
  match q with
  | INQ => turn_inq line current p
  | INSQ => turn_insq line current p
  | PLAIN => turn_plain line current p
  end.

(** [if ( *p) p++] *)
Definition advance (line : bytes) (p : Z) : option Z :=
  c ← bget line p; Some (if negb (c =? 0) then p + 1 else p).

Fixpoint token_loop (fuel : nat) (q : quoting) (line : bytes) (current : sds) (p : Z) : option (option (sds * Z)) :=
  match fuel with
  | O => None
  | S fuel =>
      t ← take_turn q line current p;
      match t with
      | Err => Some None
      | Turn done q current p =>
          p ← advance line p;
          if done : bool then Some (Some (current, p)) else token_loop fuel q line current p
      end
  end.

(** [while( *p && isspace( *p)) p++] *)
Fixpoint skip_blanks (fuel : nat) (line : bytes) (p : Z) : option Z :=
  match fuel with
  | O => None
  | S fuel =>
      c ← bget line p;
      if negb (c =? 0) && isspace c then skip_blanks fuel line (p + 1) else Some p
  end.

Fixpoint args_loop (fuel : nat) (line : bytes) (p : Z) (vector : list sds) : option (option (list sds)) :=
  match fuel with
  | O => None
  | S fuel =>
      p ← skip_blanks (S (length line)) line p;
      c ← bget line p;
      if negb (c =? 0) then
        current ← sdsempty usable try_ok indet;
        r ← token_loop (S (length line)) PLAIN line current p;
        match r with
        | None => Some None
        | Some (current, p) => args_loop fuel line p (vector ++ [current])
        end
      else Some (Some vector)
  end.
Definition sdssplitargs (line : bytes) : option (option (list sds)) :=
  args_loop (S (length line)) line 0 [].
End Alloc.

(** ** Correctness *)

Lemma bget_off pre l k x i : l !! k = Some x -> i = blen pre + Z.of_nat k -> bget (pre ++ l) i = Some x.
Proof.
  intros Hx ->. apply bget_Some. pose proof (lookup_lt_Some _ _ _ Hx). rewrite blen_app. unfold blen.
  split; [lia|]. rewrite lookup_app_r by lia. rewrite <- Hx. f_equal. lia.
Qed.

(** Read a character at a known offset of the suffix. *)
Ltac bget_known :=
  match goal with
  | |- context [bget (?p ++ ?l) ?i] =>
      first [ erewrite (bget_off p l 0%nat _ i); [|reflexivity|lia]
            | erewrite (bget_off p l 1%nat _ i); [|reflexivity|lia]
            | erewrite (bget_off p l 2%nat _ i); [|reflexivity|lia]
            | erewrite (bget_off p l 3%nat _ i); [|reflexivity|lia] ];
      rewrite ?bind_Some
  end.

Lemma hexdigit_ok n : 0 <= n < 16 -> is_hex_digit (hexdigit n) && (hex_digit_to_int (hexdigit n) =? n) && negb (hexdigit n =? 0) = true.
Proof. revert n. by_enum 16%nat. Qed.

Ltac bget_run := repeat first [bget_known | progress (rewrite ?bind_Some; cbn [Z.eqb Pos.eqb andb orb negb])].

(** A quoted string, as [sdscatrepr] writes it. *)
Definition quoted (a : bytes) : bytes := [34] ++ concat (repr_char <$> a) ++ [34].

(** *** Integers *)

Lemma udecimal_snoc D v : 10 <= v -> udecimal D (v / 10) -> udecimal (D ++ [48 + v mod 10]) v.
Proof.
  intros Hv (Hd & Hval & Hz). pose proof (Z.mod_pos_bound v 10 ltac:(lia)). split_and!.
  - apply Forall_app. split; [done|]. constructor; [lia|done].
  - unfold dec_val in *. rewrite dec_acc_snoc, Hval. dlia.
  - right. destruct Hz as [H1|(d & D' & -> & Hn)]; [|by exists d, (D' ++ [48 + v mod 10])].
    destruct D as [|d [|? ?]]; try done. exists d, [48 + v mod 10]. split; [done|].
    intros ->. cbn in Hval. dlia.
Qed.

Lemma digits_loop_ok fuel : forall pre r v,
  0 <= v < 10 ^ Z.of_nat fuel -> (0 < fuel)%nat -> Z.of_nat fuel <= blen r ->
  exists D r', digits_loop fuel (pre ++ r) (blen pre) v = Some (pre ++ reverse D ++ r', blen pre + blen D) /\
    udecimal D v /\ blen r' = blen r - blen D /\ blen D <= Z.of_nat fuel.
Proof.
  induction fuel as [|fuel IH]; intros pre r v Hv Hf Hr; [lia|]. cbn [digits_loop]. unfold bset.
  assert (H0 : 0 <= v mod 10 < 10) by (apply Z.mod_pos_bound; lia).
  destruct (bwrite_fit (pre ++ r) pre r [48 + v mod 10]) as (r1 & -> & Hr1); [done|rewrite blen_cons, blen_nil; lia|].
  rewrite bind_Some. rewrite blen_cons, blen_nil in Hr1. bcase.
  - exists [48 + v mod 10], r1. rewrite !blen_cons, blen_nil. split_and!; [done| |lia..].
    assert (v mod 10 = v) as -> by dlia. split_and!; [apply Forall_singleton; dlia|unfold dec_val; cbn; lia|by left].
  - rewrite Nat2Z.inj_succ, Z.pow_succ_r in Hv by lia.
    assert (Hfu : (0 < fuel)%nat). { destruct fuel; [|lia]. cbn in Hv. dlia. }
    destruct (IH (pre ++ [48 + v mod 10]) r1 (v / 10)) as (D & r2 & E2 & HD & Hr2 & Hl2); [split; [dlia|apply Z.div_lt_upper_bound; lia]|done|lia|].
    exists (D ++ [48 + v mod 10]), r2. rewrite <- app_assoc in E2. rewrite blen_app, blen_cons, blen_nil in *.
    replace (blen pre + 1) with (blen pre + (1 + 0)) by lia. rewrite E2. split_and!; [|apply udecimal_snoc; [dlia|done]|lia..].
    rewrite reverse_snoc, <- !app_assoc. do 2 f_equal. lia.
Qed.

Lemma reverse_loop_ok fuel : forall pre x r,
  (length x < fuel)%nat ->
  reverse_loop fuel (pre ++ x ++ r) (blen pre) (blen pre + blen x - 1) = Some (pre ++ reverse x ++ r).
Proof.
  induction fuel as [|fuel IH]; intros pre x r Hf; [lia|]. cbn [reverse_loop].
  destruct x as [|a x]; [rewrite blen_nil; by bdec|]. destruct x as [|z m _] using rev_ind.
  - rewrite blen_cons, blen_nil. by bdec.
  - rewrite blen_cons, blen_app, blen_cons, blen_nil. pose proof (blen_nonneg m). bdec.
    erewrite (swap_at _ (pre ++ z :: m ++ a :: r) pre a m z r); [|cbn [app]; by rewrite <- app_assoc|done|done|lia].
    rewrite bind_Some. specialize (IH (pre ++ [z]) m (a :: r)). rewrite blen_app, blen_cons, blen_nil, <- !app_assoc in IH.
    replace (blen pre + (1 + (blen m + (1 + 0))) - 1 - 1) with (blen pre + (1 + 0) + blen m - 1) by lia.
    replace (blen pre + 1) with (blen pre + (1 + 0)) by lia. cbn [app] in IH. rewrite IH.
    + by rewrite reverse_cons, reverse_snoc, <- !app_assoc.
    + cbn in Hf. rewrite length_app in Hf. cbn in Hf. lia.
Qed.

Lemma udecimal_len D v : udecimal D v -> 0 < blen D.
Proof. intros H. by apply udecimal_ndigits in H as [? _]. Qed.

(** Terminating and reversing the digits. *)
Lemma finish_digits n x r : (length x < n)%nat -> 1 <= blen r ->
  exists r', (b ← bset (x ++ r) (blen x) 0; b ← reverse_loop n b 0 (blen x - 1); Some (b, blen x))
    = Some (reverse x ++ 0 :: r', blen x).
Proof.
  intros Hn Hr. unfold bset. destruct (bwrite_fit (x ++ r) x r [0]) as (r' & -> & _); [done|rewrite blen_cons, blen_nil; lia|].
  rewrite bind_Some. exists r'. pose proof (reverse_loop_ok n [] x (0 :: r') Hn) as E. rewrite blen_nil, !Z.add_0_l in E.
  cbn [app] in E |- *. by rewrite E, bind_Some.
Qed.

Lemma sdsull2str_ok b v :
  in_uint 64 v -> SDS_LLSTR_SIZE <= blen b ->
  exists D r, sdsull2str b v = Some (D ++ 0 :: r, blen D) /\ udecimal D v.
Proof.
  intros Hv Hb. unfold SDS_LLSTR_SIZE in Hb. unfold sdsull2str.
  destruct (digits_loop_ok digits_fuel [] b v) as (D & r & E & HD & Hr & Hl);
    [unfold in_uint in Hv; change (10 ^ Z.of_nat digits_fuel) with 100000000000000000000; lia|unfold digits_fuel; lia|unfold digits_fuel; lia|].
  cbn [app] in E. rewrite blen_nil, Z.add_0_l in E. rewrite E, bind_Some. unfold digits_fuel in Hl.
  destruct (finish_digits (S (length b)) (reverse D) r) as (r' & E'); [rewrite length_reverse; unfold blen in *; lia|lia|].
  rewrite blen_reverse, reverse_involutive in E'. exists D, r'. by split.
Qed.

Lemma sdsll2str_ok b v :
  in_sint 64 v -> v <> LLONG_MIN -> SDS_LLSTR_SIZE <= blen b ->
  exists D r, sdsll2str b v = Some (D ++ 0 :: r, blen D) /\ decimal D v.
Proof.
  intros Hv Hmin Hb. unfold SDS_LLSTR_SIZE in Hb. unfold sdsll2str, decimal. unfold in_sint in Hv.
  replace (negb (v =? LLONG_MIN)) with true by lia. cbv zeta.
  destruct (digits_loop_ok digits_fuel [] b (if v <? 0 then - v else v)) as (D & r & E & HD & Hr & Hl);
    [change (10 ^ Z.of_nat digits_fuel) with 100000000000000000000; bcase; lia|unfold digits_fuel; lia|unfold digits_fuel; lia|].
  cbn [app] in E. rewrite blen_nil, Z.add_0_l in E. rewrite E, bind_Some. unfold digits_fuel in Hl.
  assert (Hl' : blen D <= 19).
  { destruct (udecimal_ndigits _ _ HD) as (_ & _ & [Hd|Hd]); [lia|].
    destruct (Z_lt_le_dec 19 (blen D)) as [Hgt|]; [|done]. assert (10 ^ 19 <= 10 ^ (blen D - 1)) by (apply Z.pow_le_mono_r; lia).
    revert Hd. bcase; lia. }
  destruct (v <? 0).
  - destruct (bwrite_fit (reverse D ++ r) (reverse D) r [45]) as (r1 & E1 & Hr1); [done|rewrite blen_cons, blen_nil; lia|].
    rewrite blen_reverse in E1. rewrite blen_cons, blen_nil in Hr1.
    assert (bset (reverse D ++ r) (blen D) 45 = Some (reverse D ++ [45] ++ r1)) as -> by exact E1. rewrite !bind_Some.
    destruct (finish_digits (S (length b)) (reverse D ++ [45]) r1) as (r' & E'); [rewrite length_app, length_reverse; unfold blen in *; cbn [length]; lia|lia|].
    rewrite reverse_snoc, reverse_involutive, <- app_assoc, blen_app, blen_reverse, blen_cons, blen_nil in E'.
    exists (45 :: D), r'. split; [|by eexists]. rewrite blen_cons. replace (1 + blen D) with (blen D + (1 + 0)) by lia. exact E'.
  - rewrite bind_Some.
    destruct (finish_digits (S (length b)) (reverse D) r) as (r' & E'); [rewrite length_reverse; unfold blen in *; lia|lia|].
    rewrite blen_reverse, reverse_involutive in E'. exists D, r'. by split.
Qed.

Section AllocFacts.
Context (usable : Z -> Z) (try_ok : Z -> bool) (indet : nat -> Z) (Husable : alloc_ok usable).
Abbreviation append1 := (append1 usable indet).
Abbreviation turn_inq := (turn_inq usable indet).
Abbreviation token_loop := (token_loop usable indet).
Abbreviation sdscatlen := (sdscatlen usable indet).

Lemma catlen_ok s v t : holds s v -> blen v + blen t < LIMIT -> exists s', sdscatlen s t (blen t) = Some s' /\ holds s' (v ++ t).
Proof.
  intros H Hl. pose proof (blen_nonneg v). apply (sdscatlen_spec usable indet Husable s v t t []); [done|by rewrite app_nil_r|].
  unfold LIMIT, SDS_MAX_PREALLOC in *. lia.
Qed.
Lemma append1_ok s v c : holds s v -> blen v + 1 < LIMIT -> exists s', append1 s c = Some s' /\ holds s' (v ++ [c]).
Proof. intros H Hl. apply (catlen_ok s v [c] H). rewrite blen_cons, blen_nil. lia. Qed.
Lemma sdsempty_ok : exists s, sdsempty usable try_ok indet = Some s /\ holds s [].
Proof.
  destruct (_sdsnewlen_ok usable try_ok indet Husable [0] [] [0] false) as (s & E & H); [done|done|by left|].
  exists s. split; [|done]. unfold sdsempty, sdsnewlen. rewrite blen_nil in E. by rewrite E.
Qed.

(** *** Quoting and reading back *)

Lemma repr_char_len c : 1 <= blen (repr_char c) <= 4.
Proof. unfold repr_char. repeat bcase; rewrite ?blen_cons, blen_nil; lia. Qed.

Lemma repr_loop_ok a : forall s v,
  holds s v -> blen v + blen (concat (repr_char <$> a)) < LIMIT ->
  exists s', repr_loop usable indet s a = Some s' /\ holds s' (v ++ concat (repr_char <$> a)).
Proof.
  induction a as [|c a IH]; intros s v H Hl; cbn [repr_loop fmap list_fmap concat]; [exists s; by rewrite app_nil_r|].
  cbn [fmap list_fmap concat] in Hl. rewrite blen_app in Hl. pose proof (blen_nonneg (concat (repr_char <$> a))).
  destruct (catlen_ok s v (repr_char c) H) as (s1 & -> & H1); [unfold fmap in *; lia|]. rewrite bind_Some.
  destruct (IH s1 _ H1) as (s2 & -> & H2); [rewrite blen_app; unfold fmap in *; lia|]. exists s2. by rewrite app_assoc.
Qed.

Lemma sdscatrepr_spec s v a :
  holds s v -> blen v + blen (quoted a) < LIMIT ->
  exists s', sdscatrepr usable indet s a (blen a) = Some s' /\ holds s' (v ++ quoted a).
Proof.
  intros H Hl. unfold quoted in *. rewrite !blen_app, !blen_cons, blen_nil in Hl.
  pose proof (blen_nonneg (concat (repr_char <$> a))). unfold sdscatrepr.
  destruct (append1_ok s v 34 H) as (s1 & E1 & H1); [lia|]. unfold append1 in E1. rewrite E1, bind_Some.
  rewrite (bread_area a a []), bind_Some by by rewrite app_nil_r.
  destruct (repr_loop_ok a s1 _ H1) as (s2 & -> & H2); [rewrite blen_app, blen_cons, blen_nil; lia|]. rewrite bind_Some.
  destruct (append1_ok s2 _ 34 H2) as (s3 & E3 & H3); [rewrite !blen_app, blen_cons, blen_nil; lia|].
  unfold append1 in E3. exists s3. rewrite E3. split; [done|]. by rewrite <- !app_assoc in H3.
Qed.

(** Inside double quotes one turn reads one character back. *)
Lemma inq_char c pre rest cur v :
  is_byte c -> holds cur v -> blen v + 1 < LIMIT ->
  exists cur', turn_inq (pre ++ repr_char c ++ rest) cur (blen pre)
      = Some (Turn false INQ cur' (blen pre + blen (repr_char c) - 1)) /\
    holds cur' (v ++ [c]) /\
    advance (pre ++ repr_char c ++ rest) (blen pre + blen (repr_char c) - 1) = Some (blen pre + blen (repr_char c)).
Proof.
  intros Hc H Hl. unfold is_byte in Hc. destruct (append1_ok cur v c H Hl) as (cur' & E & H'). exists cur'.
  assert (Hesc : forall x, unescape x = c -> x <> 0 -> x <> 120 ->
    repr_char c = [92; x] ->
    turn_inq (pre ++ repr_char c ++ rest) cur (blen pre) = Some (Turn false INQ cur' (blen pre + blen (repr_char c) - 1)) /\
    advance (pre ++ repr_char c ++ rest) (blen pre + blen (repr_char c) - 1) = Some (blen pre + blen (repr_char c))).
  { intros x Hx Hx0 Hx1 ->. unfold turn_inq, is_hex_escape, advance. rewrite !blen_cons, blen_nil. cbn [app].
    repeat bget_known. cbn [Z.eqb Pos.eqb]. replace (x =? 120) with false by lia. rewrite ?bind_Some.
    repeat bget_known. cbn [Z.eqb Pos.eqb]. rewrite ?bind_Some. replace (x =? 0) with false by lia.
    cbn [negb andb]. rewrite Hx, E, !bind_Some. split; [do 2 f_equal; lia|f_equal; lia]. }
  assert (Hfin : forall r1 r2, turn_inq (pre ++ repr_char c ++ rest) cur (blen pre) = r1 /\
    advance (pre ++ repr_char c ++ rest) (blen pre + blen (repr_char c) - 1) = r2 ->
    turn_inq (pre ++ repr_char c ++ rest) cur (blen pre) = r1 /\ holds cur' (v ++ [c]) /\
    advance (pre ++ repr_char c ++ rest) (blen pre + blen (repr_char c) - 1) = r2) by (intros; tauto).
  apply Hfin. clear Hfin. unfold repr_char in *.
  destruct ((c =? 92) || (c =? 34)) eqn:E0; [apply (Hesc c); [unfold unescape; repeat bcase; lia|lia|lia|done]|].
  destruct (Z.eqb_spec c 10) as [->|]; [by apply (Hesc 110)|].
  destruct (Z.eqb_spec c 13) as [->|]; [by apply (Hesc 114)|].
  destruct (Z.eqb_spec c 9) as [->|]; [by apply (Hesc 116)|].
  destruct (Z.eqb_spec c 7) as [->|]; [by apply (Hesc 97)|].
  destruct (Z.eqb_spec c 8) as [->|]; [by apply (Hesc 98)|]. clear Hesc.
  unfold turn_inq, is_hex_escape, advance. destruct (isprint c) eqn:Ep; rewrite !blen_cons, blen_nil; cbn [app].
  - unfold isprint in Ep. assert (H92 : (c =? 92) = false) by lia. assert (H34 : (c =? 34) = false) by lia.
    assert (H0 : (c =? 0) = false) by lia.
    repeat first [bget_known | progress (rewrite ?H92, ?H34, ?H0, ?bind_Some; cbn [andb negb])]. rewrite E, bind_Some.
    split; [do 2 f_equal; lia|f_equal; lia].
  - assert (Hq : 0 <= c / 16 < 16) by dlia. assert (Hm : 0 <= c mod 16 < 16) by (apply Z.mod_pos_bound; lia).
    pose proof (hexdigit_ok _ Hq) as Hh1. pose proof (hexdigit_ok _ Hm) as Hh2.
    apply andb_true_iff in Hh1 as [[Hd1 Hv1]%andb_true_iff _], Hh2 as [[Hd2 Hv2]%andb_true_iff Hz2].
    apply Z.eqb_eq in Hv1, Hv2. repeat (bget_known; cbn [Z.eqb Pos.eqb]; rewrite ?Hd1, ?Hd2).
    rewrite Hv1, Hv2, Hz2. rewrite uint_small by (unfold in_uint; dlia). replace (c / 16 * 16 + c mod 16) with c by dlia.
    rewrite E, !bind_Some. split; [do 2 f_equal; lia|f_equal; lia].
Qed.

(** A quoted argument followed by a separator or the end of the line. *)
Lemma token_inq a : forall fuel pre x rest cur v,
  is_bytes a -> holds cur v -> blen v + blen a < LIMIT - 1 -> (length a < fuel)%nat -> x = 0 \/ isspace x = true ->
  exists cur', token_loop fuel INQ (pre ++ concat (repr_char <$> a) ++ 34 :: x :: rest) cur (blen pre)
      = Some (Some (cur', blen pre + blen (concat (repr_char <$> a)) + 1)) /\ holds cur' (v ++ a).
Proof.
  induction a as [|c a IH]; intros fuel pre x rest cur v Ha H Hl Hf Hx; (destruct fuel as [|fuel]; [lia|]); cbn [token_loop take_turn].
  - exists cur. rewrite app_nil_r. split; [|done]. cbn [fmap list_fmap concat app]. unfold turn_inq, is_hex_escape, close_quote, advance.
    assert (Hq : negb (x =? 0) && negb (isspace x) = false).
    { destruct Hx as [-> | ->]; [done|]. apply andb_false_r. }
    bget_run. rewrite Hq. bget_run. rewrite blen_nil. do 4 f_equal. lia.
  - apply Forall_cons in Ha as [Hc Ha]. cbn [fmap list_fmap concat]. rewrite blen_cons in Hl. pose proof (blen_nonneg a).
    rewrite <- (app_assoc (repr_char c)).
    destruct (inq_char c pre (concat (repr_char <$> a) ++ 34 :: x :: rest) cur v Hc H) as (cur1 & E1 & H1 & E2); [lia|].
    change (list_fmap Z (list Z) repr_char a) with (repr_char <$> a). rewrite E1, bind_Some, E2, bind_Some.
    destruct (IH fuel (pre ++ repr_char c) x rest cur1 (v ++ [c]) Ha H1) as (cur2 & E3 & H2);
      [rewrite blen_app, blen_cons, blen_nil; lia|cbn in Hf; lia|done|].
    exists cur2. rewrite <- !app_assoc in E3, H2. rewrite blen_app in E3. rewrite E3. split; [|done]. rewrite blen_app. do 3 f_equal. lia.
Qed.

Lemma repr_length a : (length a <= length (concat (repr_char <$> a)))%nat.
Proof.
  induction a as [|c a IH]; [done|]. cbn [fmap list_fmap concat length]. rewrite length_app.
  pose proof (repr_char_len c). change (list_fmap Z (list Z) repr_char a) with (repr_char <$> a). unfold blen in *. lia.
Qed.

(** The text of a line of quoted arguments, each followed by a space. *)
Definition quoted_line (args : list bytes) : bytes := concat ((fun a => quoted a ++ [32]) <$> args).

Lemma token_quoted fuel a pre x rest cur :
  is_bytes a -> holds cur [] -> blen a < LIMIT - 1 -> (S (length a) < fuel)%nat -> x = 0 \/ isspace x = true ->
  exists cur', token_loop fuel PLAIN (pre ++ quoted a ++ x :: rest) cur (blen pre)
      = Some (Some (cur', blen (pre ++ quoted a))) /\ holds cur' a.
Proof.
  intros Ha H Hl Hf Hx. destruct fuel as [|fuel]; [lia|]. cbn [token_loop take_turn]. unfold turn_plain, advance, quoted.
  cbn [app]. bget_run.
  destruct (token_inq a fuel (pre ++ [34]) x rest cur [] Ha H) as (cur' & E & H'); [rewrite blen_nil; lia|lia|done|].
  exists cur'. split; [|done]. rewrite blen_app, blen_cons, blen_nil, <- app_assoc in E. cbn [app] in E.
  rewrite <- (app_assoc (concat _)). cbn [app]. replace (blen pre + 1) with (blen pre + (1 + 0)) by lia. rewrite E.
  rewrite blen_app, blen_cons, blen_app, blen_cons, blen_nil. do 3 f_equal. lia.
Qed.

Lemma skip_blank_ok fuel pre (sp : bool) x rest :
  isspace x = false -> (1 < fuel)%nat ->
  skip_blanks fuel (pre ++ (if sp then [32] else []) ++ x :: rest) (blen pre) = Some (blen (pre ++ if sp then [32] else [])).
Proof.
  intros Hx Hf. destruct fuel as [|[|fuel]]; [lia..|]. cbn [skip_blanks].
  destruct sp; cbn [app]; bget_run; rewrite ?Hx, ?andb_false_r, ?app_nil_r; [|done].
  by rewrite blen_app, blen_cons, blen_nil.
Qed.

Lemma args_quoted args : forall fuel pre (sp : bool) rest vec,
  Forall is_bytes args -> Forall (fun a => blen a < LIMIT - 1) args -> (length args < fuel)%nat ->
  exists toks, args_loop usable try_ok indet fuel
      (pre ++ (if sp then [32] else []) ++ quoted_line args ++ 0 :: rest) (blen pre) vec = Some (Some (vec ++ toks)) /\
    Forall2 holds toks args.
Proof.
  induction args as [|a args IH]; intros fuel pre sp rest vec Ha Hl Hf; (destruct fuel as [|fuel]; [lia|]); cbn [args_loop].
  - exists []. cbn [quoted_line fmap list_fmap concat app]. split; [|done]. rewrite (skip_blank_ok _ _ _ 0), bind_Some; [|done|].
    + rewrite (app_assoc pre), bget_app, bind_Some by done. cbn. by rewrite app_nil_r.
    + rewrite !length_app. cbn. lia.
  - apply Forall_cons in Ha as [Ha Has], Hl as [Hl Hls]. unfold quoted_line. cbn [fmap list_fmap concat].
    change (list_fmap _ _ ?f args) with (f <$> args). fold (quoted_line args).
    set (line := pre ++ _). set (p1 := pre ++ if sp then [32] else []).
    assert (Hline : line = p1 ++ quoted a ++ 32 :: quoted_line args ++ 0 :: rest) by (unfold line, p1; by rewrite <- !app_assoc).
    assert (Hsk : skip_blanks (S (length line)) line (blen pre) = Some (blen p1)).
    { unfold line, quoted. rewrite <- !app_assoc. apply skip_blank_ok; [done|]. rewrite !length_app. cbn. lia. }
    rewrite Hsk, bind_Some.
    assert (Hg : bget line (blen p1) = Some 34) by (rewrite Hline; by apply bget_app). rewrite Hg, bind_Some. cbn [Z.eqb Pos.eqb negb].
    destruct sdsempty_ok as (cur & -> & Hcur). rewrite bind_Some, Hline.
    destruct (token_quoted (S (length (p1 ++ quoted a ++ 32 :: quoted_line args ++ 0 :: rest))) a p1 32 (quoted_line args ++ 0 :: rest) cur)
      as (cur' & -> & H'); [done|done|done| |by right|].
    { pose proof (repr_length a). unfold quoted. rewrite !length_app. cbn [length]. lia. }
    rewrite bind_Some. destruct (IH fuel (p1 ++ quoted a) true rest (vec ++ [cur']) Has Hls) as (toks & E & Ht); [cbn in Hf; lia|].
    exists (cur' :: toks). split; [|by constructor]. rewrite <- !app_assoc in E. cbn [app] in E. exact E.
Qed.

(** A client that writes a line of quoted arguments. *)
Fixpoint repr_line_loop (s : sds) (args : list bytes) : option sds :=
  match args with
  | [] => Some s
  | a :: args =>
      s ← sdscatrepr usable indet s a (blen a);
      s ← sdscatlen s [32] 1;
      repr_line_loop s args
  end.
Definition repr_line (args : list bytes) : option sds := s ← sdsempty usable try_ok indet; repr_line_loop s args.

Lemma repr_line_loop_ok args : forall s v,
  holds s v -> blen v + blen (quoted_line args) < LIMIT ->
  exists s', repr_line_loop s args = Some s' /\ holds s' (v ++ quoted_line args).
Proof.
  induction args as [|a args IH]; intros s v H Hl; cbn [repr_line_loop]; [exists s; by rewrite app_nil_r|].
  unfold quoted_line in *. cbn [fmap list_fmap concat] in *. change (list_fmap _ _ ?f args) with (f <$> args) in *.
  fold (quoted_line args) in *. rewrite !blen_app, blen_cons, blen_nil in Hl. pose proof (blen_nonneg (quoted_line args)).
  destruct (sdscatrepr_spec s v a H) as (s1 & -> & H1); [lia|]. rewrite bind_Some.
  destruct (append1_ok s1 _ 32 H1) as (s2 & E2 & H2); [rewrite blen_app; lia|]. unfold append1 in E2. rewrite E2, bind_Some.
  destruct (IH s2 _ H2) as (s3 & -> & H3); [rewrite !blen_app, blen_cons, blen_nil; lia|]. exists s3. by rewrite <- !app_assoc in *.
Qed.

Lemma quoted_line_len args :
  Forall (fun a => blen a <= blen (quoted_line args)) args.
Proof.
  induction args as [|a args IH]; [done|]. unfold quoted_line. cbn [fmap list_fmap concat].
  change (list_fmap _ _ ?f args) with (f <$> args). fold (quoted_line args). rewrite blen_app. constructor.
  - unfold quoted. rewrite !blen_app, !blen_cons, blen_nil. pose proof (repr_length a) as Hr. pose proof (blen_nonneg (quoted_line args)).
    assert (blen a <= blen (concat (repr_char <$> a))) by (unfold blen; lia). lia.
  - eapply Forall_impl; [exact IH|]. intros x Hx. cbv beta in *. pose proof (blen_nonneg (quoted a ++ [32])). lia.
Qed.

Lemma quoted_line_count args : (length args <= length (quoted_line args))%nat.
Proof.
  induction args as [|a args IH]; [done|]. unfold quoted_line. cbn [fmap list_fmap concat length].
  change (list_fmap _ _ ?f args) with (f <$> args). fold (quoted_line args). rewrite !length_app. cbn. lia.
Qed.

(** C39: Arguments of arbitrary bytes written by [sdscatrepr] on one line are
    read back unchanged by [sdssplitargs]. *)
Theorem sdssplitargs_sdscatrepr args :
  Forall is_bytes args -> blen (quoted_line args) < LIMIT - 1 ->
  exists line toks, repr_line args = Some line /\
    sdssplitargs usable try_ok indet (sbuf line) = Some (Some toks) /\ Forall2 holds toks args.
Proof.
  intros Ha Hl. destruct sdsempty_ok as (s0 & E0 & H0).
  destruct (repr_line_loop_ok args s0 [] H0) as (line & E1 & H1); [rewrite blen_nil; lia|].
  destruct (h_buf H1) as [rest Hb]. cbn [app] in Hb.
  destruct (args_quoted args (S (length (quoted_line args ++ 0 :: rest))) [] false rest [] Ha) as (toks & E & Ht).
  - eapply Forall_impl; [apply quoted_line_len|]. intros a Hx. cbn in Hx. lia.
  - pose proof (quoted_line_count args). rewrite length_app. lia.
  - exists line, toks. split_and!; [|unfold sdssplitargs; rewrite Hb; exact E|done]. unfold repr_line. by rewrite E0, bind_Some.
Qed.

(** *** Every line is split without leaving the line *)

Section Safe.
Context (l rest : bytes) (Hl : Forall (fun c => c <> 0) l) (Hmax : blen l < LIMIT - 1).
Abbreviation line := (l ++ 0 :: rest).

Lemma char_at p : 0 <= p <= blen l -> exists c, bget line p = Some c /\ (c <> 0 -> p < blen l).
Proof.
  intros Hp. destruct (decide (p = blen l)) as [->|Hn].
  - exists 0. split; [by apply bget_app|done].
  - destruct (lookup_lt_is_Some_2 l (Z.to_nat p)) as [c Hc]; [unfold blen in *; lia|]. exists c. split; [|lia].
    apply bget_Some. rewrite blen_app. pose proof (blen_nonneg (0 :: rest)). split; [lia|]. by apply lookup_app_l_Some.
Qed.

Lemma advance_ok p : 0 <= p < blen l -> advance line p = Some (p + 1).
Proof.
  intros Hp. destruct (lookup_lt_is_Some_2 l (Z.to_nat p)) as [c Hc]; [unfold blen in *; lia|]. unfold advance.
  assert (bget line p = Some c) as ->.
  { apply bget_Some. rewrite blen_app. pose proof (blen_nonneg (0 :: rest)). split; [lia|]. by apply lookup_app_l_Some. }
  rewrite bind_Some. eapply Forall_lookup_1 in Hl; [|done]. cbn in Hl. by replace (c =? 0) with false by lia.
Qed.

Definition turn_ok (v : bytes) (p : Z) (t : turn) : Prop :=
  match t with
  | Err => True
  | Turn d _ cur p' => p <= p' <= blen l /\ (d = false -> p' < blen l) /\ exists v', holds cur v' /\ blen v' <= blen v + 1
  end.

(** Read the next character of the line, in or before its terminator. *)
Ltac next_char c H :=
  match goal with
  | |- context [bget line ?i] => destruct (char_at i) as (c & E' & H); [lia|]; rewrite E', ?bind_Some; clear E'
  end.

Lemma append_turn_ok cur v c d q p p' :
  holds cur v -> blen v + 1 < LIMIT -> p <= p' < blen l ->
  exists t, (current ← append1 cur c; Some (Turn d q current p')) = Some t /\ turn_ok v p t.
Proof.
  intros H Hv Hp. destruct (append1_ok cur v c H Hv) as (s & -> & Hs). rewrite bind_Some. eexists. split; [done|].
  cbn. split_and!; [lia..|]. exists (v ++ [c]). split; [done|]. rewrite blen_app, blen_cons, blen_nil. lia.
Qed.

Lemma close_quote_ok cur v p : holds cur v -> 0 <= p < blen l -> exists t, close_quote line cur p = Some t /\ turn_ok v p t.
Proof.
  intros H Hp. unfold close_quote. next_char c Hc. bcase; eexists; (split; [done|]); cbn; [done|].
  split_and!; [lia..|done|]. exists v. split; [done|lia].
Qed.

Lemma is_hex_escape_ok p : 0 <= p <= blen l ->
  exists h, is_hex_escape line p = Some h /\ (h = true -> p + 3 < blen l).
Proof.
  intros Hp. unfold is_hex_escape. next_char c Hc. bcase; [|by eexists]. next_char c1 Hc1. bcase; [|by eexists].
  next_char c2 Hc2. destruct (is_hex_digit c2) eqn:E2; [|by eexists].
  assert (c2 <> 0) by (intros ->; done). next_char c3 Hc3. eexists. split; [done|]. intros E3. apply Hc3. by intros ->.
Qed.

Lemma turn_safe q cur v p :
  holds cur v -> blen v + 1 < LIMIT -> 0 <= p <= blen l ->
  exists t, take_turn usable indet q line cur p = Some t /\ turn_ok v p t.
Proof.
  intros H Hv Hp. destruct q; cbn [take_turn].
  - unfold turn_plain. next_char c Hc. repeat bcase; try (by eapply append_turn_ok; [|lia..]);
      eexists; (split; [done|]); cbn; (split_and!; [lia..| |exists v; split; [done|lia]]); done || lia.
  - unfold turn_inq. destruct (is_hex_escape_ok p Hp) as (h & -> & Hh). rewrite bind_Some. next_char c Hc.
    destruct h; [specialize (Hh eq_refl); next_char c2 Hc2; next_char c3 Hc3; by apply append_turn_ok; [|lia..]|].
    destruct (Z.eqb_spec c 92) as [->|Hn]; cbn [andb].
    + next_char c1 Hc1. bcase; [by apply append_turn_ok; [|lia..]|]. cbn [Z.eqb Pos.eqb]. by apply append_turn_ok; [|lia..].
    + rewrite bind_Some. bcase; [apply close_quote_ok; [done|lia]|]. bcase; [by exists Err|]. by apply append_turn_ok; [|lia..].
  - unfold turn_insq. next_char c Hc. destruct (Z.eqb_spec c 92) as [->|Hn]; cbn [andb].
    + next_char c1 Hc1. bcase; [by apply append_turn_ok; [|lia..]|]. cbn [Z.eqb Pos.eqb]. by apply append_turn_ok; [|lia..].
    + rewrite bind_Some. bcase; [apply close_quote_ok; [done|lia]|]. bcase; [by exists Err|]. by apply append_turn_ok; [|lia..].
Qed.

Lemma token_safe fuel : forall q cur v p,
  holds cur v -> blen v <= p -> 0 <= p <= blen l -> blen l - p < Z.of_nat fuel ->
  exists r, token_loop fuel q line cur p = Some r /\
    match r with None => True | Some (_, p') => p <= p' <= blen l end.
Proof.
  induction fuel as [|fuel IH]; intros q cur v p H Hv Hp Hf; [lia|]. cbn [token_loop].
  destruct (turn_safe q cur v p H ltac:(lia) Hp) as (t & -> & Ht). rewrite bind_Some.
  destruct t as [|d q' cur' p']; [by exists None|]. destruct Ht as (Hp' & Hd & v' & H' & Hv'). destruct d.
  - unfold advance. next_char c Hc. eexists. split; [done|]. cbn. bcase; lia.
  - specialize (Hd eq_refl). rewrite advance_ok, bind_Some by lia.
    destruct (IH q' cur' v' (p' + 1) H') as (r & -> & Hr); [lia..|]. exists r. split; [done|]. destruct r as [[??]|]; [lia|done].
Qed.

Lemma skip_blanks_ok fuel : forall p,
  0 <= p <= blen l -> blen l - p < Z.of_nat fuel ->
  exists p' c, skip_blanks fuel line p = Some p' /\ p <= p' <= blen l /\ bget line p' = Some c /\
    (c <> 0 -> p' < blen l /\ isspace c = false).
Proof.
  induction fuel as [|fuel IH]; intros p Hp Hf; [lia|]. cbn [skip_blanks]. destruct (char_at p Hp) as (c & E & Hc).
  rewrite E, bind_Some. bcase.
  - destruct (IH (p + 1)) as (p' & c' & -> & Hle & ?); [lia..|]. exists p', c'. split_and!; [done|lia..|naive_solver|naive_solver].
  - exists p, c. split_and!; [done|lia..|done|]. intros Hn. split; [by apply Hc|]. destruct E0; [lia|done].
Qed.

(** The first character of a token is consumed. *)
Lemma token_advances fuel cur p c :
  holds cur [] -> 0 <= p < blen l -> bget line p = Some c -> c <> 0 -> isspace c = false -> blen l - p < Z.of_nat fuel ->
  exists r, token_loop fuel PLAIN line cur p = Some r /\
    match r with None => True | Some (_, p') => p < p' <= blen l end.
Proof.
  intros H Hp Hc Hz Hs Hf. destruct fuel as [|fuel]; [lia|]. cbn [token_loop take_turn].
  destruct (turn_safe PLAIN cur [] p H ltac:(rewrite blen_nil; unfold LIMIT; lia) ltac:(lia)) as (t & Et & Ht).
  cbn [take_turn] in Et. rewrite Et, bind_Some. destruct t as [|d q' cur' p']; [by exists None|].
  assert (d = false) as ->.
  { unfold turn_plain in Et. rewrite Hc, bind_Some in Et. revert Et. unfold isspace in Hs. repeat bcase; try lia; intros [=]; try done.
    destruct (append1 cur c); [|done]. by simplify_option_eq. }
  destruct Ht as (Hp' & Hd & v' & H' & Hv'). specialize (Hd eq_refl). rewrite advance_ok, bind_Some by lia.
  rewrite blen_nil in Hv'. destruct (token_safe fuel q' cur' v' (p' + 1) H') as (r & -> & Hr); [lia..|].
  exists r. split; [done|]. destruct r as [[??]|]; [lia|done].
Qed.

Lemma args_safe fuel : forall p vec,
  0 <= p <= blen l -> blen l - p < Z.of_nat fuel -> is_Some (args_loop usable try_ok indet fuel line p vec).
Proof.
  induction fuel as [|fuel IH]; intros p vec Hp Hf; [lia|]. cbn [args_loop].
  assert (Hlen : blen l < Z.of_nat (S (length line))) by (rewrite length_app; unfold blen; lia).
  destruct (skip_blanks_ok (S (length line)) p Hp) as (p' & c & -> & Hle & Hc & Hn); [lia|]. rewrite bind_Some, Hc, bind_Some.
  bcase; [|by eexists]. destruct (Hn ltac:(lia)) as [Hlt Hsp]. destruct sdsempty_ok as (cur & -> & Hcur). rewrite bind_Some.
  destruct (token_advances (S (length line)) cur p' c Hcur) as (r & -> & Hr); [lia|done|lia|done|lia|]. rewrite bind_Some.
  destruct r as [[cur' p'']|]; [|by eexists]. apply IH; lia.
Qed.
End Safe.

(** [sdssplitargs] terminates on every line, reads no byte behind its
    terminator and either rejects it or returns its arguments. *)
Theorem sdssplitargs_safe l rest :
  Forall (fun c => c <> 0) l -> blen l < LIMIT - 1 ->
  is_Some (sdssplitargs usable try_ok indet (l ++ 0 :: rest)).
Proof.
  intros Hl Hmax. pose proof (blen_nonneg l). apply args_safe; [done|done|lia|]. rewrite length_app. unfold blen. lia.
Qed.


(** *** Splitting and joining *)

Lemma memcmp_eq a : forall b, length a = length b -> (memcmp a b =? 0) = bool_decide (a = b).
Proof.
  induction a as [|x a IH]; intros [|y b] Hl; cbn in *; try done. injection Hl as Hl. specialize (IH b Hl). repeat bcase.
  - by rewrite bool_decide_false by (intros [=]; lia).
  - by rewrite bool_decide_false by (intros [=]; lia).
  - assert (x = y) as -> by lia. rewrite IH. apply bool_decide_ext. naive_solver.
Qed.

Section Split.
Context (v w r0 r1 : bytes) (Hw : 0 < blen w) (Hmax : blen v + blen w < LIMIT).
Abbreviation smem := (v ++ r0).
Abbreviation sepmem := (w ++ r1).

Definition occurs (k : Z) : Prop := bread v k (blen w) = Some w.

Lemma bread_prefix k n : 0 <= k -> 0 <= n -> k + n <= blen v -> bread smem k n = bread v k n.
Proof.
  intros Hk Hn Hv. destruct (split_blen v k) as (a & c & Ev & Ha); [lia|].
  assert (Hl : blen v = blen a + blen c) by (rewrite Ev; apply blen_app). destruct (split_blen c n) as (b & d & Ec & Hb); [lia|]. subst c.
  rewrite Ev. rewrite (bread_app a b d) by done. rewrite <- !app_assoc. by apply bread_app.
Qed.

Lemma bread_bget (b : bytes) j c : bget b j = Some c -> bread b j 1 = Some [c].
Proof.
  intros Hc. apply bget_Some in Hc as [Hj Hc]. destruct (split_blen b j) as (a & d & -> & Ha); [lia|].
  rewrite lookup_app_r in Hc by (unfold blen in *; lia). replace (Z.to_nat j - length a)%nat with 0%nat in Hc by (unfold blen in *; lia).
  destruct d as [|x d]; [done|]. injection Hc as ->. change (c :: d) with ([c] ++ d). by apply bread_app.
Qed.

Lemma sep_at_ok j :
  0 <= j -> j + blen w <= blen v -> exists b, sep_at smem j sepmem (blen w) = Some b /\ (b = true <-> occurs j).
Proof.
  intros Hj Hle. destruct (bread_is_Some v j (blen w)) as [x Hx]; [lia..|].
  assert (Hxs : bread smem j (blen w) = Some x) by (rewrite bread_prefix by lia; done).
  assert (Hws : bread sepmem 0 (blen w) = Some w) by by apply (bread_area _ w r1).
  assert (Hocc : occurs j <-> x = w) by (unfold occurs; rewrite Hx; naive_solver).
  destruct (bget_is_Some smem j) as [c Hc]; [rewrite blen_app; pose proof (blen_nonneg r0); lia|].
  destruct (bget_is_Some sepmem 0) as [c0 Hc0]; [rewrite blen_app; pose proof (blen_nonneg r1); lia|].
  unfold sep_at. rewrite Hc, bind_Some, Hc0, bind_Some. destruct ((blen w =? 1) && (c =? c0)) eqn:E1.
  - exists true. split; [done|]. rewrite Hocc. split; [intros _|done].
    apply bread_bget in Hc, Hc0. replace (blen w) with 1 in Hxs, Hws by lia. assert (c = c0) by lia. congruence.
  - rewrite Hxs, Hws, !bind_Some. eexists. split; [done|]. rewrite Hocc, memcmp_eq, bool_decide_eq_true; [done|].
    assert (Hxl : blen x = blen w); [|unfold blen in Hxl; lia]. unfold bread in Hx. destruct (inside _ _ _) eqn:Ei; [|done].
    injection Hx as <-. unfold inside in Ei. unfold blen in *. rewrite length_take, length_drop. lia.
Qed.

(** The tokens found so far, as contents, and where the next one starts. *)
Definition chopped (ts : list bytes) (start : Z) : Prop :=
  exists rest, v = concat ((.++ w) <$> ts) ++ rest /\ start = blen (concat ((.++ w) <$> ts)).
Definition no_sep (t : bytes) : Prop := forall a b, t <> a ++ w ++ b.

Lemma token_of ts start n :
  chopped ts start -> 0 <= n -> start + n <= blen v -> (forall k, start <= k -> k + blen w <= start + n -> ~ occurs k) ->
  exists t, blen t = n /\ no_sep t /\ bread smem start n = Some t /\
    (start + n = blen v -> v = concat ((.++ w) <$> ts) ++ t) /\
    (occurs (start + n) -> chopped (ts ++ [t]) (start + n + blen w)).
Proof.
  intros (rest & Ev & Hs) Hn Hle Hno. assert (Hl : blen v = start + blen rest) by (rewrite Ev at 1; rewrite blen_app; lia).
  destruct (split_blen rest n) as (t & r & -> & Ht); [lia|]. exists t. split_and!; [done| |..].
  - intros a b ->. apply (Hno (start + blen a)); [pose proof (blen_nonneg a); lia| |].
    + rewrite !blen_app in Ht. pose proof (blen_nonneg b). lia.
    + unfold occurs. rewrite Ev. rewrite <- !app_assoc, (app_assoc _ a). apply bread_app; [|done]. rewrite blen_app. lia.
  - rewrite bread_prefix by (subst start; pose proof (blen_nonneg (concat ((.++ w) <$> ts))); lia). rewrite Ev. by apply bread_app.
  - intros E. rewrite blen_app in Hl. assert (r = []) as -> by (apply blen_0; lia). by rewrite app_nil_r in Ev.
  - intros Hoc. unfold occurs in Hoc. destruct (bread_split _ _ _ _ Hoc) as (a & c & Ea & Hla).
    unfold chopped. rewrite fmap_app, concat_app. cbn [fmap list_fmap concat]. rewrite app_nil_r. exists c.
    rewrite !blen_app. split; [|lia]. rewrite Ev at 1. rewrite <- !app_assoc. do 2 f_equal.
    rewrite Ev in Ea. rewrite (app_assoc _ t) in Ea. apply app_inj_1 in Ea as [_ Ea]; [done|].
    rewrite length_app. unfold blen in *. lia.
Qed.

Lemma add_token_ok start n slots tokens ts t :
  bread smem start n = Some t -> blen t = n -> n < LIMIT -> Z.of_nat (length tokens) < slots -> Forall2 holds tokens ts ->
  exists tokens', add_token usable try_ok indet smem start n slots tokens = Some tokens' /\ Forall2 holds tokens' (ts ++ [t]).
Proof.
  intros Hb Hn Hmx Hs Ht. unfold add_token. replace (_ <? slots) with true by lia. rewrite Hb, bind_Some. subst n.
  destruct (_sdsnewlen_ok usable try_ok indet Husable t t [] false) as (s & E & H); [by rewrite app_nil_r|unfold LIMIT in *; lia|by left|].
  unfold sdsnewlen. rewrite E, !bind_Some. eexists. split; [done|]. apply Forall2_app; [done|by constructor].
Qed.

Lemma split_loop_ok fuel : forall j start slots tokens ts,
  chopped ts start -> Forall2 holds tokens ts -> Forall no_sep ts ->
  start <= j <= blen v -> start <= blen v -> (forall k, start <= k < j -> ~ occurs k) ->
  Z.of_nat (length tokens) + 1 <= slots -> blen v - j < Z.of_nat fuel ->
  exists start' slots' tokens' ts' j',
    split_loop usable try_ok indet fuel smem (blen v) sepmem (blen w) j start slots tokens = Some (start', slots', tokens') /\
    chopped ts' start' /\ Forall2 holds tokens' ts' /\ Forall no_sep ts' /\ start' <= blen v /\
    blen v - (blen w - 1) <= j' /\ (forall k, start' <= k < j' -> ~ occurs k) /\
    Z.of_nat (length tokens') + 1 <= slots'.
Proof.
  induction fuel as [|fuel IH]; intros j start slots tokens ts Hch Hts Hns Hsj Hsv Hno Hsl Hf; cbn [split_loop].
  { lia. }
  assert (Hs0 : 0 <= start) by (destruct Hch as (? & _ & ->); apply blen_nonneg).
  bcase; [|by exists start, slots, tokens, ts, j; split_and!; try done; lia].
  set (slots1 := if slots <? _ then _ else _). assert (Hs1 : Z.of_nat (length tokens) + 2 <= slots1) by (unfold slots1; bcase; lia).
  destruct (sep_at_ok j) as (b & -> & Hb); [lia..|]. rewrite bind_Some. destruct b.
  - destruct (token_of ts start (j - start) Hch) as (t & Ht & Hnt & Hrd & _ & Hnext); [lia..| |].
    { intros k Hk1 Hk2. apply Hno. lia. }
    destruct (add_token_ok start (j - start) slots1 tokens ts t Hrd Ht) as (tokens' & E' & Hts'); [lia..|done|].
    rewrite E', bind_Some. assert (Hoc : occurs j) by tauto.
    replace (start + (j - start)) with j in Hnext by lia.
    destruct (IH (j + blen w - 1 + 1) (j + blen w) slots1 tokens' (ts ++ [t])) as (a1 & a2 & a3 & a4 & a5 & E5 & Hrest).
    + by apply Hnext.
    + done.
    + apply Forall_app. split; [done|by constructor].
    + lia.
    + lia.
    + intros k Hk. lia.
    + apply Forall2_length in Hts, Hts'. rewrite length_app in Hts'. cbn in Hts'. lia.
    + lia.
    + exists a1, a2, a3, a4, a5. rewrite E5. done.
  - destruct (IH (j + 1) start slots1 tokens ts) as (a1 & a2 & a3 & a4 & a5 & E5 & Hrest); try done; [lia| |lia|lia|].
    + intros k Hk. destruct (decide (k = j)) as [->|]; [intros Ho; naive_solver|apply Hno; lia].
    + exists a1, a2, a3, a4, a5. by rewrite E5.
Qed.

Fixpoint join_spec (ts : list bytes) : bytes :=
  match ts with
  | [] => []
  | t :: ts => t ++ match ts with [] => [] | _ => w ++ join_spec ts end
  end.

Lemma join_chopped ts t : concat ((.++ w) <$> ts) ++ t = join_spec (ts ++ [t]).
Proof.
  induction ts as [|u ts IH]; cbn [fmap list_fmap concat app join_spec]; [by rewrite app_nil_r|].
  change (list_fmap _ _ ?f ts) with (f <$> ts). rewrite <- !app_assoc. f_equal. rewrite IH. by destruct ts.
Qed.

Lemma sdssplitlen_ok :
  exists tokens ts, sdssplitlen usable try_ok indet smem (blen v) sepmem (blen w) = Some (Some tokens) /\
    Forall2 holds tokens ts /\ Forall no_sep ts /\ v = join_spec ts.
Proof.
  pose proof (blen_nonneg v) as Hv0. unfold sdssplitlen. replace (_ || _) with false by lia. bcase.
  { exists [], []. apply blen_0 in E. rewrite E. done. }
  destruct (split_loop_ok (S (Z.to_nat (blen v))) 0 0 5 [] []) as (start & slots & tokens & ts & j & E1 & Hch & Hts & Hns & Hsv & Hj & Hno & Hsl);
    [by exists v|done|done|lia|lia|intros; lia|done|lia|].
  rewrite E1, bind_Some. assert (Hs0 : 0 <= start) by (destruct Hch as (? & _ & ->); apply blen_nonneg).
  destruct (token_of ts start (blen v - start) Hch) as (t & Ht & Hnt & Hrd & Hall & _); [lia..| |].
  { intros k Hk1 Hk2. apply Hno. lia. }
  destruct (add_token_ok start (blen v - start) slots tokens ts t Hrd Ht) as (tokens' & E2 & Ht2); [lia|lia|done|].
  rewrite E2, bind_Some. exists tokens', (ts ++ [t]). split_and!; [done|done| |].
  - apply Forall_app. split; [done|by constructor].
  - rewrite <- join_chopped. apply Hall. lia.
Qed.

Lemma join_loop_ok tokens ts : Forall2 holds tokens ts -> forall join u,
  holds join u -> blen u + blen (join_spec ts) < LIMIT ->
  exists s, join_loop usable indet tokens sepmem (blen w) join = Some s /\ holds s (u ++ join_spec ts).
Proof.
  assert (HM : SDS_MAX_PREALLOC = 2 ^ 20) by done. assert (HL : LIMIT = 2 ^ 62) by done.
  induction 1 as [|a t tokens ts Ha Hts IH]; intros join u Hu Hl; cbn [join_loop join_spec] in *; [exists join; by rewrite app_nil_r|].
  destruct (h_buf Ha) as [r Hr]. pose proof (blen_nonneg u) as Hu0. rewrite blen_app in Hl.
  match type of Hl with _ + (_ + blen ?x) < _ => pose proof (blen_nonneg x) as Hx0 end.
  destruct (sdscatlen_spec usable indet Husable join u (sbuf a) t (0 :: r) Hu Hr) as (s1 & E1 & H1); [lia|].
  unfold sdscatsds, sdslen. rewrite (h_len Ha), E1, bind_Some.
  destruct Hts as [|a' t' tokens ts Ha' Hts]; [exists s1; cbn; by rewrite app_nil_r|].
  rewrite blen_app in Hl. pose proof (blen_nonneg (join_spec (t' :: ts))) as Hj0.
  destruct (sdscatlen_spec usable indet Husable s1 (u ++ t) sepmem w r1 H1 eq_refl) as (s2 & E2 & H2);
    [rewrite blen_app; lia|]. rewrite E2, bind_Some.
  destruct (IH s2 _ H2) as (s3 & E3 & H3); [rewrite !blen_app; lia|]. exists s3. split; [done|]. by rewrite <- !app_assoc in *.
Qed.
End Split.

(** Splitting on a separator stays inside the token array, yields tokens
    that do not contain the separator, and joining them again with the separator
    gives back the string. *)
Theorem sdssplitlen_join v w r0 r1 :
  0 < blen w -> blen v + blen w < LIMIT ->
  exists tokens, sdssplitlen usable try_ok indet (v ++ r0) (blen v) (w ++ r1) (blen w) = Some (Some tokens) /\
    Forall (fun t => exists u, holds t u /\ no_sep w u) tokens /\
    exists s, sdsjoinsds usable try_ok indet tokens (w ++ r1) (blen w) = Some s /\ holds s v.
Proof.
  intros Hw Hmax. destruct (sdssplitlen_ok v w r0 r1 Hw Hmax) as (tokens & ts & E & Hts & Hns & Hv). exists tokens.
  split_and!; [done| |].
  - clear E Hv. induction Hts; [done|]. apply Forall_cons in Hns as [??]. constructor; [by eexists|auto].
  - destruct sdsempty_ok as (s0 & E0 & H0). destruct (join_loop_ok w r1 tokens ts Hts s0 [] H0) as (s & Es & Hs).
    + rewrite <- Hv, blen_nil. lia.
    + exists s. unfold sdsjoinsds. rewrite E0, bind_Some. cbn [app] in Hs. by rewrite Hv.
Qed.


(** *** Formatted append *)

(** What a format and its arguments denote. *)
Inductive formats : bytes -> list fmtarg -> bytes -> Prop :=
| F_end args : formats [] args []
| F_char c f args out : c <> 37 -> c <> 0 -> formats f args out -> formats (c :: f) args (c :: out)
| F_str p t f args out : cstr p = Some t -> formats f args out -> formats (37 :: 115 :: f) (ArgStr p :: args) (t ++ out)
| F_sds u t f args out : holds u t -> formats f args out -> formats (37 :: 83 :: f) (ArgSds u :: args) (t ++ out)
| F_int n D f args out : in_sint 32 n -> decimal D n -> formats f args out -> formats (37 :: 105 :: f) (ArgInt n :: args) (D ++ out)
| F_ll n D f args out : in_sint 64 n -> n <> LLONG_MIN -> decimal D n -> formats f args out ->
    formats (37 :: 73 :: f) (ArgLL n :: args) (D ++ out)
| F_uint n D f args out : in_uint 32 n -> udecimal D n -> formats f args out -> formats (37 :: 117 :: f) (ArgUInt n :: args) (D ++ out)
| F_ull n D f args out : in_uint 64 n -> udecimal D n -> formats f args out -> formats (37 :: 85 :: f) (ArgULL n :: args) (D ++ out)
| F_verbatim c f args out : c ∉ [0; 115; 83; 105; 73; 117; 85] -> formats f args out -> formats (37 :: c :: f) args (c :: out).

Lemma room_ended s v w n :
  room s (v ++ w) n -> hlen s = blen v -> n = blen v + blen w -> exists c, ended c (sdsinclen s (blen w)) (v ++ w).
Proof.
  intros ((r & Hb) & Hf & Hr & Ha) Hl ->. rewrite <- blen_app in *. rewrite Hb, (blen_app (v ++ w) r) in Hr.
  destruct r as [|c r]; [rewrite blen_nil in Hr; lia|]. exists c. constructor; cbn [sdsinclen hlen flags sbuf halloc].
  - rewrite Hl, <- blen_app. by apply uint_small.
  - done.
  - by eexists.
  - done.
Qed.

Lemma fmt_put_ok c s v t w r :
  ended c s v -> t = w ++ r -> blen v + blen w < LIMIT ->
  exists c' s', fmt_put usable indet s (blen v) t (blen w) = Some (s', blen (v ++ w)) /\ ended c' s' (v ++ w).
Proof.
  intros H Ht Hl. unfold LIMIT in Hl. pose proof (blen_nonneg v) as Hv0. pose proof (blen_nonneg w) as Hw0.
  assert (exists s1, (if sdsavail s <? blen w then sdsMakeRoomFor usable indet s (blen w) else Some s) = Some s1 /\
    ended c s1 v /\ blen v + blen w <= sdsalloc s1) as (s1 & E1 & H1 & Ha).
  { bcase.
    - destruct (sdsMakeRoomFor_spec usable indet Husable s v (blen w) H) as (s1 & -> & ? & ? & _);
        [lia|unfold SDS_MAX_PREALLOC; lia|by eexists].
    - exists s. split_and!; [done|done|]. rewrite (sdsavail_ok s v H) in E. unfold sdsalloc. pose proof (h_len H). destruct (flags s); lia. }
  unfold fmt_put. rewrite E1, bind_Some, (bread_area t w r Ht), bind_Some.
  destruct (swrite_ok s1 v w v (blen v + blen w)) as (s2 & -> & H2 & _ & Hl2);
    [eapply holds_room_for; [done|lia]|exists []; by rewrite app_nil_r|lia|]. rewrite bind_Some, blen_app.
  destruct (room_ended s2 v w _ H2) as (c' & Hc); [by rewrite Hl2, (h_len H1)|done|]. by eexists _, _.
Qed.

Lemma fmt_char_ok c s v x :
  ended c s v -> 0 < sdsavail s ->
  exists c' s', fmt_char s (blen v) x = Some (s', blen (v ++ [x])) /\ ended c' s' (v ++ [x]).
Proof.
  intros H Ha. pose proof (blen_nonneg v) as Hv0. rewrite (sdsavail_ok s v H) in Ha.
  destruct (swrite_ok s v [x] v (blen v + 1)) as (s2 & E2 & H2 & _ & Hl2);
    [eapply holds_room_for; [done|unfold sdsalloc; destruct (flags s); lia]|exists []; by rewrite app_nil_r|rewrite blen_cons, blen_nil; lia|].
  unfold fmt_char. assert (sset s (blen v) x = Some s2) as -> by exact E2. rewrite bind_Some, blen_app, blen_cons, blen_nil.
  destruct (room_ended s2 v [x] _ H2) as (c' & Hc); [by rewrite Hl2, (h_len H)|by rewrite blen_cons, blen_nil|]. by eexists _, _.
Qed.

Lemma fmt_num_ok c s v n D :
  ended c s v -> in_sint 64 n -> n <> LLONG_MIN -> decimal D n -> blen v + blen D < LIMIT ->
  exists c' s', fmt_num usable indet s (blen v) n = Some (s', blen (v ++ D)) /\ ended c' s' (v ++ D).
Proof.
  intros H Hn Hm HD Hl. unfold fmt_num. destruct (sdsll2str_ok (fresh indet SDS_LLSTR_SIZE) n Hn Hm) as (D' & r & -> & HD'); [done|].
  rewrite bind_Some, (decimal_unique _ _ _ HD' HD). by eapply fmt_put_ok.
Qed.
Lemma fmt_unum_ok c s v n D :
  ended c s v -> in_uint 64 n -> udecimal D n -> blen v + blen D < LIMIT ->
  exists c' s', fmt_unum usable indet s (blen v) n = Some (s', blen (v ++ D)) /\ ended c' s' (v ++ D).
Proof.
  intros H Hn HD Hl. unfold fmt_unum. destruct (sdsull2str_ok (fresh indet SDS_LLSTR_SIZE) n Hn) as (D' & r & -> & HD'); [done|].
  rewrite bind_Some, (udecimal_unique _ _ _ HD' HD). by eapply fmt_put_ok.
Qed.

Lemma cstr_prefix p : forall t, cstr p = Some t -> exists r, p = t ++ r.
Proof.
  induction p as [|x p IH]; intros t Ht; cbn in Ht; [done|]. destruct (x =? 0).
  - injection Ht as <-. by exists (x :: p).
  - destruct (cstr p) as [u|]; [|done]. injection Ht as <-. destruct (IH u eq_refl) as (r & ->). by exists r.
Qed.

(** One step of [sdscatfmt]: room for a character, then the conversion. *)
Lemma fmt_conv_ok c s v next f args out :
  ended c s v -> 0 < sdsavail s -> formats (37 :: next :: f) args out -> blen v + blen out < LIMIT ->
  exists t out' args' c' s', out = t ++ out' /\ formats f args' out' /\
    fmt_conv usable indet s (blen v) next args = Some (s', blen (v ++ t), args') /\ ended c' s' (v ++ t).
Proof.
  intros H Ha Hf Hl. unfold fmt_conv.
  assert (Hput : forall t out' args' r, out = t ++ out' -> formats f args' out' ->
    (blen v + blen t < LIMIT -> exists c' s', r = Some (s', blen (v ++ t)) /\ ended c' s' (v ++ t)) ->
    exists t0 out'0 args'0 c' s', out = t0 ++ out'0 /\ formats f args'0 out'0 /\
      ('(s, i) ← r; Some (s, i, args')) = Some (s', blen (v ++ t0), args'0) /\ ended c' s' (v ++ t0)).
  { intros t out' args' r -> Hf' Hr. rewrite blen_app in Hl. pose proof (blen_nonneg out').
    destruct Hr as (c' & s' & -> & He); [lia|]. by exists t, out', args', c', s'. }
  inversion Hf; subst; cbn [Z.eqb Pos.eqb]; try done.
  - match goal with Hc : cstr _ = Some _ |- _ => destruct (cstr_prefix _ _ Hc) as (r & Hr); rewrite Hc, bind_Some end.
    eapply Hput; [done|done|]. intros. by eapply fmt_put_ok.
  - match goal with Hu : holds _ _ |- _ => destruct (h_buf Hu) as [r Hr]; unfold sdslen; rewrite (h_len Hu) end.
    eapply Hput; [done|done|]. intros. by eapply fmt_put_ok.
  - eapply Hput; [done|done|]. intros. eapply fmt_num_ok; try done; unfold in_sint, LLONG_MIN in *; lia.
  - eapply Hput; [done|done|]. intros. by eapply fmt_num_ok.
  - eapply Hput; [done|done|]. intros. eapply fmt_unum_ok; try done; unfold in_uint in *; lia.
  - eapply Hput; [done|done|]. intros. by eapply fmt_unum_ok.
  - assert (Hnx : next <> 115 /\ next <> 83 /\ next <> 105 /\ next <> 73 /\ next <> 117 /\ next <> 85)
      by (match goal with Hx : _ ∉ _ |- _ => rewrite !not_elem_of_cons in Hx end; naive_solver). bdec.
    match goal with Hx : formats f args ?o |- _ => apply (Hput [next] o args); [done|done|] end. intros. by eapply fmt_char_ok.
Qed.

Lemma fmt_loop_ok f args out : formats f args out -> forall fuel pre r c s v,
  ended c s v -> (length f < fuel)%nat -> blen v + blen out + 1 < LIMIT ->
  exists c' s', fmt_loop usable indet fuel (pre ++ f ++ 0 :: r) (blen pre) s (blen v) args = Some (s', blen (v ++ out)) /\
    ended c' s' (v ++ out).
Proof.
  intros Hf fuel. revert f args out Hf. induction fuel as [|fuel IH]; intros f args out Hf pre r c s v H Hfu Hl; [lia|]. cbn [fmt_loop].
  pose proof (blen_nonneg v) as Hv0. pose proof (blen_nonneg out) as Ho0.
  destruct f as [|x f].
  { inversion Hf; subst. cbn [app]. rewrite (bget_app pre 0 r (blen pre) eq_refl), bind_Some, app_nil_r. by exists c, s. }
  cbn [app]. rewrite (bget_app pre x _ (blen pre) eq_refl), bind_Some.
  assert (x <> 0) as Hx by (inversion Hf; done). replace (x =? 0) with false by lia.
  assert (exists s1, (if sdsavail s =? 0 then sdsMakeRoomFor usable indet s 1 else Some s) = Some s1 /\
    ended c s1 v /\ 0 < sdsavail s1) as (s1 & -> & H1 & Ha).
  { bcase.
    - destruct (sdsMakeRoomFor_spec usable indet Husable s v 1 H) as (s1 & -> & ? & _ & ?);
        [lia|unfold SDS_MAX_PREALLOC, LIMIT in *; lia|]. exists s1. split_and!; [done|done|lia].
    - exists s. split_and!; [done|done|]. rewrite (sdsavail_ok s v H) in *. pose proof (holds_alloc s v H) as Hal.
      unfold sdsalloc in Hal. destruct (flags s); lia. }
  rewrite bind_Some. destruct (Z.eqb_spec x 37) as [->|Hn].
  - destruct f as [|next f]; [inversion Hf; done|].
    rewrite (bget_off pre (37 :: next :: f ++ 0 :: r) 1 next), bind_Some by (done || lia).
    destruct (fmt_conv_ok c s1 v next f args out H1 Ha Hf) as (t & out' & args' & c2 & s2 & -> & Hf' & -> & H2); [lia|].
    rewrite bind_Some. rewrite blen_app in Hl.
    destruct (IH f args' out' Hf' (pre ++ [37; next]) r c2 s2 (v ++ t) H2) as (c3 & s3 & E3 & H3); [cbn in Hfu; lia|rewrite blen_app; lia|].
    rewrite <- !app_assoc in *. exists c3, s3. split; [|done]. rewrite <- E3. cbn [app]. f_equal. rewrite blen_app. done.
  - inv Hf; [|done..]. destruct (fmt_char_ok c s1 v x H1 Ha) as (c2 & s2 & -> & He2). rewrite bind_Some.
    rewrite blen_cons in Hl. match goal with Hg : formats ?f ?args ?o |- _ =>
      destruct (IH f args o Hg (pre ++ [x]) r c2 s2 (v ++ [x]) He2) as (c3 & s3 & E3 & He3);
        [cbn in Hfu; lia|rewrite blen_app, blen_cons, blen_nil; lia|] end.
    rewrite <- !app_assoc in *. cbn [app] in *. exists c3, s3. split; [|done]. rewrite <- E3. f_equal. by rewrite blen_app, blen_cons, blen_nil.
Qed.

Lemma formats_nonzero f args out : formats f args out -> Forall (fun c => c <> 0) f.
Proof.
  induction 1 as [| | | | | | | |c f args out Hc _ IH]; repeat (constructor; try done). intros ->.
  by apply not_elem_of_cons in Hc as [Hc _].
Qed.

Lemma sdscatfmt_spec s v f r args out :
  holds s v -> formats f args out -> blen v + blen f * 2 < LIMIT -> blen v + blen out + 1 < LIMIT ->
  exists s', sdscatfmt usable indet s (f ++ 0 :: r) args = Some s' /\ holds s' (v ++ out).
Proof.
  intros H Hf Hl1 Hl2. pose proof (blen_nonneg v) as Hv0. pose proof (blen_nonneg f) as Hf0. unfold sdscatfmt, sdslen.
  rewrite cstr_app, bind_Some by by eapply formats_nonzero. rewrite (h_len H).
  destruct (sdsMakeRoomFor_spec usable indet Husable s v (blen f * 2) H) as (s1 & -> & H1 & _);
    [lia|unfold SDS_MAX_PREALLOC, LIMIT in *; lia|]. rewrite bind_Some.
  destruct (fmt_loop_ok f args out Hf (S (length (f ++ 0 :: r))) [] r 0 s1 v H1) as (c & s2 & E & H2); [rewrite length_app; lia|lia|].
  cbn [app] in E. rewrite blen_nil in E. rewrite E, bind_Some.
  destruct (seal_ok s2 (v ++ out) (blen (v ++ out))) as (s3 & E3 & H3 & _); [|done|].
  - eapply holds_room_for; [done|]. pose proof (holds_alloc _ _ H2). lia.
  - exists s3. split; [done|]. assert (sdssetlen s3 (blen (v ++ out)) = s3) as <-; [|done].
    unfold sset in E3. destruct (bset _ _ _) as [b|]; [|done]. injection E3 as <-. unfold sdssetlen, with_buf.
    cbn [flags hlen halloc sbuf]. rewrite uint_small by apply (h_fits H2). by rewrite (h_len H2).
Qed.

(** [sdscatfmt] appends exactly the text that its format and arguments
    denote: verbatim characters, C strings, dynamic strings and the canonical
    decimal notation of signed and unsigned integers. *)
Theorem sdscatfmt_correct s v f r args out :
  holds s v -> formats f args out -> blen v + blen f * 2 < LIMIT -> blen v + blen out + 1 < LIMIT ->
  exists s', sdscatfmt usable indet s (f ++ 0 :: r) args = Some s' /\ holds s' (v ++ out).
Proof. apply sdscatfmt_spec. Qed.
End AllocFacts.

Section Witnesses.
Abbreviation yes := (fun _ : Z => true).
Abbreviation nines := (fun _ : nat => 9).

Lemma sdssplitargs_sdscatrepr_witness : exists line toks,
  repr_line round16 yes nines [str "set"; []; [0; 34; 92; 255; 10]] = Some line /\
  sdssplitargs round16 yes nines (sbuf line) = Some (Some toks) /\ Forall2 holds toks [str "set"; []; [0; 34; 92; 255; 10]].
Proof.
  apply (sdssplitargs_sdscatrepr round16 yes nines round16_ok [str "set"; []; [0; 34; 92; 255; 10]]); [|done].
  by repeat constructor.
Defined.

Lemma sdssplitargs_safe_witness : is_Some (sdssplitargs round16 yes nines (str "get 'a" ++ 0 :: [])).
Proof. apply (sdssplitargs_safe round16 yes nines round16_ok (str "get 'a") []); [by repeat constructor|done]. Defined.

Lemma sdssplitlen_join_witness : exists tokens,
  sdssplitlen round16 yes nines (str "a--b---c" ++ []) 8 (str "--" ++ []) 2 = Some (Some tokens) /\
  Forall (fun t => exists u, holds t u /\ no_sep (str "--") u) tokens /\
  exists s, sdsjoinsds round16 yes nines tokens (str "--" ++ []) 2 = Some s /\ holds s (str "a--b---c").
Proof. apply (sdssplitlen_join round16 yes nines round16_ok (str "a--b---c") (str "--") [] []); done. Defined.

Lemma sdscatfmt_correct_witness : exists s',
  sdscatfmt round16 nines sample (str "%U-%i" ++ 0 :: []) [ArgULL 7; ArgInt (-5)] = Some s' /\ holds s' (str "abc" ++ str "7--5").
Proof.
  apply (sdscatfmt_correct round16 yes nines round16_ok sample (str "abc") (str "%U-%i") []); [apply sample_holds| |done|done].
  apply (F_ull 7 [55]); [done|by split_and!; [repeat constructor; lia| |left]|].
  apply (F_char 45); [done|done|]. apply (F_int (-5) [45; 53]); [done| |apply F_end].
  exists [53]. split; [done|]. by split_and!; [repeat constructor; lia| |left].
Defined.
End Witnesses.


End SdsText.
