(* ===== verification/Lzf.v ===== *)
(** LZF compression, lzf_c.c and lzf_d.c, as configured in lzfP.h for 64-bit
    hosts: [HLOG] is 16, [VERY_FAST] and [CHECK_INPUT] are set, the hash table
    holds offsets and is not initialized. *)

From S2P Require Import Prelude.

Module Lzf.

Definition MAX_LIT : Z := 2 ^ 5.
Definition MAX_OFF : Z := 2 ^ 13.
Definition MAX_REF : Z := 2 ^ 8 + 2 ^ 3.

(** ** Compression *)

Section Compress.
(** The input and its length *)
Context (b : bytes) (in_len out_len : Z).

Definition FRST (p : Z) : option Z := x ← bget b p; y ← bget b (p + 1); Some (Z.lor (Z.shiftl x 8) y).
Definition NEXT (v p : Z) : option Z := x ← bget b (p + 2); Some (Z.lor (uint 32 (Z.shiftl v 8)) x).
Definition IDX (h : Z) : Z := Z.land (uint 32 (Z.shiftr h (3 * 8 - 16) - h * 5)) (2 ^ 16 - 1).

(** The hash table, of 32-bit slots *)
Definition htab := Z -> Z.
Definition set_slot (t : htab) (i p : Z) : htab := fun j => if j =? i then uint 32 p else t j.

Record state := State { ip : Z; op : Z; lit : Z; hval : Z; table : htab; out : bytes }.

(** [op [- lit - 1] = lit - 1]; the byte is [-1] when the run is empty. *)
Definition stop_run (s : state) : option state :=
  out ← bset (out s) (op s - lit s - 1) (uint 8 (lit s - 1));
  Some (State (ip s) (op s) (lit s) (hval s) (table s) out).
(** [op -= !lit] *)
Definition undo_run (s : state) : state :=
  State (ip s) (op s - (if lit s =? 0 then 1 else 0)) (lit s) (hval s) (table s) (out s).
(** [*op++ = v] *)
Definition put (s : state) (v : Z) : option state :=
  out ← bset (out s) (op s) (uint 8 v); Some (State (ip s) (op s + 1) (lit s) (hval s) (table s) out).
(** [lit = 0; op++] *)
Definition start_run (s : state) : state := State (ip s) (op s + 1) 0 (hval s) (table s) (out s).
Definition set_ip (s : state) (ip : Z) : state := State ip (op s) (lit s) (hval s) (table s) (out s).

(** [lit++; *op++ = *ip++], and the end of a run that is full *)
Definition put_literal (s : state) : option state :=
  x ← bget b (ip s);
  s ← put (State (ip s + 1) (op s) (lit s + 1) (hval s) (table s) (out s)) x;
  if lit s =? MAX_LIT then s ← stop_run s; Some (start_run s) else Some s.

(** The reference is in reach, and three bytes are the same. *)
Definition is_match (ip ref : Z) : option bool :=
  if (uint 64 (ip - ref - 1) <? MAX_OFF) && (ref >? 0) then
    r2 ← bget b (ref + 2); p2 ← bget b (ip + 2);
    if r2 =? p2 then
      r0 ← bget b ref; r1 ← bget b (ref + 1); p0 ← bget b ip; p1 ← bget b (ip + 1);
      Some ((r0 =? p0) && (r1 =? p1))
    else Some false
  else Some false.

(** [n] times [len++; if (ref [len] != ip [len]) break;]; the result tells
    whether there was no [break]. *)
Fixpoint unrolled (n : nat) (ip ref len : Z) : option (Z * bool) :=
  match n with
  | O => Some (len, true)
  | S n =>
      let len := len + 1 in
      x ← bget b (ref + len); y ← bget b (ip + len);
      if negb (x =? y) then Some (len, false) else unrolled n ip ref len
  end.
(** [do len++; while (len < maxlen && ref[len] == ip[len])] *)
Fixpoint extend (fuel : nat) (ip ref maxlen len : Z) : option Z :=
  match fuel with
  | O => None
  | S fuel =>
      let len := len + 1 in
      if len <? maxlen then
        x ← bget b (ref + len); y ← bget b (ip + len);
        if x =? y then extend fuel ip ref maxlen len else Some len
      else Some len
  end.
Definition match_len (ip ref : Z) : option Z :=
  let maxlen := in_len - ip - 2 in
  let maxlen := if maxlen >? MAX_REF then MAX_REF else maxlen in
  '(len, go) ← (if maxlen >? 16 then unrolled 16 ip ref 2 else Some (2, true));
  if go : bool then extend (S (Z.to_nat maxlen)) ip ref maxlen len else Some len.

(** The function returns [0], leaves the loop or goes on. *)
Inductive flow := Return0 | Break (s : state) | Continue (s : state).

(** The two positions before [ip] are entered into the table. *)
Definition rehash (s : state) : option state :=
  let p := ip s - 2 in
  h ← FRST p;
  h ← NEXT h p;
  let t := set_slot (table s) (IDX h) p in
  h ← NEXT h (p + 1);
  Some (State (ip s) (op s) (lit s) h (set_slot t (IDX h) (p + 1)) (out s)).

(** A match with [ref] *)
Definition put_match (s : state) (ref : Z) : option flow :=
  let off := uint 64 (ip s - ref - 1) in
  if (op s + 3 + 1 >=? out_len) && (op s - (if lit s =? 0 then 1 else 0) + 3 + 1 >=? out_len) then Some Return0
  else
    s ← stop_run s;
    let s := undo_run s in
    len ← match_len (ip s) ref;
    let len := len - 2 in
    s ← (if len <? 7 then put s (Z.shiftr off 8 + Z.shiftl len 5)
         else s ← put s (Z.shiftr off 8 + Z.shiftl 7 5); put s (len - 7));
    s ← put s off;
    let s := set_ip (start_run s) (ip s + 1 + (len + 1)) in
    if ip s >=? in_len - 2 then Some (Break s)
    else s ← rehash s; Some (Continue s).

(** [None] as the result is [return 0]. *)
Fixpoint main_loop (fuel : nat) (s : state) : option (option state) :=
  match fuel with
  | O => None
  | S fuel =>
      if negb (ip s <? in_len - 2) then Some (Some s)
      else
        h ← NEXT (hval s) (ip s);
        let ref := table s (IDX h) in
        let s := State (ip s) (op s) (lit s) h (set_slot (table s) (IDX h) (ip s)) (out s) in
        m ← is_match (ip s) ref;
        if m : bool then
          f ← put_match s ref;
          match f with
          | Return0 => Some None
          | Break s => Some (Some s)
          | Continue s => main_loop fuel s
          end
        else if op s >=? out_len then Some None
        else s ← put_literal s; main_loop fuel s
  end.

Fixpoint tail_loop (fuel : nat) (s : state) : option state :=
  match fuel with
  | O => None
  | S fuel => if ip s <? in_len then s ← put_literal s; tail_loop fuel s else Some s
  end.

(** [t] is what the table holds, [out_data] has [out_len] bytes. The number of
    bytes written, and the output *)
Definition lzf_compress (t : htab) (out_data : bytes) : option (Z * bytes) :=
  if (in_len =? 0) || (out_len =? 0) then Some (0, out_data)
  else
    h ← FRST 0;
    r ← main_loop (S (Z.to_nat in_len)) (State 0 1 0 h t out_data);
    match r with
    | None => Some (0, out_data)
    | Some s =>
        if op s + 3 >? out_len then Some (0, out s)
        else
          s ← tail_loop (S (Z.to_nat in_len)) s;
          s ← stop_run s;
          let s := undo_run s in
          Some (op s, out s)
    end.

End Compress.

(** ** Decompression *)

Section Decompress.
Context (b : bytes) (in_len out_len : Z).

(** [n] times [*op++ = *ref++] *)
Fixpoint copy_octets (n : nat) (out : bytes) (op ref : Z) : option bytes :=
  match n with
  | O => Some out
  | S n => x ← bget out ref; out ← bset out op x; copy_octets n out (op + 1) (ref + 1)
  end.

(** The copy of a back reference: [len + 2] bytes *)
Definition copy_ref (out : bytes) (op ref len : Z) : option bytes :=
  if (len >? 9) && (op >=? ref + (len + 2)) then x ← bread out ref (len + 2); bwrite out op x
  else copy_octets (Z.to_nat (len + 2)) out op ref.

(** The number of bytes written, [0] for an error, and the output *)
Fixpoint decompress_loop (fuel : nat) (ip op : Z) (out : bytes) : option (Z * bytes) :=
  match fuel with
  | O => None
  | S fuel =>
      if negb (ip <? in_len) then Some (op, out)
      else
        ctrl ← bget b ip;
        let ip := ip + 1 in
        if ctrl <? 2 ^ 5 then
          let ctrl := ctrl + 1 in
          if op + ctrl >? out_len then Some (0, out)
          else if ip + ctrl >? in_len then Some (0, out)
          else
            x ← bread b ip ctrl;
            out ← bwrite out op x;
            decompress_loop fuel (ip + ctrl) (op + ctrl) out
        else
          let len := Z.shiftr ctrl 5 in
          let ref := op - Z.shiftl (Z.land ctrl 31) 8 - 1 in
          if ip >=? in_len then Some (0, out)
          else
            '(ip, len) ← (if len =? 7 then x ← bget b ip; Some (ip + 1, len + x) else Some (ip, len));
            if ip >=? in_len then Some (0, out)
            else
              x ← bget b ip;
              let ref := ref - x in
              let ip := ip + 1 in
              if op + len + 2 >? out_len then Some (0, out)
              else if ref <? 0 then Some (0, out)
              else
                out ← copy_ref out op ref len;
                decompress_loop fuel ip (op + (len + 2)) out
  end.

Definition lzf_decompress (out_data : bytes) : option (Z * bytes) :=
  decompress_loop (S (Z.to_nat in_len)) 0 0 out_data.

End Decompress.
End Lzf.
