(* ===== verification/LzfSpec.v ===== *)
(** The LZF format: sequences of literals and back references; decompression
    expands them, and compression finds one that expands to its input. *)

From S2P Require Import Prelude Lzf.

Module LzfSpec.
Import Lzf.

(** ** The format *)

(** A run of literals; [len + 2] bytes from [off + 1] bytes before *)
Inductive token := Lit (l : bytes) | Ref (off len : Z).

Definition token_ok (t : token) : Prop :=
  match t with
  | Lit l => 1 <= blen l <= 32 /\ is_bytes l
  | Ref off len => 0 <= off < 2 ^ 13 /\ 1 <= len <= 262
  end.

Definition ser (t : token) : bytes :=
  match t with
  | Lit l => (blen l - 1) :: l
  | Ref off len => if len <? 7 then [off / 256 + 32 * len; off mod 256] else [off / 256 + 224; len - 7; off mod 256]
  end.
Definition sers (ts : list token) : bytes := concat (ser <$> ts).

(** [n] bytes, each the one that is [off + 1] bytes before *)
Fixpoint back (n : nat) (off : nat) (acc : bytes) : option bytes :=
  match n with
  | O => Some acc
  | S n => x ← (assert! (off <? length acc)%nat; acc !! (length acc - S off)%nat); back n off (acc ++ [x])
  end.
Definition expand (acc : bytes) (t : token) : option bytes :=
  match t with Lit l => Some (acc ++ l) | Ref off len => back (Z.to_nat (len + 2)) (Z.to_nat off) acc end.
Fixpoint expands (acc : bytes) (ts : list token) : option bytes :=
  match ts with [] => Some acc | t :: ts => acc ← expand acc t; expands acc ts end.

Lemma sers_cons t ts : sers (t :: ts) = ser t ++ sers ts.
Proof. done. Qed.
Lemma sers_app ts us : sers (ts ++ us) = sers ts ++ sers us.
Proof. unfold sers. by rewrite fmap_app, concat_app. Qed.

Lemma expands_app ts : forall us acc, expands acc (ts ++ us) = (acc ← expands acc ts; expands acc us).
Proof. induction ts as [|t ts IH]; intros us acc; [done|]. cbn. destruct (expand acc t) as [acc'|]; [apply IH|done]. Qed.

(** ** Expansion *)

Lemma back_length n off : forall acc r, back n off acc = Some r -> length r = (length acc + n)%nat /\ acc `prefix_of` r.
Proof.
  induction n as [|n IH]; intros acc r; cbn [back].
  - intros [= <-]. split; [lia|done].
  - destruct (_ : bool); [|done]. destruct (acc !! _) as [x|]; [|done]. rewrite bind_Some. intros H. apply IH in H as [Hl Hp].
    rewrite length_app in Hl. cbn in Hl. split; [lia|]. etrans; [by apply (prefix_app_r acc acc [x])|done].
Qed.

Lemma expand_grows t acc r : token_ok t -> expand acc t = Some r -> acc `prefix_of` r /\ blen acc < blen r.
Proof.
  destruct t as [l|off len]; cbn [token_ok expand]; intros Ht.
  - destruct Ht as [Ht _]. intros [= <-]. split; [by apply prefix_app_r|]. rewrite blen_app. lia.
  - intros H. apply back_length in H as [Hl Hp]. split; [done|]. unfold blen. lia.
Qed.

Lemma expands_grows ts : Forall token_ok ts -> forall acc r, expands acc ts = Some r -> acc `prefix_of` r.
Proof.
  induction 1 as [|t ts Ht Hf IH]; intros acc r; cbn [expands]; [by intros [= ->]|].
  destruct (expand acc t) as [acc'|] eqn:E; [|done]. rewrite bind_Some. intros H. apply expand_grows in E as [Hp _]; [|done]. etrans; [exact Hp|by apply IH].
Qed.

Lemma prefix_blen (a c : bytes) : a `prefix_of` c -> blen a <= blen c.
Proof. intros [x ->]. rewrite blen_app. pose proof (blen_nonneg x). lia. Qed.

(** A match of the input with itself *)
Lemma back_match (b : bytes) n off : forall i, (off < i)%nat -> (i + n <= length b)%nat ->
  (forall j, (j < n)%nat -> b !! (i + j)%nat = b !! (i + j - S off)%nat) -> back n off (take i b) = Some (take (i + n) b).
Proof.
  induction n as [|n IH]; intros i Ho Hl Hm; cbn [back]; [by rewrite Nat.add_0_r|].
  rewrite length_take_le by lia. rewrite (proj2 (Nat.ltb_lt _ _)) by lia. rewrite lookup_take_lt by lia.
  pose proof (Hm 0%nat ltac:(lia)) as H0. rewrite Nat.add_0_r in H0. rewrite <- H0. destruct (b !! i) as [x|] eqn:Ex; [|by apply lookup_ge_None in Ex; lia].
  rewrite bind_Some, <- (take_S_r _ _ x) by done. rewrite (IH (S i)); [f_equal; f_equal; lia|lia|lia|].
  intros j Hj. specialize (Hm (S j) ltac:(lia)). replace (S i + j)%nat with (i + S j)%nat by lia. exact Hm.
Qed.

Lemma ser_nonempty t : 0 < blen (ser t).
Proof. destruct t as [l|off len]; cbn [ser]; [|bcase]; rewrite !blen_cons; [pose proof (blen_nonneg l)| |]; rewrite ?blen_nil; lia. Qed.

Lemma ser_bytes t : token_ok t -> is_bytes (ser t).
Proof.
  destruct t as [l|off len]; cbn [token_ok ser]; intros [H1 H2]; [constructor; [unfold is_byte; lia|done]|].
  bcase; repeat constructor; unfold is_byte; dlia.
Qed.
Lemma sers_bytes ts : Forall token_ok ts -> is_bytes (sers ts).
Proof. induction 1 as [|t ts Ht Hf IH]; [constructor|]. rewrite sers_cons. apply Forall_app. split; [by apply ser_bytes|done]. Qed.

(** ** Decompression *)

Lemma back_total n off : forall acc, (off < length acc)%nat -> exists r, back n off acc = Some r.
Proof.
  induction n as [|n IH]; intros acc Ho; cbn [back]; [by eexists|]. rewrite (proj2 (Nat.ltb_lt _ _)) by done.
  destruct (lookup_lt_is_Some_2 acc (length acc - S off)%nat ltac:(lia)) as [x ->]. rewrite bind_Some. apply IH. rewrite length_app. lia.
Qed.

Lemma back_none n off acc : (0 < n)%nat -> (length acc <= off)%nat -> back n off acc = None.
Proof. intros Hn Ho. destruct n as [|n]; [lia|]. cbn [back]. by rewrite (proj2 (Nat.ltb_ge _ _)) by done. Qed.

Lemma back_disjoint n off : forall acc, (off < length acc)%nat -> (n <= S off)%nat ->
  back n off acc = Some (acc ++ take n (drop (length acc - S off) acc)).
Proof.
  induction n as [|n IH]; intros acc Ho Hn; cbn [back]; [by rewrite take_0, app_nil_r|]. rewrite (proj2 (Nat.ltb_lt _ _)) by done.
  destruct (lookup_lt_is_Some_2 acc (length acc - S off)%nat ltac:(lia)) as [x Ex]. rewrite Ex, bind_Some. rewrite IH; [|rewrite length_app; lia|lia].
  f_equal. rewrite (drop_S _ _ _ Ex), firstn_cons, <- app_assoc, length_app. cbn [length app]. f_equal. f_equal.
  replace (length acc + 1 - S off)%nat with (S (length acc - S off)) by lia. rewrite drop_app_le by lia.
  rewrite take_app_le; [done|]. rewrite length_drop. lia.
Qed.

Lemma copy_octets_ok n off : forall acc r junk ref, back n off acc = Some r -> (n <= length junk)%nat -> ref = blen acc - Z.of_nat (S off) ->
  copy_octets n (acc ++ junk) (blen acc) ref = Some (r ++ drop n junk).
Proof.
  induction n as [|n IH]; intros acc r junk ref; cbn [back copy_octets]; [by intros [= ->]|].
  destruct (Nat.ltb_spec off (length acc)) as [Ho|]; [|done]. destruct (acc !! _) as [x|] eqn:Ex; [|done]. rewrite bind_Some. intros Hb Hj ->.
  destruct junk as [|y junk]; [cbn in Hj; lia|]. cbn [length] in Hj.
  assert (bget (acc ++ y :: junk) (blen acc - Z.of_nat (S off)) = Some x) as ->.
  { apply bget_Some. unfold blen in *. rewrite length_app. split; [cbn; lia|]. rewrite lookup_app_l by lia. rewrite <- Ex. f_equal. lia. }
  rewrite bind_Some, bset_app, bind_Some by done. replace (acc ++ x :: junk) with ((acc ++ [x]) ++ junk) by (by rewrite <- app_assoc).
  replace (blen acc + 1) with (blen (acc ++ [x])) by (by rewrite blen_app). cbn [drop]. apply IH; [done|lia|]. rewrite blen_app. change (blen [x]) with 1. lia.
Qed.

Lemma copy_ref_ok len off acc r junk ref : back (Z.to_nat (len + 2)) (Z.to_nat off) acc = Some r -> 0 <= len -> 0 <= off -> len + 2 <= blen junk ->
  ref = blen acc - off - 1 -> copy_ref (acc ++ junk) (blen acc) ref len = Some (r ++ drop (Z.to_nat (len + 2)) junk).
Proof.
  intros Hb Hl Ho Hj ->. unfold copy_ref. destruct (_ && _) eqn:E; [|apply (copy_octets_ok _ (Z.to_nat off)); [done|unfold blen in Hj; lia|lia]].
  apply andb_true_iff in E as [_ E]. rewrite Z.geb_leb, Z.leb_le in E.
  assert (off < blen acc) as Hoff.
  { destruct (decide (off < blen acc)) as [?|Hn]; [done|]. rewrite back_none in Hb; [done|lia|]. unfold blen in Hn. lia. }
  rewrite back_disjoint in Hb by (unfold blen in *; lia). injection Hb as <-.
  assert (bread (acc ++ junk) (blen acc - off - 1) (len + 2) = Some (take (Z.to_nat (len + 2)) (drop (length acc - S (Z.to_nat off)) acc))) as ->.
  { unfold bread, inside. rewrite blen_app. pose proof (blen_nonneg junk). bdec. unfold blen in *.
    rewrite drop_app_le by lia. rewrite take_app_le by (rewrite length_drop; lia). do 3 f_equal. lia. }
  rewrite bind_Some. destruct (split_blen junk (len + 2) ltac:(lia)) as (j1 & j2 & -> & Hj1).
  rewrite (bwrite_app acc j1 _ j2); [|done|].
  - replace (Z.to_nat (len + 2)) with (length j1) by (unfold blen in Hj1; lia). by rewrite drop_app_length, <- app_assoc.
  - unfold blen in *. rewrite length_take_le by (rewrite length_drop; lia). lia.
Qed.

Section Decompress.
Context (b : bytes) (out_len : Z).
Local Abbreviation loop := (decompress_loop b (blen b) out_len).

(** The result of an error *)
Definition refused (fuel : nat) (pre acc junk : bytes) : Prop := loop fuel (blen pre) (blen acc) (acc ++ junk) = Some (0, acc ++ junk).
(** One turn of the loop reads [t]. *)
Definition accepted (fuel : nat) (pre : bytes) (t : token) (acc junk : bytes) : Prop :=
  exists r junk', expand acc t = Some r /\ blen r <= out_len /\ blen (r ++ junk') = blen (acc ++ junk) /\
    loop (S fuel) (blen pre) (blen acc) (acc ++ junk) = loop fuel (blen (pre ++ ser t)) (blen r) (r ++ junk').

Lemma loop_literal fuel pre l more acc junk : token_ok (Lit l) -> b = pre ++ ser (Lit l) ++ more -> out_len <= blen (acc ++ junk) ->
  if blen acc + blen l <=? out_len then accepted fuel pre (Lit l) acc junk else refused (S fuel) pre acc junk.
Proof.
  cbn [token_ok ser app]. intros [Hl _] Eb Ho. unfold accepted, refused.
  assert (blen b = blen pre + 1 + blen l + blen more) as Elen by (rewrite Eb, blen_app, blen_cons, blen_app; lia). pose proof (blen_nonneg more).
  assert (bget b (blen pre) = Some (blen l - 1)) as Eg by (rewrite Eb; by apply bget_app).
  assert (bread b (blen pre + 1) (blen l) = Some l) as Er.
  { rewrite Eb. replace (pre ++ (blen l - 1) :: l ++ more) with ((pre ++ [blen l - 1]) ++ l ++ more) by (by rewrite <- app_assoc).
    apply bread_app; [by rewrite blen_app|done]. }
  bcase.
  - exists (acc ++ l), (drop (length l) junk). rewrite !blen_app in *. destruct (split_blen junk (blen l) ltac:(lia)) as (j1 & j2 & -> & Hj).
    replace (length l) with (length j1) by (unfold blen in Hj; lia). rewrite drop_app_length, blen_app. split_and!; [done|lia|lia|].
    cbn [decompress_loop]. bdec. rewrite Eg, bind_Some. bdec. replace (blen l - 1 + 1) with (blen l) by lia. bdec.
    rewrite Er, bind_Some, (bwrite_app acc j1 l j2), bind_Some by done. rewrite <- app_assoc. f_equal. cbn [ser]. rewrite blen_cons. lia.
  - cbn [decompress_loop]. bdec. rewrite Eg, bind_Some. bdec. replace (blen l - 1 + 1) with (blen l) by lia. by bdec.
Qed.

(** The fields of the first byte of a reference *)
Lemma ctrl_fields h l : 0 <= h < 32 -> Z.shiftr (h + 32 * l) 5 = l /\ Z.land (h + 32 * l) 31 = h.
Proof.
  intros Hh. rewrite Z.shiftr_div_pow2 by done. change 31 with (2 ^ 5 - 1). rewrite land_ones_mod by done. change (2 ^ 5) with 32. split; dlia.
Qed.

Lemma loop_ref fuel pre off len more acc junk : token_ok (Ref off len) -> b = pre ++ ser (Ref off len) ++ more -> out_len <= blen (acc ++ junk) ->
  if (blen acc + len + 2 <=? out_len) && (off <? blen acc) then accepted fuel pre (Ref off len) acc junk else refused (S fuel) pre acc junk.
Proof.
  cbn [token_ok]. intros (Ho & Hl) Eb Hout. unfold accepted, refused. pose proof (blen_nonneg pre). pose proof (blen_nonneg more).
  set (ip := blen (pre ++ ser (Ref off len))).
  assert (loop (S fuel) (blen pre) (blen acc) (acc ++ junk) =
    if blen acc + len + 2 >? out_len then Some (0, acc ++ junk) else if blen acc - off - 1 <? 0 then Some (0, acc ++ junk)
    else out ← copy_ref (acc ++ junk) (blen acc) (blen acc - off - 1) len; loop fuel ip (blen acc + (len + 2)) out) as ->.
  { subst ip. cbn [decompress_loop ser] in *. assert (0 <= off / 256 < 32) as Hh by dlia. assert (off = 256 * (off / 256) + off mod 256) as Hoff by dlia.
    assert (blen acc - Z.shiftl (off / 256) 8 - 1 - off mod 256 = blen acc - off - 1) as Er by (rewrite Z.shiftl_mul_pow2 by done; lia).
    revert Eb. bcase; cbn [app]; intros Eb.
    - assert (blen b = blen pre + 2 + blen more) as Elen by (rewrite Eb, blen_app, !blen_cons; lia).
      assert (bget b (blen pre) = Some (off / 256 + 32 * len)) as G0 by (rewrite Eb; by apply bget_app).
      assert (bget b (blen pre + 1) = Some (off mod 256)) as G1 by (rewrite Eb; by apply bget_app1).
      destruct (ctrl_fields (off / 256) len Hh) as [E1 E2]. bdec. rewrite G0, bind_Some. bdec. rewrite E1, E2. bdec. rewrite bind_Some. bdec.
      rewrite G1, bind_Some, Er, blen_app, !blen_cons, blen_nil. by replace (blen pre + (1 + (1 + 0))) with (blen pre + 1 + 1) by lia.
    - assert (blen b = blen pre + 3 + blen more) as Elen by (rewrite Eb, blen_app, !blen_cons; lia).
      assert (bget b (blen pre) = Some (off / 256 + 32 * 7)) as G0 by (rewrite Eb; by apply bget_app).
      assert (bget b (blen pre + 1) = Some (len - 7)) as G1 by (rewrite Eb; by apply bget_app1).
      assert (bget b (blen pre + 1 + 1) = Some (off mod 256)) as G2.
      { apply (bget_at _ _ (pre ++ [off / 256 + 224; len - 7]) _ more); [by rewrite Eb, <- app_assoc|]. rewrite blen_app, !blen_cons, blen_nil. lia. }
      destruct (ctrl_fields (off / 256) 7 Hh) as [E1 E2]. bdec. rewrite G0, bind_Some. bdec. rewrite E1, E2. bdec. rewrite G1, !bind_Some. bdec.
      rewrite G2, bind_Some, Er, blen_app, !blen_cons, blen_nil. replace (7 + (len - 7)) with len by lia.
      by replace (blen pre + (1 + (1 + (1 + 0)))) with (blen pre + 1 + 1 + 1) by lia. }
  destruct (_ && _) eqn:E.
  - apply andb_true_iff in E as [E1 E2]. apply Z.leb_le in E1. apply Z.ltb_lt in E2.
    destruct (back_total (Z.to_nat (len + 2)) (Z.to_nat off) acc) as [r Hr]; [unfold blen in E2; lia|].
    rewrite blen_app in Hout. pose proof (back_length _ _ _ _ Hr) as [Hrl _].
    exists r, (drop (Z.to_nat (len + 2)) junk). rewrite !blen_app. split_and!; [done|unfold blen in *; lia|unfold blen in *; rewrite length_drop; lia|].
    assert ((blen acc + len + 2 >? out_len) = false) as -> by lia. bdec.
    rewrite (copy_ref_ok len off acc r junk), bind_Some by (done || lia). f_equal. unfold blen. lia.
  - destruct (blen acc + len + 2 >? out_len) eqn:E1; [done|]. destruct (Z.ltb_spec (blen acc - off - 1) 0); [done|].
    exfalso. apply andb_false_iff in E. lia.
Qed.

Lemma loop_token fuel pre t more acc junk : token_ok t -> b = pre ++ ser t ++ more -> out_len <= blen (acc ++ junk) ->
  accepted fuel pre t acc junk \/ refused (S fuel) pre acc junk /\ forall r, expand acc t = Some r -> out_len < blen r.
Proof.
  destruct t as [l|off len]; intros Ht Eb Ho.
  - pose proof (loop_literal fuel pre l more acc junk Ht Eb Ho) as H. revert H. bcase; intros H; [by left|right]. split; [done|].
    intros r [= <-]. rewrite blen_app. lia.
  - pose proof (loop_ref fuel pre off len more acc junk Ht Eb Ho) as H. destruct (_ && _) eqn:E; [by left|right]. split; [done|].
    cbn [expand token_ok] in *. intros r Hr. destruct (decide (off < blen acc)) as [Hoff|Hoff].
    + pose proof (back_length _ _ _ _ Hr) as [Hl _]. apply andb_false_iff in E. unfold blen in *. lia.
    + rewrite back_none in Hr; [done|lia|]. unfold blen in Hoff. lia.
Qed.

(** The input ends within a token. *)
Definition truncated (rest : bytes) : Prop :=
  match rest with
  | [] => False
  | c :: r => if c <? 32 then blen r < c + 1 else r = [] \/ 224 <= c /\ blen r = 1
  end.

Lemma loop_truncated fuel pre rest acc junk : b = pre ++ rest -> is_bytes rest -> truncated rest -> refused (S fuel) pre acc junk.
Proof.
  destruct rest as [|c r]; [done|]. intros Eb Hb Ht. apply Forall_cons in Hb as [Hc Hb]. unfold is_byte in Hc. unfold refused. cbn [decompress_loop truncated] in *.
  assert (blen b = blen pre + 1 + blen r) as Elen by (rewrite Eb, blen_app, blen_cons; lia). pose proof (blen_nonneg r).
  assert (bget b (blen pre) = Some c) as G0 by (rewrite Eb; by apply bget_app). bdec. rewrite G0, bind_Some. revert Ht. bcase; intros Ht.
  - bdec. destruct (_ >? out_len); [done|]. by bdec.
  - bdec. destruct Ht as [->|[Hc2 Hr]]; [rewrite blen_nil in *; by bdec|]. bdec.
    assert (Z.shiftr c 5 = 7) as -> by (rewrite Z.shiftr_div_pow2 by done; change (2 ^ 5) with 32; dlia). bdec.
    destruct r as [|x [|y r]]; [done| |rewrite !blen_cons in Hr; pose proof (blen_nonneg r); lia].
    assert (bget b (blen pre + 1) = Some x) as -> by (rewrite Eb; by apply bget_app1). rewrite !bind_Some. by bdec.
Qed.

Lemma parse_token rest : is_bytes rest -> rest <> [] -> (exists t more, token_ok t /\ rest = ser t ++ more) \/ truncated rest.
Proof.
  destruct rest as [|c r]; [done|]. intros Hb _. apply Forall_cons in Hb as [Hc Hb]. unfold is_byte in Hc. cbn [truncated]. bcase.
  - destruct (decide (blen r < c + 1)) as [Hr|Hr]; [by right|left]. destruct (split_blen r (c + 1) ltac:(lia)) as (l & more & -> & Hl).
    apply Forall_app in Hb as [Hb _]. exists (Lit l), more. cbn. rewrite Hl. split; [split; [lia|done]|]. f_equal. lia.
  - destruct r as [|x r]; [right; by left|]. apply Forall_cons in Hb as [Hx Hb]. unfold is_byte in Hx.
    destruct (decide (c < 224)) as [Hl|Hl].
    + left. exists (Ref (256 * (c mod 32) + x) (c / 32)), r. cbn [token_ok ser]. split; [split; dlia|]. assert (c / 32 < 7) by dlia. bdec. cbn. f_equal; [dlia|f_equal; dlia].
    + destruct r as [|y r]; [right; right; split; [lia|done]|left]. apply Forall_cons in Hb as [Hy Hb]. unfold is_byte in Hy.
      exists (Ref (256 * (c mod 32) + y) (7 + x)), r. cbn [token_ok ser]. split; [split; dlia|]. bdec. cbn. f_equal; [dlia|f_equal; [lia|f_equal; dlia]].
Qed.

Lemma ser_not_truncated t more : token_ok t -> ~ truncated (ser t ++ more).
Proof.
  pose proof (blen_nonneg more). destruct t as [l|off len]; cbn [token_ok ser app truncated].
  - intros [Hl _]. bdec. rewrite blen_app. lia.
  - intros (Ho & Hl). bcase; cbn [app truncated].
    + assert (32 <= off / 256 + 32 * len < 224) by dlia. bdec. intros [?|[? _]]; [done|lia].
    + assert (224 <= off / 256 + 224) by dlia. bdec. rewrite !blen_cons. intros [?|[_ ?]]; [done|lia].
Qed.

Lemma ser_inj t t' m m' : token_ok t -> token_ok t' -> ser t ++ m = ser t' ++ m' -> t = t' /\ m = m'.
Proof.
  destruct t as [l|off len], t' as [l'|off' len']; cbn [token_ok ser app]; intros Ht Ht'.
  - intros [= E1 E2]. apply app_inj_1 in E2 as [-> ->]; [done|]. unfold blen in E1. lia.
  - destruct Ht' as [Ho Hl]. bcase; cbn [app]; intros [= E1 _]; exfalso; dlia.
  - destruct Ht as [Ho Hl]. bcase; cbn [app]; intros [= E1 _]; exfalso; dlia.
  - destruct Ht as [Ho Hl], Ht' as [Ho' Hl']. bcase; [bcase|bcase]; cbn [app].
    + intros [= E1 E2 ->]. split; [|done]. f_equal; dlia.
    + intros [= E1 _]. exfalso. dlia.
    + intros [= E1 _]. exfalso. dlia.
    + intros [= E1 E2 E3 ->]. split; [|done]. f_equal; dlia.
Qed.

Lemma sers_inj ts : Forall token_ok ts -> forall us, Forall token_ok us -> sers ts = sers us -> ts = us.
Proof.
  induction 1 as [|t ts Ht Hf IH]; intros us Hus; destruct Hus as [|u us Hu Hus]; [done|by destruct u; cbn; try destruct (_ : bool)|by destruct t; cbn; try destruct (_ : bool)|].
  rewrite !sers_cons. intros E. destruct (ser_inj t u _ _ Ht Hu E) as [-> E']. f_equal. by apply IH.
Qed.

(** [rest] is a sequence of tokens whose expansion fits. *)
Definition valid (rest acc r : bytes) : Prop := exists ts, Forall token_ok ts /\ rest = sers ts /\ expands acc ts = Some r /\ blen r <= out_len.

Lemma not_valid_nil rest acc : rest <> [] -> (forall t more, token_ok t -> rest = ser t ++ more -> forall r, expand acc t = Some r -> out_len < blen r) ->
  forall r, ~ valid rest acc r.
Proof.
  intros Hne H r (ts & Hts & -> & He & Hle). destruct ts as [|t ts]; [done|]. apply Forall_cons in Hts as [Ht Hts]. cbn [expands] in He.
  destruct (expand acc t) as [r1|] eqn:E; [|done]. rewrite bind_Some in He. specialize (H t (sers ts) Ht eq_refl r1 E).
  pose proof (prefix_blen _ _ (expands_grows _ Hts _ _ He)). lia.
Qed.

Lemma loop_ok fuel : forall pre rest acc junk, b = pre ++ rest -> is_bytes rest -> out_len <= blen (acc ++ junk) -> blen acc <= out_len -> (length rest < fuel)%nat ->
  exists n out', loop fuel (blen pre) (blen acc) (acc ++ junk) = Some (n, out') /\ blen out' = blen (acc ++ junk) /\
    ((exists r, valid rest acc r /\ n = blen r /\ r `prefix_of` out') \/ n = 0 /\ forall r, ~ valid rest acc r).
Proof.
  induction fuel as [|fuel IH]; intros pre rest acc junk Eb Hb Ho Hacc Hf; [lia|].
  destruct (decide (rest = [])) as [->|Hne].
  { exists (blen acc), (acc ++ junk). cbn [decompress_loop]. rewrite Eb, app_nil_r. bdec. split_and!; [done|done|]. left. exists acc.
    split_and!; [exists []; by split_and!|done|by apply prefix_app_r]. }
  destruct (parse_token rest Hb Hne) as [(t & more & Ht & ->)|Htr].
  2:{ exists 0, (acc ++ junk). split_and!; [by apply (loop_truncated _ _ rest)|done|]. right. split; [done|]. apply not_valid_nil; [done|].
      intros t more Ht -> r _. by destruct (ser_not_truncated t more Ht). }
  destruct (loop_token fuel pre t more acc junk Ht Eb Ho) as [(r & junk' & He & Hr & Hl & ->)|[Href Hno]].
  - rewrite app_assoc in Eb. apply Forall_app in Hb as [_ Hb]. rewrite length_app in Hf.
    pose proof (ser_nonempty t) as Hser. unfold blen in Hser.
    destruct (IH (pre ++ ser t) more r junk' Eb Hb ltac:(lia) Hr ltac:(lia)) as (n & out' & -> & Hl' & Hv). exists n, out'. split_and!; [done|lia|].
    destruct Hv as [(r' & (ts & Hts & -> & Hes & Hle) & Hn & Hp)|[Hn Hno]]; [left|right].
    + exists r'. split_and!; [|done|done]. exists (t :: ts). split_and!; [by constructor|done| |done]. cbn [expands]. by rewrite He.
    + split; [done|]. intros r' (ts & Hts & E & Hes & Hle). destruct ts as [|t' ts]; [by destruct (ser t)|]. apply Forall_cons in Hts as [Ht' Hts].
      rewrite sers_cons in E. destruct (ser_inj t t' more (sers ts) Ht Ht' E) as [Et Em]. cbn [expands] in Hes. rewrite <- Et in Hes. rewrite He, bind_Some in Hes.
      apply (Hno r'). by exists ts.
  - exists 0, (acc ++ junk). split_and!; [done|done|]. right. split; [done|]. apply not_valid_nil; [done|].
    intros t' more' Ht' E. destruct (ser_inj t t' more more' Ht Ht' E) as [Et _]. by rewrite <- Et.
Qed.

End Decompress.

(** Decompression of any bytes stays inside the buffers, and gives the expansion
    of the input when it is a sequence of tokens whose expansion fits. *)
Lemma lzf_decompress_ok b out out_len : is_bytes b -> 0 <= out_len <= blen out ->
  exists n out', lzf_decompress b (blen b) out_len out = Some (n, out') /\ blen out' = blen out /\
    ((exists r, valid out_len b [] r /\ n = blen r /\ r `prefix_of` out') \/ n = 0 /\ forall r, ~ valid out_len b [] r).
Proof. intros Hb Ho. apply (loop_ok b out_len (S (Z.to_nat (blen b))) [] b [] out); [done|done|apply Ho|rewrite blen_nil; lia|unfold blen; lia]. Qed.

End LzfSpec.
