(* ===== verification/LzfSafety.v ===== *)
(** What compression promises: it stays inside its buffers, and what it writes
    decompresses to its input. *)

From S2P Require Import Prelude Lzf LzfSpec.

Module LzfSafety.
Import Lzf LzfSpec.

Section Compress.
Context (b : bytes) (in_len out_len : Z).
Context (Hin : 0 <= in_len <= blen b) (Hin32 : in_len < 2 ^ 32) (Hb : is_bytes b).
Local Abbreviation FRST := (FRST b).
Local Abbreviation NEXT := (NEXT b).
Local Abbreviation is_match := (is_match b).
Local Abbreviation unrolled := (unrolled b).
Local Abbreviation extend := (extend b).
Local Abbreviation match_len := (match_len b in_len).
Local Abbreviation put_literal := (put_literal b).
Local Abbreviation put_match := (put_match b in_len out_len).
Local Abbreviation main_loop := (main_loop b in_len out_len).
Local Abbreviation tail_loop := (tail_loop b in_len).

(** ** The hash table *)

Definition table_ok (t : htab) : Prop := forall i, in_uint 32 (t i).

Lemma set_slot_ok t i p : table_ok t -> table_ok (set_slot t i p).
Proof. intros H j. unfold set_slot. bcase; [by apply uint_range|apply H]. Qed.

Lemma FRST_ok p : 0 <= p -> p + 2 <= blen b -> exists h, FRST p = Some h.
Proof.
  intros Hp Hl. unfold Lzf.FRST. destruct (bget_is_Some b p ltac:(lia)) as [x ->], (bget_is_Some b (p + 1) ltac:(lia)) as [y ->]. by eexists.
Qed.
Lemma NEXT_ok v p : 0 <= p -> p + 3 <= blen b -> exists h, NEXT v p = Some h.
Proof. intros Hp Hl. unfold Lzf.NEXT. destruct (bget_is_Some b (p + 2) ltac:(lia)) as [x ->]. by eexists. Qed.

(** ** Matches *)

(** The first [n] bytes at [ref] and at [ip] are the same. *)
Definition same (ip ref n : Z) : Prop := forall j, 0 <= j < n -> bget b (ref + j) = bget b (ip + j).

Lemma same_S ip ref n x : same ip ref n -> bget b (ref + n) = Some x -> bget b (ip + n) = Some x -> same ip ref (n + 1).
Proof. intros H H1 H2 j Hj. destruct (decide (j = n)) as [->|]; [by rewrite H1, H2|apply H; lia]. Qed.

Lemma is_match_ok ip ref : 0 <= ip -> ip + 3 <= in_len -> in_uint 32 ref ->
  exists m, is_match ip ref = Some m /\ (m = true -> 0 <= ip - ref - 1 < MAX_OFF /\ 0 < ref /\ uint 64 (ip - ref - 1) = ip - ref - 1 /\ same ip ref 3).
Proof.
  intros Hp Hl Hr. unfold Lzf.is_match, in_uint in *. destruct (_ && _) eqn:E; [|by exists false]. apply andb_true_iff in E as [E1 E2].
  assert (0 <= ip - ref - 1 < MAX_OFF /\ uint 64 (ip - ref - 1) = ip - ref - 1) as [Hoff Eu].
  { unfold uint, MAX_OFF in *. apply Z.ltb_lt in E1. destruct (decide (0 <= ip - ref - 1)) as [H|H]; [rewrite Z.mod_small in * by lia; lia|].
    exfalso. rewrite <- (Z_mod_plus_full _ 1), Z.mod_small in E1 by lia. lia. }
  destruct (bget_is_Some b (ref + 2) ltac:(lia)) as [r2 Er2], (bget_is_Some b (ip + 2) ltac:(lia)) as [p2 Ep2]. rewrite Er2, Ep2, !bind_Some.
  bcase; [|by exists false].
  destruct (bget_is_Some b ref ltac:(lia)) as [r0 Er0], (bget_is_Some b (ref + 1) ltac:(lia)) as [r1 Er1].
  destruct (bget_is_Some b ip ltac:(lia)) as [p0 Ep0], (bget_is_Some b (ip + 1) ltac:(lia)) as [p1 Ep1]. rewrite Er0, Er1, Ep0, Ep1, !bind_Some.
  eexists. split; [done|]. intros Em. apply andb_true_iff in Em as [Em0 Em1]. apply Z.eqb_eq in Em0, Em1. subst. split_and!; [lia|lia|lia|done|].
  intros j Hj. assert (j = 0 \/ j = 1 \/ j = 2) as [-> | [-> | ->]] by lia; rewrite ?Z.add_0_r; congruence.
Qed.

Lemma unrolled_ok ip ref n : forall len, 0 <= ref < ip -> 0 <= len -> ip + len + Z.of_nat n < in_len -> same ip ref (len + 1) ->
  exists len' go, unrolled n ip ref len = Some (len', go) /\ len <= len' <= len + Z.of_nat n /\
    (if go : bool then len' = len + Z.of_nat n /\ same ip ref (len' + 1) else len < len' /\ same ip ref len').
Proof.
  induction n as [|n IH]; intros len Hr Hl Hlt Hs; cbn [Lzf.unrolled].
  { exists len, true. split_and!; (done || lia). }
  destruct (bget_is_Some b (ref + (len + 1)) ltac:(lia)) as [x Ex], (bget_is_Some b (ip + (len + 1)) ltac:(lia)) as [y Ey]. rewrite Ex, Ey, !bind_Some.
  bcase; [exists (len + 1), false; split_and!; (done || lia)|]. subst y.
  destruct (IH (len + 1) Hr ltac:(lia) ltac:(lia) (same_S _ _ _ x Hs Ex Ey)) as (len' & go & -> & Hl' & Hg). exists len', go. split_and!; [done|lia|lia|].
  destruct go; destruct Hg; split; (done || lia).
Qed.

Lemma extend_ok ip ref maxlen fuel : forall len, 0 <= ref < ip -> 0 <= len -> ip + maxlen <= in_len -> same ip ref (len + 1) -> maxlen - len < Z.of_nat fuel -> (0 < fuel)%nat ->
  exists len', extend fuel ip ref maxlen len = Some len' /\ len < len' /\ (len' <= len + 1 \/ len' <= maxlen) /\ same ip ref len'.
Proof.
  induction fuel as [|fuel IH]; intros len Hr Hl Hm Hs Hf Hf0; cbn [Lzf.extend]; [lia|].
  bcase; [|exists (len + 1); split_and!; (done || lia)].
  destruct (bget_is_Some b (ref + (len + 1)) ltac:(lia)) as [x Ex], (bget_is_Some b (ip + (len + 1)) ltac:(lia)) as [y Ey]. rewrite Ex, Ey, !bind_Some.
  bcase; [|exists (len + 1); split_and!; (done || lia)]. subst y.
  destruct (IH (len + 1) Hr ltac:(lia) Hm (same_S _ _ _ x Hs Ex Ey) ltac:(lia) ltac:(lia)) as (len' & -> & H1 & H2 & H3). exists len'. split_and!; (done || lia).
Qed.

Lemma match_len_ok ip ref : 0 <= ref < ip -> ip + 3 <= in_len -> same ip ref 3 ->
  exists len, match_len ip ref = Some len /\ 3 <= len <= MAX_REF /\ ip + len <= in_len /\ same ip ref len.
Proof.
  intros Hr Hl Hs. unfold Lzf.match_len, MAX_REF. cbn zeta. change (2 ^ 8 + 2 ^ 3) with 264.
  set (maxlen := if in_len - ip - 2 >? 264 then 264 else in_len - ip - 2).
  assert (maxlen <= in_len - ip - 2 /\ 1 <= maxlen <= 264) as Hm by (unfold maxlen; destruct (_ >? _) eqn:E; lia). clearbody maxlen.
  destruct (maxlen >? 16) eqn:E.
  - destruct (unrolled_ok ip ref 16 2 Hr ltac:(lia) ltac:(lia) Hs) as (len & go & -> & Hlen & Hg). rewrite bind_Some. destruct go; destruct Hg as [Hg Hs'].
    + destruct (extend_ok ip ref maxlen (S (Z.to_nat maxlen)) len Hr ltac:(lia) ltac:(lia) Hs' ltac:(lia) ltac:(lia)) as (len' & -> & H1 & H2 & H3).
      exists len'. split_and!; (done || lia).
    + exists len. split_and!; (done || lia).
  - rewrite bind_Some. destruct (extend_ok ip ref maxlen (S (Z.to_nat maxlen)) 2 Hr ltac:(lia) ltac:(lia) Hs ltac:(lia) ltac:(lia)) as (len' & -> & H1 & H2 & H3).
    exists len'. split_and!; (done || lia).
Qed.

(** ** The output *)

(** What does not depend on the run of literals *)
Record common (s : state) : Prop := Common {
  co_ip : 0 <= ip s <= in_len;
  co_len : out_len <= blen (out s);
  co_table : table_ok (table s) }.

(** The output is the tokens [ts], which expand to the input that was read. *)
Definition closed (s : state) (ts : list token) : Prop :=
  common s /\ Forall token_ok ts /\ expands [] ts = Some (take (Z.to_nat (ip s)) b) /\ op s = blen (sers ts) /\ sers ts `prefix_of` out s.

(** A run is open: its header and the literals [lits] follow the tokens. *)
Record inv (s : state) (ts : list token) (lits : bytes) : Prop := Inv {
  inv_common : common s;
  inv_ts : Forall token_ok ts;
  inv_exp : exists e, expands [] ts = Some e /\ e ++ lits = take (Z.to_nat (ip s)) b;
  inv_lit : lit s = blen lits;
  inv_op : op s = blen (sers ts) + 1 + lit s;
  inv_out : exists junk, out s = sers ts ++ junk /\ (op s <= blen (out s) -> exists h rest, junk = h :: lits ++ rest) }.

Lemma start_run_ok s ts : closed s ts -> inv (start_run s) ts [].
Proof.
  intros ([Hi Hl Ht] & Hts & He & Hop & [junk Hj]). split; cbn; [by split|done| |done|lia|].
  - eexists. split; [exact He|]. by rewrite app_nil_r.
  - exists junk. split; [done|]. rewrite Hj, blen_app, Hop. intros Hle. destruct junk as [|h junk]; [rewrite blen_nil in Hle; lia|]. by exists h, junk.
Qed.

Definition run_token (lits : bytes) : list token := match lits with [] => [] | _ => [Lit lits] end.

Lemma lits_bytes (e lits : bytes) n : e ++ lits = take n b -> is_bytes lits.
Proof. intros E. assert (is_bytes (take n b)) as H by (by apply Forall_take). rewrite <- E in H. by apply Forall_app in H as [_ ?]. Qed.

(** The same state, but for the output *)
Definition keeps (s s' : state) : Prop := ip s' = ip s /\ hval s' = hval s /\ table s' = table s /\ blen (out s') = blen (out s).

Lemma common_keeps s s' : common s -> keeps s s' -> common s'.
Proof. intros [? ? ?] (E1 & E2 & E3 & E4). split; [by rewrite E1|by rewrite E4|by rewrite E3]. Qed.

Lemma stop_ok s ts lits : inv s ts lits -> lit s <= 32 -> op s <= blen (out s) ->
  exists s', stop_run s = Some s' /\ keeps s (undo_run s') /\ closed (undo_run s') (ts ++ run_token lits) /\ lit s' = lit s /\ op s' = op s.
Proof.
  intros [Hco Hts (e & He & Hel) Hlit Hop (junk & Ho & Hj)] Hl Hr. destruct (Hj Hr) as (h & rest & ->). unfold stop_run.
  assert (op s - lit s - 1 = blen (sers ts)) as -> by lia. rewrite Ho, bset_app, bind_Some by done. eexists. split; [done|].
  assert (keeps s (undo_run (State (ip s) (op s) (lit s) (hval s) (table s) (sers ts ++ uint 8 (lit s - 1) :: lits ++ rest)))) as Hk.
  { split_and!; try done. cbn. by rewrite Ho, !blen_app, !blen_cons. }
  split_and!; [done| |done|done]. split; [by eapply common_keeps|]. cbn. pose proof (lits_bytes _ _ _ Hel) as Hlb. destruct lits as [|x lits].
  - cbn [run_token]. rewrite app_nil_r in Hel. rewrite app_nil_r. rewrite blen_nil in Hlit.
    split_and!; [done|by rewrite He, Hel|bdec; lia|by apply prefix_app_r].
  - cbn [run_token]. set (l := x :: lits) in *. assert (1 <= blen l) by (unfold l; rewrite blen_cons; pose proof (blen_nonneg lits); lia).
    rewrite sers_app, expands_app, He. cbn [sers fmap list_fmap concat ser]. rewrite app_nil_r. bdec. rewrite uint_small by (unfold in_uint; lia). split_and!.
    + apply Forall_app. split; [done|]. constructor; [|constructor]. split; [lia|done].
    + cbn. by rewrite Hel.
    + rewrite blen_app, blen_cons. lia.
    + rewrite Hlit. apply prefix_app, prefix_cons. by apply prefix_app_r.
Qed.

Definition holds (s : state) (pre : bytes) : Prop := op s = blen pre /\ pre `prefix_of` out s.

Lemma lzf_put_ok s pre v : holds s pre -> op s < blen (out s) ->
  exists s', put s v = Some s' /\ holds s' (pre ++ [uint 8 v]) /\ keeps s s' /\ op s' = op s + 1 /\ lit s' = lit s.
Proof.
  intros [Hop [junk Ho]] Hlt. rewrite Ho, blen_app in Hlt. destruct junk as [|y junk]; [rewrite blen_nil in Hlt; lia|]. unfold put.
  rewrite Ho, Hop, bset_app, bind_Some by done. eexists. split; [done|]. split; [split; cbn; [by rewrite blen_app|exists junk; by rewrite <- app_assoc]|].
  split; [|done]. split_and!; try done. cbn. by rewrite Ho, !blen_app, !blen_cons.
Qed.

Lemma out_keeps_trans s1 s2 s3 : keeps s1 s2 -> keeps s2 s3 -> keeps s1 s3.
Proof. unfold keeps. intros (-> & -> & -> & ->) (-> & -> & -> & ->). done. Qed.

(** The bytes of a reference *)
Definition put_ref (s : state) (off len : Z) : option state :=
  s ← (if len <? 7 then put s (Z.shiftr off 8 + Z.shiftl len 5)
       else s ← put s (Z.shiftr off 8 + Z.shiftl 7 5); put s (len - 7));
  put s off.

Lemma put_ref_ok s pre off len : holds s pre -> token_ok (Ref off len) -> op s + 3 <= blen (out s) ->
  exists s', put_ref s off len = Some s' /\ holds s' (pre ++ ser (Ref off len)) /\ keeps s s' /\ op s < op s' <= op s + 3.
Proof.
  intros Hh (Hoff & Hlen) Hr. unfold put_ref. cbn [ser]. rewrite !Z.shiftl_mul_pow2, Z.shiftr_div_pow2 by done. change (2 ^ 8) with 256. change (2 ^ 5) with 32.
  assert (uint 8 off = off mod 256) as Eo by done. bcase.
  - destruct (lzf_put_ok s pre (off / 256 + len * 32) Hh ltac:(lia)) as (s1 & -> & H1 & K1 & O1 & _). rewrite bind_Some.
    pose proof K1 as (_ & _ & _ & L1). destruct (lzf_put_ok s1 _ off H1 ltac:(lia)) as (s2 & -> & H2 & K2 & O2 & _). exists s2. rewrite <- app_assoc, Eo in H2.
    rewrite uint_small in H2 by (unfold in_uint; dlia). cbn [app] in H2. rewrite (Z.mul_comm len 32) in H2. split_and!; [done|done|by eapply out_keeps_trans|lia|lia].
  - destruct (lzf_put_ok s pre (off / 256 + 7 * 32) Hh ltac:(lia)) as (s1 & -> & H1 & K1 & O1 & _). rewrite bind_Some. pose proof K1 as (_ & _ & _ & L1).
    destruct (lzf_put_ok s1 _ (len - 7) H1 ltac:(lia)) as (s2 & -> & H2 & K2 & O2 & _). rewrite bind_Some. pose proof K2 as (_ & _ & _ & L2).
    destruct (lzf_put_ok s2 _ off H2 ltac:(lia)) as (s3 & -> & H3 & K3 & O3 & _). exists s3. rewrite <- !app_assoc, Eo in H3.
    rewrite !(uint_small 8) in H3 by (unfold in_uint; dlia). cbn [app] in H3. split_and!; [done|done|exact (out_keeps_trans _ _ _ K1 (out_keeps_trans _ _ _ K2 K3))|lia|lia].
Qed.

Lemma back_of_same ip ref len : 0 <= ref < ip -> 0 <= len -> ip + len <= in_len -> same ip ref len ->
  back (Z.to_nat len) (Z.to_nat (ip - ref - 1)) (take (Z.to_nat ip) b) = Some (take (Z.to_nat (ip + len)) b).
Proof.
  intros Hr Hl Hi Hs. rewrite back_match; [f_equal; f_equal; lia|lia|unfold blen in Hin; lia|].
  intros j Hj. specialize (Hs (Z.of_nat j) ltac:(lia)). unfold bget, inside in Hs. revert Hs. bdec. intros Hs.
  replace (Z.to_nat (ref + Z.of_nat j)) with (Z.to_nat ip + j - S (Z.to_nat (ip - ref - 1)))%nat in Hs by lia.
  replace (Z.to_nat (ip + Z.of_nat j)) with (Z.to_nat ip + j)%nat in Hs by lia. by rewrite Hs.
Qed.

(** ** The steps *)

(** The last field tells how far the output grows: a run that is full is closed. *)
Lemma put_literal_ok s ts lits : inv s ts lits -> lit s < 32 -> op s < blen (out s) -> ip s < in_len ->
  exists s' ts' lits', put_literal s = Some s' /\ inv s' ts' lits' /\ ip s' = ip s + 1 /\ blen (out s') = blen (out s) /\
    (lit s' = lit s + 1 /\ lit s' < 32 /\ op s' = op s + 1 \/ lit s = 31 /\ lit s' = 0 /\ op s' = op s + 2).
Proof.
  intros [[Hi Hl Ht] Hts (e & He & Hel) Hlit Hop (junk & Ho & Hj)] Hlt Hr Hip. destruct (Hj ltac:(lia)) as (h & rest & ->). unfold Lzf.put_literal.
  destruct (bget_is_Some b (ip s) ltac:(lia)) as [x Ex]. rewrite Ex, bind_Some. unfold put. cbn [ip op lit hval table out].
  pose proof Ho as Ho'. rewrite app_comm_cons, app_assoc in Ho'. rewrite Ho', blen_app in Hr.
  assert (op s = blen (sers ts ++ h :: lits)) as Hop' by (rewrite blen_app, blen_cons; lia).
  destruct rest as [|y rest]; [rewrite blen_nil in Hr; lia|]. 
  assert (bset (out s) (op s) (uint 8 x) = Some ((sers ts ++ h :: lits) ++ uint 8 x :: rest)) as -> by (rewrite Ho'; by apply bset_app).
  rewrite !bind_Some. cbn [lit].
  set (s1 := State _ _ _ _ _ _).
  assert (is_byte x) as Hx by (by eapply bget_is_byte).
  assert (inv s1 ts (lits ++ [x])) as H1.
  { subst s1. split; cbn; [split; cbn; [lia| |done]|done| | |lia|].
    - rewrite Ho', !blen_app, !blen_cons in Hl. rewrite !blen_app, !blen_cons. lia.
    - exists e. split; [done|]. apply bget_Some in Ex as [_ Ex]. replace (Z.to_nat (ip s + 1)) with (S (Z.to_nat (ip s))) by lia.
      by rewrite (take_S_r _ _ _ Ex), <- Hel, app_assoc.
    - rewrite blen_app, Hlit. done.
    - exists (h :: lits ++ [x] ++ rest). rewrite uint_small by done. split; [by simplify_list_eq|]. intros _. exists h, rest. by simplify_list_eq. }
  assert (blen (out s1) = blen (out s)) as El by (subst s1; cbn; rewrite Ho', !blen_app, !blen_cons; lia).
  unfold MAX_LIT. change (2 ^ 5) with 32. bcase; [|exists s1, ts, (lits ++ [x]); split_and!; try done; left; subst s1; cbn; lia].
  assert (op s1 <= blen (out s1)) as Hr1 by (rewrite El, Ho', blen_app, blen_cons; pose proof (blen_nonneg rest); subst s1; cbn; lia).
  destruct (stop_ok s1 ts (lits ++ [x]) H1 ltac:(subst s1; cbn; lia) Hr1) as (s2 & -> & (K1 & K2 & K3 & K4) & Hc & Hl2 & Ho2). rewrite bind_Some.
  assert (undo_run s2 = s2) as Eu by (destruct s2; unfold undo_run; cbn in *; subst s1; cbn in *; bdec; f_equal; lia). rewrite Eu in *.
  eexists _, _, _. split; [done|]. split; [by apply start_run_ok|]. cbn. rewrite K1, K4, El. split_and!; try done. right. subst s1; cbn in *; lia.
Qed.

Lemma inv_same s s' ts lits : inv s ts lits -> ip s' = ip s -> op s' = op s -> lit s' = lit s -> out s' = out s -> table_ok (table s') -> inv s' ts lits.
Proof.
  intros [[Hi Hl Ht] Hts He Hlit Hop Ho] E1 E2 E3 E4 Ht'. split; rewrite ?E1, ?E2, ?E3, ?E4; try done. split; rewrite ?E1, ?E4; done.
Qed.

Lemma rehash_ok s ts lits : inv s ts lits -> 2 <= ip s -> ip s + 2 <= blen b -> exists s', rehash b s = Some s' /\ inv s' ts lits /\ ip s' = ip s /\ lit s' = lit s.
Proof.
  intros Hi Hp Hl. unfold rehash. destruct (FRST_ok (ip s - 2) ltac:(lia) ltac:(lia)) as [h ->]. rewrite bind_Some.
  destruct (NEXT_ok h (ip s - 2) ltac:(lia) ltac:(lia)) as [h1 ->]. rewrite bind_Some.
  destruct (NEXT_ok h1 (ip s - 2 + 1) ltac:(lia) ltac:(lia)) as [h2 ->]. rewrite bind_Some. eexists. split; [done|]. split; [|done].
  eapply inv_same; [exact Hi|done|done|done|done|]. cbn. destruct Hi as [[_ _ Ht] _ _ _ _ _]. by apply set_slot_ok, set_slot_ok.
Qed.

(** The reference is written behind the closed tokens. *)
Lemma reference_ok s ts ref len : closed s ts -> 0 <= ip s - ref - 1 < MAX_OFF -> 0 <= ref -> 3 <= len <= MAX_REF -> ip s + len <= in_len -> same (ip s) ref len ->
  op s + 3 <= blen (out s) ->
  exists s', put_ref s (ip s - ref - 1) (len - 2) = Some s' /\ keeps s s' /\
    inv (set_ip (start_run s') (ip s + len)) (ts ++ [Ref (ip s - ref - 1) (len - 2)]) [].
Proof.
  intros (Hco & Hts & He & Hop & Ho) Hoff Hr Hlen Hi Hs Hroom. unfold MAX_OFF, MAX_REF in *. set (off := ip s - ref - 1) in *.
  assert (token_ok (Ref off (len - 2))) as Ht by (split; lia).
  destruct (put_ref_ok s (sers ts) off (len - 2) (conj Hop Ho) Ht Hroom) as (s' & -> & Hh & Hk & Ho'). exists s'. split_and!; [done|done|].
  set (s1 := State (ip s + len) (op s') 0 (hval s') (table s') (out s')).
  apply (start_run_ok s1). pose proof Hk as (K1 & K2 & K3 & K4). destruct Hco as [Hci Hcl Hct]. split; [split; cbn; [lia|lia|by rewrite K3]|].
  split; [apply Forall_app; split; [done|by constructor]|]. split; [|split].
  - rewrite expands_app, He. cbn [mbind option_bind expands expand]. replace (len - 2 + 2) with len by lia.
    unfold off. rewrite back_of_same by (done || lia). done.
  - cbn. rewrite sers_app. unfold sers at 2. cbn [fmap list_fmap concat]. rewrite app_nil_r. apply Hh.
  - cbn. rewrite sers_app. unfold sers at 2. cbn [fmap list_fmap concat]. rewrite app_nil_r. apply Hh.
Qed.

Definition flow_ok (s : state) (f : flow) : Prop :=
  match f with
  | Return0 => True
  | Break s' => in_len - 2 <= ip s' /\ lit s' < 32 /\ exists ts lits, inv s' ts lits
  | Continue s' => ip s < ip s' /\ lit s' < 32 /\ exists ts lits, inv s' ts lits
  end.

Lemma put_match_ok s ts lits ref : inv s ts lits -> lit s < 32 -> ip s + 3 <= in_len -> 0 <= ip s - ref - 1 < MAX_OFF -> 0 < ref ->
  uint 64 (ip s - ref - 1) = ip s - ref - 1 -> same (ip s) ref 3 ->
  exists f, put_match s ref = Some f /\ flow_ok s f.
Proof.
  intros Hinv Hlit Hip Hoff Href Eu Hs. unfold Lzf.put_match. rewrite Eu. cbn zeta. destruct (_ && _) eqn:E; [by exists Return0|].
  assert (op s - (if lit s =? 0 then 1 else 0) + 4 < out_len) as Hroom by (apply andb_false_iff in E; destruct (lit s =? 0); lia).
  pose proof Hinv as [[Hci Hcl Hct] _ _ _ _ _]. assert (op s <= blen (out s)) as Hop by (destruct (lit s =? 0); lia).
  destruct (stop_ok s ts lits Hinv ltac:(lia) Hop) as (s1 & -> & Hk & Hc & Hl1 & Ho1). rewrite bind_Some. pose proof Hk as (K1 & _ & _ & K4). rewrite K1.
  destruct (match_len_ok (ip s) ref ltac:(lia) Hip Hs) as (len & -> & Hlen & Hi & Hs'). rewrite bind_Some.
  assert (op (undo_run s1) + 3 <= blen (out (undo_run s1))) as Hroom' by (rewrite K4; cbn; rewrite Hl1, Ho1; lia).
  rewrite <- K1 in Hoff, Hi, Hs'. destruct (reference_ok (undo_run s1) _ ref len Hc Hoff ltac:(lia) Hlen Hi Hs' Hroom') as (s2 & Es2 & K2 & Hinv2).
  rewrite K1 in *. unfold put_ref in Es2. destruct (if len - 2 <? 7 then _ else _) as [s3|]; [|done]. rewrite bind_Some in Es2. rewrite bind_Some, Es2, bind_Some.
  pose proof K2 as (Ki & _). rewrite Ki, K1. replace (ip s + 1 + (len - 2 + 1)) with (ip s + len) by lia. cbn [ip set_ip].
  destruct (ip s + len >=? in_len - 2) eqn:Eb; [eexists; split; [done|]; cbn; split_and!; [lia|lia|by eexists _, _]|].
  destruct (rehash_ok _ _ _ Hinv2 ltac:(cbn; lia) ltac:(cbn; lia)) as (s4 & -> & Hinv4 & Hi4 & Hl4). rewrite bind_Some. eexists. split; [done|].
  cbn in *. split_and!; [lia|lia|by eexists _, _].
Qed.

Lemma main_loop_ok fuel : forall s ts lits, inv s ts lits -> lit s < 32 -> in_len - ip s < Z.of_nat fuel ->
  exists r, main_loop fuel s = Some r /\
    match r with None => True | Some s' => in_len - 2 <= ip s' /\ lit s' < 32 /\ exists ts lits, inv s' ts lits end.
Proof.
  induction fuel as [|fuel IH]; intros s ts lits Hinv Hlit Hf; pose proof Hinv as [[Hci Hcl Hct] _ _ _ _ _]; [lia|]. cbn [Lzf.main_loop].
  bcase; [eexists; split; [done|]; split_and!; [lia|done|by eexists _, _]|].
  destruct (NEXT_ok (hval s) (ip s) ltac:(lia) ltac:(lia)) as [h ->]. rewrite bind_Some. cbn zeta.
  set (s1 := State (ip s) (op s) (lit s) h (set_slot (table s) (IDX h) (ip s)) (out s)).
  assert (inv s1 ts lits) as H1 by (eapply inv_same; [exact Hinv|done|done|done|done|by apply set_slot_ok]).
  destruct (is_match_ok (ip s1) (table s (IDX h)) ltac:(cbn; lia) ltac:(cbn; lia) (Hct (IDX h))) as (m & -> & Hm). rewrite bind_Some. destruct m.
  - destruct (Hm eq_refl) as (Hoff & Href & Eu & Hs).
    destruct (put_match_ok s1 ts lits _ H1 ltac:(cbn; lia) ltac:(cbn; lia) Hoff Href Eu Hs) as (f & -> & Hfl). rewrite bind_Some.
    destruct f as [|s2|s2]; [by eexists|by eexists|]. destruct Hfl as (Hi & Hl & ts2 & lits2 & H2). eapply IH; [exact H2|done|]. cbn in Hi. lia.
  - destruct (op s1 >=? out_len) eqn:Eo; [by eexists|].
    destruct (put_literal_ok s1 ts lits H1 ltac:(cbn; lia) ltac:(cbn in *; lia) ltac:(cbn; lia)) as (s2 & ts2 & lits2 & -> & H2 & Hi & _ & Hl).
    rewrite bind_Some. eapply IH; [exact H2|lia|]. cbn in Hi. lia.
Qed.

Lemma lzf_tail_loop_ok fuel : forall s ts lits, inv s ts lits -> lit s < 32 -> in_len - ip s <= 2 -> in_len - ip s < Z.of_nat fuel ->
  op s + (in_len - ip s) + (if 32 <=? lit s + (in_len - ip s) then 1 else 0) <= out_len ->
  exists s' ts' lits', tail_loop fuel s = Some s' /\ inv s' ts' lits' /\ lit s' < 32 /\ ip s' = in_len /\ op s' <= out_len.
Proof.
  induction fuel as [|fuel IH]; intros s ts lits Hinv Hlit Hip Hf Ho; pose proof Hinv as [[Hci Hcl Hct] _ _ _ _ _]; [lia|]. cbn [Lzf.tail_loop].
  bcase; [|exists s, ts, lits; split_and!; try done; [lia|destruct (_ <=? _); lia]].
  assert (op s < blen (out s)) as Hop by (destruct (_ <=? _); lia).
  destruct (put_literal_ok s ts lits Hinv Hlit Hop E) as (s2 & ts2 & lits2 & -> & H2 & Hi & Hl2 & Hl). rewrite bind_Some.
  eapply IH; [exact H2|lia|lia|lia|]. destruct (Z.leb_spec 32 (lit s2 + (in_len - ip s2))), (Z.leb_spec 32 (lit s + (in_len - ip s))); lia.
Qed.

Lemma closed_end s ts : closed s ts -> ip s = in_len -> 0 < in_len ->
  0 < op s /\ take (Z.to_nat (op s)) (out s) = sers ts /\ expands [] ts = Some (take (Z.to_nat in_len) b).
Proof.
  intros (Hco & Hts & He & Hop & [x Ho]) Hi Hin0. rewrite Hi in He. split_and!; [|by rewrite Hop, Ho, to_nat_blen, take_app_length|done].
  destruct ts as [|t ts]; [|rewrite Hop, sers_cons, blen_app; pose proof (blen_nonneg (sers ts)); pose proof (ser_nonempty t); lia].
  cbn in He. injection He as He. apply (f_equal length) in He. rewrite length_take_le in He; [cbn in He; lia|unfold blen in Hin; lia].
Qed.

Lemma lzf_compress_ok t out0 : table_ok t -> 2 <= blen b -> 0 <= out_len <= blen out0 ->
  exists n out', lzf_compress b in_len out_len t out0 = Some (n, out') /\
    (n = 0 \/ 0 < n <= out_len /\ exists ts, Forall token_ok ts /\ n = blen (sers ts) /\ take (Z.to_nat n) out' = sers ts /\ expands [] ts = Some (take (Z.to_nat in_len) b)).
Proof.
  intros Ht H2 Ho. unfold lzf_compress. bcase; [by eexists _, _; split; [done|left]|].
  destruct (FRST_ok 0 ltac:(lia) ltac:(lia)) as [h ->]. rewrite bind_Some.
  assert (inv (State 0 1 0 h t out0) [] []) as H0.
  { split; cbn; [split; cbn; [lia|lia|done]|constructor|by exists []|done|done|]. exists out0. split; [done|]. intros _. destruct out0 as [|x out0]; [rewrite blen_nil in Ho; lia|]. by exists x, out0. }
  destruct (main_loop_ok (S (Z.to_nat in_len)) _ _ _ H0 ltac:(cbn; lia) ltac:(cbn; lia)) as (r & -> & Hr). rewrite bind_Some.
  destruct r as [s|]; [|by eexists _, _; split; [done|left]]. destruct Hr as (Hi & Hl & ts & lits & Hinv). pose proof Hinv as [[Hci Hcl Hct] _ _ _ _ _].
  destruct (op s + 3 >? out_len) eqn:Er; [by eexists _, _; split; [done|left]|].
  destruct (lzf_tail_loop_ok (S (Z.to_nat in_len)) s ts lits Hinv Hl ltac:(lia) ltac:(lia)) as (s1 & ts1 & lits1 & -> & H1 & Hl1 & Hi1 & Ho1).
  { destruct (_ <=? _); lia. }
  rewrite bind_Some. pose proof H1 as [[Hci1 Hcl1 Hct1] _ _ _ _ _].
  destruct (stop_ok s1 ts1 lits1 H1 ltac:(lia) ltac:(lia)) as (s2 & -> & (K1 & K2 & K3 & K4) & Hc & Hl2 & Ho2). rewrite bind_Some.
  destruct (closed_end (undo_run s2) _ Hc ltac:(congruence) ltac:(lia)) as (Hpos & Htake & Hexp).
  eexists _, _. split; [done|]. right. split; [cbn in *; destruct (lit s2 =? 0); lia|]. eexists. split; [apply Hc|]. split; [apply Hc|]. by split.
Qed.

End Compress.

(** ** Larger buffers *)

(** What is beyond the ends of the buffers does not matter. *)
Section Extension.
Context (b y x : bytes) (in_len out_len : Z).

Definition ext (s : state) : state := State (ip s) (op s) (lit s) (hval s) (table s) (out s ++ x).
Definition ext_flow (f : flow) : flow := match f with Return0 => Return0 | Break s => Break (ext s) | Continue s => Continue (ext s) end.

Lemma bget_ext i v : bget b i = Some v -> bget (b ++ y) i = Some v.
Proof. intros H. apply bget_Some in H as [H1 H2]. apply bget_Some. rewrite blen_app. pose proof (blen_nonneg y). split; [lia|by apply lookup_app_l_Some]. Qed.
Lemma bset_ext c i v c' : bset c i v = Some c' -> bset (c ++ x) i v = Some (c' ++ x).
Proof.
  unfold bset, bwrite, inside. rewrite blen_app. pose proof (blen_nonneg x). bcase; [|done]. intros [= <-]. change (blen [v]) with 1 in *. bdec.
  f_equal. unfold blen in *. rewrite take_app_le, drop_app_le by lia. by rewrite <- !app_assoc.
Qed.

(** Case analysis on the reads of a hypothesis *)
Ltac reads := repeat match goal with
  | H : context [bget b ?i ≫= _] |- _ => let E := fresh "E" in destruct (bget b i) eqn:E; [apply bget_ext in E; rewrite ?E, ?bind_Some; rewrite bind_Some in H|discriminate H]
  end.

Lemma FRST_ext p h : FRST b p = Some h -> FRST (b ++ y) p = Some h.
Proof. unfold FRST. intros H. by reads. Qed.
Lemma NEXT_ext v p h : NEXT b v p = Some h -> NEXT (b ++ y) v p = Some h.
Proof. unfold NEXT. intros H. by reads. Qed.
Lemma is_match_ext i r m : is_match b i r = Some m -> is_match (b ++ y) i r = Some m.
Proof. unfold is_match. destruct (_ && _); [|done]. intros H. reads. destruct (_ =? _); [|done]. by reads. Qed.
Lemma unrolled_ext n : forall i r len m, unrolled b n i r len = Some m -> unrolled (b ++ y) n i r len = Some m.
Proof. induction n as [|n IH]; intros i r len m; cbn [unrolled]; [done|]. intros H. reads. destruct (negb _); [done|by apply IH]. Qed.
Lemma extend_ext n : forall i r maxlen len m, extend b n i r maxlen len = Some m -> extend (b ++ y) n i r maxlen len = Some m.
Proof. induction n as [|n IH]; intros i r maxlen len m; cbn [extend]; [done|]. destruct (_ <? _); [|done]. intros H. reads. destruct (_ =? _); [by apply IH|done]. Qed.
Lemma match_len_ext i r m : match_len b in_len i r = Some m -> match_len (b ++ y) in_len i r = Some m.
Proof.
  unfold match_len. cbn zeta. set (maxlen := if _ >? _ then _ else _). destruct (maxlen >? 16).
  - destruct (unrolled b 16 i r 2) as [[len go]|] eqn:E; [|done]. rewrite (unrolled_ext _ _ _ _ _ E), !bind_Some. destruct go; [apply extend_ext|done].
  - rewrite !bind_Some. apply extend_ext.
Qed.

Lemma stop_ext s s' : stop_run s = Some s' -> stop_run (ext s) = Some (ext s').
Proof. unfold stop_run. cbn. destruct (bset (out s) _ _) eqn:E; [|done]. rewrite (bset_ext _ _ _ _ E), bind_Some. by intros [= <-]. Qed.
Lemma put_ext s v s' : put s v = Some s' -> put (ext s) v = Some (ext s').
Proof. unfold put. cbn. destruct (bset (out s) _ _) eqn:E; [|done]. rewrite (bset_ext _ _ _ _ E), bind_Some. by intros [= <-]. Qed.
Lemma put_literal_ext s s' : put_literal b s = Some s' -> put_literal (b ++ y) (ext s) = Some (ext s').
Proof.
  unfold put_literal. cbn [ip ext]. intros H. reads. set (s0 := State _ _ _ _ _ (out s)) in H. destruct (put s0 z) as [s1|] eqn:E1; [|done].
  apply put_ext in E1. change (State _ _ _ _ _ (out (ext s))) with (ext s0). rewrite E1, bind_Some. rewrite bind_Some in H. cbn [lit ext].
  destruct (lit s1 =? MAX_LIT); [|by injection H as <-]. destruct (stop_run s1) as [s2|] eqn:E2; [|done]. rewrite (stop_ext _ _ E2), bind_Some. by injection H as <-.
Qed.
Lemma rehash_ext s s' : rehash b s = Some s' -> rehash (b ++ y) (ext s) = Some (ext s').
Proof.
  unfold rehash. cbn [ip ext]. destruct (FRST b _) as [h|] eqn:E1; [|done]. rewrite (FRST_ext _ _ E1), !bind_Some.
  destruct (NEXT b h _) as [h1|] eqn:E2; [|done]. rewrite (NEXT_ext _ _ _ E2), !bind_Some.
  destruct (NEXT b h1 _) as [h2|] eqn:E3; [|done]. rewrite (NEXT_ext _ _ _ E3), !bind_Some. by intros [= <-].
Qed.
(** The one or two bytes with the length of a reference *)
Local Abbreviation put_len s0 off len := (if len <? 7 then put s0 (Z.shiftr off 8 + Z.shiftl len 5)
  else put s0 (Z.shiftr off 8 + Z.shiftl 7 5) ≫= fun s1 => put s1 (len - 7)).
Lemma put_len_ext s off len s' : put_len s off len = Some s' -> put_len (ext s) off len = Some (ext s').
Proof.
  destruct (_ <? 7); [apply put_ext|]. destruct (put s _) as [s1|] eqn:E; [|done]. rewrite (put_ext _ _ _ E), !bind_Some. apply put_ext.
Qed.
Lemma put_match_ext s r f :
  put_match b in_len out_len s r = Some f -> put_match (b ++ y) in_len out_len (ext s) r = Some (ext_flow f).
Proof.
  unfold put_match. cbn zeta. cbn [ip op lit ext]. destruct (_ && _); [by intros [= <-]|].
  destruct (stop_run s) as [s1|] eqn:E1; [|done]. rewrite (stop_ext _ _ E1), !bind_Some. change (undo_run (ext s1)) with (ext (undo_run s1)). cbn [ip ext].
  destruct (match_len b in_len _ r) as [len|] eqn:E2; [|done]. rewrite (match_len_ext _ _ _ E2), !bind_Some.
  destruct (put_len (undo_run s1) (uint 64 (ip s - r - 1)) (len - 2)) as [s2|] eqn:E3; [|done]. rewrite (put_len_ext _ _ _ _ E3), !bind_Some.
  destruct (put s2 _) as [s3|] eqn:E5; [|done]. rewrite (put_ext _ _ _ E5), !bind_Some. cbn [ip ext].
  change (set_ip (start_run (ext s3)) ?i) with (ext (set_ip (start_run s3) i)). set (s4 := set_ip _ _). cbn [ip ext].
  destruct (_ >=? _); [by intros [= <-]|]. destruct (rehash b s4) as [s5|] eqn:E6; [|done]. rewrite (rehash_ext _ _ E6), !bind_Some. by intros [= <-].
Qed.

Lemma main_loop_ext n : forall s r,
  main_loop b in_len out_len n s = Some r -> main_loop (b ++ y) in_len out_len n (ext s) = Some (ext <$> r).
Proof.
  induction n as [|n IH]; intros s r; cbn [main_loop]; [done|]. cbn [ip hval ext table op lit out]. destruct (negb _); [by intros [= <-]|].
  destruct (NEXT b _ _) as [h|] eqn:E1; [|done]. rewrite (NEXT_ext _ _ _ E1), !bind_Some.
  destruct (is_match b _ _) as [m|] eqn:E2; [|done]. rewrite (is_match_ext _ _ _ E2), !bind_Some.
  set (s0 := State _ _ _ _ _ (out s)). change (State _ _ _ _ _ (out s ++ x)) with (ext s0). destruct m.
  - destruct (put_match b in_len out_len s0 _) as [f|] eqn:E3; [|done]. rewrite (put_match_ext _ _ _ E3), !bind_Some.
    destruct f; cbn [ext_flow]; [by intros [= <-]|by intros [= <-]|apply IH].
  - destruct (_ >=? _); [by intros [= <-]|]. destruct (put_literal b s0) as [s1|] eqn:E3; [|done].
    rewrite (put_literal_ext _ _ E3), !bind_Some. apply IH.
Qed.
Lemma tail_loop_ext n : forall s r, tail_loop b in_len n s = Some r -> tail_loop (b ++ y) in_len n (ext s) = Some (ext r).
Proof.
  induction n as [|n IH]; intros s r; cbn [tail_loop]; [done|]. cbn [ip ext]. destruct (_ <? _); [|by intros [= <-]].
  destruct (put_literal b s) as [s1|] eqn:E3; [|done]. rewrite (put_literal_ext _ _ E3), !bind_Some. apply IH.
Qed.

Lemma lzf_compress_ext t o n o' :
  lzf_compress b in_len out_len t o = Some (n, o') -> lzf_compress (b ++ y) in_len out_len t (o ++ x) = Some (n, o' ++ x).
Proof.
  unfold lzf_compress. destruct (_ || _); [by intros [= <- <-]|]. destruct (FRST b 0) as [h|] eqn:E1; [|done].
  rewrite (FRST_ext _ _ E1), !bind_Some. destruct (main_loop b in_len out_len _ _) as [r|] eqn:E2; [|done].
  apply main_loop_ext in E2. change (State 0 1 0 h t (o ++ x)) with (ext (State 0 1 0 h t o)). rewrite E2, !bind_Some. destruct r as [s|]; cbn [fmap option_fmap option_map]; [|by intros [= <- <-]].
  cbn [op ext]. destruct (_ >? _); [by intros [= <- <-]|]. destruct (tail_loop b in_len _ s) as [s1|] eqn:E3; [|done].
  rewrite (tail_loop_ext _ _ _ E3), !bind_Some. destruct (stop_run s1) as [s2|] eqn:E4; [|done]. rewrite (stop_ext _ _ E4), !bind_Some. by intros [= <- <-].
Qed.

End Extension.

(** Decompression of tokens whose expansion fits *)
Lemma decompress_tokens ts r out1 out_len : Forall token_ok ts -> expands [] ts = Some r -> blen r <= out_len <= blen out1 ->
  exists out2, lzf_decompress (sers ts) (blen (sers ts)) out_len out1 = Some (blen r, out2) /\ r `prefix_of` out2 /\ blen out2 = blen out1.
Proof.
  intros Hts He Ho. pose proof (blen_nonneg r).
  destruct (lzf_decompress_ok (sers ts) out1 out_len (sers_bytes _ Hts) ltac:(lia)) as (n & out2 & -> & Hl2 & [(r' & (us & Hus & E & He' & _) & -> & Hp)|[_ Hno]]).
  - apply sers_inj in E as <-; [|done|done]. assert (r' = r) as -> by congruence. by exists out2.
  - destruct (Hno r). exists ts. split_and!; try done. lia.
Qed.

(** C11: LZF. Whatever the hash table holds at first, compression stays inside its
    buffers. It gives up, or what it writes decompresses to the input, in any
    buffer that has the room. *)
Theorem lzf_roundtrip b t out0 out_len out1 out_len1 : is_bytes b -> 2 <= blen b < 2 ^ 32 -> table_ok t -> 0 <= out_len <= blen out0 ->
  blen b <= out_len1 <= blen out1 ->
  exists n out', lzf_compress b (blen b) out_len t out0 = Some (n, out') /\
    (n = 0 \/ 0 < n <= out_len /\
     exists out2, lzf_decompress (take (Z.to_nat n) out') n out_len1 out1 = Some (blen b, out2) /\ b `prefix_of` out2).
Proof.
  intros Hb Hl Ht Ho Ho1. destruct (lzf_compress_ok b (blen b) out_len ltac:(lia) ltac:(lia) Hb t out0 Ht ltac:(lia) Ho) as (n & out' & -> & Hn).
  exists n, out'. split; [done|]. destruct Hn as [->|(Hn & ts & Hts & En & Es & He)]; [by left|right]. split; [done|].
  rewrite to_nat_blen, firstn_all in He. destruct (decompress_tokens ts b out1 out_len1 Hts He Ho1) as (out2 & Ed & Hp & _). exists out2. by rewrite Es, En.
Qed.


(** ** Examples *)

Definition ex_text : bytes := str "abcdefabcdefabcdefabcdefabcdefabcdef".

Lemma lzf_roundtrip_witness : exists n out', lzf_compress ex_text (blen ex_text) 40 (fun _ => 0) (replicate 40 9) = Some (n, out') /\
  (n = 0 \/ 0 < n <= 40 /\ exists out2, lzf_decompress (take (Z.to_nat n) out') n 36 (replicate 36 7) = Some (blen ex_text, out2) /\ ex_text `prefix_of` out2).
Proof.
  apply (lzf_roundtrip ex_text (fun _ => 0) (replicate 40 9) 40 (replicate 36 7) 36); [by repeat constructor|by vm_compute|done|by vm_compute|by vm_compute].
Defined.

(** It does compress. *)
Example ex_compressed : fst <$> lzf_compress ex_text (blen ex_text) 40 (fun _ => 0) (replicate 40 9) = Some 14.
Proof. by vm_compute. Qed.


End LzfSafety.
