(* ===== verification/Resp.v ===== *)
(** The request protocol, networking.c: the query buffer of a client is parsed
    into commands, inline or multibulk, as its bytes arrive.

    Clients are not blocked, I/O threads and the Gopher protocol are off, and a
    command does not close its connection. *)

From S2P Require Import Prelude Util Sds SdsText.

Module Resp.
Import Util Sds SdsText.

Definition PROTO_IOBUF_LEN : Z := 1024 * 16.
Definition PROTO_INLINE_MAX_SIZE : Z := 1024 * 64.
Definition PROTO_MBULK_BIG_ARG : Z := 1024 * 32.

Inductive req_type := PROTO_REQ_NONE | PROTO_REQ_INLINE | PROTO_REQ_MULTIBULK.

(** Why a connection is closed *)
Inductive proto_error :=
  | too_big_inline | too_big_mbulk_count | too_big_bulk_count
  | unbalanced_quotes | master_inline | invalid_multibulk_length | expected_dollar (got : Z) | invalid_bulk_length.

Record client := Client {
  querybuf : bytes;
  qb_pos : Z;
  reqtype : req_type;
  argv : list bytes;
  multibulklen : Z;
  bulklen : Z;
  (** The flag [CLIENT_CLOSE_AFTER_REPLY] that a protocol error sets *)
  close_after_reply : option proto_error;
  (** The flag [CLIENT_CLOSE_ASAP] *)
  close_asap : bool }.

Definition createClient : client := Client [] 0 PROTO_REQ_NONE [] 0 (-1) None false.

Definition resetClient (c : client) : client :=
  Client (querybuf c) (qb_pos c) PROTO_REQ_NONE [] 0 (-1) (close_after_reply c) (close_asap c).
Definition setProtocolError (c : client) (e : proto_error) : client :=
  Client (querybuf c) (qb_pos c) (reqtype c) (argv c) (multibulklen c) (bulklen c) (Some e) (close_asap c).
Definition freeClientAsync (c : client) : client :=
  Client (querybuf c) (qb_pos c) (reqtype c) (argv c) (multibulklen c) (bulklen c) (close_after_reply c) true.
Definition set_pos (c : client) (pos : Z) : client :=
  Client (querybuf c) pos (reqtype c) (argv c) (multibulklen c) (bulklen c) (close_after_reply c) (close_asap c).

(** [strchr(b, ch)] on a string that ends where [b] does *)
Fixpoint strchr (b : bytes) (ch : Z) : option Z :=
  match b with
  | [] => None
  | x :: b => if x =? ch then Some 0 else if x =? 0 then None else n ← strchr b ch; Some (n + 1)
  end.

Section Parser.
Context (usable : Z -> Z) (try_ok : Z -> bool) (indet : nat -> Z).
(** [CLIENT_MASTER], the configuration of the server *)
Context (master : bool) (proto_max_bulk_len client_max_querybuf_len : Z).

(** The query buffer from [qb_pos] on *)
Definition rest (c : client) : bytes := drop (Z.to_nat (qb_pos c)) (querybuf c).
(** [sdsrange(c->querybuf,c->qb_pos,-1); c->qb_pos = 0] *)
Definition trim (c : client) : client :=
  Client (rest c) 0 (reqtype c) (argv c) (multibulklen c) (bulklen c) (close_after_reply c) (close_asap c).
Definition token (s : sds) : bytes := take (Z.to_nat (sdslen s)) (sbuf s).

(** The result tells whether a command is ready. *)
Definition processInlineBuffer (c : client) : option (client * bool) :=
  match strchr (rest c) 10 with
  | None =>
      Some (if blen (querybuf c) - qb_pos c >? PROTO_INLINE_MAX_SIZE then setProtocolError c too_big_inline else c, false)
  | Some newline =>
      cr ← (if newline =? 0 then Some false else x ← bget (rest c) (newline - 1); Some (x =? 13));
      let querylen := if cr : bool then newline - 1 else newline in
      let linefeed_chars := if cr : bool then 2 else 1 in
      aux ← bread (rest c) 0 querylen;
      args ← sdssplitargs usable try_ok indet (aux ++ [0]);
      match args with
      | None => Some (setProtocolError c unbalanced_quotes, false)
      | Some args =>
          if negb (querylen =? 0) && master then Some (setProtocolError c master_inline, false)
          else
            Some (Client (querybuf c) (qb_pos c + (querylen + linefeed_chars)) (reqtype c) (token <$> args)
                    (multibulklen c) (bulklen c) (close_after_reply c) (close_asap c), true)
      end
  end.

(** The number in a line that begins with [*] or [$] and ends at [newline] *)
Definition line_number (c : client) (newline : Z) : option (option Z) :=
  s ← bread (rest c) 1 (newline - 1); string2ll s (newline - 1).
(** The line feed is not there yet. *)
Definition no_linefeed (c : client) (newline : Z) : bool :=
  newline >? sint 64 (blen (querybuf c) - qb_pos c - 2).

(** The two halves of a turn of the loop. The result tells whether the loop goes
    on; [break] and [return C_ERR] are the same as [multibulklen] is not [0]. *)
Definition read_bulklen (c : client) : option (client * bool) :=
  match strchr (rest c) 13 with
  | None =>
      if blen (querybuf c) - qb_pos c >? PROTO_INLINE_MAX_SIZE
      then Some (setProtocolError c too_big_bulk_count, false)
      else Some (c, false)
  | Some newline =>
      if no_linefeed c newline then Some (c, false)
      else
        x ← bget (rest c) 0;
        if negb (x =? 36) then Some (setProtocolError c (expected_dollar x), false)
        else
          ll ← line_number c newline;
          match ll with
          | None => Some (setProtocolError c invalid_bulk_length, false)
          | Some ll =>
              if (ll <? 0) || (negb master && (ll >? proto_max_bulk_len))
              then Some (setProtocolError c invalid_bulk_length, false)
              else
                let c := set_pos c (qb_pos c + newline + 2) in
                let c := if (ll >=? PROTO_MBULK_BIG_ARG) && (blen (querybuf c) - qb_pos c <=? uint 64 (ll + 2))
                         then trim c else c in
                Some (Client (querybuf c) (qb_pos c) (reqtype c) (argv c) (multibulklen c) ll (close_after_reply c) (close_asap c), true)
          end
  end.

(** [c->bulklen+2] is taken modulo [2 ^ 64]: the signed sum overflows for a
    length that only a master can announce. *)
Definition read_bulk (c : client) : option (client * bool) :=
  if blen (querybuf c) - qb_pos c <? uint 64 (bulklen c + 2) then Some (c, false)
  else
    c ← (if (qb_pos c =? 0) && (bulklen c >=? PROTO_MBULK_BIG_ARG) && (blen (querybuf c) =? uint 64 (bulklen c + 2)) then
           arg ← bread (querybuf c) 0 (bulklen c);
           Some (Client [] 0 (reqtype c) (argv c ++ [arg]) (multibulklen c) (bulklen c) (close_after_reply c) (close_asap c))
         else
           arg ← bread (rest c) 0 (bulklen c);
           Some (Client (querybuf c) (qb_pos c + (bulklen c + 2)) (reqtype c) (argv c ++ [arg]) (multibulklen c) (bulklen c) (close_after_reply c) (close_asap c)));
    Some (Client (querybuf c) (qb_pos c) (reqtype c) (argv c) (multibulklen c - 1) (-1) (close_after_reply c) (close_asap c), true).

Fixpoint bulk_loop (fuel : nat) (c : client) : option (client * bool) :=
  match fuel with
  | O => None
  | S fuel =>
      if multibulklen c =? 0 then Some (c, true)
      else
        '(c, go) ← (if bulklen c =? -1 then read_bulklen c else Some (c, true));
        if negb go then Some (c, false)
        else
          '(c, go) ← read_bulk c;
          if negb go then Some (c, false) else bulk_loop fuel c
  end.

Definition processMultibulkBuffer (c : client) : option (client * bool) :=
  if multibulklen c =? 0 then
    assert! bool_decide (argv c = []);
    match strchr (rest c) 13 with
    | None =>
        Some (if blen (querybuf c) - qb_pos c >? PROTO_INLINE_MAX_SIZE then setProtocolError c too_big_mbulk_count else c, false)
    | Some newline =>
        if no_linefeed c newline then Some (c, false)
        else
          x ← bget (rest c) 0;
          assert! x =? 42;
          ll ← line_number c newline;
          match ll with
          | None => Some (setProtocolError c invalid_multibulk_length, false)
          | Some ll =>
              if ll >? 1024 * 1024 then Some (setProtocolError c invalid_multibulk_length, false)
              else
                let c := set_pos c (qb_pos c + newline + 2) in
                if ll <=? 0 then Some (c, true)
                else bulk_loop (S (Z.to_nat ll)) (Client (querybuf c) (qb_pos c) (reqtype c) (argv c) ll (bulklen c) (close_after_reply c) (close_asap c))
          end
    end
  else
    assert! multibulklen c >? 0;
    bulk_loop (S (Z.to_nat (multibulklen c))) c.

(** The commands are returned in the order they are executed in. *)
Fixpoint input_loop (fuel : nat) (c : client) : option (client * list (list bytes)) :=
  match fuel with
  | O => None
  | S fuel =>
      if negb (qb_pos c <? blen (querybuf c)) then Some (c, [])
      else
        if bool_decide (close_after_reply c <> None) || close_asap c then Some (c, [])
        else
            x ← bget (rest c) 0;
            let c := match reqtype c with
                     | PROTO_REQ_NONE =>
                         Client (querybuf c) (qb_pos c) (if x =? 42 then PROTO_REQ_MULTIBULK else PROTO_REQ_INLINE)
                           (argv c) (multibulklen c) (bulklen c) (close_after_reply c) (close_asap c)
                     | _ => c
                     end in
            '(c, ready) ← match reqtype c with
                          | PROTO_REQ_INLINE => processInlineBuffer c
                          | _ => processMultibulkBuffer c
                          end;
            if negb ready then Some (c, [])
            else
              match argv c with
              | [] => input_loop fuel (resetClient c)
              | _ :: _ =>
                  '(c', cmds) ← input_loop fuel (resetClient c);
                  Some (c', argv c :: cmds)
              end
  end.

Definition processInputBuffer (c : client) : option (client * list (list bytes)) :=
  '(c, cmds) ← input_loop (S (Z.to_nat (blen (querybuf c) - qb_pos c))) c;
  Some (if qb_pos c =? 0 then c else trim c, cmds).

Definition readlen (c : client) : Z :=
  match reqtype c with
  | PROTO_REQ_MULTIBULK =>
      if negb (multibulklen c =? 0) && negb (bulklen c =? -1) && (bulklen c >=? PROTO_MBULK_BIG_ARG) then
        let remaining := sint 64 (uint 64 (bulklen c + 2) - blen (querybuf c)) in
        if (remaining >? 0) && (remaining <? PROTO_IOBUF_LEN) then remaining else PROTO_IOBUF_LEN
      else PROTO_IOBUF_LEN
  | _ => PROTO_IOBUF_LEN
  end.

(** [socket] is what the peer has sent and is not read yet. [connRead] returns
    at most [n] bytes of it, and [-1] when there is none: a connection that the
    peer closes or that fails is not modelled. *)
Definition readQueryFromClient (c : client) (n : Z) (socket : bytes) : option (client * bytes * list (list bytes)) :=
  if close_asap c then Some (c, socket, [])
  else
    let nread := Z.min n (Z.min (readlen c) (blen socket)) in
    if nread <=? 0 then Some (c, socket, [])
    else
      let bs := take (Z.to_nat nread) socket in
      let socket := drop (Z.to_nat nread) socket in
      let c := Client (querybuf c ++ bs) (qb_pos c) (reqtype c) (argv c) (multibulklen c) (bulklen c) (close_after_reply c) (close_asap c) in
      if blen (querybuf c) >? client_max_querybuf_len then Some (freeClientAsync c, socket, [])
      else
        '(c, cmds) ← processInputBuffer c;
        Some (c, socket, cmds).

(** One read after the other *)
Fixpoint receive (c : client) (ns : list Z) (socket : bytes) : option (client * bytes * list (list bytes)) :=
  match ns with
  | [] => Some (c, socket, [])
  | n :: ns =>
      '(c, socket, cmds) ← readQueryFromClient c n socket;
      '(c, socket, cmds') ← receive c ns socket;
      Some (c, socket, cmds ++ cmds')
  end.

End Parser.
End Resp.
