(* ===== verification/RespSpec.v ===== *)
(** What the request parser implements: the grammar of the protocol, and a
    machine that reads the input one line or one argument at a time. *)

From S2P Require Import Prelude Util Sds SdsText Resp.

Module RespSpec.
Import Util Sds SdsText Resp.

(** ** Lines *)

(** [ch] and the NUL byte that ends the search for it do not occur. *)
Definition free (ch : Z) (l : bytes) : Prop := Forall (fun x => x <> 0 /\ x <> ch) l.

(** The line without its carriage return *)
Definition chomped (l s : bytes) : Prop := l = s ++ [13] \/ l = s /\ last s <> Some 13.

Section Spec.
Context (usable : Z -> Z) (try_ok : Z -> bool) (indet : nat -> Z).
Context (master : bool) (proto_max_bulk_len client_max_querybuf_len : Z).

(** ** The grammar *)

(** The length of an argument that is accepted *)
Definition bulk_ok (len : Z) : Prop := 0 <= len < 2 ^ 63 /\ (master = false -> len <= proto_max_bulk_len).

(** [$<length>\r?<argument>??]: the bytes written [?] are not checked. *)
Inductive bulks : bytes -> list bytes -> Prop :=
  | bulks_nil : bulks [] []
  | bulks_cons digits lf arg cr' lf' b args :
      decimal digits (blen arg) -> bulk_ok (blen arg) -> bulks b args ->
      bulks (36 :: digits ++ 13 :: lf :: arg ++ cr' :: lf' :: b) (arg :: args).

Inductive request : bytes -> list bytes -> Prop :=
  | request_inline l s args :
      free 10 l -> head (l ++ [10]) <> Some 42 -> chomped l s -> (master = true -> s = []) ->
      sdssplitargs usable try_ok indet (s ++ [0]) = Some (Some args) ->
      request (l ++ [10]) (token <$> args)
  | request_empty digits lf n :
      decimal digits n -> in_sint 64 n -> n <= 0 ->
      request (42 :: digits ++ [13; lf]) []
  | request_multibulk digits lf b args :
      decimal digits (Z.of_nat (length args)) -> 0 < Z.of_nat (length args) <= 1024 * 1024 -> bulks b args ->
      request (42 :: digits ++ 13 :: lf :: b) args.

(** What is executed of a request *)
Definition command (args : list bytes) : list (list bytes) :=
  match args with [] => [] | _ => [args] end.

Inductive requests : bytes -> list (list bytes) -> Prop :=
  | requests_nil : requests [] []
  | requests_cons p args b cmds :
      request p args -> requests b cmds -> requests (p ++ b) (command args ++ cmds).

(** No request begins [b], now or whatever follows. *)
Definition incomplete (b : bytes) : Prop := forall p q args, request p args -> b <> p ++ q.
Definition malformed (b : bytes) : Prop := forall more, incomplete (b ++ more).

(** ** The machine *)

(** Between two requests; a length or an argument of that length is next, [mb]
    arguments are missing. *)
Inductive mstate :=
  | MNone
  | MLen (args : list bytes) (mb : Z)
  | MArg (args : list bytes) (mb : Z) (len : Z).

Inductive mstep : mstate -> bytes -> mstate -> bytes -> option (list bytes) -> Prop :=
  | mstep_inline l s args more :
      free 10 l -> head (l ++ [10]) <> Some 42 -> chomped l s -> (master = true -> s = []) ->
      sdssplitargs usable try_ok indet (s ++ [0]) = Some (Some args) ->
      mstep MNone (l ++ 10 :: more) MNone more (Some (token <$> args))
  | mstep_empty digits lf n more :
      free 13 digits -> decimal digits n -> in_sint 64 n -> n <= 0 ->
      mstep MNone (42 :: digits ++ 13 :: lf :: more) MNone more (Some [])
  | mstep_multibulk digits lf n more :
      free 13 digits -> decimal digits n -> 0 < n <= 1024 * 1024 ->
      mstep MNone (42 :: digits ++ 13 :: lf :: more) (MLen [] n) more None
  | mstep_length digits lf len args mb more :
      free 13 digits -> decimal digits len -> bulk_ok len ->
      mstep (MLen args mb) (36 :: digits ++ 13 :: lf :: more) (MArg args mb len) more None
  | mstep_argument arg cr lf args mb more :
      mb <> 1 ->
      mstep (MArg args mb (blen arg)) (arg ++ cr :: lf :: more) (MLen (args ++ [arg]) (mb - 1)) more None
  | mstep_last arg cr lf args more :
      mstep (MArg args 1 (blen arg)) (arg ++ cr :: lf :: more) MNone more (Some (args ++ [arg])).

Definition emitted (o : option (list bytes)) : list (list bytes) :=
  match o with None => [] | Some args => command args end.

Inductive msteps : mstate -> bytes -> mstate -> bytes -> list (list bytes) -> Prop :=
  | msteps_nil k b : msteps k b k b []
  | msteps_cons k b k1 b1 o k2 b2 cmds :
      mstep k b k1 b1 o -> msteps k1 b1 k2 b2 cmds -> msteps k b k2 b2 (emitted o ++ cmds).

Definition stuck (k : mstate) (b : bytes) : Prop := forall k' b' o, ~ mstep k b k' b' o.

(** ** Lines *)

Lemma free_unique ch l : forall l' m m',
  free ch l -> free ch l' -> l ++ ch :: m = l' ++ ch :: m' -> l = l' /\ m = m'.
Proof.
  induction l as [|x l IH]; intros [|y l'] m m' Hl Hl' E; cbn in E; simplify_eq/=.
  - done.
  - by apply Forall_cons in Hl' as [[_ ?] _].
  - by apply Forall_cons in Hl as [[_ ?] _].
  - apply Forall_cons in Hl as [_ Hl], Hl' as [_ Hl']. destruct (IH l' m m') as [-> ->]; done.
Qed.

Lemma strchr_Some ch b n : strchr b ch = Some n -> exists l more, b = l ++ ch :: more /\ free ch l /\ blen l = n.
Proof.
  revert n. induction b as [|x b IH]; intros n; cbn; [done|]. bcase.
  { intros [= <-]. subst. exists [], b. split_and!; [done|constructor|done]. }
  bcase; [done|]. destruct (strchr b ch) as [m|]; [|done]. intros [= <-].
  destruct (IH m eq_refl) as (l & more & -> & Hl & <-). exists (x :: l), more.
  split_and!; [done|by constructor|rewrite blen_cons; lia].
Qed.

Lemma strchr_app ch l more : ch <> 0 -> free ch l -> strchr (l ++ ch :: more) ch = Some (blen l).
Proof.
  intros Hch. induction 1 as [|x l [H0 H1] Hl IH]; cbn; [by rewrite Z.eqb_refl|]. bdec. rewrite IH. cbn.
  f_equal. rewrite blen_cons. lia.
Qed.

Lemma strchr_None ch b l more : ch <> 0 -> strchr b ch = None -> free ch l -> b <> l ++ ch :: more.
Proof. intros Hch Hn Hl ->. by rewrite strchr_app in Hn. Qed.

Lemma chomped_unique l s s' : chomped l s -> chomped l s' -> s = s'.
Proof.
  unfold chomped. intros [H|[H H1]] [H'|[H' H1']]; subst; try done.
  - by apply app_inj_2 in H' as [-> _].
  - by rewrite last_snoc in H1'.
  - by rewrite last_snoc in H1.
Qed.

Lemma udecimal_free s v : udecimal s v -> free 13 s.
Proof.
  intros (Hd & _). eapply Forall_impl; [exact Hd|]. cbn. intros; lia.
Qed.
Lemma decimal_free s v : decimal s v -> free 13 s.
Proof.
  unfold decimal. bcase; [|apply udecimal_free]. intros (s' & -> & H). constructor; [lia|by eapply udecimal_free].
Qed.
Lemma decimal_value s v v' : in_sint 64 v -> in_sint 64 v' -> decimal s v -> decimal s v' -> v = v'.
Proof.
  intros Hv Hv' H H'. destruct (string2ll_spec s) as (r & _ & Hr).
  assert (r = Some v) as -> by by apply Hr. assert (Some v = Some v') as [=] by by apply Hr. done.
Qed.

(** ** The machine is deterministic and does not look ahead. *)

Lemma in_sint_small n : 0 <= n < 2 ^ 63 -> in_sint 64 n.
Proof. unfold in_sint. lia. Qed.
Lemma count_sint n : 0 < n <= 1024 * 1024 -> in_sint 64 n.
Proof. intros. apply in_sint_small. lia. Qed.
Lemma bulk_sint n : bulk_ok n -> in_sint 64 n.
Proof. intros [? _]. by apply in_sint_small. Qed.

Lemma mstep_more k b k' b' o more : mstep k b k' b' o -> mstep k (b ++ more) k' (b' ++ more) o.
Proof.
  destruct 1; rewrite ?app_comm_cons, <- ?app_assoc, <- ?app_comm_cons;
    [eapply mstep_inline|eapply mstep_empty|eapply mstep_multibulk|eapply mstep_length|eapply mstep_argument|eapply mstep_last]; eauto.
Qed.

Lemma msteps_more k b k' b' cmds more : msteps k b k' b' cmds -> msteps k (b ++ more) k' (b' ++ more) cmds.
Proof. induction 1; [constructor|]. econstructor; [by apply mstep_more|done]. Qed.

Lemma msteps_app k b k1 b1 cmds1 k2 b2 cmds2 :
  msteps k b k1 b1 cmds1 -> msteps k1 b1 k2 b2 cmds2 -> msteps k b k2 b2 (cmds1 ++ cmds2).
Proof. induction 1; intros; [done|]. rewrite <- app_assoc. econstructor; [done|auto]. Qed.

Lemma msteps_one k b k' b' o cmds : mstep k b k' b' o -> cmds = emitted o -> msteps k b k' b' cmds.
Proof. intros H ->. rewrite <- (app_nil_r (emitted o)). econstructor; [done|constructor]. Qed.

Lemma head_inline (l more : bytes) : head (l ++ 10 :: more) = head (l ++ [10]).
Proof. by destruct l. Qed.

Lemma mstep_det k b k1 b1 o1 k2 b2 o2 :
  mstep k b k1 b1 o1 -> mstep k b k2 b2 o2 -> k1 = k2 /\ b1 = b2 /\ o1 = o2.
Proof.
  intros H1 H2. 
  destruct H1 as [l s args more Hf Hh Hc Hm Hs|ds lf n more Hf Hd Hi Hn|ds lf n more Hf Hd Hi|ds lf n args mb more Hf Hd Hi
    |arg cr lf args mb more Hmb|arg cr lf args more];
  inversion H2 as [l' s' args' more' Hf' Hh' Hc' Hm' Hs' Ek Eb|ds' lf' n' more' Hf' Hd' Hi' Hn' Ek Eb|ds' lf' n' more' Hf' Hd' Hi' Ek Eb
    |ds' lf' n' args' mb' more' Hf' Hd' Hi' Ek Eb|arg' cr' lf' args' mb' more' Hmb' Ek Eb|arg' cr' lf' args' more' Ek Eb]; subst; try done.
  all: try (apply (f_equal head) in Eb; rewrite head_inline in Eb; cbn in Eb; congruence).
  all: try (apply free_unique in Eb as [-> [= -> ->]]; [|done|done]).
  all: try done.
  all: try (pose proof (decimal_value ds n n' ltac:(eauto using count_sint, bulk_sint) ltac:(eauto using count_sint, bulk_sint) Hd Hd'); subst; done || lia).
  - apply free_unique in Eb as [-> ->]; [|done|done]. rewrite (chomped_unique l s s') in Hs by done. naive_solver congruence.
  - apply app_inj_1 in Eb as [-> [= -> ->]]; [done|unfold blen in *; lia].
  - apply app_inj_1 in Eb as [-> [= -> ->]]; [done|unfold blen in *; lia].
Qed.

(** What a step reads does not depend on what follows. *)
Lemma mstep_split k b k' b' o : mstep k b k' b' o ->
  exists d, b = d ++ b' /\ 0 < blen d /\ forall more, mstep k (d ++ more) k' more o.
Proof.
  assert (forall (l : bytes) x, 0 < blen (l ++ [x])) as Hs by (intros; rewrite blen_app, blen_cons; pose proof (blen_nonneg l); rewrite blen_nil; lia).
  assert (forall x (l : bytes), 0 < blen (x :: l)) as Hc by (intros; rewrite blen_cons; pose proof (blen_nonneg l); lia).
  assert (forall (l : bytes) x y, 0 < blen (l ++ [x; y])) as Hs2 by (intros; rewrite blen_app; pose proof (blen_nonneg l); specialize (Hc x [y]); lia).
  destruct 1 as [l s args more|ds lf n more|ds lf n more|ds lf n args mb more|arg cr lf args mb more|arg cr lf args more].
  - exists (l ++ [10]). split_and!; [by rewrite <- app_assoc|apply Hs|intros; rewrite <- app_assoc; by eapply mstep_inline].
  - exists (42 :: ds ++ [13; lf]). split_and!; [cbn; by rewrite <- app_assoc|apply Hc|intros; cbn; rewrite <- app_assoc; by eapply mstep_empty].
  - exists (42 :: ds ++ [13; lf]). split_and!; [cbn; by rewrite <- app_assoc|apply Hc|intros; cbn; rewrite <- app_assoc; by eapply mstep_multibulk].
  - exists (36 :: ds ++ [13; lf]). split_and!; [cbn; by rewrite <- app_assoc|apply Hc|intros; cbn; rewrite <- app_assoc; by eapply mstep_length].
  - exists (arg ++ [cr; lf]). split_and!; [by rewrite <- app_assoc|apply Hs2|intros; rewrite <- app_assoc; by eapply mstep_argument].
  - exists (arg ++ [cr; lf]). split_and!; [by rewrite <- app_assoc|apply Hs2|intros; rewrite <- app_assoc; by eapply mstep_last].
Qed.

Lemma mstep_shorter k b k' b' o : mstep k b k' b' o -> blen b' < blen b.
Proof. intros (d & -> & Hd & _)%mstep_split. rewrite blen_app. lia. Qed.

Lemma msteps_shorter k b k' b' cmds : msteps k b k' b' cmds -> blen b' <= blen b.
Proof. induction 1 as [|k b k1 b1 o k2 b2 cmds Hs _ IH]; [done|]. apply mstep_shorter in Hs. lia. Qed.

(** A step that more input makes possible reads all that was there. *)
Lemma mstep_suffix k b more k' b' o : mstep k (b ++ more) k' b' o -> stuck k b -> blen b' < blen more.
Proof.
  intros (d & E & Hd & Hm)%mstep_split Hst. destruct (decide (blen d <= blen b)) as [Hle|Hgt].
  - destruct (split_blen b (blen d)) as (d' & b0 & -> & Hl); [lia|]. rewrite <- app_assoc in E.
    apply app_inj_1 in E as [-> _]; [|unfold blen in *; lia]. by destruct (Hst _ _ _ (Hm b0)).
  - apply (f_equal blen) in E. rewrite !blen_app in E. lia.
Qed.

Lemma stuck_nil k : stuck k [].
Proof.
  intros k' b' o Hs. pose proof (mstep_shorter _ _ _ _ _ Hs) as H. rewrite blen_nil in H. pose proof (blen_nonneg b'). lia.
Qed.

(** ** The machine reads the requests of the grammar. *)

(** Steps inside one request *)
Inductive qsteps : mstate -> bytes -> mstate -> bytes -> Prop :=
  | qsteps_nil k b : qsteps k b k b
  | qsteps_cons k b k1 b1 k2 b2 : mstep k b k1 b1 None -> qsteps k1 b1 k2 b2 -> qsteps k b k2 b2.

Lemma qsteps_msteps k b k' b' : qsteps k b k' b' -> msteps k b k' b' [].
Proof. induction 1; [constructor|]. by eapply (msteps_cons _ _ _ _ None). Qed.

Lemma qsteps_stuck k b k1 b1 k2 b2 args k3 b3 :
  qsteps k b k1 b1 -> mstep k1 b1 k2 b2 (Some args) -> qsteps k b k3 b3 -> stuck k3 b3 -> False.
Proof.
  intros H1 Hs H3 Hst. revert H3. induction H1 as [k b|k b k' b' k1 b1 Hm Hq IH]; intros H3;
    destruct H3 as [k b|k b k'' b'' k3 b3 Hm' Hq']; try by eapply Hst.
  - by destruct (mstep_det _ _ _ _ _ _ _ _ Hs Hm') as (_ & _ & ?).
  - destruct (mstep_det _ _ _ _ _ _ _ _ Hm Hm') as (-> & -> & _). by apply IH.
Qed.

Lemma qsteps_det k b k1 b1 k2 b2 args k1' b1' k2' b2' args' :
  qsteps k b k1 b1 -> mstep k1 b1 k2 b2 (Some args) ->
  qsteps k b k1' b1' -> mstep k1' b1' k2' b2' (Some args') -> b2 = b2' /\ args = args'.
Proof.
  intros H1 Hs H1' Hs'. revert H1'. induction H1 as [k b|k b k0 b0 k1 b1 Hm Hq IH]; intros H1';
    destruct H1' as [k b|k b k0' b0' k1' b1' Hm' Hq'].
  - destruct (mstep_det _ _ _ _ _ _ _ _ Hs Hs') as (_ & -> & [= ->]). done.
  - by destruct (mstep_det _ _ _ _ _ _ _ _ Hs Hm') as (_ & _ & ?).
  - by destruct (mstep_det _ _ _ _ _ _ _ _ Hm Hs') as (_ & _ & ?).
  - destruct (mstep_det _ _ _ _ _ _ _ _ Hm Hm') as (-> & -> & _). by apply IH.
Qed.

(** A request is read by steps of which only the last one ends it. *)
Definition reads (k : mstate) (b : bytes) (args : list bytes) (more : bytes) : Prop :=
  exists k' b', qsteps k b k' b' /\ mstep k' b' MNone more (Some args).

Lemma reads_step k b k1 b1 args more : mstep k b k1 b1 None -> reads k1 b1 args more -> reads k b args more.
Proof. intros Hs (k' & b' & Hq & Hl). exists k', b'. split; [by econstructor|done]. Qed.

Lemma reads_msteps k b args more : reads k b args more -> msteps k b MNone more (command args).
Proof.
  intros (k' & b' & Hq & Hl). apply (msteps_app _ _ _ _ [] _ _ _ (qsteps_msteps _ _ _ _ Hq)).
  by eapply msteps_one.
Qed.

Lemma bulks_reads b args more : bulks b args -> args <> [] -> forall pre,
  reads (MLen pre (Z.of_nat (length args))) (b ++ more) (pre ++ args) more.
Proof.
  induction 1 as [|digits lf arg cr' lf' b args Hd Hok Hb IH]; [done|]. intros _ pre.
  replace ((36 :: digits ++ 13 :: lf :: arg ++ cr' :: lf' :: b) ++ more)
    with (36 :: digits ++ 13 :: lf :: arg ++ cr' :: lf' :: (b ++ more)) by (cbn; by simplify_list_eq).
  eapply reads_step; [apply (mstep_length digits lf (blen arg)); [by eapply decimal_free|done|done]|].
  destruct args as [|a args].
  - inversion Hb; subst. eexists _, _. split; [constructor|]. apply mstep_last.
  - eapply reads_step; [apply mstep_argument; cbn [length]; lia|].
    specialize (IH ltac:(done) (pre ++ [arg])). rewrite <- app_assoc in IH.
    replace (Z.of_nat (length (arg :: a :: args)) - 1) with (Z.of_nat (length (a :: args))) by (cbn [length]; lia). done.
Qed.

Lemma request_reads p args more : request p args -> reads MNone (p ++ more) args more.
Proof.
  destruct 1 as [l s args Hf Hh Hc Hm Hs|digits lf n Hd Hi Hn|digits lf b args Hd Hn Hb].
  - eexists _, _. split; [constructor|]. rewrite <- app_assoc. by eapply mstep_inline.
  - eexists _, _. split; [constructor|]. cbn. rewrite <- app_assoc. eapply mstep_empty; eauto using decimal_free.
  - replace ((42 :: digits ++ 13 :: lf :: b) ++ more) with (42 :: digits ++ 13 :: lf :: (b ++ more)) by (cbn; by simplify_list_eq).
    eapply reads_step; [eapply mstep_multibulk; eauto using decimal_free|].
    apply (bulks_reads _ _ more Hb ltac:(intros ->; cbn in Hn; lia) []).
Qed.

Lemma requests_msteps b cmds more : requests b cmds -> msteps MNone (b ++ more) MNone more cmds.
Proof.
  induction 1 as [|p args b cmds Hp Hb IH]; [constructor|]. rewrite <- app_assoc.
  eapply msteps_app; [|exact IH]. by apply reads_msteps, request_reads.
Qed.

Lemma requests_app b cmds b' cmds' : requests b cmds -> requests b' cmds' -> requests (b ++ b') (cmds ++ cmds').
Proof. induction 1; intros; [done|]. rewrite <- !app_assoc. constructor; auto. Qed.

(** ** What the machine has read is in the grammar. *)

(** [p] is the part of a request that is read in state [k]. *)
Inductive pending : mstate -> bytes -> Prop :=
  | pending_none : pending MNone []
  | pending_len digits lf b args mb :
      decimal digits (Z.of_nat (length args) + mb) -> 0 < mb -> Z.of_nat (length args) + mb <= 1024 * 1024 -> bulks b args ->
      pending (MLen args mb) (42 :: digits ++ 13 :: lf :: b)
  | pending_arg p args mb digits lf len :
      pending (MLen args mb) p -> decimal digits len -> bulk_ok len ->
      pending (MArg args mb len) (p ++ 36 :: digits ++ [13; lf]).

Lemma bulks_snoc b args digits lf arg cr' lf' :
  bulks b args -> decimal digits (blen arg) -> bulk_ok (blen arg) ->
  bulks (b ++ 36 :: digits ++ 13 :: lf :: arg ++ [cr'; lf']) (args ++ [arg]).
Proof.
  intros Hb Hd Hok. induction Hb as [|digits1 lf1 arg1 cr1 lf1' b args Hd1 Hok1 Hb IH].
  - by eapply bulks_cons; [..|constructor].
  - replace ((36 :: digits1 ++ 13 :: lf1 :: arg1 ++ cr1 :: lf1' :: b) ++ 36 :: digits ++ 13 :: lf :: arg ++ [cr'; lf'])
      with (36 :: digits1 ++ 13 :: lf1 :: arg1 ++ cr1 :: lf1' :: (b ++ 36 :: digits ++ 13 :: lf :: arg ++ [cr'; lf']))
      by (cbn; by simplify_list_eq).
    by apply bulks_cons.
Qed.

Lemma mstep_pending k b k' b' o p :
  mstep k b k' b' o -> pending k p ->
  exists d, b = d ++ b' /\ match o with None => pending k' (p ++ d) | Some args => k' = MNone /\ request (p ++ d) args end.
Proof.
  destruct 1 as [l s args more Hf Hh Hc Hm Hs|ds lf n more Hf Hd Hi Hn|ds lf n more Hf Hd Hi|ds lf n args mb more Hf Hd Hi
    |arg cr lf args mb more Hmb|arg cr lf args more]; intros Hp.
  - inversion Hp; subst. exists (l ++ [10]). rewrite <- app_assoc. split_and!; [done|done|]. by eapply request_inline.
  - inversion Hp; subst. exists (42 :: ds ++ [13; lf]). split_and!; [cbn; by simplify_list_eq|done|by eapply request_empty].
  - inversion Hp; subst. exists (42 :: ds ++ [13; lf]). split_and!; [cbn; by simplify_list_eq|].
    eapply pending_len; [done|cbn [length]; lia..|constructor].
  - exists (36 :: ds ++ [13; lf]). split; [cbn; by simplify_list_eq|]. by apply pending_arg.
  - exists (arg ++ [cr; lf]). split; [cbn; by simplify_list_eq|].
    inversion Hp as [| |p0 args0 mb0 digits0 lf0 len0 Hl Hd Hok]; subst. inversion Hl as [|ds lf1 b args1 mb1 Hn Hmb1 Hmax Hb|]; subst.
    replace (((42 :: ds ++ 13 :: lf1 :: b) ++ 36 :: digits0 ++ [13; lf0]) ++ arg ++ [cr; lf])
      with (42 :: ds ++ 13 :: lf1 :: (b ++ 36 :: digits0 ++ 13 :: lf0 :: arg ++ [cr; lf])) by (cbn; by simplify_list_eq).
    apply pending_len; [|lia|rewrite length_app; cbn [length]; lia|by apply bulks_snoc].
    rewrite length_app. cbn [length]. by replace (Z.of_nat (length args + 1) + (mb - 1)) with (Z.of_nat (length args) + mb) by lia.
  - exists (arg ++ [cr; lf]). split; [cbn; by simplify_list_eq|]. split; [done|].
    inversion Hp as [| |p0 args0 mb0 digits0 lf0 len0 Hl Hd Hok]; subst. inversion Hl as [|ds lf1 b args1 mb1 Hn Hmb1 Hmax Hb|]; subst.
    replace (((42 :: ds ++ 13 :: lf1 :: b) ++ 36 :: digits0 ++ [13; lf0]) ++ arg ++ [cr; lf])
      with (42 :: ds ++ 13 :: lf1 :: (b ++ 36 :: digits0 ++ 13 :: lf0 :: arg ++ [cr; lf])) by (cbn; by simplify_list_eq).
    assert (Z.of_nat (length (args ++ [arg])) = Z.of_nat (length args) + 1) as El by (rewrite length_app; cbn [length]; lia).
    apply request_multibulk; [by rewrite El|lia|by apply bulks_snoc].
Qed.

Lemma msteps_pending k b k' b' cmds : msteps k b k' b' cmds -> forall p, pending k p ->
  exists full part, p ++ b = full ++ part ++ b' /\ requests full cmds /\ pending k' part.
Proof.
  induction 1 as [k b|k b k1 b1 o k2 b2 cmds Hs Hms IH]; intros p Hp.
  { exists [], p. split_and!; [done|constructor|done]. }
  destruct (mstep_pending _ _ _ _ _ _ Hs Hp) as (d & -> & Ho). destruct o as [args|]; cbn [emitted].
  - destruct Ho as [-> Hr]. destruct (IH [] pending_none) as (full & part & E & Hf & Hpa).
    exists ((p ++ d) ++ full), part. split_and!; [|by constructor|done].
    rewrite app_assoc, <- (app_assoc (p ++ d)). by f_equal.
  - destruct (IH _ Ho) as (full & part & E & Hf & Hpa). exists full, part. by rewrite app_assoc.
Qed.

Lemma bulks_qsteps b args : bulks b args -> forall pre mb more, 0 < mb ->
  qsteps (MLen pre (Z.of_nat (length args) + mb)) (b ++ more) (MLen (pre ++ args) mb) more.
Proof.
  induction 1 as [|digits lf arg cr' lf' b args Hd Hok Hb IH]; intros pre mb more Hmb; cbn [length].
  { rewrite app_nil_r. constructor. }
  replace ((36 :: digits ++ 13 :: lf :: arg ++ cr' :: lf' :: b) ++ more)
    with (36 :: digits ++ 13 :: lf :: arg ++ cr' :: lf' :: (b ++ more)) by (cbn; by simplify_list_eq).
  eapply qsteps_cons; [apply (mstep_length digits lf (blen arg)); [by eapply decimal_free|done|done]|].
  eapply qsteps_cons; [apply mstep_argument; lia|].
  specialize (IH (pre ++ [arg]) mb more Hmb). rewrite <- app_assoc in IH.
  by replace (Z.of_nat (S (length args)) + mb - 1) with (Z.of_nat (length args) + mb) by lia.
Qed.

Lemma qsteps_app k b k1 b1 k2 b2 : qsteps k b k1 b1 -> qsteps k1 b1 k2 b2 -> qsteps k b k2 b2.
Proof. induction 1; intros; [done|]. econstructor; [done|auto]. Qed.

Lemma pending_qsteps k p more : pending k p -> qsteps MNone (p ++ more) k more.
Proof.
  intros Hp. revert more. induction Hp as [|digits lf b args mb Hd Hmb Hmax Hb|p args mb digits lf len Hp IH Hd Hok]; intros more.
  - constructor.
  - replace ((42 :: digits ++ 13 :: lf :: b) ++ more) with (42 :: digits ++ 13 :: lf :: (b ++ more)) by (cbn; by simplify_list_eq).
    eapply qsteps_cons; [eapply mstep_multibulk; [by eapply decimal_free|done|lia]|].
    by apply (bulks_qsteps _ _ Hb [] mb).
  - rewrite <- app_assoc. eapply qsteps_app; [apply IH|].
    replace ((36 :: digits ++ [13; lf]) ++ more) with (36 :: digits ++ 13 :: lf :: more) by (cbn; by simplify_list_eq).
    eapply qsteps_cons; [eapply mstep_length; eauto using decimal_free|constructor].
Qed.

Lemma stuck_incomplete k part b : pending k part -> stuck k b -> incomplete (part ++ b).
Proof.
  intros Hp Hst p q args Hr E. destruct (request_reads _ _ q Hr) as (k' & b' & Hq & Hs). rewrite <- E in Hq.
  eapply qsteps_stuck; [exact Hq|exact Hs|by apply pending_qsteps|done].
Qed.

Lemma stuck_malformed k part b : pending k part -> (forall more, stuck k (b ++ more)) -> malformed (part ++ b).
Proof. intros Hp Hst more. rewrite <- app_assoc. by apply (stuck_incomplete k). Qed.

(** ** The grammar is not ambiguous. *)

Lemma request_unique p q args p' q' args' :
  request p args -> request p' args' -> p ++ q = p' ++ q' -> p = p' /\ args = args'.
Proof.
  intros H H' E. destruct (request_reads _ _ q H) as (k & b & Hq & Hs), (request_reads _ _ q' H') as (k' & b' & Hq' & Hs').
  rewrite <- E in Hq'. destruct (qsteps_det _ _ _ _ _ _ _ _ _ _ _ _ Hq Hs Hq' Hs') as [-> ->].
  by apply app_inj_2 in E as [-> _].
Qed.

Lemma requests_unique b cmds : requests b cmds -> forall part b' cmds' part',
  requests b' cmds' -> b ++ part = b' ++ part' -> incomplete part -> incomplete part' -> b = b' /\ cmds = cmds'.
Proof.
  induction 1 as [|p args b cmds Hp Hb IH]; intros part b' cmds' part' Hb' E Hi Hi'.
  - destruct Hb' as [|p' args' b' cmds' Hp' Hb']; [done|]. rewrite <- app_assoc in E. by destruct (Hi _ _ _ Hp' E).
  - destruct Hb' as [|p' args' b' cmds' Hp' Hb'].
    { rewrite <- app_assoc in E. symmetry in E. by destruct (Hi' _ _ _ Hp E). }
    rewrite <- !app_assoc in E. destruct (request_unique _ _ _ _ _ _ Hp Hp' E) as [<- <-]. apply app_inv_head in E.
    by destruct (IH _ _ _ _ Hb' E Hi Hi') as [<- <-].
Qed.

End Spec.
End RespSpec.
