(* ===== verification/RespRun.v ===== *)
(** The parser of networking.c runs the machine of [RespSpec] until it is
    stuck. *)

From S2P Require Import Prelude Util Sds SdsText Resp RespSpec.

Module RespRun.
Import Util Sds SdsText Resp RespSpec.

(** The errors that the length of the unread input causes *)
Definition limit_error (e : proto_error) : bool :=
  match e with too_big_inline | too_big_mbulk_count | too_big_bulk_count => true | _ => false end.

Definition abs (c : client) : mstate :=
  if multibulklen c =? 0 then MNone
  else if bulklen c =? -1 then MLen (argv c) (multibulklen c) else MArg (argv c) (multibulklen c) (bulklen c).

(** A line is next. *)
Definition at_line (k : mstate) : Prop := match k with MArg _ _ _ => False | _ => True end.

(** What can be left of the input while more is awaited *)
Definition tight (k : mstate) (b : bytes) : Prop :=
  match k with
  | MArg _ _ len => blen b < len + 2
  | _ => blen b <= PROTO_INLINE_MAX_SIZE \/ exists l, b = l ++ [13] /\ free 13 l
  end.

(** The request type is unknown or the one of the first byte. *)
Definition typed (c : client) : Prop :=
  match reqtype c with
  | PROTO_REQ_NONE => True
  | PROTO_REQ_INLINE => exists x b, rest c = x :: b /\ x <> 42
  | PROTO_REQ_MULTIBULK => exists b, rest c = 42 :: b
  end.

Definition between (c : client) : Prop := multibulklen c = 0 /\ argv c = [] /\ bulklen c = -1 /\ typed c.
Definition within (c : client) : Prop :=
  reqtype c = PROTO_REQ_MULTIBULK /\ 0 < multibulklen c <= 1024 * 1024 /\ (bulklen c = -1 \/ 0 <= bulklen c < 2 ^ 63).

Definition positioned (c : client) : Prop := 0 <= qb_pos c <= blen (querybuf c) /\ blen (querybuf c) < LIMIT - 1.
Definition open (c : client) : Prop := close_after_reply c = None /\ close_asap c = false.

Record inv (c : client) : Prop := Inv {
  inv_pos : positioned c;
  inv_state : between c \/ within c }.

Section Run.
Context (usable : Z -> Z) (try_ok : Z -> bool) (indet : nat -> Z) (Husable : alloc_ok usable).
Context (master : bool) (proto_max_bulk_len : Z).

Local Abbreviation stuck := (stuck usable try_ok indet master proto_max_bulk_len).
Local Abbreviation mstep := (mstep usable try_ok indet master proto_max_bulk_len).
Local Abbreviation msteps := (msteps usable try_ok indet master proto_max_bulk_len).
Local Abbreviation read_bulklen := (read_bulklen master proto_max_bulk_len).
Local Abbreviation bulk_ok := (bulk_ok master proto_max_bulk_len).

(** Why the parser stops *)
Definition stops (c : client) : Prop :=
  stuck (abs c) (rest c) /\
  match close_after_reply c with
  | None => tight (abs c) (rest c)
  | Some e =>
      if limit_error e then at_line (abs c) /\ PROTO_INLINE_MAX_SIZE < blen (rest c)
      else forall more, stuck (abs c) (rest c ++ more)
  end.

(** ** Lines *)

Lemma blen_rest c : positioned c -> blen (rest c) = blen (querybuf c) - qb_pos c.
Proof. intros [H _]. unfold rest, blen in *. rewrite length_drop. lia. Qed.

Lemma rest_advance c d more : rest c = d ++ more -> 0 <= qb_pos c -> rest (set_pos c (qb_pos c + blen d)) = more.
Proof.
  unfold rest. cbn. intros E ?. rewrite Z2Nat.inj_add by (auto using blen_nonneg). rewrite <- drop_drop, E, to_nat_blen.
  apply drop_app_length.
Qed.

(** What [strchr] for a carriage return and the test for the line feed tell *)
Lemma line_found c newline : positioned c -> strchr (rest c) 13 = Some newline -> no_linefeed c newline = false ->
  exists l lf more, rest c = l ++ 13 :: lf :: more /\ free 13 l /\ blen l = newline.
Proof.
  intros Hp Hs Hn. pose proof (blen_rest c Hp) as Hr. destruct Hp as [Hp Hmax]. unfold LIMIT in Hmax.
  apply strchr_Some in Hs as (l & more & E & Hf & <-). unfold no_linefeed in Hn.
  rewrite sint_small in Hn by (unfold in_sint; lia). rewrite E, blen_app, blen_cons in Hr. pose proof (blen_nonneg more).
  destruct more as [|lf more]; [rewrite blen_nil in Hr; lia|]. by exists l, lf, more.
Qed.

Lemma line_tight c newline : positioned c -> strchr (rest c) 13 = Some newline -> no_linefeed c newline = true ->
  exists l, rest c = l ++ [13] /\ free 13 l.
Proof.
  intros Hp Hs Hn. pose proof (blen_rest c Hp) as Hr. destruct Hp as [Hp Hmax]. unfold LIMIT in Hmax.
  apply strchr_Some in Hs as (l & more & E & Hf & <-). unfold no_linefeed in Hn.
  rewrite sint_small in Hn by (unfold in_sint; lia). rewrite E, blen_app, blen_cons in Hr. pose proof (blen_nonneg more).
  exists l. assert (more = []) as -> by (apply blen_0; lia). done.
Qed.

Lemma line_partial c newline l lf more : positioned c -> strchr (rest c) 13 = Some newline -> no_linefeed c newline = true ->
  free 13 l -> rest c <> l ++ 13 :: lf :: more.
Proof.
  intros Hp Hs Hn Hl E. pose proof (blen_rest c Hp) as Hr. destruct Hp as [Hp Hmax]. unfold LIMIT in Hmax.
  rewrite E, strchr_app in Hs by done. injection Hs as <-. unfold no_linefeed in Hn.
  rewrite sint_small in Hn by (unfold in_sint; lia). rewrite E, blen_app, !blen_cons in Hr. pose proof (blen_nonneg more). lia.
Qed.

Lemma line_number_ok c x digits lf more newline : rest c = x :: digits ++ 13 :: lf :: more -> newline = blen digits + 1 ->
  exists r, line_number c newline = Some r /\ forall v, r = Some v <-> in_sint 64 v /\ decimal digits v.
Proof.
  intros E ->. unfold line_number. rewrite E. replace (blen digits + 1 - 1) with (blen digits) by lia.
  change (x :: digits ++ 13 :: lf :: more) with ([x] ++ digits ++ (13 :: lf :: more)).
  rewrite bread_app by done. apply string2ll_spec.
Qed.


(** ** Inputs without a step *)

Lemma free_cons ch x l : x <> 0 -> x <> ch -> free ch l -> free ch (x :: l).
Proof. by constructor. Qed.

Lemma stuck_len args mb b :
  (forall digits lf more len, free 13 (36 :: digits) -> decimal digits len -> bulk_ok len -> b <> (36 :: digits) ++ 13 :: lf :: more) ->
  stuck (MLen args mb) b.
Proof.
  intros H k' b' o Hs. inversion Hs as [| | |ds lf len a m more Hf Hd Hok| |]; subst. eapply (H ds lf b'); [by apply free_cons|done|done|done].
Qed.

Lemma stuck_arg args mb len b : blen b < len + 2 -> stuck (MArg args mb len) b.
Proof.
  intros H k' b' o Hs. inversion Hs; subst; rewrite blen_app, !blen_cons in H; pose proof (blen_nonneg b'); lia.
Qed.

Lemma stuck_multibulk b :
  (forall digits lf more n, free 13 (42 :: digits) -> decimal digits n -> in_sint 64 n -> n <= 1024 * 1024 ->
    42 :: b <> (42 :: digits) ++ 13 :: lf :: more) ->
  stuck MNone (42 :: b).
Proof.
  intros H k' b' o Hs. inversion Hs as [l s args more Hf Hh Hc Hm Hsp Ek Eb|ds lf n more Hf Hd Hi Hn Ek Eb|ds lf n more Hf Hd Hi Ek Eb| | |]; subst.
  - apply (f_equal head) in Eb. rewrite head_inline in Eb. cbn in Eb. congruence.
  - eapply (H ds lf b' n); [by apply free_cons|done|done|lia|done].
  - eapply (H ds lf b' n); [by apply free_cons|done|by apply count_sint|lia|done].
Qed.

Lemma stuck_inline x b :
  x <> 42 ->
  (forall l s args more, free 10 l -> chomped l s -> (master = true -> s = []) -> sdssplitargs usable try_ok indet (s ++ [0]) = Some (Some args) -> x :: b <> l ++ 10 :: more) ->
  stuck MNone (x :: b).
Proof.
  intros Hx H k' b' o Hs. inversion Hs as [l s args more Hf Hh Hc Hm Hsp Ek Eb| | | | |]; subst; [|done..].
  by eapply (H l s args b').
Qed.

(** ** A length and an argument *)

(** [c'] has the same input before it in the same state. *)
Definition same (c c' : client) : Prop := abs c' = abs c /\ rest c' = rest c.

Lemma inv_error c e : inv c -> inv (setProtocolError c e).
Proof. intros [Hp Hs]. split; [exact Hp|exact Hs]. Qed.

Lemma stops_limit c e : positioned c -> stuck (abs c) (rest c) -> limit_error e = true -> at_line (abs c) ->
  PROTO_INLINE_MAX_SIZE < blen (querybuf c) - qb_pos c -> stops (setProtocolError c e).
Proof. intros Hp Hs He Ha Hl. split; [exact Hs|]. cbn. rewrite He. change (rest _) with (rest c). by rewrite blen_rest. Qed.

Lemma stops_malformed c e : (forall more, stuck (abs c) (rest c ++ more)) -> limit_error e = false -> stops (setProtocolError c e).
Proof.
  intros Hs He. split; [by specialize (Hs []); rewrite app_nil_r in Hs|]. cbn. by rewrite He.
Qed.

Lemma stops_need c : close_after_reply c = None -> stuck (abs c) (rest c) -> tight (abs c) (rest c) -> stops c.
Proof. intros Hc Hs Ht. split; [done|]. by rewrite Hc. Qed.

Lemma tight_short c : positioned c -> at_line (abs c) -> blen (querybuf c) - qb_pos c <= PROTO_INLINE_MAX_SIZE -> tight (abs c) (rest c).
Proof. intros Hp Ha Hl. rewrite <- blen_rest in Hl by done. destruct (abs c); [by left|by left|done]. Qed.
Lemma tight_line c newline : positioned c -> at_line (abs c) -> strchr (rest c) 13 = Some newline -> no_linefeed c newline = true ->
  tight (abs c) (rest c).
Proof. intros Hp Ha Hs Hn. pose proof (line_tight c newline Hp Hs Hn) as Hl. destruct (abs c); [by right|by right|done]. Qed.

Lemma line_mismatch x x' l l' lf lf' (more more' : bytes) :
  free 13 (x :: l) -> free 13 (x' :: l') -> (x :: l) ++ 13 :: lf :: more = (x' :: l') ++ 13 :: lf' :: more' ->
  x = x' /\ l = l' /\ lf = lf' /\ more = more'.
Proof. intros H H' E. apply free_unique in E as [[= -> ->] [= -> ->]]; done. Qed.

Lemma app_line (x : Z) l lf more more' : ((x :: l) ++ 13 :: lf :: more) ++ more' = (x :: l) ++ 13 :: lf :: (more ++ more').
Proof. by rewrite <- app_assoc. Qed.

Lemma positioned_advance c d more : positioned c -> rest c = d ++ more -> positioned (set_pos c (qb_pos c + blen d)).
Proof.
  intros Hp E. pose proof (blen_rest c Hp) as Hr. rewrite E, blen_app in Hr. destruct Hp as [Hp Hmax].
  pose proof (blen_nonneg d). pose proof (blen_nonneg more). split; cbn; lia.
Qed.

Lemma rest_trim c : rest (trim c) = rest c.
Proof. unfold rest, trim. cbn. apply drop_0. Qed.
Lemma positioned_trim c : positioned c -> positioned (trim c).
Proof.
  intros Hp. pose proof (blen_rest c Hp) as Hr. destruct Hp as [Hp Hmax]. pose proof (blen_nonneg (rest c)). split; cbn; lia.
Qed.

(** The length of the next argument is known. *)
Lemma bulklen_stored c digits lf more ll (b : bool) :
  positioned c -> open c -> within c -> bulklen c = -1 -> rest c = (36 :: digits) ++ 13 :: lf :: more ->
  free 13 (36 :: digits) -> decimal digits ll -> bulk_ok ll ->
  let c1 := set_pos c (qb_pos c + blen (36 :: digits) + 2) in
  let c2 := if b then trim c1 else c1 in
  let c' := Client (querybuf c2) (qb_pos c2) (reqtype c2) (argv c2) (multibulklen c2) ll (close_after_reply c2) (close_asap c2) in
  inv c' /\ within c' /\ close_asap c' = false /\ close_after_reply c' = None /\ bulklen c' <> -1 /\
  multibulklen c' = multibulklen c /\ mstep (abs c) (rest c) (abs c') (rest c') None.
Proof.
  intros Hp [Ho1 Ho2] (Hrt & Hmb & _) Hb E Hf Hd Hll c1 c2 c'. pose proof Hll as [Hll0 _].
  assert (rest c = ((36 :: digits) ++ [13; lf]) ++ more) as E' by by rewrite <- app_assoc.
  assert (c1 = set_pos c (qb_pos c + blen ((36 :: digits) ++ [13; lf]))) as Ec1.
  { unfold c1. rewrite blen_app. f_equal. change (blen [13; lf]) with 2. lia. }
  assert (positioned c1) as Hp1 by (rewrite Ec1; by eapply positioned_advance).
  assert (rest c1 = more) as Er1 by (rewrite Ec1; apply rest_advance; [done|apply Hp]).
  assert (positioned c2 /\ rest c2 = more) as [Hp2 Er2].
  { unfold c2. destruct b; [|done]. rewrite rest_trim. split; [by apply positioned_trim|done]. }
  assert (within c') as Hw by (destruct Hll; unfold c', c2; destruct b; cbn; split_and!; cbn; try done; lia).
  split_and!; [by split; [exact Hp2|right]|done|by unfold c', c2; destruct b|by unfold c', c2; destruct b|by destruct Hll; cbn; lia
    |by unfold c', c2; destruct b|].
  change (rest c') with (rest c2). rewrite Er2, E.
  assert (abs c = MLen (argv c) (multibulklen c)) as -> by (unfold abs; bdec; done).
  assert (abs c' = MArg (argv c) (multibulklen c) ll) as ->.
  { unfold abs, c', c2. destruct b; cbn [multibulklen bulklen argv trim c1 set_pos]; bdec; done. }
  apply mstep_length; [by apply Forall_cons in Hf as [_ Hf]|done|done].
Qed.

Lemma read_bulklen_ok c : inv c -> open c -> within c -> bulklen c = -1 ->
  exists c' go, read_bulklen c = Some (c', go) /\ inv c' /\ within c' /\ close_asap c' = false /\
    if go then close_after_reply c' = None /\ bulklen c' <> -1 /\ multibulklen c' = multibulklen c /\
               mstep (abs c) (rest c) (abs c') (rest c') None
    else same c c' /\ stops c'.
Proof.
  intros Hi [Ho1 Ho2] Hw Hb. pose proof (inv_pos c Hi) as Hp. pose proof Hw as (Hrt & Hmb & _).
  assert (abs c = MLen (argv c) (multibulklen c)) as Ha by (unfold abs; bdec; done).
  assert (at_line (abs c)) as Hal by by rewrite Ha.
  unfold Resp.read_bulklen. destruct (strchr (rest c) 13) as [newline|] eqn:Es.
  2:{ assert (stuck (abs c) (rest c)) as Hst.
      { rewrite Ha. apply stuck_len. intros digits lf more len Hf Hd Hok. by apply strchr_None. }
      bcase; eexists _, false; (split; [done|]); split_and!; try done; [by apply inv_error|by apply stops_limit; first [done|lia]
        |apply stops_need; [done..|]; apply tight_short; [done|done|lia]]. }
  destruct (no_linefeed c newline) eqn:En.
  { eexists _, false. split; [done|]. split_and!; try done. apply stops_need; [done| |by eapply tight_line]. rewrite Ha. apply stuck_len.
    intros digits lf more len Hf Hd Hok. by eapply line_partial. }
  destruct (line_found c newline Hp Es En) as (l & lf & more & E & Hf & <-).
  assert (exists x b, rest c = x :: b) as (x & b & Ex) by (rewrite E; destruct l; eauto).
  rewrite (bget_at _ 0 [] x b Ex eq_refl), bind_Some.
  assert (forall e, limit_error e = false ->
    (forall digits len, l = 36 :: digits -> decimal digits len -> bulk_ok len -> False) -> stops (setProtocolError c e)) as Hbad.
  { intros e He Hl. apply stops_malformed; [|done]. intros more'. rewrite Ha, E, <- app_assoc. cbn [app]. apply stuck_len.
    intros digits lf' more'' len Hf' Hd Hok E'. apply free_unique in E' as [-> _]; [|done|done]. by eapply Hl. }
  bcase.
  { eexists _, false. split; [done|]. split_and!; try done; [by apply inv_error|]. apply Hbad; [done|].
    intros digits len -> _ _. rewrite E in Ex. cbn in Ex. congruence. }
  subst x. destruct l as [|y digits]; [by rewrite E in Ex|]. rewrite E in Ex. injection Ex as -> _.
  destruct (line_number_ok c 36 digits lf more (blen (36 :: digits)) E ltac:(rewrite blen_cons; lia)) as (r & -> & Hr).
  rewrite bind_Some. destruct r as [ll|].
  2:{ eexists _, false. split; [done|]. split_and!; try done; [by apply inv_error|]. apply Hbad; [done|].
      intros ds len [= <-] Hd Hok. discriminate (proj2 (Hr len) (conj (bulk_sint _ _ _ Hok) Hd)). }
  destruct (proj1 (Hr ll) eq_refl) as [Hll Hd]. bcase.
  { eexists _, false. split; [done|]. split_and!; try done; [by apply inv_error|]. apply Hbad; [done|].
    intros ds len [= <-] Hd' Hok. pose proof (decimal_value _ _ _ Hll (bulk_sint _ _ _ Hok) Hd Hd') as ->. destruct Hok as [? Hok].
    destruct E0 as [?|[Hm ?]%andb_true_iff]; [lia|]. apply negb_true_iff in Hm. specialize (Hok Hm). lia. }
  rewrite andb_false_iff in E0. assert (bulk_ok ll) as Hok.
  { unfold in_sint in Hll. split; [lia|]. intros Hm. rewrite Hm in E0. cbn in E0. lia. }
  eexists _, true. split; [done|].
  exact (bulklen_stored c digits lf more ll _ Hp (conj Ho1 Ho2) Hw Hb E Hf Hd Hok).
Qed.

(** The state behind an argument; the machine is between two requests when it
    was the last one. *)
Definition after_arg (c : client) : mstate :=
  if multibulklen c =? 0 then MNone else MLen (argv c) (multibulklen c).

Lemma read_bulk_ok c : inv c -> open c -> within c -> bulklen c <> -1 ->
  exists c' go, read_bulk c = Some (c', go) /\ positioned c' /\ open c' /\
    if go then bulklen c' = -1 /\ multibulklen c' = multibulklen c - 1 /\ reqtype c' = reqtype c /\ argv c' <> [] /\
               mstep (abs c) (rest c) (after_arg c') (rest c') (if multibulklen c' =? 0 then Some (argv c') else None)
    else c' = c /\ stops c'.
Proof.
  intros Hi [Ho1 Ho2] Hw Hb. pose proof (inv_pos c Hi) as Hp. pose proof (blen_rest c Hp) as Hr. pose proof Hw as (Hrt & Hmb & Hbl).
  assert (abs c = MArg (argv c) (multibulklen c) (bulklen c)) as Ha by (unfold abs; bdec; done).
  assert (0 <= bulklen c < 2 ^ 63) as Hbl' by lia. clear Hbl. unfold read_bulk.
  rewrite uint_small by (unfold in_uint; lia). bcase.
  { exists c, false. split_and!; [done..|]. apply stops_need; [done| |]; rewrite Ha; [apply stuck_arg|cbn [tight]]; lia. }
  destruct (split_blen (rest c) (bulklen c)) as (arg & tl & Er & Hal); [lia|]. rewrite Er, blen_app in Hr.
  destruct tl as [|cr [|lf more]]; rewrite ?blen_cons, ?blen_nil in Hr; [lia|lia|].
  assert (bread (rest c) 0 (bulklen c) = Some arg) as Hread.
  { rewrite Er. apply (bread_app [] arg); [done|by rewrite Hal]. }
  assert (forall q pos a, rest (Client q pos (reqtype c) (argv c ++ [arg]) (multibulklen c) (bulklen c) (close_after_reply c) (close_asap c)) = more ->
    positioned (Client q pos (reqtype c) (argv c ++ [arg]) (multibulklen c) (bulklen c) (close_after_reply c) (close_asap c)) -> a = argv c ++ [arg] ->
    let c' := Client q pos (reqtype c) a (multibulklen c - 1) (-1) (close_after_reply c) (close_asap c) in
    positioned c' /\ open c' /\ bulklen c' = -1 /\ multibulklen c' = multibulklen c - 1 /\ reqtype c' = reqtype c /\ argv c' <> [] /\
      mstep (abs c) (rest c) (after_arg c') (rest c') (if multibulklen c' =? 0 then Some (argv c') else None)) as Hstep.
  { intros q pos a Hm Hpos -> c'. split_and!; try done; [by destruct (argv c)|]. change (rest c') with (rest (Client q pos (reqtype c)
      (argv c ++ [arg]) (multibulklen c) (bulklen c) (close_after_reply c) (close_asap c))). rewrite Hm, Er, Ha, <- Hal.
    unfold after_arg, c'. cbn [multibulklen argv]. bcase.
    - replace (multibulklen c) with 1 by lia. apply mstep_last.
    - apply mstep_argument. lia. }
  bdestr ((qb_pos c =? 0) && (bulklen c >=? PROTO_MBULK_BIG_ARG) && (blen (querybuf c) =? bulklen c + 2)).
  - assert (rest c = querybuf c) as Eq by (unfold rest; destruct E0 as [[-> _] _]; apply drop_0).
    rewrite <- Eq, Hread, bind_Some. eexists _, true. split; [done|]. cbn [querybuf qb_pos reqtype argv multibulklen bulklen close_after_reply close_asap].
    apply Hstep; [|split; [done|done]|done]. unfold rest. cbn. symmetry. apply blen_0. lia.
  - rewrite Hread, bind_Some. eexists _, true. split; [done|]. cbn [querybuf qb_pos reqtype argv multibulklen bulklen close_after_reply close_asap].
    assert (rest c = (arg ++ [cr; lf]) ++ more) as Er' by by rewrite <- app_assoc.
    assert (bulklen c + 2 = blen (arg ++ [cr; lf])) as -> by (rewrite blen_app; change (blen [cr; lf]) with 2; lia).
    apply Hstep; [|by apply (positioned_advance c _ more)|done]. apply (rest_advance c _ more); [done|apply Hp].
Qed.

(** ** The loop over the arguments *)

Lemma bulk_loop_done fuel c : multibulklen c = 0 -> bulk_loop master proto_max_bulk_len (S fuel) c = Some (c, true).
Proof. intros H. cbn [bulk_loop]. by bdec. Qed.

Lemma bulk_loop_ok fuel : forall c, inv c -> open c -> within c -> (Z.to_nat (multibulklen c) < fuel)%nat ->
  exists c' ready, bulk_loop master proto_max_bulk_len fuel c = Some (c', ready) /\ positioned c' /\ close_asap c' = false /\
    if ready then close_after_reply c' = None /\ argv c' <> [] /\ msteps (abs c) (rest c) MNone (rest c') [argv c']
    else within c' /\ msteps (abs c) (rest c) (abs c') (rest c') [] /\ stops c'.
Proof.
  induction fuel as [|fuel IH]; intros c Hi Ho Hw Hf; [lia|]. cbn [bulk_loop]. pose proof Hw as (Hrt & Hmb & Hbl). bdec.
  assert (exists c1 go, (if bulklen c =? -1 then read_bulklen c else Some (c, true)) = Some (c1, go) /\ inv c1 /\ within c1 /\ close_asap c1 = false /\
    if go then close_after_reply c1 = None /\ bulklen c1 <> -1 /\ multibulklen c1 = multibulklen c /\ msteps (abs c) (rest c) (abs c1) (rest c1) []
    else same c c1 /\ stops c1) as (c1 & go & -> & Hi1 & Hw1 & Hca & H1).
  { bcase.
    - destruct (read_bulklen_ok c Hi Ho Hw E) as (c1 & go & -> & ? & ? & ? & H). exists c1, go. split_and!; try done.
      destruct go; [|done]. destruct H as (?&?&?&?). split_and!; try done. by eapply msteps_one.
    - exists c, true. destruct Ho. split_and!; try done. constructor. }
  rewrite bind_Some. destruct go; cbn [negb].
  2:{ destruct H1 as [[Ea Er] Hst]. exists c1, false. split_and!; try done; [apply Hi1|]. rewrite Ea, Er. constructor. }
  destruct H1 as (Hcr & Hbl1 & Hmb1 & Hs1).
  destruct (read_bulk_ok c1 Hi1 (conj Hcr Hca) Hw1 Hbl1) as (c2 & go & -> & Hp2 & [Ho2 Ho2'] & H2). rewrite bind_Some. destruct go; cbn [negb].
  2:{ destruct H2 as [-> Hst]. exists c1, false. split_and!; done. }
  destruct H2 as (Hb2 & Hmb2 & Hrt2 & Hne & Hs2). destruct (decide (multibulklen c2 = 0)) as [E0|E0].
  - destruct fuel as [|fuel]; [lia|]. rewrite bulk_loop_done by done. exists c2, true. split_and!; try done.
    revert Hs2. unfold after_arg. bdec. intros Hs2. apply (msteps_app _ _ _ _ _ _ _ _ _ [] _ _ _ Hs1). eapply msteps_one; [exact Hs2|].
    cbn. by destruct (argv c2).
  - assert (within c2) as Hw2 by (unfold within; rewrite Hrt2, Hb2; destruct Hw1 as (?&?&?); split_and!; [done|lia..|by left]).
    revert Hs2. assert (after_arg c2 = abs c2) as -> by (unfold after_arg, abs; bdec; done). bdec. intros Hs2.
    destruct (IH c2) as (c' & ready & E' & Hp' & Hca' & H'); [by split; [|right]|done|done|lia|]. exists c', ready. split_and!; try done.
    assert (msteps (abs c) (rest c) (abs c2) (rest c2) []) as Hs.
    { apply (msteps_app _ _ _ _ _ _ _ _ _ [] _ _ _ Hs1). by eapply msteps_one. }
    destruct ready.
    + destruct H' as (?&?&Hs'). split_and!; try done. exact (msteps_app _ _ _ _ _ _ _ _ _ [] _ _ _ Hs Hs').
    + destruct H' as (?&Hs'&?). split_and!; try done. exact (msteps_app _ _ _ _ _ _ _ _ _ [] _ _ _ Hs Hs').
Qed.


(** ** A request *)

(** What a call of one of the two parsers gives *)
Definition parsed (c : client) (r : option (client * bool)) : Prop :=
  exists c' ready, r = Some (c', ready) /\ positioned c' /\ close_asap c' = false /\
    if ready then close_after_reply c' = None /\ msteps (abs c) (rest c) MNone (rest c') (command (argv c')) /\ blen (rest c') < blen (rest c)
    else inv c' /\ msteps (abs c) (rest c) (abs c') (rest c') [] /\ stops c'.

Lemma parsed_stop c c' : inv c -> inv c' -> close_asap c' = false -> same c c' -> stops c' -> parsed c (Some (c', false)).
Proof. intros Hi Hi' Hc [Ha Hr] Hs. exists c', false. split_and!; try done; [apply Hi'|]. rewrite Ha, Hr. constructor. Qed.

Lemma qb_bread_prefix s more : bread (s ++ more) 0 (blen s) = Some s.
Proof. by apply (bread_app [] s more). Qed.

Lemma chomp_ok c l more : rest c = l ++ 10 :: more ->
  exists s (cr : bool), chomped l s /\ (if blen l =? 0 then Some false else x ← bget (rest c) (blen l - 1); Some (x =? 13)) = Some cr /\
    blen s = (if cr then blen l - 1 else blen l) /\ bread (rest c) 0 (blen s) = Some s.
Proof.
  intros E. destruct (decide (blen l = 0)) as [H0|H0].
  { apply blen_0 in H0 as ->. exists [], false. split_and!; [by right|done|done|]. rewrite E. apply qb_bread_prefix. }
  destruct (exists_last (l:=l)) as (s & x & ->); [by intros ->|]. rewrite blen_app in *. change (blen [x]) with 1 in *.
  rewrite <- app_assoc in E. cbn [app] in E. rewrite (bget_at _ _ s x (10 :: more) E) by lia. rewrite bind_Some.
  bdec. destruct (decide (x = 13)) as [->|Hx].
  - exists s, true. split_and!; [by left|done|lia|]. rewrite E. apply qb_bread_prefix.
  - exists (s ++ [x]), false. split_and!; [right; split; [done|]; rewrite last_snoc; congruence|by rewrite (proj2 (Z.eqb_neq x 13) Hx)|rewrite blen_app; change (blen [x]) with 1; lia|].
    rewrite E. change (s ++ x :: 10 :: more) with (s ++ [x] ++ 10 :: more). rewrite app_assoc. apply qb_bread_prefix.
Qed.

Lemma chomped_blen l s : chomped l s -> blen s <= blen l.
Proof. intros [-> | [-> _]]; [rewrite blen_app; change (blen [13]) with 1|]; lia. Qed.
Lemma chomped_free l s : chomped l s -> free 10 l -> Forall (fun x => x <> 0) s.
Proof.
  intros Hc Hf. assert (free 10 s) as H by (destruct Hc as [-> | [-> _]]; [by apply Forall_app in Hf as [? _]|done]).
  eapply Forall_impl; [exact H|]. by intros ? [? _].
Qed.

Lemma processInlineBuffer_ok c x b : inv c -> open c -> between c -> rest c = x :: b -> x <> 42 ->
  parsed c (processInlineBuffer usable try_ok indet master c).
Proof.
  intros Hi [Ho1 Ho2] (Hmb & Hav & Hbl & Hty) Ex Hx. pose proof (inv_pos c Hi) as Hp.
  assert (abs c = MNone) as Ha by (unfold abs; by bdec). assert (at_line (abs c)) as Hal by by rewrite Ha.
  unfold processInlineBuffer. destruct (strchr (rest c) 10) as [newline|] eqn:Es.
  2:{ assert (stuck (abs c) (rest c)) as Hst.
      { rewrite Ha, Ex. apply stuck_inline; [done|]. intros l s args more Hf _ _ _. rewrite <- Ex. by apply strchr_None. }
      bcase; apply parsed_stop; try done; [by apply inv_error|by apply stops_limit; first [done|lia]|].
      apply stops_need; [done..|]. apply tight_short; [done|done|lia]. }
  apply strchr_Some in Es as (l & more & E & Hf & <-). destruct (chomp_ok c l more E) as (s & cr & Hc & -> & Hbs & Hread). rewrite bind_Some.
  cbn zeta. rewrite <- Hbs, Hread, bind_Some. pose proof (blen_rest c Hp) as Hbr. rewrite E, blen_app, blen_cons in Hbr. pose proof (blen_nonneg more).
  pose proof (chomped_blen l s Hc) as Hsl.
  assert (is_Some (sdssplitargs usable try_ok indet (s ++ [0]))) as [args Hargs].
  { apply sdssplitargs_safe; [done|by eapply chomped_free|]. destruct Hp as [? ?]. lia. }
  assert (forall e, limit_error e = false ->
    (forall args', sdssplitargs usable try_ok indet (s ++ [0]) = Some (Some args') -> (master = true -> s = []) -> False) ->
    parsed c (Some (setProtocolError c e, false))) as Hbad.
  { intros e He Hno. apply parsed_stop; try done; [by apply inv_error|]. apply stops_malformed; [|done]. intros more'. rewrite Ha, E, <- app_assoc.
    cbn [app]. assert (exists b', l ++ 10 :: more ++ more' = x :: b') as [b' Eb'].
    { destruct l as [|y l]; rewrite E in Ex; injection Ex as -> _; by eexists. }
    rewrite Eb'. apply stuck_inline; [done|]. intros l' s' args' more'' Hf' Hc' Hm' Hs'. rewrite <- Eb'. intros El.
    apply free_unique in El as [<- _]; [|done|done]. rewrite <- (chomped_unique l s s' Hc Hc') in *. by eapply Hno. }
  rewrite Hargs, bind_Some. destruct args as [args|].
  2:{ apply Hbad; [done|]. intros args' Ha' _. congruence. }
  bdestr (negb (blen s =? 0) && master).
  { apply Hbad; [done|]. intros args' _ Hm. destruct E0 as [H0 Hm']. rewrite (Hm Hm'), blen_nil in H0. done. }
  assert (master = true -> s = []) as Hms.
  { intros Hm. rewrite Hm in E0. destruct E0 as [E0|E0]; [|done]. by apply blen_0. }
  assert (rest c = (l ++ [10]) ++ more) as E' by by rewrite <- app_assoc.
  assert (blen s + (if cr then 2 else 1) = blen (l ++ [10])) as -> by (rewrite blen_app; change (blen [10]) with 1; destruct cr; lia).
  assert (forall a, rest (Client (querybuf c) (qb_pos c + blen (l ++ [10])) (reqtype c) a (multibulklen c) (bulklen c) (close_after_reply c)
    (close_asap c)) = more) as Hm by (intros a; exact (rest_advance c _ more E' ltac:(apply Hp))).
  eexists _, true. split; [done|]. rewrite Hm. split_and!; [by eapply (positioned_advance c)|done|done| |].
  - cbn [argv]. rewrite Ha, E.
    eapply msteps_one; [eapply mstep_inline; [done| |done|done|done]|done].
    rewrite <- (head_inline l more), <- E, Ex. cbn. congruence.
  - rewrite E, blen_app, blen_cons.
    pose proof (blen_nonneg l). lia.
Qed.


Lemma abs_within c : within c -> abs c <> MNone.
Proof. intros (_ & ? & _). unfold abs. bdec. by bcase. Qed.

Lemma msteps_progress k b b' cmds : msteps k b MNone b' cmds -> k <> MNone -> blen b' < blen b.
Proof.
  intros H Hk. inversion H as [|? ? k1 b1 o ? ? cmds' Hs Hms]; subst; [done|].
  apply mstep_shorter in Hs. apply msteps_shorter in Hms. lia.
Qed.

(** The arguments of a request, the number of them being known *)
Lemma bulk_loop_parsed c : inv c -> open c -> within c ->
  parsed c (bulk_loop master proto_max_bulk_len (S (Z.to_nat (multibulklen c))) c).
Proof.
  intros Hi Ho Hw. destruct (bulk_loop_ok (S (Z.to_nat (multibulklen c))) c Hi Ho Hw ltac:(lia)) as (c' & ready & -> & Hp & Hca & H).
  exists c', ready. split_and!; try done. destruct ready.
  - destruct H as (? & ? & Hs). split_and!; [done| |by eapply msteps_progress, abs_within]. by destruct (argv c').
  - destruct H as (? & ? & ?). split_and!; try done. by split; [|right].
Qed.

Lemma parsed_step c c1 r : parsed c1 r -> mstep (abs c) (rest c) (abs c1) (rest c1) None -> parsed c r.
Proof.
  intros (c' & ready & -> & Hp & Hca & H) Hs. exists c', ready. split_and!; try done. pose proof (mstep_shorter _ _ _ _ _ _ _ _ _ _ Hs).
  apply (msteps_one _ _ _ _ _ _ _ _ _ None []) in Hs; [|done]. destruct ready.
  - destruct H as (? & Hs' & ?). split_and!; [done|exact (msteps_app _ _ _ _ _ _ _ _ _ _ _ _ _ Hs Hs')|lia].
  - destruct H as (? & Hs' & ?). split_and!; [done|exact (msteps_app _ _ _ _ _ _ _ _ _ _ _ _ _ Hs Hs')|done].
Qed.

Lemma processMultibulkBuffer_ok c : inv c -> open c -> reqtype c = PROTO_REQ_MULTIBULK ->
  parsed c (processMultibulkBuffer master proto_max_bulk_len c).
Proof.
  intros Hi [Ho1 Ho2] Hrt. pose proof (inv_pos c Hi) as Hp. unfold processMultibulkBuffer.
  destruct (inv_state c Hi) as [(Hmb & Hav & Hbl & Hty)|Hw].
  2:{ pose proof Hw as (_ & ? & _). bdec. by apply bulk_loop_parsed. }
  rewrite Hmb, Z.eqb_refl. rewrite guard_bool by (by apply bool_decide_eq_true). unfold typed in Hty. rewrite Hrt in Hty. destruct Hty as [b Eb].
  assert (abs c = MNone) as Ha by (unfold abs; by bdec). assert (at_line (abs c)) as Hal by by rewrite Ha.
  destruct (strchr (rest c) 13) as [newline|] eqn:Es.
  2:{ assert (stuck (abs c) (rest c)) as Hst.
      { rewrite Ha, Eb. apply stuck_multibulk. intros digits lf more n Hf _ _ _. rewrite <- Eb. by apply strchr_None. }
      bcase; apply parsed_stop; try done; [by apply inv_error|by apply stops_limit; first [done|lia]|].
      apply stops_need; [done..|]. apply tight_short; [done|done|lia]. }
  destruct (no_linefeed c newline) eqn:En.
  { apply parsed_stop; try done. apply stops_need; [done| |by eapply tight_line]. rewrite Ha, Eb. apply stuck_multibulk.
    intros digits lf more n Hf _ _ _. rewrite <- Eb. by eapply line_partial. }
  destruct (line_found c newline Hp Es En) as (l & lf & more & E & Hf & <-).
  rewrite (bget_at _ 0 [] 42 b Eb eq_refl), bind_Some. cbn [Z.eqb Pos.eqb].
  destruct l as [|y digits]; [by rewrite E in Eb|]. rewrite E in Eb. injection Eb as -> _.
  destruct (line_number_ok c 42 digits lf more (blen (42 :: digits)) E ltac:(rewrite blen_cons; lia)) as (r & -> & Hr). rewrite bind_Some.
  assert (forall e, limit_error e = false -> (forall n, in_sint 64 n -> decimal digits n -> n <= 1024 * 1024 -> False) ->
    parsed c (Some (setProtocolError c e, false))) as Hbad.
  { intros e He Hn. apply parsed_stop; try done; [by apply inv_error|]. apply stops_malformed; [|done]. intros more'. rewrite Ha, E, <- app_assoc.
    cbn [app]. apply stuck_multibulk. intros ds lf' more'' n Hf' Hd Hi' Hle E'.
    apply (free_unique 13 (42 :: digits)) in E' as [[= ->] _]; [|done|done]. by eapply Hn. }
  destruct r as [ll|].
  2:{ apply Hbad; [done|]. intros n Hn Hd _. discriminate (proj2 (Hr n) (conj Hn Hd)). }
  destruct (proj1 (Hr ll) eq_refl) as [Hll Hd]. bcase.
  { apply Hbad; [done|]. intros n Hn Hd' Hle. rewrite (decimal_value _ _ _ Hll Hn Hd Hd') in *. lia. }
  assert (rest c = ((42 :: digits) ++ [13; lf]) ++ more) as E' by by rewrite <- app_assoc.
  assert (qb_pos c + blen (42 :: digits) + 2 = qb_pos c + blen ((42 :: digits) ++ [13; lf])) as -> by (rewrite blen_app; change (blen [13; lf]) with 2; lia).
  pose proof (rest_advance c _ more E' ltac:(apply Hp)) as Hm. pose proof (positioned_advance c _ more Hp E') as Hp'.
  apply Forall_cons in Hf as [_ Hf]. cbn zeta. bcase.
  - eexists _, true. split; [done|]. split_and!; [done|done|done| |].
    + rewrite Hm, Ha, E. cbn [argv set_pos]. rewrite Hav. eapply msteps_one; [by eapply (mstep_empty _ _ _ _ _ digits lf ll)|done].
    + rewrite Hm, E', blen_app, blen_app. change (blen [13; lf]) with 2. pose proof (blen_nonneg (42 :: digits)). lia.
  - set (c1 := Client _ _ _ _ ll _ _ _). assert (within c1) as Hw1 by (unfold within, c1; cbn; split_and!; [done|lia..|by left]).
    apply (parsed_step c c1); [apply (bulk_loop_parsed c1); [by split; [exact Hp'|right]|done|done]|].
    change (rest c1) with (rest (set_pos c (qb_pos c + blen ((42 :: digits) ++ [13; lf])))). rewrite Hm, Ha, E.
    assert (abs c1 = MLen [] ll) as ->. { unfold abs, c1. cbn [multibulklen bulklen argv set_pos]. rewrite Hav, Hbl. by bdec. }
    apply mstep_multibulk; [done|done|lia].
Qed.


(** ** The loop over the requests *)

Definition set_reqtype (c : client) (t : req_type) : client :=
  Client (querybuf c) (qb_pos c) t (argv c) (multibulklen c) (bulklen c) (close_after_reply c) (close_asap c).

(** The request type once the first byte is seen *)
Lemma detect_ok c x b : inv c -> rest c = x :: b ->
  let c1 := match reqtype c with
            | PROTO_REQ_NONE => set_reqtype c (if x =? 42 then PROTO_REQ_MULTIBULK else PROTO_REQ_INLINE)
            | _ => c
            end in
  inv c1 /\ same c c1 /\ close_after_reply c1 = close_after_reply c /\ close_asap c1 = close_asap c /\
  match reqtype c1 with
  | PROTO_REQ_NONE => False
  | PROTO_REQ_INLINE => between c1 /\ x <> 42
  | PROTO_REQ_MULTIBULK => True
  end.
Proof.
  intros [Hp Hs] E c1. unfold c1. destruct (reqtype c) eqn:Er.
  - assert (between (set_reqtype c (if x =? 42 then PROTO_REQ_MULTIBULK else PROTO_REQ_INLINE))) as Hb.
    { destruct Hs as [(?&?&?&_)|(?&_)]; [|congruence]. split_and!; [done..|]. unfold typed. bcase; cbn; change (rest _) with (rest c); rewrite E.
      - exists b. by subst.
      - by exists x, b. }
    split_and!; [by split; [|left]|done|done|done|]. cbn. by bcase.
  - split_and!; [by split|done|done|done|]. rewrite Er. destruct Hs as [Hb|(?&_)]; [|congruence]. split; [done|].
    destruct Hb as (_&_&_&Ht). unfold typed in Ht. rewrite Er in Ht. destruct Ht as (y & b' & E' & Hy). congruence.
  - split_and!; [by split|done|done|done|]. by rewrite Er.
Qed.

Lemma parsed_same c c1 r : same c c1 -> parsed c1 r -> parsed c r.
Proof. intros [Ha Hr]. unfold parsed. by rewrite Ha, Hr. Qed.

Lemma inv_reset c : positioned c -> inv (resetClient c) /\ abs (resetClient c) = MNone.
Proof. intros Hp. split; [|done]. by split; [|left]. Qed.

Lemma input_loop_ok fuel : forall c, inv c -> open c -> blen (rest c) < Z.of_nat fuel ->
  exists c' cmds, input_loop usable try_ok indet master proto_max_bulk_len fuel c = Some (c', cmds) /\
    inv c' /\ close_asap c' = false /\ msteps (abs c) (rest c) (abs c') (rest c') cmds /\ stops c'.
Proof.
  induction fuel as [|fuel IH]; intros c Hi [Ho1 Ho2] Hf; [pose proof (blen_nonneg (rest c)); lia|]. cbn [input_loop].
  pose proof (blen_rest c (inv_pos c Hi)) as Hr. bcase.
  { exists c, []. split_and!; [done..|constructor|]. assert (rest c = []) as E0 by (apply blen_0; pose proof (inv_pos c Hi) as [? _]; lia).
    apply stops_need; [done|rewrite E0; apply stuck_nil|]. rewrite E0. unfold abs, tight.
    destruct (inv_state c Hi) as [(-> & _)|(_ & _ & ?)]; [by left|]. repeat bcase; [by left..|rewrite blen_nil; lia]. }
  rewrite Ho1, Ho2. rewrite bool_decide_false by (intros H; by apply H). cbn [orb].
  assert (exists x b, rest c = x :: b) as (x & b & Ex) by (destruct (rest c); [rewrite blen_nil in Hr; lia|eauto]).
  rewrite (bget_at _ 0 [] x b Ex eq_refl), bind_Some. cbn zeta.
  replace (Client (querybuf c) (qb_pos c) (if x =? 42 then PROTO_REQ_MULTIBULK else PROTO_REQ_INLINE) (argv c) (multibulklen c) (bulklen c) None false)
    with (set_reqtype c (if x =? 42 then PROTO_REQ_MULTIBULK else PROTO_REQ_INLINE)) by (unfold set_reqtype; by rewrite Ho1, Ho2).
  pose proof (detect_ok c x b Hi Ex) as Hd. cbn zeta in Hd.
  set (c1 := match reqtype c with PROTO_REQ_NONE => _ | _ => c end) in *. destruct Hd as (Hi1 & Hsame & Ho1' & Ho2' & Ht).
  assert (open c1) as Hopen1 by (split; congruence).
  assert (parsed c (match reqtype c1 with PROTO_REQ_INLINE => processInlineBuffer usable try_ok indet master c1
    | _ => processMultibulkBuffer master proto_max_bulk_len c1 end)) as (c2 & ready & -> & Hp2 & Hca & H2).
  { apply (parsed_same c c1 _ Hsame). destruct (reqtype c1) eqn:Er; [done|destruct Ht|by apply processMultibulkBuffer_ok].
    eapply (processInlineBuffer_ok c1 x b); try done. by rewrite (proj2 Hsame). }
  rewrite bind_Some. destruct ready; cbn [negb].
  2:{ destruct H2 as (? & ? & ?). by exists c2, []. }
  destruct H2 as (Hcr & Hs & Hlt). destruct (inv_reset c2 Hp2) as [Hi2 Ha2].
  destruct (IH (resetClient c2) Hi2 (conj Hcr Hca)) as (c' & cmds & E' & Hi' & Hca' & Hs' & Hst).
  { change (rest (resetClient c2)) with (rest c2). lia. }
  rewrite Ha2 in Hs'. change (rest (resetClient c2)) with (rest c2) in Hs'.
  pose proof (msteps_app _ _ _ _ _ _ _ _ _ _ _ _ _ Hs Hs') as Hall. rewrite E'.
  destruct (argv c2) eqn:Eav; cbn [command app] in Hall.
  - by exists c', cmds.
  - rewrite bind_Some. eexists c', _. by split.
Qed.

Lemma processInputBuffer_ok c : inv c -> open c ->
  exists c' cmds, processInputBuffer usable try_ok indet master proto_max_bulk_len c = Some (c', cmds) /\
    inv c' /\ qb_pos c' = 0 /\ close_asap c' = false /\ msteps (abs c) (rest c) (abs c') (rest c') cmds /\ stops c'.
Proof.
  intros Hi Ho. unfold processInputBuffer.
  destruct (input_loop_ok (S (Z.to_nat (blen (querybuf c) - qb_pos c))) c Hi Ho) as (c' & cmds & -> & Hi' & Hca & Hs & Hst).
  { rewrite blen_rest by apply Hi. lia. }
  rewrite bind_Some. bcase; [by exists c', cmds|]. exists (trim c'), cmds. split; [done|].
  assert (abs (trim c') = abs c') as Ha by done. split_and!; try done.
  split; [by apply positioned_trim, Hi'|]. destruct (inv_state c' Hi') as [(?&?&?&Ht)|?]; [left|by right]. split_and!; try done.
Qed.

End Run.
End RespRun.
