(* ===== verification/RespSafety.v ===== *)
(** What a client's connection promises: whatever the sizes of the reads, the
    requests in the bytes received are executed, once and in order. *)

From S2P Require Import Prelude Util Sds SdsText Resp RespSpec RespRun.

Module RespSafety.
Import Util Sds SdsText Resp RespSpec RespRun.

Section Safety.
Context (usable : Z -> Z) (try_ok : Z -> bool) (indet : nat -> Z) (Husable : alloc_ok usable).
Context (master : bool) (proto_max_bulk_len client_max_querybuf_len : Z).

Local Abbreviation stuck := (stuck usable try_ok indet master proto_max_bulk_len).
Local Abbreviation mstep := (mstep usable try_ok indet master proto_max_bulk_len).
Local Abbreviation msteps := (msteps usable try_ok indet master proto_max_bulk_len).
Local Abbreviation qsteps := (qsteps usable try_ok indet master proto_max_bulk_len).
Local Abbreviation reads := (reads usable try_ok indet master proto_max_bulk_len).
Local Abbreviation pending := (pending master proto_max_bulk_len).
Local Abbreviation request := (request usable try_ok indet master proto_max_bulk_len).
Local Abbreviation requests := (requests usable try_ok indet master proto_max_bulk_len).
Local Abbreviation incomplete := (incomplete usable try_ok indet master proto_max_bulk_len).
Local Abbreviation malformed := (malformed usable try_ok indet master proto_max_bulk_len).
Local Abbreviation stops := (stops usable try_ok indet master proto_max_bulk_len).
Local Abbreviation readQueryFromClient := (readQueryFromClient usable try_ok indet master proto_max_bulk_len client_max_querybuf_len).
Local Abbreviation receive := (receive usable try_ok indet master proto_max_bulk_len client_max_querybuf_len).
Local Abbreviation processInputBuffer := (processInputBuffer usable try_ok indet master proto_max_bulk_len).

(** ** Why a connection is closed *)

(** The line that follows what is read of a request does not end within the
    64 kB of an inline request. *)
Definition long_line (b : bytes) : Prop :=
  exists k p l q, b = p ++ l ++ q /\ pending k p /\ at_line k /\ stuck k l /\ PROTO_INLINE_MAX_SIZE < blen l.

(** What is left in the input while more of it is awaited *)
Definition bound (k : mstate) : Z :=
  match k with MArg _ _ len => len + 1 | _ => PROTO_INLINE_MAX_SIZE + PROTO_IOBUF_LEN end.

(** The query buffer outgrows its limit. *)
Definition oversized (b : bytes) : Prop :=
  exists k p q bs, b = p ++ q ++ bs /\ pending k p /\ stuck k q /\ blen q <= bound k /\ blen bs <= PROTO_IOBUF_LEN /\
    client_max_querybuf_len < blen q + blen bs.

(** [part] is what follows the last request that was executed. *)
Definition status (c : client) (part : bytes) : Prop :=
  match close_after_reply c with
  | Some e => if limit_error e then long_line part else malformed part
  | None => if close_asap c then oversized part else incomplete part
  end.

(** ** The connection between two reads *)

Inductive session : bytes -> list (list bytes) -> client -> Prop :=
  | session_open full part cmds c :
      inv c -> open c -> qb_pos c = 0 -> requests full cmds -> pending (abs c) part -> stuck (abs c) (querybuf c) ->
      tight (abs c) (querybuf c) -> blen (querybuf c) <= bound (abs c) ->
      session (full ++ part ++ querybuf c) cmds c
  | session_closed full part cmds c :
      ~ open c -> requests full cmds -> status c part -> session (full ++ part) cmds c.

Lemma session_create : session [] [] createClient.
Proof.
  change (@nil Z) with (@nil Z ++ [] ++ querybuf createClient). apply session_open; try done.
  - split; [by split|by left].
  - constructor.
  - constructor.
  - apply stuck_nil.
  - by left.
Qed.

Lemma rest_0 c : qb_pos c = 0 -> rest c = querybuf c.
Proof. intros H. unfold rest. by rewrite H. Qed.

(** ** A read *)

Definition append (c : client) (bs : bytes) : client :=
  Client (querybuf c ++ bs) (qb_pos c) (reqtype c) (argv c) (multibulklen c) (bulklen c) (close_after_reply c) (close_asap c).

Lemma append_ok c bs : inv c -> qb_pos c = 0 -> blen (querybuf c ++ bs) < LIMIT - 1 ->
  inv (append c bs) /\ rest (append c bs) = rest c ++ bs.
Proof.
  intros [Hp Hs] H0 Hl. assert (rest (append c bs) = rest c ++ bs) as Er by (rewrite !rest_0; done).
  split; [|done]. split; [split; cbn; [rewrite H0; pose proof (blen_nonneg (querybuf c ++ bs)); lia|done]|].
  destruct Hs as [(?&?&?&Ht)|?]; [left|by right]. split_and!; try done. unfold typed in *. cbn [reqtype append]. rewrite Er.
  destruct (reqtype c); [done| |].
  - destruct Ht as (x & b & -> & ?). by exists x, (b ++ bs).
  - destruct Ht as (b & ->). by exists (b ++ bs).
Qed.

Lemma line_kept b bs l : tight MNone b -> b ++ bs = l ++ [13] -> free 13 l -> bs <> [] -> blen b <= PROTO_INLINE_MAX_SIZE.
Proof.
  intros Ht E Hl Hbs. destruct (exists_last Hbs) as (bs' & x & ->). rewrite app_assoc in E. apply app_inj_2 in E as [<- _]; [|done].
  destruct Ht as [?|(l & -> & _)]; [done|]. apply Forall_app in Hl as [Hl _]. apply Forall_app in Hl as [_ Hl].
  by apply Forall_cons in Hl as [[_ ?] _].
Qed.

Lemma bound_kept k b bs k' b' cmds :
  msteps k (b ++ bs) k' b' cmds -> stuck k b -> tight k b -> 0 < blen bs <= PROTO_IOBUF_LEN -> tight k' b' -> blen b' <= bound k'.
Proof.
  intros Hs Hst Ht Hbs Ht'. assert (bs <> []) as Hne by (intros ->; rewrite blen_nil in Hbs; lia).
  inversion Hs as [|? ? k1 b1 o ? ? cmds' Hs1 Hms]; subst.
  - rewrite blen_app in *. destruct k'; cbn [bound].
    + destruct Ht' as [?|(l & E & Hl)]; [rewrite blen_app in *; unfold PROTO_IOBUF_LEN; lia|].
      pose proof (line_kept b bs l Ht E Hl Hne). lia.
    + destruct Ht' as [?|(l & E & Hl)]; [rewrite blen_app in *; unfold PROTO_IOBUF_LEN; lia|].
      pose proof (line_kept b bs l Ht E Hl Hne). lia.
    + cbn in Ht'. rewrite blen_app in Ht'. lia.
  - apply mstep_suffix in Hs1; [|done]. apply msteps_shorter in Hms. pose proof (blen_nonneg b').
    destruct k'; cbn [bound]; [unfold PROTO_INLINE_MAX_SIZE; lia..|cbn in Ht'; lia].
Qed.

(** A client that is closed executes nothing more. *)
Lemma closed_input c : close_after_reply c <> None ->
  exists c', processInputBuffer c = Some (c', []) /\ close_after_reply c' = close_after_reply c /\ close_asap c' = close_asap c.
Proof.
  intros Hc. unfold Resp.processInputBuffer. cbn [input_loop]. rewrite (bool_decide_true (_ <> _)) by done. cbn [orb].
  exists (if qb_pos c =? 0 then c else trim c). bcase; rewrite bind_Some; (split; [done|]); by bcase.
Qed.

Lemma incomplete_prefix b more : incomplete (b ++ more) -> incomplete b.
Proof. intros H p q args Hr ->. by apply (H p (q ++ more) args Hr); rewrite <- app_assoc. Qed.

Lemma status_more c c' part more : close_after_reply c <> None -> close_after_reply c' = close_after_reply c ->
  status c part -> status c' (part ++ more).
Proof.
  unfold status. intros Hc ->. destruct (close_after_reply c) as [e|]; [|done]. destruct (limit_error e).
  - intros (k & p & l & q & -> & ? & ? & ? & ?). exists k, p, l, (q ++ more). by rewrite <- !app_assoc.
  - intros H more'. rewrite <- app_assoc. apply H.
Qed.

Lemma readlen_range c : 0 < readlen c <= PROTO_IOBUF_LEN.
Proof. unfold readlen, PROTO_IOBUF_LEN. destruct (reqtype c); try lia. bcase; [|lia]. bcase; lia. Qed.

(** The parser is called on an open connection. *)
Lemma input_session full part cmds c bs :
  inv c -> open c -> qb_pos c = 0 -> requests full cmds -> pending (abs c) part -> stuck (abs c) (querybuf c) ->
  tight (abs c) (querybuf c) -> 0 < blen bs <= PROTO_IOBUF_LEN -> blen (querybuf c ++ bs) < LIMIT - 1 ->
  exists c' cmds', processInputBuffer (append c bs) = Some (c', cmds') /\ session (full ++ part ++ querybuf c ++ bs) (cmds ++ cmds') c'.
Proof.
  intros Hi Ho H0 Hfull Hpart Hst Ht Hbs Hl. destruct (append_ok c bs Hi H0 Hl) as [Hi1 Er1].
  destruct (processInputBuffer_ok usable try_ok indet Husable master proto_max_bulk_len (append c bs) Hi1 Ho)
    as (c' & cmds' & -> & Hi' & H0' & Hca & Hs & Hst' & Hcl).
  exists c', cmds'. split; [done|]. change (abs (append c bs)) with (abs c) in Hs. rewrite Er1, rest_0 in Hs by done. rewrite rest_0 in * by done.
  destruct (msteps_pending _ _ _ _ _ _ _ _ _ _ Hs part Hpart) as (full' & part' & E & Hfull' & Hpart').
  assert (requests (full ++ full') (cmds ++ cmds')) as Hr by by apply requests_app.
  rewrite E, (app_assoc full full'). destruct (close_after_reply c') as [e|] eqn:Ec.
  - apply session_closed; [intros [? _]; congruence|done|]. unfold status. rewrite Ec. destruct (limit_error e).
    + destruct Hcl as [? ?]. exists (abs c'), part', (querybuf c'), []. by rewrite app_nil_r.
    + by eapply stuck_malformed.
  - apply session_open; try done. by eapply bound_kept.
Qed.

(** ** The whole connection *)

Context (Hmin : PROTO_INLINE_MAX_SIZE + 2 * PROTO_IOBUF_LEN <= client_max_querybuf_len < LIMIT - 1).

Lemma read_open c n socket : close_asap c = false ->
  readQueryFromClient c n socket =
    let nread := Z.min n (Z.min (readlen c) (blen socket)) in
    if nread <=? 0 then Some (c, socket, [])
    else
      let bs := take (Z.to_nat nread) socket in
      if blen (querybuf c ++ bs) >? client_max_querybuf_len then Some (freeClientAsync (append c bs), drop (Z.to_nat nread) socket, [])
      else '(c, cmds) ← processInputBuffer (append c bs); Some (c, drop (Z.to_nat nread) socket, cmds).
Proof. destruct c. cbn [close_asap]. by intros ->. Qed.

Lemma read_ok received cmds c n socket : session received cmds c ->
  exists c' socket' cmds' bs, readQueryFromClient c n socket = Some (c', socket', cmds') /\ socket = bs ++ socket' /\
    session (received ++ bs) (cmds ++ cmds') c' /\ (0 < n -> close_asap c = false -> socket <> [] -> bs <> []).
Proof.
  intros Hses. assert (close_asap c = true \/ close_asap c = false) as [Ea|Ea] by (destruct (close_asap c); auto).
  { exists c, socket, [], []. unfold Resp.readQueryFromClient. rewrite Ea, !app_nil_r. split_and!; done. }
  rewrite read_open by done. cbn zeta.
  pose proof (readlen_range c) as Hrl. set (nread := Z.min n (Z.min (readlen c) (blen socket))). bcase.
  { exists c, socket, [], []. rewrite !app_nil_r. split_and!; try done. intros Hn _ Hne _.
    destruct socket as [|x socket]; [done|]. unfold nread in E. rewrite blen_cons in E. pose proof (blen_nonneg socket). lia. }
  set (bs := take (Z.to_nat nread) socket). assert (blen bs = nread) as Hbs by (unfold bs, blen in *; rewrite length_take; lia).
  assert (socket = bs ++ drop (Z.to_nat nread) socket) as Es by (by unfold bs; rewrite take_drop).
  assert (bs <> []) as Hne by (intros H; rewrite H, blen_nil in Hbs; lia).
  fold bs. destruct Hses as [full part cmds c Hi Ho H0 Hfull Hpart Hst Ht Hb|full part cmds c Hno Hfull Hstat].
  - bcase.
    + exists (freeClientAsync (append c bs)), (drop (Z.to_nat nread) socket), [], bs. split_and!; try done.
      rewrite !app_nil_r, <- !app_assoc. apply session_closed; [by intros [_ ?]|done|]. unfold status. cbn.
      destruct Ho as [-> _]. exists (abs c), part, (querybuf c), bs. rewrite blen_app in E0. split_and!; try done; lia.
    + destruct (input_session full part cmds c bs) as (c' & cmds' & -> & Hs'); try done; [lia|lia|].
      rewrite bind_Some. eexists c', _, cmds', bs. split_and!; try done. by rewrite <- !app_assoc.
  - assert (close_after_reply c <> None) as Hcl by (intros H; by apply Hno).
    bcase.
    + exists (freeClientAsync (append c bs)), (drop (Z.to_nat nread) socket), [], bs. split_and!; try done.
      rewrite !app_nil_r, <- !app_assoc. apply session_closed; [by intros [_ ?]|done|]. by eapply (status_more c).
    + destruct (closed_input (append c bs) Hcl) as (c' & -> & Ec & _). rewrite bind_Some. eexists c', _, [], bs. split_and!; try done.
      rewrite app_nil_r, <- !app_assoc. apply session_closed; [intros [? _]; cbn in *; congruence|done|]. by eapply (status_more c).
Qed.

Lemma receive_closed ns : forall c socket, close_asap c = true -> receive c ns socket = Some (c, socket, []).
Proof.
  induction ns as [|n ns IH]; intros c socket H; cbn [Resp.receive]; [done|]. unfold Resp.readQueryFromClient. rewrite H, bind_Some, IH by done.
  by rewrite bind_Some.
Qed.

Lemma receive_ok ns : forall received cmds c socket, session received cmds c ->
  exists c' socket' cmds' bs, receive c ns socket = Some (c', socket', cmds') /\ socket = bs ++ socket' /\
    session (received ++ bs) (cmds ++ cmds') c' /\
    (Forall (fun n => 0 < n) ns -> close_asap c' = false -> Z.of_nat (length ns) >= blen socket -> socket' = []).
Proof.
  induction ns as [|n ns IH]; intros received cmds c socket Hses.
  { exists c, socket, [], []. rewrite !app_nil_r. split_and!; try done. intros _ _ H. apply blen_0. pose proof (blen_nonneg socket). cbn in H. lia. }
  destruct (close_asap c) eqn:Ea.
  { exists c, socket, [], []. rewrite !app_nil_r, receive_closed by done. split_and!; try done. congruence. }
  cbn [Resp.receive]. destruct (read_ok _ _ _ n socket Hses) as (c1 & socket1 & cmds1 & bs1 & -> & -> & Hs1 & Hp1). rewrite bind_Some.
  destruct (IH _ _ _ socket1 Hs1) as (c2 & socket2 & cmds2 & bs2 & -> & -> & Hs2 & Hp2). rewrite bind_Some.
  exists c2, socket2, (cmds1 ++ cmds2), (bs1 ++ bs2). split_and!; try done; [by rewrite <- app_assoc|by rewrite !app_assoc|].
  intros Hns Ha Hl. apply Forall_cons in Hns as [Hn Hns]. cbn [length] in Hl. rewrite blen_app in Hl. apply Hp2; [done|done|].
  destruct (decide (bs1 = [])) as [->|Hne].
  - assert (bs2 ++ socket2 = []) as ->; [|rewrite blen_nil; lia]. apply dec_stable. intros Hne. by destruct (Hp1 Hn Ea).
  - assert (0 < blen bs1) by (destruct bs1 as [|y bs1]; [done|]; rewrite blen_cons; pose proof (blen_nonneg bs1); lia). lia.
Qed.

(** ** Streams of commands *)

(** The arguments that are read in state [k] *)
Definition args_of (k : mstate) : list bytes := match k with MNone => [] | MLen args _ | MArg args _ _ => args end.

Lemma reads_continue k b args more k' b' : reads k b args more -> qsteps k b k' b' -> reads k' b' args more.
Proof.
  intros Hr Hq. induction Hq as [|k b k1 b1 k' b' Hs Hq IH]; [done|]. apply IH. destruct Hr as (k2 & b2 & Hq2 & Hl).
  destruct Hq2 as [k b|k b k3 b3 k2 b2 Hs' Hq'].
  - by destruct (mstep_det _ _ _ _ _ _ _ _ _ _ _ _ _ Hs Hl) as (_ & _ & ?).
  - destruct (mstep_det _ _ _ _ _ _ _ _ _ _ _ _ _ Hs Hs') as (-> & -> & _). by exists k2, b2.
Qed.

Lemma mstep_args k b k' b' o : mstep k b k' b' o -> args_of k `prefix_of` match o with Some args => args | None => args_of k' end.
Proof. destruct 1; cbn; try apply prefix_nil; try done; by eexists. Qed.

Lemma reads_args k b args more : reads k b args more -> args_of k `prefix_of` args.
Proof.
  intros (k' & b' & Hq & Hl). induction Hq as [|k b k1 b1 k' b' Hs Hq IH]; [exact (mstep_args _ _ _ _ _ Hl)|].
  etransitivity; [exact (mstep_args _ _ _ _ _ Hs)|by apply IH].
Qed.

Lemma reads_arg args mb len b out more : reads (MArg args mb len) b out more -> exists arg, arg ∈ out /\ blen arg = len.
Proof.
  intros (k' & b' & Hq & Hl). assert (forall arg, (args ++ [arg]) `prefix_of` out -> arg ∈ out) as Hin.
  { intros arg [tl ->]. rewrite !elem_of_app. left. right. by left. }
  inversion Hq as [|? ? k1 b1 ? ? Hs Hq']; subst.
  - inversion Hl; subst. eexists. split; [by apply Hin|done].
  - inversion Hs; subst. eexists. split; [|done]. apply Hin. apply (reads_args (MLen (args ++ [arg]) (mb - 1)) b1 out more). by exists k', b'.
Qed.

(** A line with a number fits in the longest line that is read. *)
Lemma line_step k l m k' b' o :
  mstep k (l ++ m) k' b' o -> at_line k -> (k = MNone -> head (l ++ m) = Some 42) -> PROTO_INLINE_MAX_SIZE < blen l -> ~ stuck k l.
Proof.
  intros Hs Ha Hh Hl Hst. destruct (mstep_split _ _ _ _ _ _ _ _ _ _ Hs) as (d & E & Hd & Hd').
  assert (blen d <= 23) as Hd23.
  { apply (f_equal blen) in E. rewrite (blen_app d) in E.
    inversion Hs as [l0 s args more Hf Hh' Hc Hm Hsp Ek Eb|ds lf n more Hf Hn Hi Hn' Ek Eb|ds lf n more Hf Hn Hi Ek Eb
      |ds lf n args mb more Hf Hn Hi Ek Eb| |]; subst; try done; rewrite <- Eb in *.
    - specialize (Hh eq_refl). rewrite head_inline in Hh. congruence.
    - pose proof (decimal_short n ds ltac:(done) Hn). rewrite blen_cons, !blen_app, !blen_cons in E. lia.
    - pose proof (decimal_short n ds ltac:(by apply count_sint) Hn). rewrite blen_cons, !blen_app, !blen_cons in E. lia.
    - pose proof (decimal_short n ds ltac:(by eapply bulk_sint) Hn). rewrite blen_cons, !blen_app, !blen_cons in E. lia. }
  unfold PROTO_INLINE_MAX_SIZE in Hl. destruct (split_blen l (blen d)) as (d1 & l1 & -> & Hl1); [lia|].
  rewrite <- app_assoc in E. apply app_inj_1 in E as [-> _]; [|unfold blen in *; lia]. by eapply Hst.
Qed.

(** Commands with arguments of at most [L] bytes, sent as multibulk requests *)
Inductive commands (L : Z) : bytes -> list (list bytes) -> Prop :=
  | commands_nil : commands L [] []
  | commands_cons digits lf b args stream cmds :
      decimal digits (Z.of_nat (length args)) -> 0 < Z.of_nat (length args) <= 1024 * 1024 -> bulks master proto_max_bulk_len b args ->
      Forall (fun arg => blen arg <= L) args -> commands L stream cmds ->
      commands L ((42 :: digits ++ 13 :: lf :: b) ++ stream) (args :: cmds).

Lemma commands_request L stream cmds : commands L stream cmds -> stream <> [] ->
  exists args e rest, stream = e ++ rest /\ request e args /\ Forall (fun arg => blen arg <= L) args.
Proof.
  destruct 1 as [|digits lf b args stream cmds Hd Hn Hb Hf Hc]; [done|]. intros _. eexists args, _, stream.
  split_and!; [done|by apply request_multibulk|done].
Qed.

Lemma commands_head L stream cmds : commands L stream cmds -> stream <> [] -> head stream = Some 42.
Proof. by destruct 1. Qed.

Lemma request_nonempty p args : request p args -> p <> [].
Proof. destruct 1; [by destruct l|done..]. Qed.

Lemma commands_split L full cmds1 : requests full cmds1 -> forall tail cmds, commands L (full ++ tail) cmds ->
  exists cmds2, cmds = cmds1 ++ cmds2 /\ commands L tail cmds2.
Proof.
  induction 1 as [|p args b cmds1 Hp Hb IH]; intros tail cmds Hc; [by exists cmds|]. rewrite <- app_assoc in Hc.
  inversion Hc as [E|digits lf b' args' stream cmds' Hd Hn Hb' Hf Hc' E]; subst.
  { symmetry in E. apply app_eq_nil in E as [E _]. by apply request_nonempty in Hp. }
  destruct (request_unique _ _ _ _ _ _ _ _ _ _ _ (request_multibulk usable try_ok indet master proto_max_bulk_len _ _ _ _ Hd Hn Hb') Hp E) as [<- <-].
  apply (app_inv_head (42 :: digits ++ 13 :: lf :: b')) in E as ->. destruct (IH _ _ Hc') as (cmds2 & -> & Hc2). exists cmds2. split; [|done].
  by destruct args'; [cbn in Hn; lia|].
Qed.

(** ... are read to their end from any state inside one of them. *)
Lemma commands_reads L k p b cmds : commands L (p ++ b) cmds -> pending k p -> p ++ b <> [] ->
  exists args more, reads k b args more /\ Forall (fun arg => blen arg <= L) args.
Proof.
  intros Hc Hp Hne. destruct (commands_request _ _ _ Hc Hne) as (args & e & more & E & Hr & Hf).
  exists args, more. split; [|done]. apply (request_reads _ _ _ _ _ _ _ more) in Hr. rewrite <- E in Hr.
  eapply reads_continue; [exact Hr|by apply pending_qsteps].
Qed.

Lemma reads_step_first k b args more : reads k b args more -> exists k' b' o, mstep k b k' b' o.
Proof. intros (k' & b' & Hq & Hl). destruct Hq; eauto. Qed.

Lemma commands_not_long L p l q b cmds k :
  commands L ((p ++ l ++ q) ++ b) cmds -> pending k p -> at_line k -> PROTO_INLINE_MAX_SIZE < blen l -> ~ stuck k l.
Proof.
  intros Hc Hp Ha Hl. rewrite <- !app_assoc in Hc.
  assert (l <> []) as Hne by (intros ->; by rewrite blen_nil in Hl).
  assert (p ++ l ++ q ++ b <> []) as Hne' by (by destruct p, l).
  destruct (commands_reads _ _ _ _ _ Hc Hp Hne') as (args & more & Hr & _). apply reads_step_first in Hr as (k' & b' & o & Hs).
  eapply line_step; [exact Hs|done| |done]. intros ->. inversion Hp; subst. by eapply commands_head.
Qed.

Lemma commands_well_formed L part b cmds : commands L (part ++ b) cmds -> ~ malformed part.
Proof.
  intros Hc Hm. destruct (decide (part ++ b = [])) as [E|E].
  - apply app_eq_nil in E as [-> _]. apply (Hm [42; 48; 13; 10] [42; 48; 13; 10] [] []); [|done].
    apply (request_empty _ _ _ _ _ [48] 10 0); [|done|done]. unfold decimal, udecimal. cbn. split_and!; [repeat constructor; lia|done|by left].
  - destruct (commands_request _ _ _ Hc E) as (args & e & more & E' & Hr & _). by apply (Hm b e more args).
Qed.

Lemma commands_not_oversized L part b cmds :
  commands L (part ++ b) cmds -> L + 1 + PROTO_IOBUF_LEN <= client_max_querybuf_len -> ~ oversized part.
Proof.
  intros Hc HL (k & p & q & bs & -> & Hp & Hs & Hb & Hbs & Hmax). rewrite <- !app_assoc in Hc. unfold PROTO_INLINE_MAX_SIZE, PROTO_IOBUF_LEN in *.
  assert (q ++ bs <> []) as Hne by (intros E; apply (f_equal blen) in E; rewrite blen_app, blen_nil in E; lia).
  assert (p ++ q ++ bs ++ b <> []) as Hne' by (rewrite !(app_assoc q); destruct p; [|done]; by destruct (q ++ bs)).
  destruct (commands_reads _ _ _ _ _ Hc Hp Hne') as (args & more & Hr & Hf).
  destruct k as [|? ?|? ? len]; cbn [bound] in Hb; [unfold PROTO_INLINE_MAX_SIZE, PROTO_IOBUF_LEN in Hb; lia..|].
  apply reads_arg in Hr as (arg & Hin & <-). rewrite Forall_forall in Hf. specialize (Hf arg Hin). cbn in Hf. lia.
Qed.

Lemma commands_open L c part b cmds :
  commands L (part ++ b) cmds -> L + 1 + PROTO_IOBUF_LEN <= client_max_querybuf_len -> status c part -> open c.
Proof.
  intros Hc HL Hst. unfold status in Hst. destruct (close_after_reply c) as [e|] eqn:Ee; [exfalso|split; [done|]].
  - destruct (limit_error e); [|by eapply commands_well_formed].
    destruct Hst as (k & p & l & q & -> & Hp & Ha & Hs & Hl). by eapply commands_not_long.
  - destruct (close_asap c); [|done]. by eapply commands_not_oversized in Hst.
Qed.

Lemma clean_client c : inv c -> open c -> qb_pos c = 0 -> querybuf c = [] -> abs c = MNone -> c = createClient.
Proof.
  intros [_ Hs] [Ho1 Ho2] H0 Hq Ha. destruct Hs as [(Hmb & Hav & Hbl & Ht)|Hw]; [|by apply abs_within in Hw].
  unfold typed in Ht. rewrite rest_0, Hq in Ht by done. destruct c as [q pos t a m bl e asap]. cbn in *. subst.
  destruct t; [done|by destruct Ht as (?&?&?&_)|by destruct Ht].
Qed.

Lemma pending_nil k : pending k [] -> k = MNone.
Proof. intros H. inversion H as [| |p args mb digits lf len Hp Hd Hok Ek E]; [done|]. by destruct p. Qed.

(** Commands that are sent are executed, and nothing is left of them. *)
Lemma receive_exact L stream cmds ns :
  commands L stream cmds -> L + 1 + PROTO_IOBUF_LEN <= client_max_querybuf_len ->
  Forall (fun n => 0 < n) ns -> blen stream <= Z.of_nat (length ns) ->
  receive createClient ns stream = Some (createClient, [], cmds).
Proof.
  intros Hc HL Hns Hlen. destruct (receive_ok ns [] [] createClient stream session_create) as (c & socket' & cmds' & bs & -> & -> & Hs & Hend).
  cbn [app] in Hs. specialize (Hend Hns).
  inversion Hs as [full part cmds0 c' Hi Ho H0 Hfull Hpart Hst Ht Hb|full part cmds0 c' Hno Hfull Hstat]; subst; rewrite <- app_assoc in Hc;
    destruct (commands_split _ _ _ Hfull _ _ Hc) as (cmds2 & -> & Hc2).
  2:{ destruct Hno. by eapply commands_open. }
  rewrite (Hend (proj2 Ho)) in * by lia. rewrite app_nil_r in Hc2.
  destruct (decide (part ++ querybuf c = [])) as [E|E].
  - apply app_eq_nil in E as [-> E]. rewrite (clean_client c) by eauto using pending_nil. rewrite E in Hc2. inversion Hc2; subst.
    by rewrite app_nil_r.
  - destruct (commands_request _ _ _ Hc2 E) as (args & e & more & E' & Hr & _).
    by destruct (stuck_incomplete _ _ _ _ _ _ _ _ Hpart Hst _ _ _ Hr E').
Qed.

(** C7: Whatever bytes a peer sends and however many of them each read
    returns, the parser makes no access outside the query buffer, fails no
    assertion and terminates. The bytes received are a sequence of requests of
    the protocol, the commands of which are executed in order, and a last part:
    it is incomplete, or the connection is closed since it is malformed, it has
    a line that is too long or it does not fit in the query buffer. *)
Theorem receive_refines ns socket :
  exists c socket' cmds full part,
    receive createClient ns socket = Some (c, socket', cmds) /\ socket = (full ++ part) ++ socket' /\
    requests full cmds /\ status c part.
Proof.
  destruct (receive_ok ns [] [] createClient socket session_create) as (c & socket' & cmds & bs & -> & -> & Hs & _).
  cbn [app] in Hs. inversion Hs as [full part cmds' c' Hi Ho H0 Hfull Hpart Hst Ht Hb|full part cmds' c' Hno Hfull Hstat]; subst.
  - eexists c, socket', cmds, full, _. split_and!; try done. unfold status. destruct Ho as [-> ->]. by eapply stuck_incomplete.
  - by exists c, socket', cmds, full, part.
Qed.

End Safety.

(** Two requests and a part of a third one, in reads of three sizes, under the
    default limits *)
Lemma receive_refines_witness : exists c socket' cmds full part,
  receive round16 (fun _ => true) (fun _ => 9) false (512 * 1024 * 1024) (1024 * 1024 * 1024) createClient [3; 20; 9]
    (str "PING" ++ [13; 10] ++ str "*1" ++ [13; 10] ++ str "$4" ++ [13; 10] ++ str "QUIT" ++ [13; 10] ++ str "*2") = Some (c, socket', cmds) /\
  str "PING" ++ [13; 10] ++ str "*1" ++ [13; 10] ++ str "$4" ++ [13; 10] ++ str "QUIT" ++ [13; 10] ++ str "*2" = (full ++ part) ++ socket' /\
  requests round16 (fun _ => true) (fun _ => 9) false (512 * 1024 * 1024) full cmds /\
  status round16 (fun _ => true) (fun _ => 9) false (512 * 1024 * 1024) (1024 * 1024 * 1024) c part.
Proof.
  apply (receive_refines round16 (fun _ => true) (fun _ => 9) round16_ok false (512 * 1024 * 1024) (1024 * 1024 * 1024)).
  split; by vm_compute.
Defined.

End RespSafety.
