(* ===== verification/Repl.v ===== *)
(** The replication stream, replication.c: what a master executes is written to
    a circular buffer and to the output of its replicas, and a replica that
    reconnects is sent the part of the stream it missed.

    Offsets count bytes of the stream without wrapping around. The lines
    [+FULLRESYNC] and [+CONTINUE] that are written to the socket at once, before
    the output, are not modelled, and neither is a failure of that write or the
    error reply to an offset that is not a number. *)

From S2P Require Import Prelude Util.

Module Repl.
Import Util.

Definition CONFIG_REPL_BACKLOG_MIN_SIZE : Z := 1024 * 16.
Definition LONG_STR_SIZE : Z := 21.
Definition PROTO_SHARED_SELECT_CMDS : Z := 10.

(** A string object, [OBJ_ENCODING_INT] or an SDS string *)
Inductive robj := INT (v : Z) | RAW (b : bytes).

Inductive slave_state :=
  | SLAVE_STATE_WAIT_BGSAVE_START | SLAVE_STATE_WAIT_BGSAVE_END | SLAVE_STATE_SEND_BULK | SLAVE_STATE_ONLINE.

#[export] Instance slave_state_eq_dec : EqDecision slave_state.
Proof. solve_decision. Defined.

(** [out] is what was added to the output buffers since they were empty. *)
Record slave := Slave {
  slave_id : Z;
  replstate : slave_state;
  rdbonly : bool;
  slave_capa : Z;
  psync_initial_offset : Z;
  out : bytes }.

Inductive rdb_child := RDB_CHILD_TYPE_DISK | RDB_CHILD_TYPE_SOCKET.

Record server := Server {
  replid : bytes;
  replid2 : bytes;
  master_repl_offset : Z;
  second_replid_offset : Z;
  slaveseldb : Z;
  repl_backlog : option bytes;
  repl_backlog_size : Z;
  repl_backlog_histlen : Z;
  repl_backlog_idx : Z;
  repl_backlog_off : Z;
  slaves : list slave;
  masterhost : bool;
  (** The background save that is running *)
  child : option rdb_child }.

Definition set_ids (s : server) (id id2 : bytes) (second : Z) : server :=
  Server id id2 (master_repl_offset s) second (slaveseldb s) (repl_backlog s) (repl_backlog_size s) (repl_backlog_histlen s)
    (repl_backlog_idx s) (repl_backlog_off s) (slaves s) (masterhost s) (child s).
Definition set_backlog (s : server) (offset : Z) (backlog : option bytes) (size histlen idx off : Z) : server :=
  Server (replid s) (replid2 s) offset (second_replid_offset s) (slaveseldb s) backlog size histlen idx off (slaves s) (masterhost s) (child s).
Definition set_slaves (s : server) (l : list slave) : server :=
  Server (replid s) (replid2 s) (master_repl_offset s) (second_replid_offset s) (slaveseldb s) (repl_backlog s) (repl_backlog_size s)
    (repl_backlog_histlen s) (repl_backlog_idx s) (repl_backlog_off s) l (masterhost s) (child s).
Definition set_seldb (s : server) (db : Z) : server :=
  Server (replid s) (replid2 s) (master_repl_offset s) (second_replid_offset s) db (repl_backlog s) (repl_backlog_size s)
    (repl_backlog_histlen s) (repl_backlog_idx s) (repl_backlog_off s) (slaves s) (masterhost s) (child s).
Definition set_child (s : server) (c : option rdb_child) : server :=
  Server (replid s) (replid2 s) (master_repl_offset s) (second_replid_offset s) (slaveseldb s) (repl_backlog s) (repl_backlog_size s)
    (repl_backlog_histlen s) (repl_backlog_idx s) (repl_backlog_off s) (slaves s) (masterhost s) c.

Section Master.
(** The contents of memory that is not initialized *)
Context (indet : nat -> Z).

(** ** The circular buffer *)

Definition createReplicationBacklog (s : server) : option server :=
  assert! bool_decide (repl_backlog s = None);
  Some (set_backlog s (master_repl_offset s) (Some (brealloc indet [] (repl_backlog_size s))) (repl_backlog_size s) 0 0 (master_repl_offset s + 1)).

Definition resizeReplicationBacklog (s : server) (newsize : Z) : server :=
  let newsize := if newsize <? CONFIG_REPL_BACKLOG_MIN_SIZE then CONFIG_REPL_BACKLOG_MIN_SIZE else newsize in
  if repl_backlog_size s =? newsize then s
  else
    match repl_backlog s with
    | None => set_backlog s (master_repl_offset s) None newsize (repl_backlog_histlen s) (repl_backlog_idx s) (repl_backlog_off s)
    | Some _ => set_backlog s (master_repl_offset s) (Some (brealloc indet [] newsize)) newsize 0 0 (master_repl_offset s + 1)
    end.

Definition freeReplicationBacklog (s : server) : option server :=
  assert! bool_decide (slaves s = []);
  Some (set_backlog s (master_repl_offset s) None (repl_backlog_size s) (repl_backlog_histlen s) (repl_backlog_idx s) (repl_backlog_off s)).

(** The buffer, its index and the length of its history after the bytes [p]. A
    turn writes at least one of them. *)
Fixpoint feed_loop (fuel : nat) (backlog : bytes) (size idx histlen : Z) (p : bytes) : option (bytes * Z * Z) :=
  match fuel with
  | O => None
  | S fuel =>
      if blen p =? 0 then Some (backlog, idx, histlen)
      else
        let thislen := size - idx in
        let thislen := if thislen >? blen p then blen p else thislen in
        chunk ← bread p 0 thislen;
        backlog ← bwrite backlog idx chunk;
        let idx := idx + thislen in
        let idx := if idx =? size then 0 else idx in
        feed_loop fuel backlog size idx (histlen + thislen) (drop (Z.to_nat thislen) p)
  end.

Definition feedReplicationBacklog (s : server) (p : bytes) : option server :=
  backlog ← repl_backlog s;
  let offset := master_repl_offset s + blen p in
  '(backlog, idx, histlen) ← feed_loop (S (length p)) backlog (repl_backlog_size s) (repl_backlog_idx s) (repl_backlog_histlen s) p;
  let histlen := if histlen >? repl_backlog_size s then repl_backlog_size s else histlen in
  Some (set_backlog s offset (Some backlog) (repl_backlog_size s) histlen idx (offset - histlen + 1)).

(** The digits of an integer, in a buffer of [size] bytes *)
Definition ll_text (size v : Z) : option bytes :=
  '(b, len) ← ll2string (brealloc indet [] size) size v; bread b 0 len.

Definition feedReplicationBacklogWithObject (s : server) (o : robj) : option server :=
  match o with
  | INT v => t ← ll_text LONG_STR_SIZE v; feedReplicationBacklog s t
  | RAW b => feedReplicationBacklog s b
  end.

Definition stringObjectLen (o : robj) : option Z :=
  match o with INT v => sdigits10 v | RAW b => Some (blen b) end.

(** A prefix, an integer and CRLF, in a buffer of [size] bytes *)
Definition header (size prefix ll : Z) : option bytes :=
  aux ← bset (brealloc indet [] size) 0 prefix;
  '(num, len) ← ll2string (drop 1 aux) (size - 1) ll;
  aux ← bset (take 1 aux ++ num) (len + 1) 13;
  aux ← bset aux (len + 2) 10;
  bread aux 0 (len + 3).

(** ** Replies *)

(** What [%d] prints *)
Definition fmt_d (n : Z) : bytes := default [] (ll_text 32 n).
Definition CRLF : bytes := [13; 10].

(** [addReply(c,obj)] *)
Definition reply_obj (o : robj) : option bytes :=
  match o with INT v => ll_text 32 v | RAW b => Some b end.
(** The headers of small numbers are shared objects, [shared.mbulkhdr] and
    [shared.bulkhdr]. *)
Definition addReplyLongLongWithPrefix (ll prefix : Z) : option bytes :=
  if ((prefix =? 42) || (prefix =? 36)) && (ll <? 32) && (ll >=? 0) then Some (prefix :: fmt_d ll ++ CRLF)
  else header 128 prefix ll.
Definition addReplyArrayLen (length : Z) : option bytes :=
  assert! length >=? 0; addReplyLongLongWithPrefix length 42.
Definition addReplyBulk (o : robj) : option bytes :=
  len ← stringObjectLen o;
  h ← addReplyLongLongWithPrefix len 36;
  t ← reply_obj o;
  Some (h ++ t ++ CRLF).
Fixpoint addReplyBulks (argv : list robj) : option bytes :=
  match argv with
  | [] => Some []
  | o :: argv => b ← addReplyBulk o; bs ← addReplyBulks argv; Some (b ++ bs)
  end.

Definition canFeedReplicaReplBuffer (sl : slave) : bool :=
  if rdbonly sl then false else negb (bool_decide (replstate sl = SLAVE_STATE_WAIT_BGSAVE_START)).

Definition add_out (b : bytes) (sl : slave) : slave :=
  Slave (slave_id sl) (replstate sl) (rdbonly sl) (slave_capa sl) (psync_initial_offset sl) (out sl ++ b).
(** The loops over the replicas *)
Definition feed_slaves (l : list slave) (b : bytes) : list slave :=
  (fun sl => if canFeedReplicaReplBuffer sl then add_out b sl else sl) <$> l.

(** ** The stream *)

(** [*2\r\n$6\r\nSELECT\r\n$%d\r\n%s\r\n] *)
Definition select_text (dictid_len : Z) (llstr : bytes) : bytes :=
  str "*2" ++ CRLF ++ str "$6" ++ CRLF ++ str "SELECT" ++ CRLF ++ str "$" ++ fmt_d dictid_len ++ CRLF ++ llstr ++ CRLF.
(** [shared.select], for a few databases *)
Definition shared_select (j : Z) : option bytes :=
  llstr ← ll_text 64 j; Some (select_text (blen llstr) llstr).
Definition selectcmd (dictid : Z) : option bytes :=
  if (dictid >=? 0) && (dictid <? PROTO_SHARED_SELECT_CMDS) then shared_select dictid
  else llstr ← ll_text LONG_STR_SIZE dictid; Some (select_text (blen llstr) llstr).

Fixpoint feed_argv (s : server) (argv : list robj) : option server :=
  match argv with
  | [] => Some s
  | o :: argv =>
      objlen ← stringObjectLen o;
      aux ← header (LONG_STR_SIZE + 3) 36 objlen;
      s ← feedReplicationBacklog s aux;
      s ← feedReplicationBacklogWithObject s o;
      crlf ← bread aux (blen aux - 2) 2;
      s ← feedReplicationBacklog s crlf;
      feed_argv s argv
  end.

Definition replicationFeedSlaves (s : server) (dictid : Z) (argv : list robj) : option server :=
  if masterhost s then Some s
  else if bool_decide (repl_backlog s = None) && bool_decide (slaves s = []) then Some s
  else
    assert! negb (bool_decide (slaves s <> []) && bool_decide (repl_backlog s = None));
    s ← (if slaveseldb s =? dictid then Some s
         else
           cmd ← selectcmd dictid;
           s ← match repl_backlog s with Some _ => feedReplicationBacklogWithObject s (RAW cmd) | None => Some s end;
           Some (set_slaves s (feed_slaves (slaves s) cmd)));
    let s := set_seldb s dictid in
    s ← match repl_backlog s with
        | Some _ =>
            aux ← header (LONG_STR_SIZE + 3) 42 (Z.of_nat (length argv));
            s ← feedReplicationBacklog s aux;
            feed_argv s argv
        | None => Some s
        end;
    len ← addReplyArrayLen (Z.of_nat (length argv));
    bulks ← addReplyBulks argv;
    Some (set_slaves s (feed_slaves (slaves s) (len ++ bulks))).

Definition replicationFeedSlavesFromMasterStream (s : server) (buf : bytes) : option server :=
  s ← match repl_backlog s with Some _ => feedReplicationBacklog s buf | None => Some s end;
  Some (set_slaves s (feed_slaves (slaves s) buf)).

(** ** Resynchronization *)

(** The bytes of the buffer from index [j], in at most two parts *)
Fixpoint backlog_loop (fuel : nat) (backlog : bytes) (size j len : Z) : option bytes :=
  match fuel with
  | O => None
  | S fuel =>
      if len =? 0 then Some []
      else
        let thislen := if size - j <? len then size - j else len in
        part ← bread backlog j thislen;
        bs ← backlog_loop fuel backlog size 0 (len - thislen);
        Some (part ++ bs)
  end.

(** What is added to the output of the client *)
Definition addReplyReplicationBacklog (s : server) (offset : Z) : option bytes :=
  if repl_backlog_histlen s =? 0 then Some []
  else
    backlog ← repl_backlog s;
    let skip := offset - repl_backlog_off s in
    assert! negb (repl_backlog_size s =? 0);
    let j := Z.rem (repl_backlog_idx s + (repl_backlog_size s - repl_backlog_histlen s)) (repl_backlog_size s) in
    let j := Z.rem (j + skip) (repl_backlog_size s) in
    backlog_loop 3 backlog (repl_backlog_size s) j (repl_backlog_histlen s - skip).

Fixpoint c_str (b : bytes) : bytes :=
  match b with [] => [] | c :: b => if c =? 0 then [] else c :: c_str b end.
(** [!strcasecmp(a, b)] *)
Definition same_id (a b : bytes) : bool := bool_decide (tolower <$> c_str a = tolower <$> c_str b).

(** A client that asks for a synchronization. [pending] tells that its output
    buffers are not empty. *)
Record request := Request { c_id : Z; c_capa : Z; c_rdbonly : bool; c_pending : bool }.

Definition masterTryPartialResynchronization (s : server) (c : request) (master_replid arg : bytes) : option (server * retcode) :=
  ll ← string2ll arg (blen arg);
  match ll with
  | None => Some (s, C_ERR)
  | Some psync_offset =>
      if negb (same_id master_replid (replid s)) &&
         (negb (same_id master_replid (replid2 s)) || (psync_offset >? second_replid_offset s))
      then Some (s, C_ERR)
      else if bool_decide (repl_backlog s = None) || (psync_offset <? repl_backlog_off s) ||
              (psync_offset >? repl_backlog_off s + repl_backlog_histlen s)
      then Some (s, C_ERR)
      else
        b ← addReplyReplicationBacklog s psync_offset;
        Some (set_slaves s (slaves s ++ [Slave (c_id c) SLAVE_STATE_ONLINE (c_rdbonly c) (c_capa c) 0 b]), C_OK)
  end.

(** [newid] is what [getRandomHexChars] returns. *)
Definition changeReplicationId (s : server) (newid : bytes) : server := set_ids s newid (replid2 s) (second_replid_offset s).
Definition clearReplicationId2 (s : server) : server := set_ids s (replid s) (replicate 40 48) (-1).
Definition shiftReplicationId (s : server) (newid : bytes) : server := set_ids s newid (replid s) (master_repl_offset s + 1).

Definition getPsyncInitialOffset (s : server) : Z := master_repl_offset s.

Definition setup_slave (offset : Z) (sl : slave) : slave :=
  Slave (slave_id sl) SLAVE_STATE_WAIT_BGSAVE_END (rdbonly sl) (slave_capa sl) offset (out sl).
(** The server and the replica *)
Definition replicationSetupSlaveForFullResync (s : server) (sl : slave) (offset : Z) : server * slave :=
  (set_seldb s (-1), setup_slave offset sl).

Fixpoint setup_waiting (s : server) (l : list slave) : server * list slave :=
  match l with
  | [] => (s, [])
  | sl :: l =>
      if bool_decide (replstate sl = SLAVE_STATE_WAIT_BGSAVE_START) then
        let '(s, sl) := replicationSetupSlaveForFullResync s sl (getPsyncInitialOffset s) in
        let '(s, l) := setup_waiting s l in (s, sl :: l)
      else let '(s, l) := setup_waiting s l in (s, sl :: l)
  end.

(** [started] tells whether the child was forked, and [target] where it
    writes. The replicas that get the file from a socket are set up by
    [rdbSaveToSlavesSockets] in the same way. *)
Definition startBgsaveForReplication (s : server) (started : bool) (target : rdb_child) : server :=
  if started then
    let '(s, l) := setup_waiting s (slaves s) in set_child (set_slaves s l) (Some target)
  else set_slaves s (filter (fun sl => replstate sl <> SLAVE_STATE_WAIT_BGSAVE_START) (slaves s)).

(** The replica whose background save can be shared *)
Definition attachable (c : slave) (sl : slave) : bool :=
  bool_decide (replstate sl = SLAVE_STATE_WAIT_BGSAVE_END) && (negb (rdbonly sl) || rdbonly c).

(** [arg] is the argument of PSYNC, [None] for SYNC. [delay]: the start of a
    background save is put off. A replica does not serve others before it is
    connected to its master, [link]. There is no failover: one that is requested
    with PSYNC is [replicationUnsetMaster] and then this. *)
Definition syncCommand (s : server) (c : request) (psync : option (bytes * bytes)) (newid : bytes) (link delay started : bool)
    (target : rdb_child) : option server :=
  if existsb (fun sl => slave_id sl =? c_id c) (slaves s) then Some s
  else if masterhost s && negb link then Some s
  else if c_pending c then Some s
  else
    '(s, r) ← match psync with
              | Some (id, arg) => masterTryPartialResynchronization s c id arg
              | None => Some (s, C_ERR)
              end;
    match r with
    | C_OK => Some s
    | C_ERR =>
        let sl := Slave (c_id c) SLAVE_STATE_WAIT_BGSAVE_START (c_rdbonly c) (c_capa c) 0 [] in
        let others := slaves s in
        let s := set_slaves s (others ++ [sl]) in
        s ← (if (length (slaves s) =? 1)%nat && bool_decide (repl_backlog s = None)
             then createReplicationBacklog (clearReplicationId2 (changeReplicationId s newid))
             else Some s);
        match child s with
        | Some RDB_CHILD_TYPE_DISK =>
            match list_find (fun x => attachable sl x = true) others with
            | Some (_, donor) =>
                if Z.land (slave_capa sl) (slave_capa donor) =? slave_capa donor then
                  let sl := if rdbonly sl then sl else add_out (out donor) sl in
                  let '(s, sl) := replicationSetupSlaveForFullResync s sl (psync_initial_offset donor) in
                  Some (set_slaves s (others ++ [sl]))
                else Some s
            | None => Some s
            end
        | Some RDB_CHILD_TYPE_SOCKET => Some s
        | None => if delay then Some s else Some (startBgsaveForReplication s started target)
        end
    end.

(** The background save ended: [reachable] tells of a replica that the file can
    be sent to it. The others are freed. *)
Definition updateSlavesWaitingBgsave (s : server) (bgsaveerr : retcode) (type : rdb_child) (reachable : Z -> bool) : server :=
  set_slaves s (omap (fun sl =>
    if bool_decide (replstate sl = SLAVE_STATE_WAIT_BGSAVE_END) then
      match bgsaveerr with
      | C_ERR => None
      | C_OK =>
          match type with
          | RDB_CHILD_TYPE_SOCKET =>
              Some (Slave (slave_id sl) SLAVE_STATE_ONLINE (rdbonly sl) (slave_capa sl) (psync_initial_offset sl) (out sl))
          | RDB_CHILD_TYPE_DISK =>
              if reachable (slave_id sl)
              then Some (Slave (slave_id sl) SLAVE_STATE_SEND_BULK (rdbonly sl) (slave_capa sl) (psync_initial_offset sl) (out sl))
              else None
          end
      end
    else Some sl) (slaves s)).

(** The part of [replicationCron] that frees a backlog without replicas *)
Definition cron_backlog (s : server) (idle repl_backlog_time_limit : Z) (newid : bytes) : option server :=
  if bool_decide (slaves s = []) && negb (repl_backlog_time_limit =? 0) && negb (bool_decide (repl_backlog s = None)) && negb (masterhost s) &&
     (idle >? repl_backlog_time_limit)
  then freeReplicationBacklog (clearReplicationId2 (changeReplicationId s newid))
  else Some s.

(** ** Roles *)

Definition disconnectSlaves (s : server) : server := set_slaves s [].
Definition set_masterhost (s : server) (b : bool) : server :=
  Server (replid s) (replid2 s) (master_repl_offset s) (second_replid_offset s) (slaveseldb s) (repl_backlog s) (repl_backlog_size s)
    (repl_backlog_histlen s) (repl_backlog_idx s) (repl_backlog_off s) (slaves s) b (child s).

(** The server is to replicate another one. *)
Definition replicationSetMaster (s : server) : server := disconnectSlaves (set_masterhost s true).

(** The server is promoted. *)
Definition replicationUnsetMaster (s : server) (newid : bytes) : server :=
  if masterhost s then set_seldb (disconnectSlaves (shiftReplicationId (set_masterhost s false) newid)) (-1) else s.

(** The master of this server answers [+CONTINUE new]. The ID of the cached
    master is [replid]. *)
Definition resync_continued (s : server) (new : bytes) : option server :=
  let s := if bool_decide (new = replid s) then s
           else disconnectSlaves (set_ids s new (replid s) (master_repl_offset s + 1)) in
  match repl_backlog s with None => createReplicationBacklog s | Some _ => Some s end.

(** The master of this server answers [+FULLRESYNC]. *)
Definition full_resync_begins (s : server) : option server := freeReplicationBacklog (disconnectSlaves s).
(** Its dataset is loaded. *)
Definition full_resync_ends (s : server) (id : bytes) (reploff : Z) : option server :=
  let s := set_ids s id (replid2 s) (second_replid_offset s) in
  let s := set_backlog s reploff (repl_backlog s) (repl_backlog_size s) (repl_backlog_histlen s) (repl_backlog_idx s) (repl_backlog_off s) in
  let s := clearReplicationId2 s in
  match repl_backlog s with None => createReplicationBacklog s | Some _ => Some s end.

(** A replica disconnects. *)
Definition unlink_slave (s : server) (id : Z) : server :=
  set_slaves s (filter (fun sl => slave_id sl <> id) (slaves s)).

End Master.
End Repl.
