(* ===== verification/ReplInv.v ===== *)
(** The circular buffer of the replication stream holds the last bytes of the
    stream. *)

From S2P Require Import Prelude Util Repl.

Module ReplInv.
Import Util Repl.

(** ** Bytes by index *)

Lemma bget_app_lt a b i : i < blen a -> bget (a ++ b) i = bget a i.
Proof.
  intros H. unfold bget, inside. rewrite blen_app. pose proof (blen_nonneg b). destruct (decide (0 <= i)); [|bdec; done].
  bdec. apply lookup_app_l. unfold blen in *. lia.
Qed.

Lemma bget_app_ge a b i : blen a <= i -> bget (a ++ b) i = bget b (i - blen a).
Proof.
  intros H. pose proof (blen_nonneg a). unfold bget, inside. rewrite blen_app. destruct (decide (i < blen a + blen b)).
  - bdec. rewrite lookup_app_r by (unfold blen in *; lia). f_equal. unfold blen in *. lia.
  - bdec. done.
Qed.

Lemma bget_out b i : i < 0 \/ blen b <= i -> bget b i = None.
Proof. intros H. unfold bget, inside. bdec. done. Qed.

Lemma bytes_ext a b : blen a = blen b -> (forall i, 0 <= i < blen a -> bget a i = bget b i) -> a = b.
Proof.
  intros Hl H. apply list_eq. intros i. unfold blen in Hl. destruct (decide (i < length a)%nat) as [Hi|Hi].
  - specialize (H (Z.of_nat i) ltac:(unfold blen; lia)). unfold bget, inside, blen in H. revert H. bdec. by rewrite Nat2Z.id.
  - by rewrite !lookup_ge_None_2 by lia.
Qed.

Lemma bget_drop b n i : 0 <= n -> 0 <= i -> bget (drop (Z.to_nat n) b) i = bget b (n + i).
Proof.
  intros Hn Hi. unfold bget, inside. assert (blen (drop (Z.to_nat n) b) = Z.max 0 (blen b - n)) as -> by (unfold blen; rewrite length_drop; lia).
  destruct (decide (n + i < blen b)).
  - bdec. rewrite lookup_drop. f_equal. lia.
  - bdec. done.
Qed.

Lemma bget_bread b off n xs i : bread b off n = Some xs -> 0 <= i < n -> bget xs i = bget b (off + i).
Proof.
  intros H Hi. destruct (bread_split _ _ _ _ H) as (a & c & -> & <-). apply bread_Some in H as (_ & _ & _ & Hx).
  rewrite bget_app_ge, bget_app_lt by lia. f_equal. lia.
Qed.

Lemma bwrite_split b off xs : 0 <= off -> off + blen xs <= blen b ->
  exists a m c, b = a ++ m ++ c /\ blen a = off /\ blen m = blen xs /\ bwrite b off xs = Some (a ++ xs ++ c).
Proof.
  intros Ho Hl. pose proof (blen_nonneg xs). destruct (split_blen b off) as (a & r & -> & <-); [lia|]. rewrite blen_app in Hl.
  destruct (split_blen r (blen xs)) as (m & c & -> & Hm); [lia|]. exists a, m, c. split_and!; try done. by apply bwrite_app.
Qed.

Lemma bwrite_bget b off xs : 0 <= off -> off + blen xs <= blen b ->
  exists b', bwrite b off xs = Some b' /\ blen b' = blen b /\
    forall i, 0 <= i -> bget b' i = if (off <=? i) && (i <? off + blen xs) then bget xs (i - off) else bget b i.
Proof.
  intros Ho Hl. destruct (bwrite_split b off xs Ho Hl) as (a & m & c & -> & Ha & Hm & ->). eexists. split; [done|].
  split; [rewrite !blen_app; lia|]. intros i Hi. bcase.
  - rewrite bget_app_ge, bget_app_lt by lia. by rewrite Ha.
  - destruct (decide (i < off)).
    + rewrite !bget_app_lt by lia. done.
    + rewrite !bget_app_ge by lia. f_equal. lia.
Qed.

(** ** The ring *)

(** The index of the byte that was written [i] bytes before the last one *)
Definition slot (size idx i : Z) : Z := if i <? idx then idx - 1 - i else size + idx - 1 - i.

(** [b] holds the last [n] bytes of [h]. *)
Record ring (b : bytes) (size idx n : Z) (h : bytes) : Prop := Ring {
  ring_size : blen b = size;
  ring_idx : 0 <= idx < size;
  ring_n : 0 <= n <= size /\ n <= blen h;
  ring_bytes : forall i, 0 <= i < n -> bget b (slot size idx i) = bget h (blen h - 1 - i) }.

Lemma ring_empty indet size h : 0 < size -> ring (brealloc indet [] size) size 0 0 h.
Proof.
  intros Hs. destruct (brealloc_grow indet [] size ltac:(rewrite blen_nil; lia)) as (t & -> & Ht). rewrite blen_nil in Ht.
  pose proof (blen_nonneg h). split; [cbn; lia|lia|lia|lia].
Qed.

(** One turn of the loop that writes *)
Lemma ring_write b size idx n h chunk :
  ring b size idx n h -> 0 < blen chunk -> idx + blen chunk <= size ->
  exists b', bwrite b idx chunk = Some b' /\
    ring b' size (if idx + blen chunk =? size then 0 else idx + blen chunk) (Z.min size (n + blen chunk)) (h ++ chunk).
Proof.
  intros [Hs Hi [Hn Hn'] Hb] Hc Hl. destruct (bwrite_bget b idx chunk ltac:(lia) ltac:(lia)) as (b' & -> & Hbl & Hg). exists b'. split; [done|].
  split; [lia|bcase; lia|rewrite blen_app; lia|].
  intros i Hi'. rewrite blen_app.
  assert (slot size (if idx + blen chunk =? size then 0 else idx + blen chunk) i = slot size (idx + blen chunk) i) as ->.
  { unfold slot. repeat bcase; lia. }
  destruct (decide (i < blen chunk)) as [Hlt|Hge].
  - rewrite bget_app_ge by lia. unfold slot. bdec. rewrite Hg by lia. bdec. f_equal. lia.
  - rewrite bget_app_lt by lia. replace (blen h + blen chunk - 1 - i) with (blen h - 1 - (i - blen chunk)) by lia.
    rewrite <- Hb by lia. unfold slot. bcase; bdec.
    + rewrite Hg by lia. bdec. f_equal. lia.
    + rewrite Hg by lia. bdec. f_equal. lia.
Qed.

Lemma feed_loop_ok fuel : forall b size idx n histlen h p,
  ring b size idx n h -> n = Z.min size histlen -> 0 <= histlen -> (length p < fuel)%nat ->
  exists b' idx', feed_loop fuel b size idx histlen p = Some (b', idx', histlen + blen p) /\
    ring b' size idx' (Z.min size (histlen + blen p)) (h ++ p).
Proof.
  induction fuel as [|fuel IH]; intros b size idx n histlen h p Hr -> Hh Hf; [lia|]. cbn [feed_loop]. pose proof (blen_nonneg p). bcase.
  { apply blen_0 in E as ->. exists b, idx. rewrite blen_nil, Z.add_0_r, app_nil_r. done. }
  pose proof (ring_idx _ _ _ _ _ Hr). set (t := if size - idx >? blen p then blen p else size - idx).
  assert (0 < t <= blen p /\ idx + t <= size) as [Ht Ht'] by (unfold t; bcase; lia).
  destruct (split_blen p t) as (c & p' & -> & Hc); [lia|]. rewrite <- Hc in *. rewrite (bread_app [] c p' 0 (blen c) eq_refl eq_refl : bread (c ++ p') 0 _ = _), bind_Some.
  destruct (ring_write _ _ _ _ _ c Hr ltac:(lia) ltac:(lia)) as (b1 & -> & Hr1). rewrite bind_Some. cbn zeta.
  rewrite to_nat_blen, drop_app_length. 
  destruct (IH b1 size (if idx + blen c =? size then 0 else idx + blen c) _ (histlen + blen c) (h ++ c) p' Hr1) as (b' & idx' & -> & Hr').
  { lia. } { lia. } { rewrite length_app in Hf. unfold blen in Ht. lia. }
  exists b', idx'. rewrite blen_app, <- app_assoc in *. replace (histlen + blen c + blen p') with (histlen + (blen c + blen p')) in * by lia. done.
Qed.

(** ** Reading it *)

Lemma backlog_loop_ok b size idx n h len :
  ring b size idx n h -> 0 <= len <= n ->
  backlog_loop 3 b size (Z.rem (idx + (size - len)) size) len = Some (drop (Z.to_nat (blen h - len)) h).
Proof.
  intros [Hs Hi [Hn Hn'] Hb] Hl. 
  destruct (decide (len = 0)) as [->|Hne].
  { cbn. f_equal. rewrite drop_ge; [done|]. unfold blen. lia. }
  assert (Z.rem (idx + (size - len)) size = if len <=? idx then idx - len else idx + size - len) as ->.
  { bcase.
    - replace (idx + (size - len)) with (idx - len + 1 * size) by lia. rewrite Z.rem_mod_nonneg, Z.mod_add, Z.mod_small; lia.
    - rewrite Z.rem_mod_nonneg, Z.mod_small; lia. }
  assert (forall r, blen r = len -> (forall i, 0 <= i < len -> bget r i = bget b (slot size idx (len - 1 - i))) -> r = drop (Z.to_nat (blen h - len)) h) as Hfin.
  { intros r Hr Hg. apply bytes_ext.
    - rewrite Hr. unfold blen. rewrite length_drop. unfold blen in *. lia.
    - intros i Hi'. rewrite Hg by lia. rewrite Hb by lia. rewrite bget_drop by lia. f_equal. lia. }
  cbn [backlog_loop]. bdec. destruct (decide (len <= idx)) as [Hle|Hgt].
  - bdec. destruct (bread_is_Some b (idx - len) len ltac:(lia) ltac:(lia) ltac:(lia)) as [r Er]. rewrite Er, bind_Some. bdec.
    replace (len - len =? 0) with true by (symmetry; lia). rewrite bind_Some, app_nil_r. f_equal. apply Hfin; [by apply bread_Some in Er as (_&_&_&?)|].
    intros i Hi'. rewrite (bget_bread _ _ _ _ _ Er) by lia. unfold slot. bdec. f_equal. lia.
  - destruct (decide (idx = 0)) as [->|Hidx].
    + bdec. destruct (bread_is_Some b (0 + size - len) len ltac:(lia) ltac:(lia) ltac:(lia)) as [r Er]. rewrite Er, bind_Some.
      replace (len - len =? 0) with true by (symmetry; lia). rewrite bind_Some, app_nil_r. f_equal. apply Hfin; [by apply bread_Some in Er as (_&_&_&?)|].
      intros i Hi'. rewrite (bget_bread _ _ _ _ _ Er) by lia. unfold slot. bdec. f_equal. lia.
    + bdec. replace (size - (idx + size - len)) with (len - idx) by lia.
      destruct (bread_is_Some b (idx + size - len) (len - idx) ltac:(lia) ltac:(lia) ltac:(lia)) as [r1 E1]. rewrite E1, bind_Some.
      replace (len - (len - idx)) with idx by lia. bdec. destruct (bread_is_Some b 0 idx ltac:(lia) ltac:(lia) ltac:(lia)) as [r2 E2].
      rewrite E2, bind_Some. replace (idx - idx =? 0) with true by (symmetry; lia). rewrite !bind_Some, app_nil_r. f_equal.
      pose proof (bread_Some _ _ _ _ E1) as (_&_&_&L1). pose proof (bread_Some _ _ _ _ E2) as (_&_&_&L2).
      apply Hfin; [rewrite blen_app; lia|]. intros i Hi'. destruct (decide (i < len - idx)).
      * rewrite bget_app_lt, (bget_bread _ _ _ _ _ E1) by lia. unfold slot. bdec. f_equal. lia.
      * rewrite bget_app_ge, (bget_bread _ _ _ _ _ E2) by lia. unfold slot. bdec. f_equal. lia.
Qed.

End ReplInv.
