(* ===== verification/ReplSpec.v ===== *)
(** The bytes of the replication stream: each command as a multibulk request,
    with a SELECT before it where the database changes. *)

From S2P Require Import Prelude Util Repl ReplInv.

Module ReplSpec.
Import Util Repl ReplInv.

(** ** The text of a command *)

Definition dec (n : Z) : bytes :=
  match ll2string (replicate 32 0) 32 n with Some (b, len) => take (Z.to_nat len) b | None => [] end.

Definition bulk (arg : bytes) : bytes := 36 :: dec (blen arg) ++ 13 :: 10 :: arg ++ [13; 10].
Definition encode (args : list bytes) : bytes :=
  42 :: dec (Z.of_nat (length args)) ++ 13 :: 10 :: concat (bulk <$> args).

Definition text (o : robj) : bytes := match o with INT v => dec v | RAW b => b end.
Definition select (dictid : Z) : list bytes := [str "SELECT"; dec dictid].

(** What a command adds to the stream, [db] being the database of the last one *)
Definition emit (db dictid : Z) (argv : list robj) : bytes :=
  (if db =? dictid then [] else encode (select dictid)) ++ encode (text <$> argv).

(** The integers have 64 bits, as the lengths do. *)
Definition obj_ok (o : robj) : Prop := match o with INT v => in_sint 64 v | RAW b => blen b < 2 ^ 63 end.
Definition argv_ok (argv : list robj) : Prop := Forall obj_ok argv /\ Z.of_nat (length argv) < 2 ^ 63.

(** ** Numbers *)

Lemma ll2string_room dst size n : in_sint 64 n -> 21 <= size <= blen dst ->
  exists r, ll2string dst size n = Some (dec n ++ 0 :: r, blen (dec n)) /\ decimal (dec n) n /\ blen (dec n) <= 20 /\
    r = drop (Z.to_nat (blen (dec n) + 1)) dst.
Proof.
  intros Hn Hs. destruct (ll2string_spec (replicate 32 0) 32 n Hn ltac:(done)) as (s & Hd & _ & E).
  pose proof (decimal_short n s Hn Hd) as Hl. rewrite (proj2 (Z.ltb_lt (blen s) 32)) in E by lia.
  assert (dec n = s) as Es by (unfold dec; by rewrite E, to_nat_blen, take_app_length).
  destruct (ll2string_spec dst size n Hn ltac:(lia)) as (s' & Hd' & _ & ->). rewrite (decimal_unique s' s n) by done.
  bdec. eexists. rewrite Es. by split_and!.
Qed.

Lemma dec_ok n : in_sint 64 n -> decimal (dec n) n /\ blen (dec n) <= 20.
Proof. intros Hn. by destruct (ll2string_room (replicate 32 0) 32 n Hn ltac:(done)) as (_ & _ & ? & ? & _). Qed.

Lemma sdigits10_dec n : in_sint 64 n -> sdigits10 n = Some (blen (dec n)).
Proof.
  intros Hn. destruct (ll2string_spec (replicate 32 0) 32 n Hn ltac:(done)) as (s & Hd & E & _). rewrite E.
  by rewrite (decimal_unique s (dec n) n) by (done || by apply dec_ok).
Qed.

Section Text.
Context (indet : nat -> Z).

Lemma blen_alloc size : 0 <= size -> blen (brealloc indet [] size) = size.
Proof. intros. destruct (brealloc_grow indet [] size ltac:(done)) as (t & -> & Ht). rewrite blen_nil in Ht. cbn. lia. Qed.

Lemma ll_text_ok size n : in_sint 64 n -> 21 <= size -> ll_text indet size n = Some (dec n).
Proof.
  intros Hn Hs. unfold ll_text. destruct (ll2string_room (brealloc indet [] size) size n Hn) as (r & -> & _).
  { rewrite blen_alloc; lia. }
  rewrite bind_Some. by apply (bread_app [] (dec n)).
Qed.

Lemma header_ok size p n : in_sint 64 n -> 24 <= size -> header indet size p n = Some (p :: dec n ++ [13; 10]).
Proof.
  intros Hn Hs. unfold header. destruct (brealloc indet [] size) as [|x t] eqn:Ea.
  { pose proof (blen_alloc size ltac:(lia)) as H. rewrite Ea, blen_nil in H. lia. }
  assert (blen t = size - 1) as Ht by (pose proof (blen_alloc size ltac:(lia)) as H; rewrite Ea, blen_cons in H; lia).
  rewrite (bset_app [] x p t 0 eq_refl : bset (x :: t) 0 p = _), bind_Some. cbn [app]. change (drop 1 (p :: t)) with t. change (take 1 (p :: t)) with [p].
  destruct (ll2string_room t (size - 1) n Hn ltac:(lia)) as (r & -> & _ & Hl & Er). rewrite bind_Some.
  assert (0 < blen r) as Hr by (rewrite Er; unfold blen in *; rewrite length_drop; lia).
  destruct r as [|y r]; [rewrite blen_nil in Hr; lia|].
  change ([p] ++ dec n ++ 0 :: y :: r) with ((p :: dec n) ++ 0 :: y :: r).
  rewrite (bset_app (p :: dec n) 0 13) by (rewrite blen_cons; lia). rewrite bind_Some.
  rewrite (bset_at _ _ ((p :: dec n) ++ [13]) y r 10) by (rewrite <- ?app_assoc, ?blen_app, ?blen_cons, ?blen_nil; done || lia). rewrite bind_Some.
  replace (((p :: dec n) ++ [13]) ++ 10 :: r) with ([] ++ (p :: dec n ++ [13; 10]) ++ r) by (cbn; by simplify_list_eq).
  apply bread_app; [done|]. rewrite blen_cons, blen_app. change (blen [13; 10]) with 2. lia.
Qed.

Lemma addReplyLongLongWithPrefix_ok n p : in_sint 64 n -> addReplyLongLongWithPrefix indet n p = Some (p :: dec n ++ [13; 10]).
Proof.
  intros Hn. unfold addReplyLongLongWithPrefix. bcase; [|by apply header_ok]. unfold fmt_d. by rewrite ll_text_ok.
Qed.

Lemma len_sint n : 0 <= n < 2 ^ 63 -> in_sint 64 n.
Proof. unfold in_sint. lia. Qed.

Lemma objlen_ok o : obj_ok o -> stringObjectLen o = Some (blen (text o)) /\ in_sint 64 (blen (text o)).
Proof.
  destruct o as [v|b]; cbn; intros H.
  - rewrite sdigits10_dec by done. split; [done|]. apply dec_ok in H as [_ H]. pose proof (blen_nonneg (dec v)). apply len_sint. lia.
  - split; [done|]. pose proof (blen_nonneg b). by apply len_sint.
Qed.

Lemma addReplyBulk_ok o : obj_ok o -> addReplyBulk indet o = Some (bulk (text o)).
Proof.
  intros H. unfold addReplyBulk. destruct (objlen_ok o H) as [-> Hl]. rewrite bind_Some, addReplyLongLongWithPrefix_ok, bind_Some by done.
  assert (reply_obj indet o = Some (text o)) as -> by (destruct o; cbn in *; [by apply ll_text_ok|done]). rewrite bind_Some.
  unfold bulk. f_equal. cbn. by simplify_list_eq.
Qed.

Lemma addReplyBulks_ok argv : Forall obj_ok argv -> addReplyBulks indet argv = Some (concat (bulk <$> (text <$> argv))).
Proof.
  induction 1 as [|o argv Ho Hf IH]; [done|]. cbn [addReplyBulks]. by rewrite addReplyBulk_ok, bind_Some, IH, bind_Some.
Qed.

Lemma select_text_ok dictid : in_sint 64 dictid -> select_text indet (blen (dec dictid)) (dec dictid) = encode (select dictid).
Proof.
  intros H. unfold select_text, fmt_d, encode, select, bulk. pose proof (dec_ok dictid H) as [_ Hl]. pose proof (blen_nonneg (dec dictid)).
  rewrite ll_text_ok by (try apply len_sint; lia). cbn [fmap list_fmap concat length from_option id app]. by simplify_list_eq.
Qed.

Lemma selectcmd_ok dictid : in_sint 64 dictid -> selectcmd indet dictid = Some (encode (select dictid)).
Proof. intros H. unfold selectcmd, shared_select. bcase; rewrite ll_text_ok, bind_Some by done; by rewrite select_text_ok. Qed.

(** ** The stream *)

(** [h] is the stream, of which the buffer holds the end. *)
Definition streams (s : server) (h : bytes) : Prop :=
  exists b, repl_backlog s = Some b /\ ring b (repl_backlog_size s) (repl_backlog_idx s) (repl_backlog_histlen s) h /\
    repl_backlog_off s = master_repl_offset s - repl_backlog_histlen s + 1.

(** From [s] to [s'] the stream grows by [p] and the buffer with it. *)
Definition fed (h : bytes) (s : server) (p : bytes) (s' : server) : Prop :=
  streams s' (h ++ p) /\
  exists b n idx off, s' = set_backlog s (master_repl_offset s + blen p) b (repl_backlog_size s) n idx off.

Lemma fed_trans h s p s1 q s2 : fed h s p s1 -> fed (h ++ p) s1 q s2 -> fed h s (p ++ q) s2.
Proof.
  intros (_ & b1 & n1 & i1 & o1 & ->) (H & b & n & i & o & ->). rewrite <- app_assoc in H. split; [done|].
  exists b, n, i, o. unfold set_backlog. cbn. f_equal. rewrite blen_app. lia.
Qed.

Lemma fed_nil h s : streams s h -> fed h s [] s.
Proof.
  intros Hs. split; [by rewrite app_nil_r|]. exists (repl_backlog s), (repl_backlog_histlen s), (repl_backlog_idx s), (repl_backlog_off s).
  rewrite blen_nil, Z.add_0_r. by destruct s.
Qed.

Lemma feedReplicationBacklog_ok h s p : streams s h -> exists s', feedReplicationBacklog s p = Some s' /\ fed h s p s'.
Proof.
  intros (b & Hb & Hr & Ho). unfold feedReplicationBacklog. rewrite Hb, bind_Some.
  destruct (ring_n _ _ _ _ _ Hr) as [Hn Hn'].
  destruct (feed_loop_ok (S (length p)) b (repl_backlog_size s) (repl_backlog_idx s) _ (repl_backlog_histlen s) h p Hr) as (b' & idx' & -> & Hr'); [lia|lia|lia|].
  rewrite bind_Some. eexists. split; [done|]. split; [|by eexists _, _, _, _].
  eexists. split; [done|]. split; [|done]. cbn.
  replace (if repl_backlog_histlen s + blen p >? repl_backlog_size s then repl_backlog_size s else repl_backlog_histlen s + blen p)
    with (Z.min (repl_backlog_size s) (repl_backlog_histlen s + blen p)) by (bcase; lia). done.
Qed.

Lemma fed_streams h s p s' : fed h s p s' -> streams s' (h ++ p).
Proof. by intros [? _]. Qed.

Lemma feedObject_ok h s o : streams s h -> obj_ok o -> exists s', feedReplicationBacklogWithObject indet s o = Some s' /\ fed h s (text o) s'.
Proof.
  intros Hs Ho. destruct o as [v|b]; cbn [feedReplicationBacklogWithObject text]; [|by apply feedReplicationBacklog_ok].
  rewrite ll_text_ok by done. by apply feedReplicationBacklog_ok.
Qed.

Lemma feed_argv_ok argv : Forall obj_ok argv -> forall h s, streams s h ->
  exists s', feed_argv indet s argv = Some s' /\ fed h s (concat (bulk <$> (text <$> argv))) s'.
Proof.
  induction 1 as [|o argv Ho Hf IH]; intros h s Hs; cbn [feed_argv].
  { exists s. split; [done|]. by apply fed_nil. }
  destruct (objlen_ok o Ho) as [-> Hl]. rewrite bind_Some, header_ok, bind_Some by done.
  destruct (feedReplicationBacklog_ok h s (36 :: dec (blen (text o)) ++ [13; 10]) Hs) as (s1 & -> & F1). rewrite bind_Some.
  destruct (feedObject_ok _ s1 o (fed_streams _ _ _ _ F1) Ho) as (s2 & -> & F2). rewrite bind_Some.
  assert (forall x (l : bytes), bread (x :: l ++ [13; 10]) (blen (x :: l ++ [13; 10]) - 2) 2 = Some [13; 10]) as ->.
  { intros x l. apply (bread_suffix (x :: l)); [|done]. rewrite !blen_cons, blen_app. change (blen [13; 10]) with 2. lia. }
  rewrite bind_Some. pose proof (fed_trans _ _ _ _ _ _ F1 F2) as F12.
  destruct (feedReplicationBacklog_ok _ s2 [13; 10] (fed_streams _ _ _ _ F12)) as (s3 & -> & F3). rewrite bind_Some.
  pose proof (fed_trans _ _ _ _ _ _ F12 F3) as F. destruct (IH _ s3 (fed_streams _ _ _ _ F)) as (s4 & -> & F4).
  exists s4. split; [done|]. pose proof (fed_trans _ _ _ _ _ _ F F4) as F'. cbn [fmap list_fmap concat].
  replace (bulk (text o) ++ concat (bulk <$> (text <$> argv))) with
    ((((36 :: dec (blen (text o)) ++ [13; 10]) ++ text o) ++ [13; 10]) ++ concat (bulk <$> (text <$> argv))); [done|].
  unfold bulk. cbn. by simplify_list_eq.
Qed.


Lemma feed_slaves_app l a b : feed_slaves (feed_slaves l a) b = feed_slaves l (a ++ b).
Proof.
  unfold feed_slaves. rewrite <- list_fmap_compose. apply list_fmap_ext. intros _ sl _. cbn. destruct (canFeedReplicaReplBuffer sl) eqn:E; [|by rewrite E].
  assert (canFeedReplicaReplBuffer (add_out a sl) = true) as -> by exact E. unfold add_out. cbn. by rewrite app_assoc.
Qed.

Lemma feed_slaves_nil l : feed_slaves l [] = l.
Proof.
  unfold feed_slaves. rewrite <- list_fmap_id. apply list_fmap_ext. intros _ sl _. destruct (canFeedReplicaReplBuffer sl); [|done].
  unfold add_out. rewrite app_nil_r. by destruct sl.
Qed.
Lemma set_slaves_id s : set_slaves s (slaves s) = s.
Proof. by destruct s. Qed.

(** The state after the stream grew by [p] *)
Definition advanced (h : bytes) (s : server) (p : bytes) (db : Z) (s' : server) : Prop :=
  streams s' (h ++ p) /\
  exists b n idx off, s' = Server (replid s) (replid2 s) (master_repl_offset s + blen p) (second_replid_offset s) db b (repl_backlog_size s) n idx off
    (feed_slaves (slaves s) p) (masterhost s) (child s).

Lemma fed_advanced h s p s' : fed h s p s' -> advanced h s p (slaveseldb s) (set_slaves s' (feed_slaves (slaves s') p)).
Proof. intros (Hs & b & n & i & o & ->). split; [exact Hs|]. by exists b, n, i, o. Qed.

Lemma advanced_trans h s p db s1 q db' s2 : advanced h s p db s1 -> advanced (h ++ p) s1 q db' s2 -> advanced h s (p ++ q) db' s2.
Proof.
  intros (_ & b1 & n1 & i1 & o1 & ->) (H & b & n & i & o & ->). rewrite <- app_assoc in H. split; [exact H|].
  exists b, n, i, o. f_equal; [cbn; rewrite blen_app; lia|]. by rewrite <- feed_slaves_app.
Qed.

Lemma advanced_streams h s p db s' : advanced h s p db s' -> streams s' (h ++ p).
Proof. by intros [? _]. Qed.

Lemma streams_backlog s h : streams s h -> repl_backlog s <> None.
Proof. intros (b & -> & _). done. Qed.

Lemma FromMasterStream_ok h s p : streams s h ->
  exists s', replicationFeedSlavesFromMasterStream s p = Some s' /\ advanced h s p (slaveseldb s) s'.
Proof.
  intros Hs. unfold replicationFeedSlavesFromMasterStream. pose proof Hs as (b & E & _).
  destruct (feedReplicationBacklog_ok h s p Hs) as (s1 & E1 & F1). rewrite E, E1, bind_Some. eexists. split; [done|]. by apply fed_advanced.
Qed.

Lemma feed_select h s dictid : streams s h -> in_sint 64 dictid ->
  exists s', (if slaveseldb s =? dictid then Some s
         else
           cmd ← selectcmd indet dictid;
           s ← match repl_backlog s with Some _ => feedReplicationBacklogWithObject indet s (RAW cmd) | None => Some s end;
           Some (set_slaves s (feed_slaves (slaves s) cmd))) = Some s' /\
    advanced h s (if slaveseldb s =? dictid then [] else encode (select dictid)) (slaveseldb s) s'.
Proof.
  intros Hs Hd. bcase.
  - exists s. split; [done|]. pose proof (fed_advanced h s [] s (fed_nil h s Hs)) as H.
    by rewrite feed_slaves_nil, set_slaves_id in H.
  - rewrite selectcmd_ok, bind_Some by done. pose proof Hs as (b & Eb & _). rewrite Eb. cbn [feedReplicationBacklogWithObject].
    destruct (feedReplicationBacklog_ok h s (encode (select dictid)) Hs) as (s1 & -> & F1). rewrite bind_Some. eexists. split; [done|].
    by apply fed_advanced.
Qed.

Lemma advanced_seldb h s p db s' db' : advanced h s p db s' -> advanced h s p db' (set_seldb s' db').
Proof. intros (Hs & b & n & i & o & ->). split; [exact Hs|]. by exists b, n, i, o. Qed.

Lemma feed_command h s argv : streams s h -> argv_ok argv ->
  exists s', (aux ← header indet (LONG_STR_SIZE + 3) 42 (Z.of_nat (length argv)); s ← feedReplicationBacklog s aux; feed_argv indet s argv) = Some s' /\
    fed h s (encode (text <$> argv)) s'.
Proof.
  intros Hs [Ha Hl]. assert (in_sint 64 (Z.of_nat (length argv))) as Hn by (apply len_sint; lia). rewrite header_ok, bind_Some by done.
  destruct (feedReplicationBacklog_ok h s (42 :: dec (Z.of_nat (length argv)) ++ [13; 10]) Hs) as (s1 & -> & F1). rewrite bind_Some.
  destruct (feed_argv_ok argv Ha _ s1 (fed_streams _ _ _ _ F1)) as (s2 & -> & F2). exists s2. split; [done|].
  pose proof (fed_trans _ _ _ _ _ _ F1 F2) as F. unfold encode. rewrite length_fmap.
  replace (42 :: dec (Z.of_nat (length argv)) ++ 13 :: 10 :: concat (bulk <$> (text <$> argv)))
    with ((42 :: dec (Z.of_nat (length argv)) ++ [13; 10]) ++ concat (bulk <$> (text <$> argv))) by (cbn; by simplify_list_eq). done.
Qed.

(** A command of a master with a backlog *)
Lemma replicationFeedSlaves_ok h s dictid argv : streams s h -> masterhost s = false -> in_sint 64 dictid -> argv_ok argv ->
  exists s', replicationFeedSlaves indet s dictid argv = Some s' /\ advanced h s (emit (slaveseldb s) dictid argv) dictid s'.
Proof.
  intros Hs Hm Hd Ha. unfold replicationFeedSlaves. rewrite Hm. pose proof (streams_backlog _ _ Hs) as Hb.
  rewrite (bool_decide_false (repl_backlog s = None)), andb_false_r by done. cbn [andb negb].
  destruct (feed_select h s dictid Hs Hd) as (s1 & -> & F1). rewrite bind_Some. cbn zeta.
  apply (advanced_seldb _ _ _ _ _ dictid) in F1. set (s1' := set_seldb s1 dictid) in *.
  pose proof (advanced_streams _ _ _ _ _ F1) as Hs1. pose proof Hs1 as (b1 & Eb1 & _). rewrite Eb1.
  destruct (feed_command _ s1' argv Hs1 Ha) as (s2 & -> & F2). rewrite bind_Some.
  unfold addReplyArrayLen. rewrite guard_bool by lia. rewrite addReplyLongLongWithPrefix_ok by (destruct Ha; apply len_sint; lia).
  rewrite bind_Some, addReplyBulks_ok, bind_Some by apply Ha. eexists. split; [done|]. apply fed_advanced in F2.
  assert (((42 :: dec (Z.of_nat (length argv)) ++ [13; 10]) ++ concat (bulk <$> (text <$> argv))) = encode (text <$> argv)) as ->.
  { unfold encode. rewrite length_fmap. cbn. by simplify_list_eq. }
  assert (slaveseldb s1' = dictid) as Edb by done. rewrite Edb in F2. unfold emit. by eapply advanced_trans.
Qed.

(** The part of the stream that a replica missed *)
Lemma addReplyReplicationBacklog_ok h s offset : streams s h -> repl_backlog_off s <= offset <= repl_backlog_off s + repl_backlog_histlen s ->
  addReplyReplicationBacklog s offset = Some (drop (Z.to_nat (blen h - (master_repl_offset s + 1 - offset))) h).
Proof.
  intros (b & Eb & Hr & Ho) Hoff. destruct (ring_n _ _ _ _ _ Hr) as [Hn Hn']. pose proof (ring_idx _ _ _ _ _ Hr) as Hi.
  unfold addReplyReplicationBacklog. bcase.
  { f_equal. rewrite drop_ge; [done|]. unfold blen in *. lia. }
  rewrite Eb, bind_Some. rewrite guard_bool by lia. set (len := master_repl_offset s + 1 - offset).
  replace (repl_backlog_histlen s - (offset - repl_backlog_off s)) with len by lia.
  rewrite <- (backlog_loop_ok b (repl_backlog_size s) (repl_backlog_idx s) (repl_backlog_histlen s) h len Hr ltac:(lia)). f_equal.
  assert (forall x y, 0 <= x -> 0 <= y -> Z.rem (Z.rem x (repl_backlog_size s) + y) (repl_backlog_size s) = Z.rem (x + y) (repl_backlog_size s)) as ->.
  { intros x y Hx Hy. pose proof (Z.rem_nonneg x (repl_backlog_size s) ltac:(lia) Hx). rewrite !Z.rem_mod_nonneg by lia. by rewrite Zplus_mod_idemp_l. }
  - f_equal. lia.
  - lia.
  - lia.
Qed.

End Text.
End ReplSpec.
