(* ===== verification/ReplRun.v ===== *)
(** A server in the replication of a dataset, as a machine: the events that
    concern the stream, and what every reachable state guarantees. *)

From S2P Require Import Prelude Util Repl ReplInv ReplSpec.

Module ReplRun.
Import Util Repl ReplInv ReplSpec.

Inductive event :=
  (** a command is executed and propagated *)
  | Command (dictid : Z) (argv : list robj)
  (** a replica passes on what its master sent *)
  | FromMaster (buf : bytes)
  | Resize (newsize : Z)
  | Sync (c : request) (psync : option (bytes * bytes)) (newid : bytes) (link delay started : bool) (target : rdb_child)
  | Bgsave (started : bool) (target : rdb_child)
  | BgsaveDone (bgsaveerr : retcode) (type : rdb_child) (reachable : Z -> bool)
  | Cron (idle limit : Z) (newid : bytes)
  | Unlink (id : Z)
  | SetMaster
  | UnsetMaster (newid : bytes)
  | Continued (newid : bytes)
  | FullBegin
  | FullEnd (id : bytes) (reploff : Z).

(** The events that can happen: a master does not receive a stream, and only a
    replica without a backlog completes a full resynchronization. *)
Definition enabled (s : server) (e : event) : Prop :=
  match e with
  | Command dictid argv => in_sint 64 dictid /\ argv_ok argv
  | FromMaster _ => masterhost s = true
  | Continued _ => masterhost s = true /\ repl_backlog s <> None
  | FullBegin => masterhost s = true
  | FullEnd _ _ => masterhost s = true /\ repl_backlog s = None
  | _ => True
  end.

(** What the dataset of the server goes through, in the notation of the stream *)
Definition delta (s : server) (e : event) : bytes :=
  match e with
  | Command dictid argv => if masterhost s then [] else emit (slaveseldb s) dictid argv
  | FromMaster buf => buf
  | _ => []
  end.

(** The IDs that an event brings *)
Definition new_ids (e : event) : list bytes :=
  match e with
  | Sync _ _ newid _ _ _ _ | Cron _ _ newid | UnsetMaster newid | Continued newid | FullEnd newid _ => [newid]
  | _ => []
  end.

Section Run.
Context (indet : nat -> Z).

Definition step (s : server) (e : event) : option server :=
  match e with
  | Command dictid argv => replicationFeedSlaves indet s dictid argv
  | FromMaster buf => replicationFeedSlavesFromMasterStream s buf
  | Resize newsize => Some (resizeReplicationBacklog indet s newsize)
  | Sync c psync newid link delay started target => syncCommand indet s c psync newid link delay started target
  | Bgsave started target => Some (startBgsaveForReplication s started target)
  | BgsaveDone err type reachable => Some (set_child (updateSlavesWaitingBgsave s err type reachable) None)
  | Cron idle limit newid => cron_backlog s idle limit newid
  | Unlink id => Some (unlink_slave s id)
  | SetMaster => Some (replicationSetMaster s)
  | UnsetMaster newid => Some (replicationUnsetMaster s newid)
  | Continued newid => resync_continued indet s newid
  | FullBegin => full_resync_begins s
  | FullEnd id reploff => full_resync_ends indet s id reploff
  end.

(** The events of a run can happen when they do; [d] is what the dataset goes
    through. *)
Inductive steps : server -> list event -> bytes -> server -> Prop :=
  | steps_nil s : steps s [] [] s
  | steps_cons s e s1 evs d s2 :
      enabled s e -> step s e = Some s1 -> steps s1 evs d s2 -> steps s (e :: evs) (delta s e ++ d) s2.

(** The server as it starts *)
Definition init (id : bytes) (size : Z) : server := Server id (replicate 40 48) 0 (-1) (-1) None size 0 0 0 [] false None.

(** ** The invariant *)

(** A replica that is fed has got the stream from some point on. *)
Definition slave_ok (h : bytes) (sl : slave) : Prop :=
  (replstate sl = SLAVE_STATE_WAIT_BGSAVE_START -> out sl = []) /\
  (canFeedReplicaReplBuffer sl = true -> exists k, (k <= length h)%nat /\ out sl = drop k h).

Record server_ok (s : server) (h : bytes) : Prop := ServerOk {
  ok_size : 0 < repl_backlog_size s;
  ok_stream : match repl_backlog s with None => slaves s = [] | Some _ => streams s h end;
  ok_slaves : Forall (slave_ok h) (slaves s);
  ok_ids : NoDup (slave_id <$> slaves s) }.

Lemma repl_init_ok id size h : 0 < size -> server_ok (init id size) h.
Proof. intros. split; [done|done|constructor|constructor]. Qed.

Lemma slave_ok_feed h p sl : slave_ok h sl -> slave_ok (h ++ p) (if canFeedReplicaReplBuffer sl then add_out p sl else sl).
Proof.
  intros [Hw Hf]. destruct (canFeedReplicaReplBuffer sl) eqn:E.
  - assert (canFeedReplicaReplBuffer (add_out p sl) = true) as E' by exact E. split.
    + intros Hs. unfold canFeedReplicaReplBuffer in E'. rewrite Hs in E'. by destruct (rdbonly (add_out p sl)).
    + intros _. destruct (Hf eq_refl) as (k & Hk & Ho). exists k. rewrite length_app. split; [lia|]. cbn. rewrite Ho.
      by rewrite drop_app_le by lia.
  - split; [done|congruence].
Qed.

Lemma slaves_ok_feed h p l : Forall (slave_ok h) l -> Forall (slave_ok (h ++ p)) (feed_slaves l p).
Proof. intros H. unfold feed_slaves. rewrite Forall_fmap. eapply Forall_impl; [exact H|]. intros sl Hsl. by apply slave_ok_feed. Qed.

Lemma feed_slaves_ids l p : slave_id <$> feed_slaves l p = slave_id <$> l.
Proof. unfold feed_slaves. rewrite <- list_fmap_compose. apply list_fmap_ext. intros _ sl _. cbn. by destruct (canFeedReplicaReplBuffer sl). Qed.

Lemma advanced_ok h s p db s' : server_ok s h -> advanced h s p db s' -> server_ok s' (h ++ p).
Proof.
  intros [Hz Hst Hsl Hid] (Hs & b & n & i & o & ->). pose proof (streams_backlog _ _ Hs) as Hb. cbn in Hb. split; cbn.
  - done.
  - by destruct b.
  - by apply slaves_ok_feed.
  - by rewrite feed_slaves_ids.
Qed.

(** Other replicas, the stream being the same *)
Lemma server_ok_slaves s h l : server_ok s h -> (repl_backlog s = None -> l = []) -> Forall (slave_ok h) l -> NoDup (slave_id <$> l) ->
  server_ok (set_slaves s l) h.
Proof. intros [Hz Hst Hsl Hid] Hb Hl Hn. split; [done| |done|done]. cbn. destruct (repl_backlog s); [done|by apply Hb]. Qed.

Lemma sublist_ids (l l' : list slave) : l' `sublist_of` l -> NoDup (slave_id <$> l) -> NoDup (slave_id <$> l').
Proof. intros Hs Hn. eapply sublist_NoDup; [exact Hn|]. by apply fmap_sublist. Qed.

Lemma Forall_sub {A} (P : A -> Prop) (l l' : list A) : l' `sublist_of` l -> Forall P l -> Forall P l'.
Proof. intros Hs H. rewrite Forall_forall in *. intros x Hx. apply H. by eapply elem_of_sublist. Qed.

Lemma server_ok_sub s h l : server_ok s h -> l `sublist_of` slaves s -> server_ok (set_slaves s l) h.
Proof.
  intros Hok Hs. apply server_ok_slaves; [done| |by eapply Forall_sub, ok_slaves|by eapply sublist_ids, ok_ids].
  intros Hb. pose proof (ok_stream _ _ Hok) as H. rewrite Hb in H. rewrite H in Hs. by apply sublist_nil_r in Hs.
Qed.

(** Fields that do not concern the stream *)
Lemma server_ok_ids s h id id2 second : server_ok s h -> server_ok (set_ids s id id2 second) h.
Proof. intros [? ? ? ?]. by split. Qed.
Lemma server_ok_seldb s h db : server_ok s h -> server_ok (set_seldb s db) h.
Proof. intros [? ? ? ?]. by split. Qed.
Lemma server_ok_child s h c : server_ok s h -> server_ok (set_child s c) h.
Proof. intros [? ? ? ?]. by split. Qed.
Lemma server_ok_masterhost s h b : server_ok s h -> server_ok (set_masterhost s b) h.
Proof. intros [? ? ? ?]. by split. Qed.

(** A new buffer *)
Lemma new_backlog_ok s h offset size : 0 < size -> Forall (slave_ok h) (slaves s) -> NoDup (slave_id <$> slaves s) ->
  server_ok (set_backlog s offset (Some (brealloc indet [] size)) size 0 0 (offset + 1)) h.
Proof.
  intros Hs Hsl Hn. split; [done| |done|done]. cbn. eexists. split; [done|]. split; [by apply ring_empty|]. cbn. lia.
Qed.

Lemma createReplicationBacklog_ok s h : repl_backlog s = None -> 0 < repl_backlog_size s -> Forall (slave_ok h) (slaves s) ->
  NoDup (slave_id <$> slaves s) -> exists s', createReplicationBacklog indet s = Some s' /\ server_ok s' h.
Proof.
  intros Hb Hz Hsl Hn. unfold createReplicationBacklog. rewrite guard_bool by (by apply bool_decide_eq_true). eexists. split; [done|].
  by apply new_backlog_ok.
Qed.

Lemma resize_ok s h n : server_ok s h -> server_ok (resizeReplicationBacklog indet s n) h.
Proof.
  intros [Hz Hst Hsl Hn]. unfold resizeReplicationBacklog. cbn zeta. set (size := if n <? CONFIG_REPL_BACKLOG_MIN_SIZE then _ else n).
  assert (0 < size) by (unfold size, CONFIG_REPL_BACKLOG_MIN_SIZE; bcase; lia). bcase; [by split|]. destruct (repl_backlog s) eqn:Eb.
  - by apply new_backlog_ok.
  - by split.
Qed.

Lemma freeReplicationBacklog_ok s h : server_ok s h -> slaves s = [] -> exists s', freeReplicationBacklog s = Some s' /\ server_ok s' h.
Proof.
  intros [Hz Hst Hsl Hn] He. unfold freeReplicationBacklog. rewrite guard_bool by (by apply bool_decide_eq_true). eexists. split; [done|]. by split.
Qed.

Lemma not_streaming s h p : server_ok s h -> repl_backlog s = None -> server_ok s (h ++ p).
Proof.
  intros [Hz Hst Hsl Hn] Hb. rewrite Hb in Hst. split; [done|by rewrite Hb|by rewrite Hst|done].
Qed.

Lemma command_ok s h dictid argv : server_ok s h -> in_sint 64 dictid -> argv_ok argv ->
  exists s', replicationFeedSlaves indet s dictid argv = Some s' /\ server_ok s' (h ++ delta s (Command dictid argv)).
Proof.
  intros Hok Hd Ha. cbn. destruct (masterhost s) eqn:Em.
  { exists s. unfold replicationFeedSlaves. rewrite Em, app_nil_r. done. }
  pose proof (ok_stream _ _ Hok) as Hst. destruct (repl_backlog s) as [b|] eqn:Eb.
  - destruct (replicationFeedSlaves_ok indet h s dictid argv Hst Em Hd Ha) as (s' & -> & F). exists s'. split; [done|]. by eapply advanced_ok.
  - exists s. split; [|by apply not_streaming]. unfold replicationFeedSlaves.
    by rewrite Em, (bool_decide_true (repl_backlog s = None)), (bool_decide_true (slaves s = [])) by done.
Qed.

Lemma from_master_ok s h buf : server_ok s h -> exists s', replicationFeedSlavesFromMasterStream s buf = Some s' /\ server_ok s' (h ++ buf).
Proof.
  intros Hok. pose proof (ok_stream _ _ Hok) as Hst. destruct (repl_backlog s) as [b|] eqn:Eb.
  - destruct (FromMasterStream_ok h s buf Hst) as (s' & -> & F). exists s'. split; [done|]. by eapply advanced_ok.
  - unfold replicationFeedSlavesFromMasterStream. rewrite Eb, bind_Some, Hst. eexists. split; [done|].
    replace (set_slaves s (feed_slaves [] buf)) with s by (destruct s; cbn in *; by subst). by apply not_streaming.
Qed.

(** ** Resynchronization *)

Lemma setup_ok h sl offset : slave_ok h sl -> replstate sl = SLAVE_STATE_WAIT_BGSAVE_START -> slave_ok h (setup_slave offset sl).
Proof.
  intros [Hw _] Hs. split; [done|]. intros _. exists (length h). cbn. split; [lia|]. by rewrite Hw, drop_all.
Qed.

Lemma setup_waiting_ok h l : forall s s' l', setup_waiting s l = (s', l') -> Forall (slave_ok h) l ->
  Forall (slave_ok h) l' /\ slave_id <$> l' = slave_id <$> l /\ (s' = s \/ s' = set_seldb s (-1)).
Proof.
  induction l as [|sl l IH]; intros s s' l' E Hf; cbn [setup_waiting] in E.
  { injection E as <- <-. split_and!; auto. }
  apply Forall_cons in Hf as [Hsl Hf]. case_bool_decide.
  - cbn [replicationSetupSlaveForFullResync] in E. destruct (setup_waiting (set_seldb s (-1)) l) as [s1 l1] eqn:E1. injection E as <- <-.
    destruct (IH _ _ _ E1 Hf) as (Hf1 & Hi1 & Hs1). split_and!; [constructor; [by apply setup_ok|done]|cbn; by f_equal|].
    right. destruct Hs1 as [->| ->]; done.
  - destruct (setup_waiting s l) as [s1 l1] eqn:E1. injection E as <- <-.
    destruct (IH _ _ _ E1 Hf) as (Hf1 & Hi1 & Hs1). split_and!; [by constructor|cbn; by f_equal|done].
Qed.

Lemma startBgsave_ok s h started target : server_ok s h -> server_ok (startBgsaveForReplication s started target) h.
Proof.
  intros Hok. unfold startBgsaveForReplication. destruct started; [|by apply server_ok_sub; [|apply sublist_filter]].
  destruct (setup_waiting s (slaves s)) as [s' l'] eqn:E. destruct (setup_waiting_ok h _ _ _ _ E (ok_slaves _ _ Hok)) as (Hf & Hi & Hs).
  apply server_ok_child. assert (slaves s' = slaves s /\ repl_backlog s' = repl_backlog s /\ server_ok s' h) as (Es & Eb & Hok').
  { destruct Hs as [->| ->]; split_and!; try done. by apply server_ok_seldb. }
  apply server_ok_slaves; [done| |done|rewrite Hi; by eapply ok_ids]. rewrite Eb. intros Hb. pose proof (ok_stream _ _ Hok) as Hst.
  rewrite Hb in Hst. rewrite Hst in E. cbn in E. by injection E as _ <-.
Qed.

Lemma updateSlaves_ok s h err type reachable : server_ok s h -> server_ok (updateSlavesWaitingBgsave s err type reachable) h.
Proof.
  intros Hok. unfold updateSlavesWaitingBgsave. set (f := fun sl => _). 
  assert (forall sl sl', f sl = Some sl' -> slave_id sl' = slave_id sl /\ (slave_ok h sl -> slave_ok h sl')) as Hf.
  { intros sl sl'. unfold f. case_bool_decide as Ew; [|by intros [= <-]]. destruct err; [|done].
    assert (forall st, st <> SLAVE_STATE_WAIT_BGSAVE_START ->
      slave_ok h sl -> slave_ok h (Slave (slave_id sl) st (rdbonly sl) (slave_capa sl) (psync_initial_offset sl) (out sl))) as Hst.
    { intros st Hne [_ Hfe]. split; [done|]. intros Hc. apply Hfe. revert Hc. unfold canFeedReplicaReplBuffer. cbn. destruct (rdbonly sl); [done|]. by rewrite Ew. }
    destruct type; [destruct (reachable (slave_id sl)); [|done]|]; intros [= <-]; (split; [done|]); by apply Hst. }
  assert (forall l, Forall (slave_ok h) l -> Forall (slave_ok h) (omap f l) /\ (slave_id <$> omap f l) `sublist_of` (slave_id <$> l)) as Hl.
  { induction 1 as [|sl l Hsl Hfl [IH1 IH2]]; [by split; constructor|]. cbn. destruct (f sl) as [sl'|] eqn:E; cbn.
    - destruct (Hf _ _ E) as [-> Hok']. split; [constructor; auto|by constructor].
    - split; [done|by constructor]. }
  destruct (Hl _ (ok_slaves _ _ Hok)) as [H1 H2]. apply server_ok_slaves; [done| |done|eapply sublist_NoDup; [by eapply ok_ids|exact H2]].
  intros Hb. pose proof (ok_stream _ _ Hok) as Hst. rewrite Hb in Hst. by rewrite Hst.
Qed.

(** The request of a partial resynchronization *)
Definition psync_slave (s : server) (h : bytes) (c : request) (off : Z) : slave :=
  Slave (c_id c) SLAVE_STATE_ONLINE (c_rdbonly c) (c_capa c) 0 (drop (Z.to_nat (blen h - (master_repl_offset s + 1 - off))) h).

Lemma psync_cases s h c id arg : server_ok s h ->
  masterTryPartialResynchronization s c id arg = Some (s, C_ERR) \/
  exists off, in_sint 64 off /\ decimal arg off /\
    (same_id id (replid s) = true \/ same_id id (replid2 s) = true /\ off <= second_replid_offset s) /\
    streams s h /\ 0 <= master_repl_offset s + 1 - off <= blen h /\
    masterTryPartialResynchronization s c id arg = Some (set_slaves s (slaves s ++ [psync_slave s h c off]), C_OK).
Proof.
  intros Hok. unfold masterTryPartialResynchronization. destruct (string2ll_spec arg) as (r & -> & Hr). rewrite bind_Some.
  destruct r as [off|]; [|by left]. destruct (proj1 (Hr off) eq_refl) as [Hin Hd]. clear Hr.
  destruct (negb (same_id id (replid s)) && (negb (same_id id (replid2 s)) || (off >? second_replid_offset s))) eqn:Eid; [by left|].
  bdestr (bool_decide (repl_backlog s = None) || (off <? repl_backlog_off s) || (off >? repl_backlog_off s + repl_backlog_histlen s)); [by left|].
  destruct E as [[Eb%bool_decide_eq_false Elo] Ehi]. pose proof (ok_stream _ _ Hok) as Hst. destruct (repl_backlog s) as [b|] eqn:Ebl; [|done].
  right. exists off. pose proof Hst as (b' & _ & Hring & Ho). destruct (ring_n _ _ _ _ _ Hring) as [Hn Hn'].
  split_and!; [done|done| |done|lia|lia|].
  - apply andb_false_iff in Eid as [H|H]; [left; by apply negb_false_iff|right]. apply orb_false_iff in H as [H1 H2]. split; [by apply negb_false_iff|lia].
  - rewrite (addReplyReplicationBacklog_ok h s off Hst) by lia. by rewrite bind_Some.
Qed.

Lemma psync_slave_ok s h c off : 0 <= master_repl_offset s + 1 - off <= blen h -> slave_ok h (psync_slave s h c off).
Proof. intros H. split; [done|]. intros _. eexists. split; [|done]. unfold blen in *. lia. Qed.

Lemma NoDup_snoc_id (l : list slave) sl : NoDup (slave_id <$> l) -> existsb (fun x => slave_id x =? slave_id sl) l = false ->
  NoDup (slave_id <$> l ++ [sl]).
Proof.
  intros Hn He. rewrite fmap_app, NoDup_app. split_and!; [done| |by apply NoDup_singleton]. intros x Hx Hx'. cbn in Hx'.
  apply list_elem_of_singleton in Hx' as ->. apply list_elem_of_fmap in Hx as (y & Ey & Hy). apply not_true_iff_false in He. apply He.
  apply existsb_exists. exists y. split; [by apply list_elem_of_In|lia].
Qed.

Lemma server_ok_snoc s h sl : server_ok s h -> repl_backlog s <> None -> slave_ok h sl -> existsb (fun x => slave_id x =? slave_id sl) (slaves s) = false ->
  server_ok (set_slaves s (slaves s ++ [sl])) h.
Proof.
  intros Hok Hb Hsl He. apply server_ok_slaves; [done|done| |by apply NoDup_snoc_id; [eapply ok_ids|]].
  rewrite Forall_app. split; [by eapply ok_slaves|by constructor].
Qed.

Lemma attach_ok h sl donor : slave_ok h donor -> out sl = [] -> attachable sl donor = true -> forall offset,
  slave_ok h (setup_slave offset (if rdbonly sl then sl else add_out (out donor) sl)).
Proof.
  intros [_ Hd] Hsl Ha offset. unfold attachable in Ha. apply andb_true_iff in Ha as [Hw Hr]. apply bool_decide_eq_true in Hw.
  split; [done|]. unfold canFeedReplicaReplBuffer at 1, setup_slave. cbn. destruct (rdbonly sl) eqn:Er; cbn; rewrite ?Er; [done|]. intros _. rewrite Hsl. cbn.
  apply Hd. unfold canFeedReplicaReplBuffer. rewrite Hw. destruct (rdbonly donor); done.
Qed.

(** The new replica, waiting for a background save *)
Definition waiting (c : request) : slave := Slave (c_id c) SLAVE_STATE_WAIT_BGSAVE_START (c_rdbonly c) (c_capa c) 0 [].

Lemma waiting_ok h c : slave_ok h (waiting c).
Proof. split; [done|]. unfold canFeedReplicaReplBuffer. cbn. by destruct (c_rdbonly c). Qed.

(** The backlog is created for the first replica. *)
Lemma first_replica_ok s h c newid : server_ok s h -> existsb (fun x => slave_id x =? c_id c) (slaves s) = false ->
  exists s', (if (length (slaves (set_slaves s (slaves s ++ [waiting c]))) =? 1)%nat && bool_decide (repl_backlog (set_slaves s (slaves s ++ [waiting c])) = None)
     then createReplicationBacklog indet (clearReplicationId2 (changeReplicationId (set_slaves s (slaves s ++ [waiting c])) newid))
     else Some (set_slaves s (slaves s ++ [waiting c]))) = Some s' /\
   server_ok s' h /\ slaves s' = slaves s ++ [waiting c] /\ repl_backlog s' <> None /\ child s' = child s /\
   (slaveseldb s' = slaveseldb s /\ masterhost s' = masterhost s) /\
   (repl_backlog s = None /\ replid s' = newid /\ replid2 s' = replicate 40 48 \/
    repl_backlog s <> None /\ s' = set_slaves s (slaves s ++ [waiting c])).
Proof.
  intros Hok He. pose proof (ok_stream _ _ Hok) as Hst. cbn [repl_backlog slaves set_slaves].
  pose proof (NoDup_snoc_id (slaves s) (waiting c) (ok_ids _ _ Hok) He) as Hn.
  assert (Forall (slave_ok h) (slaves s ++ [waiting c])) as Hf by (rewrite Forall_app; split; [by eapply ok_slaves|repeat constructor; apply waiting_ok]).
  destruct (repl_backlog s) as [b|] eqn:Eb.
  - rewrite (bool_decide_false (_ = None)), andb_false_r by done. eexists. split; [done|]. split_and!; [|done|cbn; by rewrite Eb|done|done|done|right; done].
    apply server_ok_snoc; [done|by rewrite Eb|apply waiting_ok|done].
  - rewrite Hst in *. cbn [app length Nat.eqb andb]. rewrite (bool_decide_true (None = None)) by done.
    destruct (createReplicationBacklog_ok (clearReplicationId2 (changeReplicationId (set_slaves s [waiting c]) newid)) h Eb (ok_size _ _ Hok) Hf Hn) as (s' & E' & Hok').
    exists s'. split; [done|]. unfold createReplicationBacklog in E'. rewrite guard_bool in E' by (by apply bool_decide_eq_true). injection E' as <-.
    split_and!; [done..|left; done].
Qed.

Lemma syncCommand_ok s h c psync newid link delay started target : server_ok s h ->
  exists s', syncCommand indet s c psync newid link delay started target = Some s' /\ server_ok s' h.
Proof.
  intros Hok. unfold syncCommand. destruct (existsb (fun sl => slave_id sl =? c_id c) (slaves s)) eqn:Ee; [by exists s|].
  destruct (masterhost s && negb link); [by exists s|]. destruct (c_pending c); [by exists s|].
  assert (exists s1 r, match psync with Some (id, arg) => masterTryPartialResynchronization s c id arg | None => Some (s, C_ERR) end = Some (s1, r) /\
    server_ok s1 h /\ (r = C_ERR -> s1 = s)) as (s1 & r & -> & Hok1 & Hr).
  { destruct psync as [[id arg]|]; [|by exists s, C_ERR]. destruct (psync_cases s h c id arg Hok) as [->|(off & _ & _ & _ & Hst & Hoff & ->)]; [by exists s, C_ERR|].
    eexists _, C_OK. split; [done|]. split; [|done]. apply server_ok_snoc; [done|by eapply streams_backlog|by apply psync_slave_ok|done]. }
  rewrite bind_Some. destruct r; [by exists s1|]. rewrite (Hr eq_refl) in *. fold (waiting c). cbn zeta.
  destruct (first_replica_ok s h c newid Hok Ee) as (s2 & -> & Hok2 & Hsl2 & Hb2 & Hc2 & _ & _). rewrite bind_Some.
  destruct (child s2) as [[]|].
  - destruct (list_find (fun x => attachable (waiting c) x = true) (slaves s)) as [[i donor]|] eqn:El; [|by exists s2].
    bcase; [|by exists s2]. cbn [replicationSetupSlaveForFullResync]. eexists. split; [done|].
    apply list_find_Some in El as (Hd & Ha & _). apply list_elem_of_lookup_2 in Hd.
    apply server_ok_slaves; [by apply server_ok_seldb|done| |].
    + rewrite Forall_app. split; [by eapply ok_slaves|]. constructor; [|constructor]. apply attach_ok; [|done|done].
      pose proof (ok_slaves _ _ Hok) as Hf. rewrite Forall_forall in Hf. by apply Hf.
    + rewrite fmap_app. pose proof (ok_ids _ _ Hok2) as Hn. rewrite Hsl2, fmap_app in Hn. cbn in Hn |- *. by destruct (c_rdbonly c).
  - by exists s2.
  - destruct delay; [by exists s2|]. eexists. split; [done|]. by apply startBgsave_ok.
Qed.

Lemma cron_ok s h idle limit newid : server_ok s h -> exists s', cron_backlog s idle limit newid = Some s' /\ server_ok s' h.
Proof.
  intros Hok. unfold cron_backlog. bcase; [|by exists s]. apply freeReplicationBacklog_ok.
  - by apply server_ok_ids, server_ok_ids.
  - destruct E as [[[[E _] _] _] _]. by apply bool_decide_eq_true in E.
Qed.

Lemma disconnect_ok s h : server_ok s h -> server_ok (disconnectSlaves s) h.
Proof. intros Hok. apply server_ok_sub; [done|apply sublist_nil_l]. Qed.

(** Every event that can happen is handled without an assertion failing or an
    access outside the buffer, and the stream grows by what it stands for. *)
Lemma repl_step_ok s h e : server_ok s h -> enabled s e -> exists s', step s e = Some s' /\ server_ok s' (h ++ delta s e).
Proof.
  intros Hok He. destruct e as [dictid argv|buf|n|c psync newid link delay started target|started target|err type reachable|idle limit newid
    |id| |newid|newid| |id reploff]; cbn [step]; try (cbn [delta]; rewrite app_nil_r).
  - destruct He. by apply command_ok.
  - by apply from_master_ok.
  - eexists. split; [done|]. by apply resize_ok.
  - by apply syncCommand_ok.
  - eexists. split; [done|]. by apply startBgsave_ok.
  - eexists. split; [done|]. by apply server_ok_child, updateSlaves_ok.
  - by apply cron_ok.
  - eexists. split; [done|]. apply server_ok_sub; [done|apply sublist_filter].
  - eexists. split; [done|]. by apply disconnect_ok, server_ok_masterhost.
  - eexists. split; [done|]. unfold replicationUnsetMaster. destruct (masterhost s); [|done].
    by apply server_ok_seldb, disconnect_ok, server_ok_ids, server_ok_masterhost.
  - destruct He as [_ Hb]. unfold resync_continued. case_bool_decide.
    + destruct (repl_backlog s); [by exists s|done].
    + cbn. destruct (repl_backlog s) eqn:Eb; [|done]. eexists. split; [done|]. by apply disconnect_ok, server_ok_ids.
  - apply freeReplicationBacklog_ok; [by apply disconnect_ok|done].
  - destruct He as [_ Hb]. unfold full_resync_ends. cbn. rewrite Hb. pose proof (ok_stream _ _ Hok) as Hst. rewrite Hb in Hst.
    apply createReplicationBacklog_ok; [done|apply Hok|by cbn; rewrite Hst; constructor|by cbn; rewrite Hst; constructor].
Qed.

Lemma repl_steps_ok s evs d s' : steps s evs d s' -> forall h, server_ok s h -> server_ok s' (h ++ d).
Proof.
  induction 1 as [s|s e s1 evs d s2 He Hs Hss IH]; intros h Hok; [by rewrite app_nil_r|].
  destruct (repl_step_ok s h e Hok He) as (s1' & E & Hok1). rewrite Hs in E. injection E as <-. rewrite app_assoc. by apply IH.
Qed.

(** ** Names of histories *)

(** [id] names the stream only if the stream continues [h1], that was at offset
    [base] plus its length. *)
Definition named (id : bytes) (base : Z) (h1 : bytes) (s : server) (h : bytes) : Prop :=
  repl_backlog s <> None -> same_id id (replid s) = true \/ same_id id (replid2 s) = true ->
  h1 `prefix_of` h /\ master_repl_offset s - blen h = base.

Definition fresh (id : bytes) (e : event) : Prop := Forall (fun new => same_id id new = false) (new_ids e).

Lemma advanced_named id base h1 s h p db s' : named id base h1 s h -> advanced h s p db s' -> repl_backlog s <> None -> named id base h1 s' (h ++ p).
Proof.
  intros Hn (_ & b & n & i & o & ->) Hb Hb' Hid. cbn in Hid. destruct (Hn Hb Hid) as [Hp Ho]. split; [by apply prefix_app_r|]. cbn. rewrite blen_app. lia.
Qed.

(** The fields that [named] depends on *)
Lemma named_same id base h1 s s' h : named id base h1 s h -> replid s' = replid s -> replid2 s' = replid2 s ->
  master_repl_offset s' = master_repl_offset s -> (repl_backlog s' <> None -> repl_backlog s <> None) -> named id base h1 s' h.
Proof. unfold named. intros Hn -> -> -> Hb Hb' Hid. auto. Qed.

Lemma named_shift id base h1 s s' h newid : named id base h1 s h -> replid s' = newid -> same_id id newid = false -> replid2 s' = replid s ->
  master_repl_offset s' = master_repl_offset s -> (repl_backlog s' <> None -> repl_backlog s <> None) -> named id base h1 s' h.
Proof. unfold named. intros Hn -> Hf -> -> Hb Hb' [Hid|Hid]; [congruence|auto]. Qed.

Lemma named_other id base h1 s' h : same_id id (replid s') = false -> same_id id (replid2 s') = false -> named id base h1 s' h.
Proof. unfold named. intros H1 H2 _ [?|?]; congruence. Qed.

Lemma setup_waiting_fields l : forall s s' l', setup_waiting s l = (s', l') -> s' = s \/ s' = set_seldb s (-1).
Proof.
  induction l as [|sl l IH]; intros s s' l' E; cbn [setup_waiting] in E; [injection E as <- <-; auto|].
  case_bool_decide; cbn [replicationSetupSlaveForFullResync] in E.
  - destruct (setup_waiting (set_seldb s (-1)) l) as [s1 l1] eqn:E1. injection E as <- <-. right. by destruct (IH _ _ _ E1) as [->| ->].
  - destruct (setup_waiting s l) as [s1 l1] eqn:E1. injection E as <- <-. by eapply IH.
Qed.

(** A replica that is fed stays as it is. *)
Definition kept (l l' : list slave) (cid : option Z) : Prop :=
  forall sl', sl' ∈ l' -> cid <> Some (slave_id sl') ->
    exists sl, sl ∈ l /\ slave_id sl = slave_id sl' /\ (canFeedReplicaReplBuffer sl = true -> sl' = sl).

Lemma kept_refl l cid : kept l l cid.
Proof. intros sl Hsl _. by exists sl. Qed.

Lemma kept_trans l1 l2 l3 cid : kept l1 l2 cid -> kept l2 l3 None -> kept l1 l3 cid.
Proof.
  intros H1 H2 sl Hsl Hc. destruct (H2 sl Hsl ltac:(done)) as (sl2 & Hsl2 & Hi2 & He2). destruct (H1 sl2 Hsl2 ltac:(congruence)) as (sl1 & Hsl1 & Hi1 & He1).
  exists sl1. split_and!; [done|congruence|]. intros Hf. rewrite <- (He1 Hf) in Hf |- *. auto.
Qed.

Lemma kept_sub l l' cid : l' `sublist_of` l -> kept l l' cid.
Proof. intros Hs sl Hsl _. exists sl. split_and!; [by eapply elem_of_sublist|done|done]. Qed.

Lemma kept_snoc l sl : kept l (l ++ [sl]) (Some (slave_id sl)).
Proof.
  intros sl' Hsl' Hne. apply elem_of_app in Hsl' as [?|Hx]; [by exists sl'|]. apply list_elem_of_singleton in Hx as ->. done.
Qed.

Lemma setup_waiting_kept l : forall s s' l', setup_waiting s l = (s', l') -> kept l l' None.
Proof.
  induction l as [|sl l IH]; intros s s' l' E; cbn [setup_waiting] in E; [injection E as <- <-; apply kept_refl|].
  assert (forall sl1 l1, slave_id sl1 = slave_id sl -> (canFeedReplicaReplBuffer sl = true -> sl1 = sl) -> kept l l1 None -> kept (sl :: l) (sl1 :: l1) None) as Hc.
  { intros sl1 l1 Hi He Hk sl' Hsl' Hn. apply elem_of_cons in Hsl' as [->|Hin]; [exists sl; split_and!; [by left|done|done]|].
    destruct (Hk sl' Hin Hn) as (x & ? & ? & ?). exists x. split_and!; [by right|done|done]. }
  case_bool_decide as Ew; cbn [replicationSetupSlaveForFullResync] in E.
  - destruct (setup_waiting (set_seldb s (-1)) l) as [s1 l1] eqn:E1. injection E as <- <-. apply Hc; [done| |by eapply IH].
    unfold canFeedReplicaReplBuffer. rewrite Ew. by destruct (rdbonly sl).
  - destruct (setup_waiting s l) as [s1 l1] eqn:E1. injection E as <- <-. apply Hc; [done|done|by eapply IH].
Qed.

(** A background save changes the replicas and the database of the stream. *)
Lemma startBgsave_fields s started target :
  exists db l ch, startBgsaveForReplication s started target = set_child (set_slaves (set_seldb s db) l) ch /\ kept (slaves s) l None /\
    (db = slaveseldb s \/ db = -1).
Proof.
  unfold startBgsaveForReplication. destruct started.
  - destruct (setup_waiting s (slaves s)) as [s' l'] eqn:E. pose proof (setup_waiting_kept _ _ _ _ E).
    destruct (setup_waiting_fields _ _ _ _ E) as [->| ->].
    + exists (slaveseldb s), l', (Some target). split_and!; [by destruct s|done|by left].
    + exists (-1), l', (Some target). split_and!; [done|done|by right].
  - exists (slaveseldb s), (filter (fun sl => replstate sl <> SLAVE_STATE_WAIT_BGSAVE_START) (slaves s)), (child s).
    split_and!; [by destruct s|apply kept_sub, sublist_filter|by left].
Qed.

(** SYNC and PSYNC change these too, and the IDs when the backlog is created. *)
Lemma sync_fields s h c psync newid link delay started target s' : server_ok s h ->
  syncCommand indet s c psync newid link delay started target = Some s' ->
  exists s0 db l ch, s' = set_child (set_slaves (set_seldb s0 db) l) ch /\ kept (slaves s) l (Some (c_id c)) /\ (db = slaveseldb s \/ db = -1) /\ masterhost s0 = masterhost s /\
    (s0 = s \/ repl_backlog s = None /\ replid s0 = newid /\ replid2 s0 = replicate 40 48).
Proof.
  intros Hok E.
  assert (forall l, kept (slaves s) l (Some (c_id c)) -> exists s0 db l' ch, set_slaves s l = set_child (set_slaves (set_seldb s0 db) l') ch /\
    kept (slaves s) l' (Some (c_id c)) /\ (db = slaveseldb s \/ db = -1) /\ masterhost s0 = masterhost s /\ (s0 = s \/ repl_backlog s = None /\ replid s0 = newid /\ replid2 s0 = replicate 40 48)) as Hl.
  { intros l Hk. exists s, (slaveseldb s), l, (child s). split_and!; [by destruct s|done|by left|done|by left]. }
  pose proof (Hl (slaves s) (kept_refl _ _)) as Hs. rewrite set_slaves_id in Hs.
  unfold syncCommand in E. destruct (existsb (fun sl => slave_id sl =? c_id c) (slaves s)) eqn:Ee; [by injection E as <-|].
  destruct (masterhost s && negb link); [by injection E as <-|]. destruct (c_pending c); [by injection E as <-|].
  assert ((exists sl, slave_id sl = c_id c /\
    match psync with Some (i, arg) => masterTryPartialResynchronization s c i arg | None => Some (s, C_ERR) end = Some (set_slaves s (slaves s ++ [sl]), C_OK)) \/
    match psync with Some (i, arg) => masterTryPartialResynchronization s c i arg | None => Some (s, C_ERR) end = Some (s, C_ERR)) as [(sl & Hsl & Ep)|Ep].
  { destruct psync as [[i arg]|]; [|by right]. destruct (psync_cases s h c i arg Hok) as [->|(off & _ & _ & _ & _ & _ & ->)]; [by right|left; by exists (psync_slave s h c off)]. }
  { rewrite Ep, bind_Some in E. injection E as <-. apply Hl. rewrite <- Hsl. apply kept_snoc. }
  rewrite Ep, bind_Some in E. fold (waiting c) in E. cbn zeta in E.
  destruct (first_replica_ok s h c newid Hok Ee) as (s2 & E2 & Hok2 & Hsl2 & Hb2 & Hc2 & [Hdb2 Hm2] & Hs2). rewrite E2, bind_Some in E. clear E2.
  assert (forall db l ch, kept (slaves s) l (Some (c_id c)) -> db = slaveseldb s \/ db = -1 -> s' = set_child (set_slaves (set_seldb s2 db) l) ch ->
    exists s0 db l ch, s' = set_child (set_slaves (set_seldb s0 db) l) ch /\ kept (slaves s) l (Some (c_id c)) /\ (db = slaveseldb s \/ db = -1) /\ masterhost s0 = masterhost s /\
    (s0 = s \/ repl_backlog s = None /\ replid s0 = newid /\ replid2 s0 = replicate 40 48)) as Hfin.
  { intros db l ch Hk Hdb ->. destruct Hs2 as [Hs2|[_ ->]]; [exists s2, db, l, ch; split_and!; auto|]. exists s, db, l, ch. split_and!; auto. }
  pose proof (kept_snoc (slaves s) (waiting c)) as Hk. cbn [slave_id waiting] in Hk.
  assert (s' = s2 -> exists s0 db l ch, s' = set_child (set_slaves (set_seldb s0 db) l) ch /\ kept (slaves s) l (Some (c_id c)) /\ (db = slaveseldb s \/ db = -1) /\ masterhost s0 = masterhost s /\
    (s0 = s \/ repl_backlog s = None /\ replid s0 = newid /\ replid2 s0 = replicate 40 48)) as Hsame.
  { intros ->. apply (Hfin (slaveseldb s2) (slaves s2) (child s2)); [by rewrite Hsl2|by left|by destruct s2]. }
  destruct (child s2) as [[]|] eqn:Ec.
  - destruct (list_find (fun x => attachable (waiting c) x = true) (slaves s)) as [[i donor]|]; [|injection E as <-; auto].
    destruct (Z.land (slave_capa (waiting c)) (slave_capa donor) =? slave_capa donor); [|injection E as <-; auto].
    cbn [replicationSetupSlaveForFullResync] in E. injection E as <-. eapply (Hfin (-1) _ (child s2)); [|by right|unfold set_child, set_slaves, set_seldb; cbn; reflexivity].
    destruct (c_rdbonly c); [exact (kept_snoc (slaves s) (setup_slave (psync_initial_offset donor) (waiting c)))|].
    exact (kept_snoc (slaves s) (setup_slave (psync_initial_offset donor) (add_out (out donor) (waiting c)))).
  - injection E as <-. auto.
  - destruct delay; injection E as <-; [auto|]. destruct (startBgsave_fields s2 started target) as (db & l & ch & E' & Hk' & Hdb').
    apply (Hfin db l ch); [|destruct Hdb' as [->| ->]; auto|done]. rewrite Hsl2 in Hk'. by eapply kept_trans.
Qed.

Lemma command_fields s h dictid argv s' : server_ok s h -> enabled s (Command dictid argv) -> step s (Command dictid argv) = Some s' ->
  s' = s /\ (masterhost s = true \/ repl_backlog s = None) \/ masterhost s = false /\ advanced h s (emit (slaveseldb s) dictid argv) dictid s'.
Proof.
  intros Hok [Hd Ha] E. cbn in E. destruct (masterhost s) eqn:Em.
  { left. unfold replicationFeedSlaves in E. rewrite Em in E. injection E as <-. auto. }
  pose proof (ok_stream _ _ Hok) as Hst. destruct (repl_backlog s) as [b|] eqn:Eb.
  - right. destruct (replicationFeedSlaves_ok indet h s dictid argv Hst Em Hd Ha) as (s1 & E1 & F). rewrite E in E1. by injection E1 as ->.
  - left. unfold replicationFeedSlaves in E. rewrite Em, (bool_decide_true (repl_backlog s = None)), (bool_decide_true (slaves s = [])) in E by done.
    injection E as <-. auto.
Qed.

Lemma from_master_fields s h buf s' : server_ok s h -> step s (FromMaster buf) = Some s' ->
  s' = s /\ repl_backlog s = None \/ advanced h s buf (slaveseldb s) s'.
Proof.
  intros Hok E. cbn in E. pose proof (ok_stream _ _ Hok) as Hst. destruct (repl_backlog s) as [b|] eqn:Eb.
  - right. destruct (FromMasterStream_ok h s buf Hst) as (s1 & E1 & F). rewrite E in E1. by injection E1 as ->.
  - left. unfold replicationFeedSlavesFromMasterStream in E. rewrite Eb, bind_Some, Hst in E. injection E as <-.
    split; [|done]. destruct s. cbn in *. by subst.
Qed.

(** ** The output of a replica *)

(** The replica [sid], as long as it is connected, has got [o]. *)
Definition tracks (sid : Z) (o : bytes) (s : server) : Prop :=
  forall sl, sl ∈ slaves s -> slave_id sl = sid -> canFeedReplicaReplBuffer sl = true /\ out sl = o.

Definition not_sync (sid : Z) (e : event) : Prop := match e with Sync c _ _ _ _ _ _ => c_id c <> sid | _ => True end.

Lemma tracks_kept sid o s s' cid : tracks sid o s -> kept (slaves s) (slaves s') cid -> cid <> Some sid -> tracks sid o s'.
Proof.
  intros Ht Hk Hc sl' Hsl' Hid. destruct (Hk sl' Hsl' ltac:(congruence)) as (sl & Hsl & Hi & He).
  destruct (Ht sl Hsl ltac:(congruence)) as [Hf Ho]. rewrite (He Hf). done.
Qed.

Lemma tracks_nil sid o s : slaves s = [] -> tracks sid o s.
Proof. intros E sl Hsl. rewrite E in Hsl. by apply elem_of_nil in Hsl. Qed.

Lemma tracks_advanced sid o h s p db s' : tracks sid o s -> advanced h s p db s' -> tracks sid (o ++ p) s'.
Proof.
  intros Ht (_ & b & n & i & off & ->) sl Hsl Hid. cbn in Hsl. unfold feed_slaves in Hsl. apply list_elem_of_fmap in Hsl as (x & -> & Hx).
  destruct (canFeedReplicaReplBuffer x) eqn:Ex.
  - destruct (Ht x Hx Hid) as [_ <-]. split; [exact Ex|done].
  - destruct (Ht x Hx Hid) as [? _]. congruence.
Qed.

Lemma tracks_update sid o s err type reachable : tracks sid o s -> tracks sid o (updateSlavesWaitingBgsave s err type reachable).
Proof.
  intros Ht sl' Hsl' Hid. unfold updateSlavesWaitingBgsave in Hsl'. cbn in Hsl'. apply list_elem_of_omap in Hsl' as (sl & Hsl & E).
  case_bool_decide as Ew; [|injection E as <-; by apply Ht]. destruct err; [|done].
  assert (canFeedReplicaReplBuffer sl = true -> forall st, st <> SLAVE_STATE_WAIT_BGSAVE_START ->
    canFeedReplicaReplBuffer (Slave (slave_id sl) st (rdbonly sl) (slave_capa sl) (psync_initial_offset sl) (out sl)) = true) as Hc.
  { unfold canFeedReplicaReplBuffer. cbn. intros Hc st Hst. destruct (rdbonly sl); [done|]. by rewrite bool_decide_false. }
  destruct type; [destruct (reachable (slave_id sl)); [|done]|]; injection E as <-; cbn in Hid; destruct (Ht sl Hsl Hid) as [Hf Ho];
    (split; [by apply Hc|done]).
Qed.

Lemma step_tracks sid o s h e s' : server_ok s h -> enabled s e -> not_sync sid e -> tracks sid o s -> step s e = Some s' ->
  tracks sid (o ++ delta s e) s'.
Proof.
  intros Hok He Hns Ht E. pose proof (ok_stream _ _ Hok) as Hst.
  destruct e as [dictid argv|buf|n|c psync newid link delay started target|started target|err type reachable|idle limit newid
    |id| |newid|newid| |id reploff]; try (cbn [delta]; rewrite app_nil_r).
  - destruct (command_fields _ _ _ _ _ Hok He E) as [[-> Hs]|[Hm F]]; cbn.
    + destruct Hs as [->|Hb]; [by rewrite app_nil_r|]. apply tracks_nil. by rewrite Hb in Hst.
    + rewrite Hm. by eapply tracks_advanced.
  - destruct (from_master_fields _ _ _ _ Hok E) as [[-> Hb]|F]; [apply tracks_nil; by rewrite Hb in Hst|by eapply tracks_advanced].
  - injection E as <-. unfold resizeReplicationBacklog. cbn zeta. repeat bcase; try done; by destruct (repl_backlog s).
  - destruct (sync_fields _ _ _ _ _ _ _ _ _ _ Hok E) as (s0 & db & l & ch & -> & Hk & _). eapply tracks_kept; [done|exact Hk|]. cbn in Hns. congruence.
  - injection E as <-. destruct (startBgsave_fields s started target) as (db & l & ch & -> & Hk & _). by eapply tracks_kept.
  - injection E as <-. by apply (tracks_update sid o s).
  - cbn in E. unfold cron_backlog in E. revert E. bcase; [|by intros [= <-]]. unfold freeReplicationBacklog. bcase; [|done]. by intros [= <-].
  - injection E as <-. eapply (tracks_kept _ _ _ _ None); [done|apply kept_sub, sublist_filter|done].
  - injection E as <-. by apply tracks_nil.
  - injection E as <-. unfold replicationUnsetMaster. destruct (masterhost s); [by apply tracks_nil|done].
  - destruct He as [_ Hb]. cbn in E. unfold resync_continued in E. case_bool_decide.
    + destruct (repl_backlog s); [by injection E as <-|done].
    + cbn in E. destruct (repl_backlog s) eqn:Eb; [|done]. injection E as <-. by apply tracks_nil.
  - cbn in E. unfold full_resync_begins, freeReplicationBacklog in E. cbn in E. injection E as <-. by apply tracks_nil.
  - destruct He as [_ Hb]. rewrite Hb in Hst. cbn in E. unfold full_resync_ends in E. cbn in E. rewrite Hb in E. unfold createReplicationBacklog in E. cbn in E.
    injection E as <-. by apply tracks_nil.
Qed.

Lemma steps_tracks sid s evs d s' : steps s evs d s' -> forall h o, server_ok s h -> Forall (not_sync sid) evs -> tracks sid o s -> tracks sid (o ++ d) s'.
Proof.
  induction 1 as [s|s e s1 evs d s2 He Hs Hss IH]; intros h o Hok Hf Ht; [by rewrite app_nil_r|]. apply Forall_cons in Hf as [Hfe Hf].
  destruct (repl_step_ok s h e Hok He) as (s1' & E & Hok1). rewrite Hs in E. injection E as <-. rewrite app_assoc. apply (IH _ _ Hok1 Hf). by eapply step_tracks.
Qed.

Context (id : bytes) (Hid0 : same_id id (replicate 40 48) = false).

Lemma fresh_one e newid : fresh id e -> new_ids e = [newid] -> same_id id newid = false.
Proof. unfold fresh. intros H E. rewrite E in H. by apply Forall_cons in H as [? _]. Qed.

Lemma named_none base h1 s h : repl_backlog s = None -> named id base h1 s h.
Proof. by intros H Hb. Qed.

Lemma step_named base h1 s h e s' : server_ok s h -> enabled s e -> fresh id e -> named id base h1 s h -> step s e = Some s' ->
  named id base h1 s' (h ++ delta s e).
Proof.
  intros Hok He Hf Hn E. destruct e as [dictid argv|buf|n|c psync newid link delay started target|started target|err type reachable|idle limit newid
    |sid| |newid|newid| |fid reploff]; try (cbn [delta]; rewrite app_nil_r).
  - destruct (command_fields _ _ _ _ _ Hok He E) as [[-> Hs]|[Hm F]]; cbn.
    + destruct Hs as [->|Hb]; [by rewrite app_nil_r|by apply named_none].
    + rewrite Hm. destruct (repl_backlog s) as [b|] eqn:Eb; [eapply advanced_named; [done|done|by rewrite Eb]|].
      cbn in E. unfold replicationFeedSlaves in E. pose proof (ok_stream _ _ Hok) as Hst. rewrite Eb in Hst.
      rewrite Hm, (bool_decide_true (repl_backlog s = None)), (bool_decide_true (slaves s = [])) in E by done. injection E as <-. by apply named_none.
  - pose proof E as E'. cbn in E'. destruct (repl_backlog s) as [b|] eqn:Eb.
    + destruct (from_master_fields _ _ _ _ Hok E) as [[_ ?]|F]; [congruence|]. eapply advanced_named; [done|done|by rewrite Eb].
    + apply named_none. unfold replicationFeedSlavesFromMasterStream in E'. rewrite Eb, bind_Some in E'. by injection E' as <-.
  - injection E as <-. unfold resizeReplicationBacklog. cbn zeta. repeat bcase; try done; (destruct (repl_backlog s) eqn:Eb; [|by apply named_none]);
      eapply named_same; try done; by rewrite Eb.
  - destruct (sync_fields _ _ _ _ _ _ _ _ _ _ Hok E) as (s0 & db & l & ch & -> & _ & _ & _ & [->|(_ & E1 & E2)]); [by eapply named_same|].
    apply named_other; cbn; [rewrite E1; exact (fresh_one _ _ Hf eq_refl)|by rewrite E2].
  - injection E as <-. destruct (startBgsave_fields s started target) as (db & l & ch & -> & _). by eapply named_same.
  - injection E as <-. by eapply named_same.
  - cbn in E. unfold cron_backlog in E. revert E. bcase; [|by intros [= <-]]. unfold freeReplicationBacklog. bcase; [|done]. intros [= <-]. by apply named_none.
  - injection E as <-. by eapply named_same.
  - injection E as <-. by eapply named_same.
  - injection E as <-. unfold replicationUnsetMaster. destruct (masterhost s); [|done]. eapply named_shift; [done|done|exact (fresh_one _ _ Hf eq_refl)|done..].
  - destruct He as [_ Hb]. cbn in E. unfold resync_continued in E. case_bool_decide.
    + destruct (repl_backlog s); [by injection E as <-|done].
    + cbn in E. destruct (repl_backlog s) eqn:Eb; [|done]. injection E as <-. eapply named_shift; [done|done|exact (fresh_one _ _ Hf eq_refl)|done|done|]. by rewrite Eb.
  - cbn in E. unfold full_resync_begins, freeReplicationBacklog in E. cbn in E. injection E as <-. by apply named_none.
  - destruct He as [_ Hb]. cbn in E. unfold full_resync_ends in E. cbn in E. rewrite Hb in E. unfold createReplicationBacklog in E. cbn in E.
    injection E as <-. apply named_other; [exact (fresh_one _ _ Hf eq_refl)|done].
Qed.

Lemma steps_named base h1 s evs d s' : steps s evs d s' -> forall h, server_ok s h -> Forall (fresh id) evs -> named id base h1 s h ->
  named id base h1 s' (h ++ d).
Proof.
  induction 1 as [s|s e s1 evs d s2 He Hs Hss IH]; intros h Hok Hf Hn; [by rewrite app_nil_r|]. apply Forall_cons in Hf as [Hfe Hf].
  destruct (repl_step_ok s h e Hok He) as (s1' & E & Hok1). rewrite Hs in E. injection E as <-. rewrite app_assoc. apply IH; [done|done|]. by eapply step_named.
Qed.

(** What becomes of the IDs *)
Definition ids_kept (s s' : server) : Prop :=
  replid s' = replid s /\ replid2 s' = replid2 s /\ second_replid_offset s' = second_replid_offset s \/
  same_id id (replid s') = false /\ (replid2 s' = replid s \/ replid2 s' = replicate 40 48).

Lemma step_ids s h e s' : server_ok s h -> enabled s e -> fresh id e -> step s e = Some s' -> ids_kept s s'.
Proof.
  intros Hok He Hf E. assert (ids_kept s s) as Hid by by left.
  destruct e as [dictid argv|buf|n|c psync newid link delay started target|started target|err type reachable|idle limit newid
    |sid| |newid|newid| |fid reploff].
  - destruct (command_fields _ _ _ _ _ Hok He E) as [[-> _]|[_ (_ & b & n & i & o & ->)]]; [done|by left].
  - destruct (from_master_fields _ _ _ _ Hok E) as [[-> _]|(_ & b & n & i & o & ->)]; [done|by left].
  - injection E as <-. unfold resizeReplicationBacklog. cbn zeta. repeat bcase; try done; destruct (repl_backlog s); by left.
  - destruct (sync_fields _ _ _ _ _ _ _ _ _ _ Hok E) as (s0 & db & l & ch & -> & _ & _ & _ & [->|(_ & E1 & E2)]); [by left|]. right. cbn.
    rewrite E1, E2. split; [exact (fresh_one _ _ Hf eq_refl)|by right].
  - injection E as <-. destruct (startBgsave_fields s started target) as (db & l & ch & -> & _). by left.
  - injection E as <-. by left.
  - cbn in E. unfold cron_backlog in E. revert E. bcase; [|by intros [= <-]]. unfold freeReplicationBacklog. bcase; [|done]. intros [= <-].
    right. split; [exact (fresh_one _ _ Hf eq_refl)|by right].
  - injection E as <-. by left.
  - injection E as <-. by left.
  - injection E as <-. unfold replicationUnsetMaster. destruct (masterhost s); [|done]. right. split; [exact (fresh_one _ _ Hf eq_refl)|by left].
  - destruct He as [_ Hb]. cbn in E. unfold resync_continued in E. case_bool_decide.
    + destruct (repl_backlog s); [by injection E as <-|done].
    + cbn in E. destruct (repl_backlog s) eqn:Eb; [|done]. injection E as <-. right. split; [exact (fresh_one _ _ Hf eq_refl)|by left].
  - cbn in E. unfold full_resync_begins, freeReplicationBacklog in E. cbn in E. injection E as <-. by left.
  - destruct He as [_ Hb]. cbn in E. unfold full_resync_ends in E. cbn in E. rewrite Hb in E. unfold createReplicationBacklog in E. cbn in E.
    injection E as <-. right. split; [exact (fresh_one _ _ Hf eq_refl)|by right].
Qed.

(** [id] is the ID of a former master, valid up to the offset [B]. *)
Definition former (B : Z) (s : server) : Prop :=
  same_id id (replid s) = false /\ (same_id id (replid2 s) = true -> second_replid_offset s = B).

Lemma steps_former B s evs d s' : steps s evs d s' -> forall h, server_ok s h -> Forall (fresh id) evs -> former B s -> former B s'.
Proof.
  induction 1 as [s|s e s1 evs d s2 He Hs Hss IH]; intros h Hok Hf Hn; [done|]. apply Forall_cons in Hf as [Hfe Hf].
  destruct (repl_step_ok s h e Hok He) as (s1' & E & Hok1). rewrite Hs in E. injection E as <-. apply (IH _ Hok1 Hf).
  destruct Hn as [Hn1 Hn2]. destruct (step_ids _ _ _ _ Hok He Hfe Hs) as [(E1 & E2 & E3)|[Hf1 [E2|E2]]].
  - unfold former. by rewrite E1, E2, E3.
  - split; [done|]. rewrite E2. congruence.
  - split; [done|]. rewrite E2. congruence.
Qed.

End Run.
End ReplRun.
