(* ===== verification/ReplSafety.v ===== *)
(** What replication promises: a replica executes the commands of its master,
    and one that reconnects is sent exactly what it missed. *)

From S2P Require Import Prelude Util Sds SdsText Resp RespSpec RespRun RespSafety Repl ReplInv ReplSpec ReplRun.

Module ReplSafety.
Import Util Repl ReplInv ReplSpec ReplRun.

(** ** Partial resynchronization *)

Lemma decimal_fun s v v' : decimal s v -> decimal s v' -> v = v'.
Proof.
  unfold decimal, udecimal. assert (forall s', ~ all_digits (45 :: s')) as H45.
  { intros s' H. apply Forall_cons in H as [H _]. lia. }
  repeat bcase.
  - intros (s1 & -> & _ & E1 & _) (s2 & [= <-] & _ & E2 & _). lia.
  - intros (s1 & -> & _) (H & _). by apply H45 in H.
  - intros (H & _) (s1 & -> & _). by apply H45 in H.
  - intros (_ & E1 & _) (_ & E2 & _). lia.
Qed.

Lemma prefix_drop (P h : bytes) : P `prefix_of` h -> P ++ drop (length P) h = h.
Proof. intros [r ->]. by rewrite drop_app_length. Qed.

Section Psync.
Context (indet : nat -> Z).

(** The bytes that an accepted request is answered with *)
Lemma psync_sends size id0 evs1 h1 s1 evs d s2 c arg s3 P :
  0 < size -> steps indet (init id0 size) evs1 h1 s1 -> repl_backlog s1 <> None ->
  steps indet s1 evs d s2 -> Forall (fresh (replid s1)) evs -> same_id (replid s1) (replicate 40 48) = false ->
  masterTryPartialResynchronization s2 c (replid s1) arg = Some (s3, C_OK) ->
  decimal arg (master_repl_offset s1 - blen h1 + blen P + 1) ->
  (same_id (replid s1) (replid s2) = true \/ same_id (replid s1) (replid2 s2) = true /\ master_repl_offset s1 - blen h1 + blen P + 1 <= second_replid_offset s2) /\
  exists sl, slaves s3 = slaves s2 ++ [sl] /\ slave_id sl = c_id c /\ out sl = drop (length P) (h1 ++ d).
Proof.
  intros Hsize H1 Hb1 H2 Hf Hz Hps Hd.
  pose proof (repl_steps_ok indet _ _ _ _ H1 [] (repl_init_ok id0 size [] Hsize)) as Hok1. cbn [app] in Hok1.
  pose proof (repl_steps_ok indet _ _ _ _ H2 h1 Hok1) as Hok2.
  assert (named (replid s1) (master_repl_offset s1 - blen h1) h1 s1 h1) as Hn1 by (intros _ _; split; [done|lia]).
  pose proof (steps_named indet _ Hz _ _ _ _ _ _ H2 h1 Hok1 Hf Hn1) as Hn2.
  destruct (psync_cases s2 (h1 ++ d) c (replid s1) arg Hok2) as [E|(off & _ & Hd' & Hid & Hst & Hoff & E)]; [congruence|].
  rewrite E in Hps. injection Hps as <-. pose proof (decimal_fun _ _ _ Hd Hd') as Eoff. rewrite Eoff in *. split; [done|].
  destruct (Hn2 (streams_backlog _ _ Hst)) as [_ Hbase]; [naive_solver|]. eexists. split_and!; [done|done|]. cbn. f_equal.
  pose proof (blen_nonneg P). rewrite blen_app in *. unfold blen in *. lia.
Qed.

(** C5: A replica whose request for a partial resynchronization is accepted
    ends up with the history of the master. Its data [P] is a part of what the
    server had streamed at a moment [s1] under the ID it names; or the server
    was a replica at [s1], it is promoted there, and [P] comes from the former
    master, which may have gone on. The bytes sent complete [P] to what the
    dataset of the server went through, whatever happened since: changes of the
    role and of the IDs, commands that were not streamed, a new or a resized
    backlog. *)
Theorem psync_continues size id0 evs1 h1 s1 evs d s2 c arg s3 P :
  0 < size -> steps indet (init id0 size) evs1 h1 s1 -> repl_backlog s1 <> None ->
  steps indet s1 evs d s2 -> Forall (fresh (replid s1)) evs -> same_id (replid s1) (replicate 40 48) = false ->
  masterTryPartialResynchronization s2 c (replid s1) arg = Some (s3, C_OK) ->
  P `prefix_of` h1 \/ (exists newid evs', evs = UnsetMaster newid :: evs') /\ masterhost s1 = true /\ h1 `prefix_of` P ->
  decimal arg (master_repl_offset s1 - blen h1 + blen P + 1) ->
  exists sl, slaves s3 = slaves s2 ++ [sl] /\ slave_id sl = c_id c /\ P ++ out sl = h1 ++ d.
Proof.
  intros Hsize H1 Hb1 H2 Hf Hz Hps HP Hd.
  destruct (psync_sends _ _ _ _ _ _ _ _ _ _ _ P Hsize H1 Hb1 H2 Hf Hz Hps Hd) as (Hid & sl & Es & Ei & Eo).
  exists sl. split_and!; [done|done|]. rewrite Eo. apply prefix_drop.
  assert (P `prefix_of` h1) as Hp; [|by apply prefix_app_r].
  destruct HP as [Hp|((newid & evs' & ->) & Hm & [X ->])]; [done|].
  pose proof (repl_steps_ok indet _ _ _ _ H1 [] (repl_init_ok id0 size [] Hsize)) as Hok1. cbn [app] in Hok1.
  inversion H2 as [|? ? s1' ? d' ? He Es1 H2']; subst. apply Forall_cons in Hf as [Hf1 Hf].
  destruct (repl_step_ok indet s1 h1 _ Hok1 He) as (s1'' & E' & Hok1'). rewrite Es1 in E'. injection E' as <-.
  assert (former (replid s1) (master_repl_offset s1 + 1) s1') as Hfo.
  { cbn in Es1. unfold replicationUnsetMaster in Es1. rewrite Hm in Es1. injection Es1 as <-. split; [exact (fresh_one _ _ _ Hf1 eq_refl)|done]. }
  destruct (steps_former indet _ Hz _ _ _ _ _ H2' _ Hok1' Hf Hfo) as [Hn1 Hn2].
  destruct Hid as [Hid|[Hid Hle]]; [congruence|]. rewrite (Hn2 Hid), blen_app in Hle. pose proof (blen_nonneg X).
  assert (X = []) as -> by (apply blen_0; lia). by rewrite app_nil_r.
Qed.

End Psync.
(** ** The commands of the stream *)

(** A SELECT of the stream *)
Definition selects (cmd : list bytes) : option Z :=
  match cmd with
  | [name; arg] =>
      if bool_decide (tolower <$> name = str "select") then match string2ll arg (blen arg) with Some r => r | None => None end else None
  | _ => None
  end.
(** The commands with the databases they are executed in *)
Fixpoint apply_selects (db : Z) (cmds : list (list bytes)) : Z * list (Z * list bytes) :=
  match cmds with
  | [] => (db, [])
  | cmd :: cmds =>
      match selects cmd with
      | Some db => apply_selects db cmds
      | None => let '(db', l) := apply_selects db cmds in (db', (db, cmd) :: l)
      end
  end.

Lemma apply_selects_app cmds1 : forall db cmds2, apply_selects db (cmds1 ++ cmds2) =
  let '(db1, l1) := apply_selects db cmds1 in let '(db2, l2) := apply_selects db1 cmds2 in (db2, l1 ++ l2).
Proof.
  induction cmds1 as [|cmd cmds1 IH]; intros db cmds2; cbn; [by destruct (apply_selects db cmds2)|]. destruct (selects cmd); [apply IH|].
  rewrite IH. destruct (apply_selects db cmds1) as [db1 l1]. by destruct (apply_selects db1 cmds2) as [db2 l2].
Qed.

(** The commands that a master executes *)
Definition log (e : event) : list (Z * list bytes) := match e with Command dictid argv => [(dictid, text <$> argv)] | _ => [] end.

(** A command that fits in the protocol and that is not a SELECT *)
Definition cmd_ok (L : Z) (argv : list bytes) : Prop :=
  0 < Z.of_nat (length argv) <= 1024 * 1024 /\ Forall (fun arg => blen arg <= L) argv /\ selects argv = None.

Section Stream.
Context (L : Z) (proto_max_bulk_len : Z) (HL : 26 <= L < 2 ^ 63).
Local Abbreviation commands := (RespSafety.commands true proto_max_bulk_len L).

Lemma bulks_encode args : Forall (fun arg => blen arg <= L) args -> RespSpec.bulks true proto_max_bulk_len (concat (bulk <$> args)) args.
Proof.
  induction 1 as [|arg args Ha Hf IH]; [constructor|]. pose proof (blen_nonneg arg).
  assert (concat (bulk <$> arg :: args) = 36 :: dec (blen arg) ++ 13 :: 10 :: arg ++ 13 :: 10 :: concat (bulk <$> args)) as ->.
  { cbn. by simplify_list_eq. }
  apply RespSpec.bulks_cons; [apply dec_ok, len_sint; lia|split; [lia|done]|done].
Qed.

Lemma commands_encode args stream cmds : 0 < Z.of_nat (length args) <= 1024 * 1024 -> Forall (fun arg => blen arg <= L) args -> commands stream cmds ->
  commands (encode args ++ stream) (args :: cmds).
Proof.
  intros Hn Hf Hc. apply RespSafety.commands_cons; [apply dec_ok, len_sint; lia|done|by apply bulks_encode|done|done].
Qed.

Lemma commands_app b1 c1 b2 c2 : commands b1 c1 -> commands b2 c2 -> commands (b1 ++ b2) (c1 ++ c2).
Proof. induction 1; intros; [done|]. rewrite <- app_assoc. cbn. constructor; auto. Qed.

Lemma selects_select dictid : in_sint 64 dictid -> selects (select dictid) = Some dictid.
Proof.
  intros Hd. unfold selects, select. rewrite bool_decide_true by done. destruct (string2ll_spec (dec dictid)) as (r & -> & Hr).
  apply Hr. split; [done|]. by apply dec_ok.
Qed.

(** One command of the stream *)
Lemma emit_decodes db dictid argv : in_sint 64 dictid -> cmd_ok L (text <$> argv) ->
  exists cmds, commands (emit db dictid argv) cmds /\ forall db', db = -1 \/ db' = db -> dictid <> -1 -> apply_selects db' cmds = (dictid, [(dictid, text <$> argv)]).
Proof.
  intros Hd (Hn & Hf & Hs). unfold emit. pose proof (commands_encode (text <$> argv) [] [] Hn Hf ltac:(constructor)) as H1. rewrite app_nil_r in H1.
  bcase.
  - eexists. split; [exact H1|]. intros db' Hdb Hne. cbn. rewrite Hs. destruct Hdb; [lia|by subst].
  - eexists. split.
    + apply commands_encode; [cbn; lia| |exact H1]. constructor; [change (blen (str "SELECT")) with 6; lia|]. constructor; [|constructor]. apply dec_ok in Hd as [_ ?]. lia.
    + intros db' _ _. cbn [apply_selects]. rewrite selects_select by done. cbn. by rewrite Hs.
Qed.

Definition logged_ok (c : Z * list bytes) : Prop := 0 <= c.1 /\ cmd_ok L c.2.

Section Run.
Context (indet : nat -> Z).

Lemma step_present sid s h e s' sl' : server_ok s h -> enabled s e -> not_sync sid e -> step indet s e = Some s' ->
  sl' ∈ slaves s' -> slave_id sl' = sid -> exists sl, sl ∈ slaves s /\ slave_id sl = sid.
Proof.
  intros Hok He Hns E Hsl' Hid. destruct (decide (Exists (fun sl => slave_id sl = sid) (slaves s))) as [Hex|Hno].
  { by apply Exists_exists in Hex. }
  exfalso. assert (forall o, tracks sid o s) as Ht by (intros o sl Hsl Hi; destruct Hno; apply Exists_exists; by exists sl).
  destruct (step_tracks indet sid [] s h e s' Hok He Hns (Ht _) E sl' Hsl' Hid) as [_ E1].
  destruct (step_tracks indet sid [0] s h e s' Hok He Hns (Ht _) E sl' Hsl' Hid) as [_ E2].
  rewrite E1 in E2. apply (f_equal length) in E2. rewrite !length_app in E2. cbn in E2. lia.
Qed.

(** A master stays one until it is told otherwise. The database of the stream
    is the one of the last command, or is to be selected again. *)
Lemma step_master s h e s' : server_ok s h -> enabled s e -> masterhost s = false -> e <> SetMaster -> step indet s e = Some s' ->
  masterhost s' = false /\
  (slaveseldb s' = slaveseldb s \/ slaveseldb s' = -1 \/
   exists dictid argv, e = Command dictid argv /\ slaveseldb s' = dictid).
Proof.
  intros Hok He Hm Hne E. destruct e as [dictid argv|buf|n|c psync newid link delay started target|started target|err type reachable|idle limit newid
    |id| |newid|newid| |id reploff]; cbn in He.
  - destruct (command_fields _ _ _ _ _ _ Hok He E) as [[-> _]|[_ (_ & b & n & i & o & ->)]]; [auto|]. split; [done|]. right. right. by exists dictid, argv.
  - congruence.
  - injection E as <-. unfold resizeReplicationBacklog. cbn zeta. repeat bcase; auto; destruct (repl_backlog s); auto.
  - destruct (sync_fields _ _ _ _ _ _ _ _ _ _ _ Hok E) as (s0 & db & l & ch & -> & _ & Hdb & Hm0 & _). cbn. rewrite Hm0. destruct Hdb; auto.
  - injection E as <-. destruct (startBgsave_fields s started target) as (db & l & ch & -> & _ & Hdb). cbn. destruct Hdb; auto.
  - injection E as <-. auto.
  - cbn in E. unfold cron_backlog in E. revert E. bcase; [|by intros [= <-]; auto]. unfold freeReplicationBacklog. bcase; [|done]. intros [= <-]. auto.
  - injection E as <-. auto.
  - done.
  - injection E as <-. unfold replicationUnsetMaster. rewrite Hm. auto.
  - destruct He; congruence.
  - congruence.
  - destruct He; congruence.
Qed.

Lemma steps_present sid s evs d s' : steps indet s evs d s' -> forall h sl', server_ok s h -> Forall (not_sync sid) evs ->
  sl' ∈ slaves s' -> slave_id sl' = sid -> exists sl, sl ∈ slaves s /\ slave_id sl = sid.
Proof.
  induction 1 as [s|s e s1 evs d s2 He Hs Hss IH]; intros h sl' Hok Hf Hsl' Hid; [by exists sl'|]. apply Forall_cons in Hf as [Hfe Hf].
  destruct (repl_step_ok indet s h e Hok He) as (s1' & E & Hok1). rewrite Hs in E. injection E as <-.
  destruct (IH _ _ Hok1 Hf Hsl' Hid) as (sl1 & Hsl1 & Hid1). by eapply step_present.
Qed.

Lemma connected_streams s h sl : server_ok s h -> sl ∈ slaves s -> repl_backlog s <> None.
Proof. intros Hok Hsl Hb. pose proof (ok_stream _ _ Hok) as H. rewrite Hb in H. rewrite H in Hsl. by apply elem_of_nil in Hsl. Qed.

(** What a connected replica is sent decodes to the commands of the master. *)
Lemma steps_decode sid s evs d s' : steps indet s evs d s' -> forall h db sl', server_ok s h -> masterhost s = false ->
  Forall (fun e => e <> SetMaster) evs -> Forall (not_sync sid) evs -> Forall logged_ok (concat (log <$> evs)) ->
  slaveseldb s = -1 \/ slaveseldb s = db -> sl' ∈ slaves s' -> slave_id sl' = sid ->
  exists cmds, commands d cmds /\ snd (apply_selects db cmds) = concat (log <$> evs).
Proof.
  induction 1 as [s|s e s1 evs d s2 He Hs Hss IH]; intros h db sl' Hok Hm Hnm Hns Hlog Hdb Hsl' Hid.
  { exists []. split; [constructor|done]. }
  destruct (steps_present sid s (e :: evs) _ s2 ltac:(by econstructor) h sl' Hok Hns Hsl' Hid) as (sl & Hsl & _).
  pose proof (connected_streams _ _ _ Hok Hsl) as Hb.
  apply Forall_cons in Hnm as [Hne Hnm], Hns as [Hnse Hns]. cbn [fmap list_fmap concat] in Hlog. apply Forall_app in Hlog as [Hl1 Hl2].
  destruct (repl_step_ok indet s h e Hok He) as (s1' & E & Hok1). rewrite Hs in E. injection E as <-.
  destruct (step_master _ _ _ _ Hok He Hm Hne Hs) as [Hm1 Hdb1].
  assert (forall db1, slaveseldb s1 = -1 \/ slaveseldb s1 = db1 -> exists cmds, commands d cmds /\ snd (apply_selects db1 cmds) = concat (log <$> evs)) as IH'.
  { intros db1 Hdb1'. by eapply IH. }
  destruct e as [dictid argv| | | | | | | | | | | |].
  1:{ destruct (command_fields _ _ _ _ _ _ Hok He Hs) as [[_ [?|?]]|[_ (_ & b & n & i & o & Es1)]]; [congruence|done|].
      apply Forall_cons in Hl1 as [[Hpos Hcmd] _]. destruct He as [Hd Ha].
      destruct (emit_decodes (slaveseldb s) dictid argv Hd Hcmd) as (cmds1 & Hc1 & Hap). destruct (IH' dictid) as (cmds2 & Hc2 & Hap2); [by right; rewrite Es1|].
      exists (cmds1 ++ cmds2). split; [cbn [delta]; rewrite Hm; by apply commands_app|]. rewrite apply_selects_app, (Hap db) by (cbn in *; naive_solver lia).
      destruct (apply_selects dictid cmds2). cbn in Hap2 |- *. by rewrite Hap2. }
  1:{ cbn in He. congruence. }
  all: cbn [delta app log fmap list_fmap concat]; apply IH'; destruct Hdb1 as [E1|[E1|(? & ? & ? & _)]]; [rewrite E1; done|by left|done].
Qed.

End Run.
End Stream.

(** C8: A replica that was set up for a full resynchronization at [s1] and is
    still connected at [s2] reads, from what the master has put in its output
    since, exactly the commands that the master executed in between, each in its
    database: fed to the request parser in reads of any size, they are executed
    in order and nothing is left. Other replicas may come and go, and force the
    SELECT of the database to be repeated. *)
Theorem replica_executes usable try_ok indet proto_max_bulk_len client_max_querybuf_len L size id0 evs1 h1 s1 sl1 evs d s2 sl2 ns :
  Sds.alloc_ok usable -> 26 <= L < 2 ^ 63 -> L + 1 + Resp.PROTO_IOBUF_LEN <= client_max_querybuf_len ->
  Resp.PROTO_INLINE_MAX_SIZE + 2 * Resp.PROTO_IOBUF_LEN <= client_max_querybuf_len < Sds.LIMIT - 1 ->
  0 < size -> steps indet (init id0 size) evs1 h1 s1 -> masterhost s1 = false -> slaveseldb s1 = -1 ->
  sl1 ∈ slaves s1 -> canFeedReplicaReplBuffer sl1 = true -> out sl1 = [] ->
  steps indet s1 evs d s2 -> Forall (fun e => e <> SetMaster) evs -> Forall (not_sync (slave_id sl1)) evs ->
  Forall (logged_ok L) (concat (log <$> evs)) ->
  sl2 ∈ slaves s2 -> slave_id sl2 = slave_id sl1 ->
  Forall (fun n => 0 < n) ns -> blen (out sl2) <= Z.of_nat (length ns) ->
  exists cmds,
    Resp.receive usable try_ok indet true proto_max_bulk_len client_max_querybuf_len Resp.createClient ns (out sl2) = Some (Resp.createClient, [], cmds) /\
    snd (apply_selects (-1) cmds) = concat (log <$> evs).
Proof.
  intros Hu HL Hmax Hmin Hsize H1 Hm Hdb Hsl1 Hcf Ho1 H2 Hnm Hns Hlog Hsl2 Hid Hpos Hlen.
  pose proof (repl_steps_ok indet _ _ _ _ H1 [] (repl_init_ok id0 size [] Hsize)) as Hok1. cbn [app] in Hok1.
  destruct (steps_decode L proto_max_bulk_len HL indet (slave_id sl1) _ _ _ _ H2 h1 (-1) sl2) as (cmds & Hc & Hap); try done; [by left|].
  exists cmds. split; [|done].
  assert (tracks (slave_id sl1) [] s1) as Ht.
  { intros sl Hsl Hi. pose proof (ok_ids _ _ Hok1) as Hn. assert (sl = sl1) as ->; [|done].
    apply list_elem_of_lookup in Hsl as [i Hi'], Hsl1 as [j Hj]. assert (i = j) as ->; [|congruence].
    apply (NoDup_lookup _ _ _ (slave_id sl1) Hn); rewrite list_lookup_fmap; [rewrite Hi'|rewrite Hj]; cbn; congruence. }
  destruct (steps_tracks indet _ _ _ _ _ H2 h1 [] Hok1 Hns Ht sl2 Hsl2 Hid) as [_ Eo]. cbn [app] in Eo. rewrite Eo in *.
  by apply (RespSafety.receive_exact usable try_ok indet Hu true proto_max_bulk_len client_max_querybuf_len Hmin L).
Qed.

(** ** Examples *)

(** The events as a function *)
Fixpoint run (indet : nat -> Z) (s : server) (evs : list event) : option (bytes * server) :=
  match evs with
  | [] => Some ([], s)
  | e :: evs => s1 ← step indet s e; '(d, s2) ← run indet s1 evs; Some (delta s e ++ d, s2)
  end.
#[global] Instance obj_ok_dec o : Decision (obj_ok o).
Proof. destruct o; cbn; unfold in_sint; apply _. Defined.
#[global] Instance enabled_dec s e : Decision (enabled s e).
Proof. destruct e; cbn; unfold argv_ok, in_sint; apply _. Defined.

Fixpoint can (indet : nat -> Z) (s : server) (evs : list event) : bool :=
  match evs with
  | [] => true
  | e :: evs => bool_decide (enabled s e) && match step indet s e with Some s1 => can indet s1 evs | None => false end
  end.

Lemma run_steps indet evs : forall s d s', can indet s evs = true -> run indet s evs = Some (d, s') -> steps indet s evs d s'.
Proof.
  induction evs as [|e evs IH]; intros s d s'; cbn [can run].
  - intros _ [= <- <-]. constructor.
  - rewrite andb_true_iff, bool_decide_eq_true. intros [He Hc]. destruct (step indet s e) as [s1|] eqn:E; [|done]. rewrite bind_Some.
    destruct (run indet s1 evs) as [[d1 s2]|] eqn:Er; [|done]. rewrite bind_Some. intros [= <- <-]. by eapply steps_cons, IH.
Qed.

Definition ex_indet (_ : nat) : Z := 9.
Definition ex_id (c : Z) : bytes := replicate 40 c.
Definition ex_set (k : string) (v : Z) : event := Command 0 [RAW (str "SET"); RAW (str k); INT v].
Definition ex_attach : list event := [Sync (Request 7 0 false false) None (ex_id 98) true false true RDB_CHILD_TYPE_DISK].
Definition ex_state (evs : list event) : bytes * server := default ([], init (ex_id 97) 200) (run ex_indet (init (ex_id 97) 200) evs).
Definition ex_before : list event := ex_attach ++ [ex_set "a" 1; SetMaster].
Definition ex_between : list event := [UnsetMaster (ex_id 99); Unlink 7; ex_set "b" 2].
Definition ex_1 : bytes * server := Eval vm_compute in ex_state ex_before.
Definition ex_2 : bytes * server := Eval vm_compute in default ([], ex_1.2) (run ex_indet ex_1.2 ex_between).
Definition ex_3 : server :=
  Eval vm_compute in from_option fst ex_1.2 (masterTryPartialResynchronization ex_2.2 (Request 8 0 false false) (replid ex_1.2) (str "31")).

Ltac run := apply run_steps; by vm_compute.

(** The replica has the first 30 bytes of the stream; its master was told to be
    a replica, and was promoted again. *)
Lemma psync_continues_witness : exists sl,
  slaves ex_3 = slaves ex_2.2 ++ [sl] /\ slave_id sl = c_id (Request 8 0 false false) /\ take 30 ex_1.1 ++ out sl = ex_1.1 ++ ex_2.1.
Proof.
  apply (psync_continues ex_indet 200 (ex_id 97) ex_before ex_1.1 ex_1.2 ex_between ex_2.1 ex_2.2 (Request 8 0 false false) (str "31") ex_3 (take 30 ex_1.1)).
  - done.
  - run.
  - by vm_compute.
  - run.
  - by repeat constructor; vm_compute.
  - by vm_compute.
  - by vm_compute.
  - left. apply prefix_take.
  - assert (master_repl_offset ex_1.2 - blen ex_1.1 + blen (take 30 ex_1.1) + 1 = 31) as -> by (by vm_compute).
    replace (str "31") with (dec 31) by (by vm_compute). by apply dec_ok.
Defined.

Definition ex_4 : bytes * server := Eval vm_compute in ex_state ex_attach.
Definition ex_commands : list event := [ex_set "a" 1; ex_set "b" 2; Command 3 [RAW (str "DEL"); RAW (str "a")]].
Definition ex_5 : bytes * server := Eval vm_compute in default ([], ex_4.2) (run ex_indet ex_4.2 ex_commands).
Definition ex_sl4 : slave := Eval vm_compute in default (Slave 0 SLAVE_STATE_ONLINE false 0 0 []) (head (slaves ex_4.2)).
Definition ex_sl5 : slave := Eval vm_compute in default ex_sl4 (head (slaves ex_5.2)).

Lemma replica_executes_witness : exists cmds,
  Resp.receive Sds.round16 (fun _ => true) ex_indet true (512 * 1024 * 1024) (1024 * 1024 * 1024) Resp.createClient (replicate 200 7) (out ex_sl5) =
    Some (Resp.createClient, [], cmds) /\
  snd (apply_selects (-1) cmds) = concat (log <$> ex_commands).
Proof.
  apply (replica_executes Sds.round16 (fun _ => true) ex_indet (512 * 1024 * 1024) (1024 * 1024 * 1024) 100 200 (ex_id 97) ex_attach ex_4.1 ex_4.2 ex_sl4
    ex_commands ex_5.1 ex_5.2 ex_sl5 (replicate 200 7)).
  - exact Sds.round16_ok.
  - lia.
  - by vm_compute.
  - split; by vm_compute.
  - done.
  - run.
  - done.
  - done.
  - by apply list_elem_of_singleton.
  - done.
  - done.
  - run.
  - by repeat constructor.
  - by repeat constructor.
  - repeat constructor; by vm_compute.
  - by apply list_elem_of_singleton.
  - done.
  - by apply Forall_replicate.
  - by vm_compute.
Defined.

End ReplSafety.
