(* ===== verification/Aof.v ===== *)
(** The append only file, aof.c: the commands are written in the request
    protocol, flushed to the file, and executed again when the server starts.

    SDS strings are the bytes they hold. The file has no RDB preamble, and no
    rewrite of it is in progress. Cutting the file back when it is loaded does not
    fail. *)

From S2P Require Import Prelude Util Repl.

Module Aof.
Import Util Repl.

(** ** The C library *)

Definition isspace (c : Z) : bool := (c =? 32) || ((9 <=? c) && (c <=? 13)).
(** The digits in front, [acc] being the value of those before *)
Fixpoint read_digits (acc : Z) (s : bytes) : Z :=
  match s with
  | c :: s => if isdig c then read_digits (acc * 10 + (c - 48)) s else acc
  | [] => acc
  end.
Fixpoint skip_spaces (s : bytes) : bytes :=
  match s with c :: s' => if isspace c then skip_spaces s' else s | [] => [] end.
(** [strtol(s, NULL, 10)] and [strtoll] of a 64-bit [long]: the value is the
    nearest one when it does not fit. *)
Definition strtol (s : bytes) : Z :=
  let s := skip_spaces s in
  let v := match s with
           | 45 :: s => - read_digits 0 s
           | 43 :: s => read_digits 0 s
           | _ => read_digits 0 s
           end in
  Z.max (- 2 ^ 63) (Z.min (2 ^ 63 - 1) v).
(** [(int) strtol(s, NULL, 10)] *)
Definition atoi (s : bytes) : Z := sint 32 (strtol s).

(** ** Writing *)

(** The commands that are propagated in another form; the names are those of
    the functions. *)
Inductive proc := expireCommand | pexpireCommand | expireatCommand | setCommand | otherCommand.

Inductive fsync_policy := AOF_FSYNC_NO | AOF_FSYNC_ALWAYS | AOF_FSYNC_EVERYSEC.

(** [disk] is the file as the system sees it, [synced] the length of the part
    of it that is on stable storage. *)
Record aof := Aof {
  aof_buf : bytes;
  aof_selected_db : Z;
  aof_current_size : Z;
  aof_fsync_offset : Z;
  aof_last_fsync : Z;
  aof_flush_postponed_start : Z;
  aof_last_write_status : retcode;
  disk : bytes;
  synced : Z }.

Definition set_buf (a : aof) (buf : bytes) (db : Z) : aof :=
  Aof buf db (aof_current_size a) (aof_fsync_offset a) (aof_last_fsync a) (aof_flush_postponed_start a) (aof_last_write_status a) (disk a) (synced a).
Definition set_postponed (a : aof) (t : Z) : aof :=
  Aof (aof_buf a) (aof_selected_db a) (aof_current_size a) (aof_fsync_offset a) (aof_last_fsync a) t (aof_last_write_status a) (disk a) (synced a).
(** After a write that left [buf] *)
Definition set_disk (a : aof) (buf : bytes) (size : Z) (status : retcode) (d : bytes) : aof :=
  Aof buf (aof_selected_db a) size (aof_fsync_offset a) (aof_last_fsync a) (aof_flush_postponed_start a) status d (Z.min (synced a) (blen d)).
Definition set_fsync (a : aof) (offset last synced : Z) : aof :=
  Aof (aof_buf a) (aof_selected_db a) (aof_current_size a) offset last (aof_flush_postponed_start a) (aof_last_write_status a) (disk a) synced.

Section Writing.
Context (indet : nat -> Z).

(** [getDecodedObject] *)
Definition getDecodedObject (o : robj) : option bytes :=
  match o with INT v => ll_text indet 32 v | RAW b => Some b end.

Fixpoint cat_argv (dst : bytes) (argv : list robj) : option bytes :=
  match argv with
  | [] => Some dst
  | o :: argv =>
      o ← getDecodedObject o;
      buf ← header indet 32 36 (blen o);
      cat_argv (dst ++ buf ++ o ++ CRLF) argv
  end.
Definition catAppendOnlyGenericCommand (dst : bytes) (argv : list robj) : option bytes :=
  buf ← header indet 32 42 (Z.of_nat (length argv));
  cat_argv (dst ++ buf) argv.

(** [now] is [mstime()]. *)
Definition catAppendOnlyExpireAtCommand (buf : bytes) (cmd : proc) (key seconds : robj) (now : Z) : option bytes :=
  seconds ← getDecodedObject seconds;
  let when := strtol seconds in
  when ← match cmd with
         | expireCommand | expireatCommand => assert! bool_decide (in_sint 64 (when * 1000)); Some (when * 1000)
         | _ => Some when
         end;
  when ← match cmd with
         | expireCommand | pexpireCommand => assert! bool_decide (in_sint 64 (when + now)); Some (when + now)
         | _ => Some when
         end;
  catAppendOnlyGenericCommand buf [RAW (str "PEXPIREAT"); key; INT when].

(** The bytes that a command adds *)
Definition propagated (cmd : proc) (argv : list robj) (now : Z) (buf : bytes) : option bytes :=
  match cmd with
  | expireCommand | pexpireCommand | expireatCommand =>
      key ← argv !! 1%nat; seconds ← argv !! 2%nat; catAppendOnlyExpireAtCommand buf cmd key seconds now
  | setCommand =>
      if (3 <? length argv)%nat then
        opt ← (o ← argv !! 3%nat; match o with RAW b => Some b | INT _ => None end);
        if bool_decide (tolower <$> c_str opt = str "px") then
          millisecond ← (o ← argv !! 4%nat; getDecodedObject o);
          let when := strtol millisecond in
          assert! bool_decide (in_sint 64 (when + now));
          name ← argv !! 0%nat; key ← argv !! 1%nat; value ← argv !! 2%nat;
          catAppendOnlyGenericCommand buf [name; key; value; RAW (str "PXAT"); INT (when + now)]
        else catAppendOnlyGenericCommand buf argv
      else catAppendOnlyGenericCommand buf argv
  | otherCommand => catAppendOnlyGenericCommand buf argv
  end.

Definition feedAppendOnlyFile (a : aof) (cmd : proc) (dictid : Z) (argv : list robj) (now : Z) : option aof :=
  let seldb := fmt_d indet dictid in
  let '(buf, db) := if dictid =? aof_selected_db a then ([], aof_selected_db a) else (select_text indet (blen seldb) seldb, dictid) in
  buf ← propagated cmd argv now buf;
  Some (set_buf a (aof_buf a ++ buf) db).

End Writing.

(** ** Flushing *)

(** What [write] does *)
Inductive io := Wrote (n : Z) | Interrupted | Failed.

(** The bytes written, that the result counts, and the result. The calls that
    [ios] does not give fail. *)
Fixpoint aofWrite (ios : list io) (buf : bytes) (totwritten : bytes) : bytes * Z :=
  if blen buf =? 0 then (totwritten, blen totwritten)
  else
    match ios with
    | [] | Failed :: _ => (totwritten, if blen totwritten =? 0 then -1 else blen totwritten)
    | Interrupted :: ios => aofWrite ios buf totwritten
    | Wrote n :: ios =>
        let n := Z.to_nat (Z.max 0 (Z.min n (blen buf))) in
        aofWrite ios (drop n buf) (totwritten ++ take n buf)
    end.

(** What the system does during a flush. A background [fsync] that is started
    ends later. *)
Record env := Env {
  unixtime : Z;
  fsync_in_progress : bool;
  writes : list io;
  ftruncate_ok : bool;
  fsync_ok : bool;
  (** [aof_no_fsync_on_rewrite] and a child is active *)
  no_fsync : bool }.

(** The server goes on, or it exits. *)
Inductive outcome := Running (a : aof) | Exited (a : aof).

Definition try_fsync (policy : fsync_policy) (e : env) (a : aof) (sync_in_progress : bool) : outcome :=
  if no_fsync e then Running a
  else
    match policy with
    | AOF_FSYNC_ALWAYS =>
        if fsync_ok e then Running (set_fsync a (aof_current_size a) (unixtime e) (blen (disk a))) else Exited a
    | AOF_FSYNC_EVERYSEC =>
        if unixtime e >? aof_last_fsync a then
          Running (set_fsync a (if sync_in_progress then aof_fsync_offset a else aof_current_size a) (unixtime e) (synced a))
        else Running a
    | AOF_FSYNC_NO => Running a
    end.

Definition is_everysec (policy : fsync_policy) : bool := match policy with AOF_FSYNC_EVERYSEC => true | _ => false end.

(** The write is put off while a [fsync] is in progress. *)
Definition postponed (policy : fsync_policy) (e : env) (a : aof) (force : bool) : option aof :=
  if is_everysec policy && negb force && fsync_in_progress e then
    if aof_flush_postponed_start a =? 0 then Some (set_postponed a (unixtime e))
    else if unixtime e - aof_flush_postponed_start a <? 2 then Some a
    else None
  else None.

Definition flushAppendOnlyFile (policy : fsync_policy) (e : env) (a : aof) (force : bool) : outcome :=
  if blen (aof_buf a) =? 0 then
    if is_everysec policy && negb (aof_fsync_offset a =? aof_current_size a) && (unixtime e >? aof_last_fsync a) && negb (fsync_in_progress e)
    then try_fsync policy e a false
    else Running a
  else
    match postponed policy e a force with
    | Some a => Running a
    | None =>
        let '(w, nwritten) := aofWrite (writes e) (aof_buf a) [] in
        let a := set_postponed a 0 in
        if negb (nwritten =? blen (aof_buf a)) then
          let '(d, nwritten) :=
            if nwritten =? -1 then (disk a, -1)
            else if ftruncate_ok e then (take (Z.to_nat (aof_current_size a)) (disk a ++ w), -1)
            else (disk a ++ w, nwritten) in
          match policy with
          | AOF_FSYNC_ALWAYS => Exited (set_disk a (aof_buf a) (aof_current_size a) (aof_last_write_status a) d)
          | _ =>
              if nwritten >? 0
              then Running (set_disk a (drop (Z.to_nat nwritten) (aof_buf a)) (aof_current_size a + nwritten) C_ERR d)
              else Running (set_disk a (aof_buf a) (aof_current_size a) C_ERR d)
          end
        else
          try_fsync policy e (set_disk a [] (aof_current_size a + nwritten) C_OK (disk a ++ w)) (is_everysec policy && fsync_in_progress e)
    end.

(** ** Loading *)

(** A file that is read: what follows the position, the position, and the
    end-of-file indicator *)
Record file := File { frest : bytes; fpos : Z; feof : bool }.

(** A line with its line feed, of at most [n] bytes: the line, what follows, and
    whether the file ended *)
Fixpoint fgets_loop (n : nat) (b : bytes) : bytes * bytes * bool :=
  match n with
  | O => ([], b, false)
  | S n =>
      match b with
      | [] => ([], [], true)
      | c :: b => if c =? 10 then ([c], b, false) else let '(l, b, e) := fgets_loop n b in (c :: l, b, e)
      end
  end.
(** [fgets(buf,128,fp)], [None] is [NULL] *)
Definition fgets (fp : file) : option bytes * file :=
  let '(l, b, e) := fgets_loop 127 (frest fp) in
  (if blen l =? 0 then None else Some l, File b (fpos fp + blen l) (feof fp || e)).
(** [fread(ptr,n,1,fp)], [None] is [0] *)
Definition fread (fp : file) (n : Z) : option bytes * file :=
  if n <=? blen (frest fp)
  then (Some (take (Z.to_nat n) (frest fp)), File (drop (Z.to_nat n) (frest fp)) (fpos fp + n) (feof fp))
  else (None, File [] (fpos fp + blen (frest fp)) true).

Inductive command_proc := multiCommand | execCommand | anyCommand.

(** [server.commands], whose keys are compared without regard to case *)
Definition lookupCommand (table : list (bytes * command_proc)) (name : bytes) : option command_proc :=
  snd <$> (snd <$> list_find (fun x => tolower <$> x.1 = tolower <$> name) table).

(** The client that executes the commands: [CLIENT_MULTI] and the commands
    queued, and those executed *)
Record fake := Fake { in_multi : bool; queued : list (list bytes); executed : list (list bytes) }.

Definition fake_run (c : fake) (proc : command_proc) (argv : list bytes) : fake :=
  match in_multi c, proc with
  | true, execCommand => Fake false [] (executed c ++ queued c)
  | true, _ => Fake true (queued c ++ [argv]) (executed c)
  | false, multiCommand => Fake true [] (executed c)
  | false, execCommand => c
  | false, anyCommand => Fake false [] (executed c ++ [argv])
  end.

(** The ends of the loop: the end of the file, the labels [readerr] and
    [fmterr], and the exit for a command that is not known *)
Inductive stop := at_eof | readerr | fmterr | unknown_command.

Section Loading.
(** Whether an SDS string of that length can be allocated *)
Context (alloc : Z -> bool).
Context (aof_load_truncated : bool) (table : list (bytes * command_proc)).

(** The arguments of a command; [None] is an allocation that aborts. *)
Fixpoint load_args (n : nat) (fp : file) (argv : list bytes) : option (file * (list bytes + stop)) :=
  match n with
  | O => Some (fp, inl argv)
  | S n =>
      let '(l, fp) := fgets fp in
      match l with
      | None => Some (fp, inr readerr)
      | Some l =>
          c ← bget l 0;
          if negb (c =? 36) then Some (fp, inr fmterr)
          else
            let len := uint 64 (strtol (c_str (drop 1 l))) in
            assert! alloc len;
            let '(arg, fp) := if len =? 0 then (Some [], fp) else fread fp len in
            match arg with
            | None => Some (fp, inr readerr)
            | Some arg =>
                let '(crlf, fp) := fread fp 2 in
                match crlf with
                | None => Some (fp, inr readerr)
                | Some _ => load_args n fp (argv ++ [arg])
                end
            end
      end
  end.

(** [valid_up_to] and [valid_before_multi] are offsets. *)
Fixpoint load_loop (fuel : nat) (fp : file) (c : fake) (valid_up_to valid_before_multi : Z) : option (file * fake * Z * Z * stop) :=
  match fuel with
  | O => None
  | S fuel =>
      let '(l, fp) := fgets fp in
      match l with
      | None => Some (fp, c, valid_up_to, valid_before_multi, if feof fp then at_eof else readerr)
      | Some l =>
          x ← bget l 0;
          if negb (x =? 42) then Some (fp, c, valid_up_to, valid_before_multi, fmterr)
          else if blen (c_str (drop 1 l)) =? 0 then Some (fp, c, valid_up_to, valid_before_multi, readerr)
          else
            let argc := atoi (c_str (drop 1 l)) in
            if argc <? 1 then Some (fp, c, valid_up_to, valid_before_multi, fmterr)
            else
              '(fp, r) ← load_args (Z.to_nat argc) fp [];
              match r with
              | inr st => Some (fp, c, valid_up_to, valid_before_multi, st)
              | inl argv =>
                  name ← argv !! 0%nat;
                  match lookupCommand table name with
                  | None => Some (fp, c, valid_up_to, valid_before_multi, unknown_command)
                  | Some proc =>
                      let valid_before_multi := match proc with multiCommand => valid_up_to | _ => valid_before_multi end in
                      let c := fake_run c proc argv in
                      let valid_up_to := if aof_load_truncated then fpos fp else valid_up_to in
                      load_loop fuel fp c valid_up_to valid_before_multi
                  end
              end
      end
  end.

(** The server starts with the commands executed and with the file; or the file
    is empty; or the server exits. *)
Inductive loaded :=
  | Loaded (cmds : list (list bytes)) (file : bytes)
  | Empty
  | Fatal (st : stop).

(** The labels [loaded_ok], [uxeof] and [readerr] *)
Definition finish (content : bytes) (fp : file) (c : fake) (valid_up_to valid_before_multi : Z) (st : stop) : loaded :=
  let uxeof valid_up_to := if aof_load_truncated then Loaded (executed c) (take (Z.to_nat valid_up_to) content) else Fatal st in
  match st with
  | at_eof => if in_multi c then uxeof valid_before_multi else Loaded (executed c) content
  | readerr => if feof fp then uxeof valid_up_to else Fatal readerr
  | st => Fatal st
  end.

(** A file with an RDB preamble is not modelled. *)
Definition loadAppendOnlyFile (content : bytes) : option loaded :=
  if blen content =? 0 then Some Empty
  else if bool_decide (take 5 content = str "REDIS") then None
  else
    '(fp, c, valid_up_to, valid_before_multi, st) ← load_loop (S (length content)) (File content 0 false) (Fake false [] []) 0 0;
    Some (finish content fp c valid_up_to valid_before_multi st).

End Loading.
End Aof.
