(* ===== verification/AofSpec.v ===== *)
(** Loading any part of an append only file executes the commands that are
    whole in it. *)

From S2P Require Import Prelude Util Repl ReplInv ReplSpec Aof.

Module AofSpec.
Import Util Repl ReplInv ReplSpec Aof.

(** ** Numbers *)

Lemma read_digits_app ds acc r : Forall (fun c => 48 <= c <= 57) ds ->
  read_digits acc (ds ++ r) = read_digits (dec_acc acc ds) r.
Proof.
  intros H. revert acc. induction H as [|c ds Hc Hds IH]; intros acc; [done|]. cbn. unfold isdig. bdec. rewrite IH. f_equal. cbn. f_equal. lia.
Qed.

Lemma read_digits_end acc r : match r with [] => True | c :: _ => isdig c = false end -> read_digits acc r = acc.
Proof. destruct r as [|c r]; cbn; [done|]. by intros ->. Qed.

(** Some digits, and then the end of the line or nothing *)
Lemma strtol_digits ds r : Forall (fun c => 48 <= c <= 57) ds -> ds <> [] -> match r with [] => True | c :: _ => c = 13 end -> dec_val ds < 2 ^ 63 ->
  strtol (ds ++ r) = dec_val ds.
Proof.
  intros Hd Hne Hr Hv. assert (0 <= dec_val ds) as H0 by (pose proof (dec_val_bound ds Hd); lia).
  assert (read_digits 0 (ds ++ r) = dec_val ds) as E.
  { rewrite read_digits_app by done. apply read_digits_end. destruct r; [done|by subst]. }
  destruct ds as [|c ds]; [done|]. apply Forall_cons in Hd as [Hc Hd]. unfold strtol. cbn [app skip_spaces] in *. unfold isspace. bdec.
  assert (match c :: ds ++ r with 45 :: s => - read_digits 0 s | 43 :: s => read_digits 0 s | _ => read_digits 0 (c :: ds ++ r) end =
    read_digits 0 (c :: ds ++ r)) as ->; [|rewrite E; lia].
  assert (c = 48 \/ c = 49 \/ c = 50 \/ c = 51 \/ c = 52 \/ c = 53 \/ c = 54 \/ c = 55 \/ c = 56 \/ c = 57) as Hcs by lia.
  repeat destruct Hcs as [->|Hcs]; try done. by subst.
Qed.

Lemma dec_digits n : 0 <= n < 2 ^ 63 -> Forall (fun c => 48 <= c <= 57) (dec n) /\ dec_val (dec n) = n /\ dec n <> [].
Proof.
  intros Hn. destruct (dec_ok n (len_sint n Hn)) as [Hd _]. unfold decimal in Hd. revert Hd. bdec. intros (Hd & Hv & Hc). split_and!; try done.
  intros E. rewrite E in Hc. destruct Hc as [?|(?&?&?&_)]; done.
Qed.

Lemma c_str_id b : Forall (fun c => c <> 0) b -> c_str b = b.
Proof. induction 1 as [|c b Hc Hb IH]; [done|]. cbn. bdec. by rewrite IH. Qed.

(** The first bytes [ds] of a number, followed by [r] *)
Lemma strtol_prefix n ds ds' r : 0 <= n < 2 ^ 63 -> dec n = ds ++ ds' -> match r with [] => True | c :: _ => c = 13 end -> Forall (fun c => c <> 0) r ->
  ds <> [] -> exists v, strtol (c_str (ds ++ r)) = v /\ 0 <= v <= n /\ (1 <= n -> 1 <= v) /\ (ds' = [] -> v = n).
Proof.
  intros Hn E Hr Hr0 Hne. destruct (dec_digits n Hn) as (Hd & Hv & _). rewrite E in Hd, Hv. apply Forall_app in Hd as [Hd Hd'].
  assert (0 <= dec_val ds <= n) as Hle.
  { pose proof (dec_val_bound ds Hd). unfold dec_val in *. rewrite dec_acc_app in Hv. pose proof (dec_acc_mono (dec_acc 0 ds) ds' ltac:(lia) Hd'). lia. }
  exists (dec_val ds). rewrite c_str_id.
  2:{ apply Forall_app. split; [|done]. eapply Forall_impl; [exact Hd|]. cbn. intros; lia. }
  split_and!; [apply strtol_digits; [done|done|done|lia]|lia|lia| |].
  - intros H1. destruct (dec_ok n (len_sint n Hn)) as [Hdn _]. unfold decimal in Hdn. revert Hdn. bdec. intros (_ & _ & Hc). rewrite E in Hc.
    destruct ds as [|d ds]; [done|]. apply Forall_cons in Hd as [Hd0 Hd]. destruct Hc as [Hl|(d1 & s' & [= <- _] & Hne0)].
    + cbn in Hl. destruct ds; [|done]. destruct ds'; [|done]. cbn in Hv. unfold dec_val, dec_acc in *. cbn in *. lia.
    + pose proof (dec_acc_no_zero d ds ltac:(lia) Hd). unfold dec_val, dec_acc in *. cbn [foldl]. 
      replace (10 * 0 + (d - 48)) with (d - 48) by lia. lia.
  - intros ->. by rewrite app_nil_r in Hv.
Qed.

(** ** Lines *)

Lemma fgets_loop_line l more n : Forall (fun c => c <> 10) l -> (length l < n)%nat -> fgets_loop n (l ++ 10 :: more) = (l ++ [10], more, false).
Proof.
  intros H. revert n. induction H as [|c l Hc Hl IH]; intros n Hn; destruct n as [|n]; cbn in *; try lia; [done|]. bdec.
  rewrite IH by lia. done.
Qed.

Lemma fgets_loop_end l n : Forall (fun c => c <> 10) l -> (length l < n)%nat -> fgets_loop n l = (l, [], true).
Proof.
  intros H. revert n. induction H as [|c l Hc Hl IH]; intros n Hn; destruct n as [|n]; cbn in *; try lia; [done|]. bdec.
  rewrite IH by lia. done.
Qed.

(** A prefix character, a number and CRLF *)
Definition line (c n : Z) : bytes := c :: dec n ++ [13; 10].

Lemma dec_line n : 0 <= n < 2 ^ 63 -> Forall (fun c => c <> 0 /\ c <> 10) (dec n) /\ (length (dec n) <= 20)%nat.
Proof.
  intros Hn. destruct (dec_digits n Hn) as (Hd & _ & _). destruct (dec_ok n (len_sint n Hn)) as [_ Hl].
  split; [|unfold blen in Hl; lia]. eapply Forall_impl; [exact Hd|]. cbn. intros; lia.
Qed.

Lemma fgets_line c n more pos e : 0 <= n < 2 ^ 63 -> c <> 10 ->
  fgets (File (line c n ++ more) pos e) = (Some (line c n), File more (pos + blen (line c n)) e).
Proof.
  intros Hn Hc. destruct (dec_line n Hn) as [Hd Hl]. unfold fgets. cbn [frest fpos feof].
  replace (line c n ++ more) with ((c :: dec n ++ [13]) ++ 10 :: more) by (unfold line; cbn; by simplify_list_eq).
  rewrite fgets_loop_line.
  - rewrite orb_false_r. replace ((c :: dec n ++ [13]) ++ [10]) with (line c n) by (unfold line; cbn; by simplify_list_eq).
    assert (0 < blen (line c n)) by (unfold line; rewrite blen_cons; pose proof (blen_nonneg (dec n ++ [13; 10])); lia). by bdec.
  - constructor; [done|]. apply Forall_app. split; [|by repeat constructor]. eapply Forall_impl; [exact Hd|]. by intros ? [_ ?].
  - cbn. rewrite length_app. cbn. lia.
Qed.

(** The file ends within a line. *)
Lemma line_prefix c n p q : 0 <= n < 2 ^ 63 -> line c n = p ++ q -> p <> [] -> q <> [] ->
  exists ds ds' r, p = c :: ds ++ r /\ dec n = ds ++ ds' /\ (r = [] \/ r = [13] /\ ds' = []) /\ (ds = [] -> r = []).
Proof.
  intros Hn E Hp Hq. destruct p as [|c' p]; [done|]. unfold line in E. injection E as <- E.
  destruct (dec_digits n Hn) as (_ & _ & Hne).
  apply app_eq_inv in E as [(k & E1 & E2)|(k & E1 & E2)].
  - exists p, k, []. rewrite app_nil_r. split_and!; [done|done|by left|done].
  - exists (dec n), [], k. rewrite app_nil_r. split_and!; [by rewrite E1|done| |done].
    destruct k as [|x [|y k]]; [by left|injection E2 as <- _; by right|]. injection E2 as _ _ E2. symmetry in E2. apply app_nil in E2 as [_ ->]. done.
Qed.

Lemma fgets_prefix c n p q pos e : 0 <= n < 2 ^ 63 -> c <> 10 -> line c n = p ++ q -> p <> [] -> q <> [] ->
  fgets (File p pos e) = (Some p, File [] (pos + blen p) true).
Proof.
  intros Hn Hc E Hp Hq. destruct (line_prefix c n p q Hn E Hp Hq) as (ds & ds' & r & -> & Ed & Hr & _). destruct (dec_line n Hn) as [Hd Hl].
  rewrite Ed in Hd, Hl. apply Forall_app in Hd as [Hd _]. rewrite length_app in Hl.
  unfold fgets. cbn [frest fpos feof]. rewrite fgets_loop_end.
  - rewrite orb_true_r. assert (0 < blen (c :: ds ++ r)) by (rewrite blen_cons; pose proof (blen_nonneg (ds ++ r)); lia). by bdec.
  - constructor; [done|]. apply Forall_app. split; [eapply Forall_impl; [exact Hd|]; by intros ? [_ ?]|].
    destruct Hr as [->|[-> _]]; repeat constructor; lia.
  - cbn. rewrite length_app. destruct Hr as [->|[-> _]]; cbn; lia.
Qed.

(** ** Arguments *)

Lemma bulk_line a : bulk a = line 36 (blen a) ++ a ++ [13; 10].
Proof. unfold bulk, line. cbn. by simplify_list_eq. Qed.
Lemma encode_line args : encode args = line 42 (Z.of_nat (length args)) ++ concat (bulk <$> args).
Proof. unfold encode, line. cbn. by simplify_list_eq. Qed.

Section Load.
Context (L : Z) (alloc : Z -> bool) (Halloc : forall n, 0 <= n <= L -> alloc n = true) (HL : L < 2 ^ 63).
Local Abbreviation load_args := (load_args alloc).

Lemma fread_app a more pos e : fread (File (a ++ more) pos e) (blen a) = (Some a, File more (pos + blen a) e).
Proof.
  unfold fread. cbn [frest fpos feof]. rewrite blen_app. pose proof (blen_nonneg more). bdec. by rewrite to_nat_blen, take_app_length, drop_app_length.
Qed.

Lemma fread_short b n pos e : blen b < n -> fread (File b pos e) n = (None, File [] (pos + blen b) true).
Proof. intros H. unfold fread. cbn [frest fpos feof]. by bdec. Qed.

Lemma bget_head c b : bget (c :: b) 0 = Some c.
Proof. exact (bget_app [] c b 0 eq_refl). Qed.

Lemma line_len c n : 0 <= n < 2 ^ 63 -> uint 64 (strtol (c_str (drop 1 (line c n)))) = n.
Proof.
  intros Hn. destruct (dec_digits n Hn) as (_ & _ & Hne).
  destruct (strtol_prefix n (dec n) [] [13; 10] Hn ltac:(by rewrite app_nil_r) eq_refl ltac:(repeat constructor; lia) Hne) as (v & E & _ & _ & Hv).
  change (drop 1 (line c n)) with (dec n ++ [13; 10]). rewrite E, (Hv eq_refl). apply uint_small. unfold in_uint. lia.
Qed.

Lemma load_args_bulk n a more pos e argv : 0 <= blen a <= L ->
  load_args (S n) (File (bulk a ++ more) pos e) argv = load_args n (File more (pos + blen (bulk a)) e) (argv ++ [a]).
Proof.
  intros Ha. cbn [Aof.load_args]. rewrite bulk_line, <- !app_assoc, fgets_line by lia. rewrite line_len by lia.
  change (bget (line 36 (blen a)) 0) with (bget (36 :: dec (blen a) ++ [13; 10]) 0). rewrite bget_head, bind_Some. cbn [Z.eqb Pos.eqb negb].
  rewrite Halloc by done.
  assert ((if blen a =? 0 then (Some [], File (a ++ [13; 10] ++ more) (pos + blen (line 36 (blen a))) e)
    else fread (File (a ++ [13; 10] ++ more) (pos + blen (line 36 (blen a))) e) (blen a)) =
    (Some a, File ([13; 10] ++ more) (pos + blen (line 36 (blen a)) + blen a) e)) as ->.
  { bcase; [|by rewrite fread_app]. apply blen_0 in E as ->. by rewrite blen_nil, Z.add_0_r. }
  change 2 with (blen [13; 10]). rewrite fread_app.
  replace (pos + blen (line 36 (blen a) ++ a ++ [13; 10])) with (pos + blen (line 36 (blen a)) + blen a + blen [13; 10]); [done|].
  rewrite !blen_app. lia.
Qed.

(** The file ends within an argument, behind the line with its length ... *)
Lemma load_args_cut_body n a k q pos e argv : 0 <= blen a <= L -> a ++ [13; 10] = k ++ q -> q <> [] ->
  exists fp, load_args (S n) (File (line 36 (blen a) ++ k) pos e) argv = Some (fp, inr readerr) /\ feof fp = true.
Proof.
  intros Ha E Hq. cbn [Aof.load_args]. rewrite fgets_line by lia. rewrite line_len by lia.
  change (bget (line 36 (blen a)) 0) with (bget (36 :: dec (blen a) ++ [13; 10]) 0). rewrite bget_head, bind_Some. cbn [Z.eqb Pos.eqb negb].
  rewrite Halloc by done. assert (0 < blen q) as Hq0 by (destruct q; [done|]; rewrite blen_cons; pose proof (blen_nonneg q); lia).
  pose proof (f_equal blen E) as El. rewrite !blen_app in El. change (blen [13; 10]) with 2 in El.
  bcase; [rewrite fread_short by lia; by eexists|].
  destruct (decide (blen k < blen a)) as [Hk|Hk]; [rewrite (fread_short k) by done; by eexists|].
  destruct (split_blen k (blen a)) as (a' & k' & -> & Ha'); [pose proof (blen_nonneg a); lia|]. rewrite <- app_assoc in E.
  apply app_inj_1 in E as [-> E]; [|unfold blen in *; lia]. rewrite fread_app. rewrite blen_app in El. rewrite fread_short by lia. by eexists.
Qed.

(** ... or before. *)
Lemma load_args_cut n a p q pos e argv : 0 <= blen a <= L -> bulk a = p ++ q -> q <> [] ->
  exists fp, load_args (S n) (File p pos e) argv = Some (fp, inr readerr) /\ feof fp = true.
Proof.
  intros Ha E Hq. destruct (decide (p = [])) as [->|Hp].
  { cbn. eexists. split; [done|]. cbn. by rewrite orb_true_r. }
  rewrite bulk_line in E. apply app_eq_inv in E as [(k & E1 & E2)|(k & -> & E2)]; [|by eapply load_args_cut_body].
  destruct (decide (k = [])) as [->|Hk].
  { rewrite app_nil_r in E1. subst p. replace (line 36 (blen a)) with (line 36 (blen a) ++ []) by apply app_nil_r. by eapply load_args_cut_body. }
  cbn [Aof.load_args]. rewrite (fgets_prefix 36 (blen a) p k) by (done || lia).
  destruct (line_prefix 36 (blen a) p k ltac:(lia) E1 Hp Hk) as (ds & ds' & r & -> & Ed & Hr & Hr0).
  rewrite bget_head, bind_Some. cbn [Z.eqb Pos.eqb negb]. change (drop 1 (36 :: ds ++ r)) with (ds ++ r).
  assert (exists v, strtol (c_str (ds ++ r)) = v /\ 0 <= v <= blen a) as (v & -> & Hv).
  { destruct (decide (ds = [])) as [->|Hds]; [rewrite (Hr0 eq_refl); exists 0; split; [done|lia]|].
    destruct (strtol_prefix (blen a) ds ds' r ltac:(lia) Ed) as (v & ? & ? & _); try done; [by destruct Hr as [->|[-> _]]| |by exists v].
    destruct Hr as [->|[-> _]]; repeat constructor; lia. }
  rewrite uint_small by (unfold in_uint; lia). rewrite Halloc by lia. bcase; rewrite fread_short by (rewrite blen_nil; lia); by eexists.
Qed.

Definition args_ok (args : list bytes) : Prop := Forall (fun a => 0 <= blen a <= L) args.

Lemma load_args_full args : args_ok args -> forall more pos e argv,
  load_args (length args) (File (concat (bulk <$> args) ++ more) pos e) argv =
    Some (File more (pos + blen (concat (bulk <$> args))) e, inl (argv ++ args)).
Proof.
  induction 1 as [|a args Ha Hf IH]; intros more pos e argv.
  { cbn. by rewrite blen_nil, Z.add_0_r, app_nil_r. }
  cbn [length fmap list_fmap concat]. rewrite <- app_assoc, load_args_bulk, IH by done.
  rewrite <- app_assoc, blen_app, Z.add_assoc. done.
Qed.

Lemma load_args_short args : args_ok args -> forall p q pos e argv, concat (bulk <$> args) = p ++ q -> q <> [] ->
  exists fp, load_args (length args) (File p pos e) argv = Some (fp, inr readerr) /\ feof fp = true.
Proof.
  induction 1 as [|a args Ha Hf IH]; intros p q pos e argv E Hq.
  { cbn in E. symmetry in E. by apply app_nil in E as [_ ->]. }
  cbn [length fmap list_fmap concat] in *. apply app_eq_inv in E as [(k & E1 & E2)|(k & -> & E2)].
  - destruct (decide (k = [])) as [->|Hk]; [|by eapply load_args_cut].
    rewrite app_nil_r in E1. subst p. replace (bulk a) with (bulk a ++ []) by apply app_nil_r. rewrite load_args_bulk by done. by eapply IH.
  - rewrite load_args_bulk by done. by eapply IH.
Qed.

(** ** Commands *)

Context (table : list (bytes * command_proc)).
Local Abbreviation load_loop := (load_loop alloc true table).

Definition proc_of (cmd : list bytes) : option command_proc := name ← cmd !! 0%nat; lookupCommand table name.

(** A command that was written to the file *)
Definition cmd_ok (cmd : list bytes) : Prop := args_ok cmd /\ 1 <= Z.of_nat (length cmd) < 2 ^ 31 /\ is_Some (proc_of cmd).

(** The client after the commands, [n] of them being executed before; the
    number of commands, and of those before the last MULTI *)
Fixpoint replay (c : fake) (n m : nat) (cmds : list (list bytes)) : fake * nat * nat :=
  match cmds with
  | [] => (c, n, m)
  | cmd :: cmds =>
      let proc := default anyCommand (proc_of cmd) in
      replay (fake_run c proc cmd) (S n) (match proc with multiCommand => n | _ => m end) cmds
  end.

Definition size (cmds : list (list bytes)) : Z := blen (concat (encode <$> cmds)).

Lemma size_app a b : size (a ++ b) = size a + size b.
Proof. unfold size. by rewrite fmap_app, concat_app, blen_app. Qed.

Lemma size_cons cmd cmds : size (cmd :: cmds) = blen (encode cmd) + size cmds.
Proof. unfold size. rewrite fmap_cons. cbn [concat]. apply blen_app. Qed.
Lemma size_nil : size [] = 0.
Proof. done. Qed.

Lemma encode_nonempty cmd : 0 < blen (encode cmd).
Proof. unfold encode. rewrite blen_cons. pose proof (blen_nonneg (dec (Z.of_nat (length cmd)) ++ 13 :: 10 :: concat (bulk <$> cmd))). lia. Qed.

Lemma atoi_small s v : strtol s = v -> 0 <= v < 2 ^ 31 -> atoi s = v.
Proof. intros <- H. unfold atoi. apply sint_small; [done|]. unfold in_sint. lia. Qed.

Lemma load_loop_line fuel cmd more pos e c vu vb : cmd_ok cmd ->
  load_loop (S fuel) (File (line 42 (Z.of_nat (length cmd)) ++ more) pos e) c vu vb =
  ('(fp, r) ← load_args (length cmd) (File more (pos + blen (line 42 (Z.of_nat (length cmd)))) e) [];
   match r with
   | inr st => Some (fp, c, vu, vb, st)
   | inl argv =>
       name ← argv !! 0%nat;
       match lookupCommand table name with
       | None => Some (fp, c, vu, vb, unknown_command)
       | Some proc => load_loop fuel fp (fake_run c proc argv) (fpos fp) (match proc with multiCommand => vu | _ => vb end)
       end
   end).
Proof.
  intros (Ha & Hn & _). cbn [Aof.load_loop]. rewrite fgets_line by lia. set (n := Z.of_nat (length cmd)) in *.
  change (bget (line 42 n) 0) with (bget (42 :: dec n ++ [13; 10]) 0). rewrite bget_head, bind_Some. cbn [Z.eqb Pos.eqb negb].
  change (drop 1 (line 42 n)) with (dec n ++ [13; 10]). destruct (dec_digits n ltac:(lia)) as (Hd & _ & Hne).
  destruct (strtol_prefix n (dec n) [] [13; 10] ltac:(lia) ltac:(by rewrite app_nil_r) eq_refl ltac:(repeat constructor; lia) Hne) as (v & E & _ & _ & Hv).
  rewrite (Hv eq_refl) in E. rewrite (atoi_small _ n E) by lia.
  assert (0 < blen (c_str (dec n ++ [13; 10]))) as Hc.
  { destruct (dec n) as [|d ds]; [done|]. apply Forall_cons in Hd as [Hd _]. cbn. bdec. rewrite blen_cons. pose proof (blen_nonneg (c_str (ds ++ [13; 10]))). lia. }
  bdec. unfold n. by rewrite Nat2Z.id.
Qed.

Lemma load_loop_command fuel cmd more pos e c vu vb proc : cmd_ok cmd -> proc_of cmd = Some proc ->
  load_loop (S fuel) (File (encode cmd ++ more) pos e) c vu vb =
  load_loop fuel (File more (pos + blen (encode cmd)) e) (fake_run c proc cmd) (pos + blen (encode cmd)) (match proc with multiCommand => vu | _ => vb end).
Proof.
  intros Hc Hp. pose proof Hc as (Ha & _ & _). rewrite encode_line, <- app_assoc, load_loop_line, load_args_full, bind_Some by done. cbn [app].
  unfold proc_of in Hp. destruct (cmd !! 0%nat) as [name|] eqn:En; [|done]. cbn in Hp. rewrite bind_Some, Hp. cbn [fpos].
  by rewrite blen_app, Z.add_assoc.
Qed.

(** The file ends within a command. *)
Lemma load_loop_cut fuel cmd p q pos c vu vb : cmd_ok cmd -> encode cmd = p ++ q -> p <> [] -> q <> [] ->
  exists fp, load_loop (S fuel) (File p pos false) c vu vb = Some (fp, c, vu, vb, readerr) /\ feof fp = true.
Proof.
  intros Hc E Hp Hq. pose proof Hc as (Ha & Hn & _). rewrite encode_line in E.
  assert (forall k, concat (bulk <$> cmd) = k ++ q ->
    exists fp, load_loop (S fuel) (File (line 42 (Z.of_nat (length cmd)) ++ k) pos false) c vu vb = Some (fp, c, vu, vb, readerr) /\ feof fp = true) as Hbody.
  { intros k Ek. rewrite load_loop_line by done. destruct (load_args_short cmd Ha k q (pos + blen (line 42 (Z.of_nat (length cmd)))) false [] Ek Hq) as (fp & -> & He).
    rewrite bind_Some. by exists fp. }
  apply app_eq_inv in E as [(k & E1 & E2)|(k & -> & E2)]; [|by apply Hbody].
  destruct (decide (k = [])) as [->|Hk].
  { rewrite app_nil_r in E1. subst p. replace (line 42 (Z.of_nat (length cmd))) with (line 42 (Z.of_nat (length cmd)) ++ []) by apply app_nil_r.
    by apply Hbody. }
  cbn [Aof.load_loop]. rewrite (fgets_prefix 42 (Z.of_nat (length cmd)) p k) by (done || lia).
  destruct (line_prefix 42 (Z.of_nat (length cmd)) p k ltac:(lia) E1 Hp Hk) as (ds & ds' & r & -> & Ed & Hr & Hr0).
  rewrite bget_head, bind_Some. cbn [Z.eqb Pos.eqb negb]. change (drop 1 (42 :: ds ++ r)) with (ds ++ r).
  destruct (decide (ds = [])) as [->|Hds]; [rewrite (Hr0 eq_refl); by eexists|].
  destruct (strtol_prefix (Z.of_nat (length cmd)) ds ds' r ltac:(lia) Ed) as (v & Ev & Hv & Hv1 & _); [by destruct Hr as [->|[-> _]]| |done|].
  { destruct Hr as [->|[-> _]]; repeat constructor; lia. }
  specialize (Hv1 ltac:(lia)). rewrite (atoi_small _ v Ev) by lia. bdec. bcase; [by eexists|].
  destruct (Z.to_nat v) as [|v'] eqn:Ev'; [lia|]. cbn. by eexists.
Qed.

Lemma load_loop_end fuel pos c vu vb : exists fp, load_loop (S fuel) (File [] pos false) c vu vb = Some (fp, c, vu, vb, at_eof) /\ feof fp = true.
Proof. cbn. by eexists. Qed.

Lemma replay_count cmds : forall c n m, (replay c n m cmds).1.2 = (n + length cmds)%nat.
Proof. induction cmds as [|cmd cmds IH]; intros c n m; cbn; [lia|]. rewrite IH. lia. Qed.

(** The commands that are whole in [p] *)
Lemma load_loop_ok cmds : Forall cmd_ok cmds -> forall fuel pre p q c m, concat (encode <$> cmds) = p ++ q -> (length p < fuel)%nat -> (m <= length pre)%nat ->
  exists k fp c' n' m' st, (k <= length cmds)%nat /\ size (take k cmds) <= blen p /\ ((k < length cmds)%nat -> blen p < size (take (S k) cmds)) /\
    replay c (length pre) m (take k cmds) = (c', n', m') /\ (m' <= n')%nat /\
    load_loop fuel (File p (size pre) false) c (size pre) (size (take m (pre ++ cmds))) =
      Some (fp, c', size (pre ++ take k cmds), size (take m' (pre ++ cmds)), st) /\
    feof fp = true /\ (st = at_eof /\ blen p = size (take k cmds) \/ st = readerr /\ size (take k cmds) < blen p).
Proof.
  induction 1 as [|cmd cmds Hc Hf IH]; intros fuel pre p q c m E Hfu Hm; (destruct fuel as [|fuel]; [lia|]).
  { cbn in E. symmetry in E. apply app_nil in E as [-> ->]. destruct (load_loop_end fuel (size pre) c (size pre) (size (take m (pre ++ [])))) as (fp & E & He).
    exists 0%nat, fp, c, (length pre), m, at_eof. rewrite app_nil_r in *. split_and!; [done|done|cbn; lia|done|done| |done|by left]. cbn [take]. by rewrite app_nil_r. }
  cbn [fmap list_fmap concat] in E. destruct (decide (p = [])) as [->|Hp].
  { destruct (load_loop_end fuel (size pre) c (size pre) (size (take m (pre ++ cmd :: cmds)))) as (fp & E' & He).
    exists 0%nat, fp, c, (length pre), m, at_eof. rewrite take_0, app_nil_r. split_and!; [lia|done| |done|done|done|done|by left].
    intros _. rewrite firstn_cons, take_0, size_cons, size_nil, blen_nil. pose proof (encode_nonempty cmd). lia. }
  assert ((exists p', p = encode cmd ++ p' /\ concat (encode <$> cmds) = p' ++ q) \/ exists k, encode cmd = p ++ k /\ k <> []) as [(p' & -> & Ep)|(k & Ek & Hk)].
  { apply app_eq_inv in E as [(k & E1 & E2)|(k & E1 & E2)]; [|left; by exists k]. destruct (decide (k = [])) as [->|Hk]; [|right; by exists k].
    left. exists []. rewrite app_nil_r in *. split; [done|]. cbn in *. congruence. }
  - destruct Hc as (Ha & Hn & [proc Hproc]). rewrite (load_loop_command fuel cmd p' (size pre) false c _ _ proc) by (try done; by split_and!).
    assert (size pre + blen (encode cmd) = size (pre ++ [cmd])) as Es by (rewrite size_app, size_cons, size_nil; lia). rewrite Es.
    assert ((match proc with multiCommand => size pre | _ => size (take m (pre ++ cmd :: cmds)) end) =
      size (take (match proc with multiCommand => length pre | _ => m end) ((pre ++ [cmd]) ++ cmds))) as ->.
    { rewrite <- app_assoc. destruct proc; [|done..]. by rewrite take_app_length. }
    destruct (IH fuel (pre ++ [cmd]) p' q (fake_run c proc cmd) (match proc with multiCommand => length pre | _ => m end) Ep)
      as (k & fp & c' & n' & m' & st & Hk & Hsz & Hlt & Hr & Hm' & El & He & Hst).
    { pose proof (encode_nonempty cmd). rewrite length_app in Hfu. unfold blen in *. lia. }
    { rewrite length_app. cbn. destruct proc; lia. }
    rewrite <- !app_assoc in El. cbn [app] in El. exists (S k), fp, c', n', m', st. cbn [length]. rewrite !firstn_cons, !size_cons, !blen_app.
    split_and!; [lia|lia| | |done|by rewrite <- app_assoc|done|].
    + intros Hlt'. specialize (Hlt ltac:(lia)). lia.
    + cbn [replay]. rewrite Hproc. cbn [from_option id]. rewrite length_app in Hr. cbn in Hr. by rewrite Nat.add_1_r in Hr.
    + destruct Hst as [[-> ?]|[-> ?]]; [left|right]; (split; [done|lia]).
  - destruct (load_loop_cut fuel cmd p k (size pre) c (size pre) (size (take m (pre ++ cmd :: cmds))) Hc Ek Hp Hk) as (fp & E' & He).
    exists 0%nat, fp, c, (length pre), m, readerr. rewrite take_0, app_nil_r. split_and!; [lia|apply blen_nonneg| |done|done|done|done|].
    2:{ right. split; [done|]. rewrite size_nil. destruct p; [done|]. rewrite blen_cons. pose proof (blen_nonneg p). lia. }
    intros _. rewrite firstn_cons, take_0, size_cons, size_nil, Ek, blen_app. destruct k; [done|]. rewrite blen_cons. pose proof (blen_nonneg k). lia.
Qed.

End Load.
End AofSpec.
