(* ===== verification/AofSafety.v ===== *)
(** What the append only file promises: after a crash the server starts with a
    prefix of the commands it executed, which has all those that were flushed
    when every write is synced. *)

From S2P Require Import Prelude Util Repl ReplInv ReplSpec Aof AofSpec.

Module AofSafety.
Import Util Repl ReplInv ReplSpec Aof AofSpec.

(** ** What is written *)

(** The form in which a command is written *)
Definition translate (cmd : proc) (argv : list robj) (now : Z) : option (list bytes) :=
  match cmd with
  | expireCommand | pexpireCommand | expireatCommand =>
      key ← argv !! 1%nat; arg ← argv !! 2%nat;
      let n := strtol (text arg) in
      let when := match cmd with expireCommand => n * 1000 + now | pexpireCommand => n + now | _ => n * 1000 end in
      assert! bool_decide (in_sint 64 (match cmd with pexpireCommand => n | _ => n * 1000 end)) && bool_decide (in_sint 64 when);
      Some [str "PEXPIREAT"; text key; dec when]
  | setCommand =>
      match argv with
      | _ :: _ :: _ :: INT _ :: _ => None
      | name :: key :: value :: RAW opt :: more =>
          if bool_decide (tolower <$> c_str opt = str "px") then
            arg ← more !! 0%nat;
            let when := strtol (text arg) + now in
            assert! bool_decide (in_sint 64 when);
            Some [text name; text key; text value; str "PXAT"; dec when]
          else Some (text <$> argv)
      | _ => Some (text <$> argv)
      end
  | otherCommand => Some (text <$> argv)
  end.

Section Writing.
Context (indet : nat -> Z).

Lemma decoded_ok o : obj_ok o -> getDecodedObject indet o = Some (text o).
Proof. destruct o as [v|b]; cbn; intros; [by apply ll_text_ok|done]. Qed.

Lemma cat_argv_ok argv : Forall obj_ok argv -> forall dst, cat_argv indet dst argv = Some (dst ++ concat (bulk <$> (text <$> argv))).
Proof.
  induction 1 as [|o argv Ho Hf IH]; intros dst; cbn [cat_argv]; [by rewrite app_nil_r|].
  rewrite decoded_ok, bind_Some by done. destruct (objlen_ok o Ho) as [_ Hl]. rewrite header_ok, bind_Some, IH by done.
  f_equal. cbn. unfold bulk at 1. unfold CRLF. by simplify_list_eq.
Qed.

Lemma catAppendOnlyGenericCommand_ok dst argv : argv_ok argv -> catAppendOnlyGenericCommand indet dst argv = Some (dst ++ encode (text <$> argv)).
Proof.
  intros [Ha Hl]. unfold catAppendOnlyGenericCommand. rewrite header_ok, bind_Some, cat_argv_ok by (done || apply len_sint; lia).
  f_equal. unfold encode. rewrite length_fmap. by simplify_list_eq.
Qed.

Lemma argv_lookup argv i o : argv_ok argv -> argv !! i = Some o -> obj_ok o.
Proof. intros [Ha _] Hi. by eapply Forall_lookup_1. Qed.

Lemma few_ok argv : Forall obj_ok argv -> (length argv < 10)%nat -> argv_ok argv.
Proof. intros. split; [done|lia]. Qed.

Lemma str_ok s : blen (str s) < 100 -> obj_ok (RAW (str s)).
Proof. cbn. lia. Qed.

Lemma expire_ok cmd key arg now buf : obj_ok key -> obj_ok arg ->
  catAppendOnlyExpireAtCommand indet buf cmd key arg now =
    (let n := strtol (text arg) in
     m ← (match cmd with expireCommand | expireatCommand => assert! bool_decide (in_sint 64 (n * 1000)); Some (n * 1000) | _ => Some n end);
     when ← (match cmd with expireCommand | pexpireCommand => assert! bool_decide (in_sint 64 (m + now)); Some (m + now) | _ => Some m end);
     catAppendOnlyGenericCommand indet buf [RAW (str "PEXPIREAT"); key; INT when]).
Proof. intros Hk Ha. unfold catAppendOnlyExpireAtCommand. by rewrite (decoded_ok arg), bind_Some by done. Qed.

Lemma strtol_range s : in_sint 64 (strtol s).
Proof. unfold strtol, in_sint. lia. Qed.

Lemma pexpireat_ok buf key when : obj_ok key -> in_sint 64 when ->
  catAppendOnlyGenericCommand indet buf [RAW (str "PEXPIREAT"); key; INT when] = Some (buf ++ encode [str "PEXPIREAT"; text key; dec when]).
Proof. intros. by rewrite catAppendOnlyGenericCommand_ok by (apply few_ok; [repeat (apply Forall_cons; split); first [done | by apply str_ok | by apply Forall_nil]|cbn; lia]). Qed.

(** The code writes the command in that form. *)
Lemma propagated_ok cmd argv now buf : argv_ok argv ->
  propagated indet cmd argv now buf = (t ← translate cmd argv now; Some (buf ++ encode t)).
Proof.
  intros Hargv. unfold propagated, translate. destruct cmd.
  1-3: destruct (argv !! 1%nat) as [key|] eqn:E1; [|done]; destruct (argv !! 2%nat) as [arg|] eqn:E2; [|done];
    pose proof (argv_lookup _ _ _ Hargv E1); pose proof (argv_lookup _ _ _ Hargv E2); rewrite !bind_Some, expire_ok by done;
    cbn zeta; set (n := strtol (text arg)); pose proof (strtol_range (text arg)) as Hn; fold n in Hn.
  - case_bool_decide as H1; [|done]. rewrite bind_Some. cbn [andb]. case_bool_decide as H2; [|done]. rewrite bind_Some. by rewrite pexpireat_ok.
  - rewrite bind_Some, (bool_decide_true (in_sint 64 n)) by done. cbn [andb]. case_bool_decide as H2; [|done]. rewrite bind_Some. by rewrite pexpireat_ok.
  - case_bool_decide as H1; [|done]. rewrite !bind_Some. by rewrite pexpireat_ok.
  - destruct argv as [|name [|key [|value [|opt more]]]]; cbn [length Nat.ltb Nat.leb lookup list_lookup]; try by rewrite catAppendOnlyGenericCommand_ok.
    pose proof Hargv as [Hf _]. apply Forall_cons in Hf as [Hname Hf], Hf as [Hkey Hf], Hf as [Hvalue Hf], Hf as [Hopt Hf].
    rewrite bind_Some. destruct opt as [v|opt]; [done|]. rewrite bind_Some. case_bool_decide; [|by rewrite catAppendOnlyGenericCommand_ok].
    destruct more as [|arg more]; [done|]. cbn [lookup list_lookup]. apply Forall_cons in Hf as [Harg Hf]. rewrite !bind_Some, decoded_ok, !bind_Some by done.
    case_bool_decide as H2; [|done]. rewrite !bind_Some.
    by rewrite catAppendOnlyGenericCommand_ok by (apply few_ok; [repeat (apply Forall_cons; split); first [done | by apply str_ok | by apply Forall_nil]|cbn; lia]).
  - by rewrite catAppendOnlyGenericCommand_ok.
Qed.

(** The commands that are appended *)
Definition appended (db : Z) (cmd : proc) (dictid : Z) (argv : list robj) (now : Z) : option (list (list bytes)) :=
  t ← translate cmd argv now; Some ((if dictid =? db then [] else [select dictid]) ++ [t]).

Lemma feedAppendOnlyFile_ok a cmd dictid argv now : argv_ok argv -> in_sint 64 dictid ->
  feedAppendOnlyFile indet a cmd dictid argv now =
    (l ← appended (aof_selected_db a) cmd dictid argv now; Some (set_buf a (aof_buf a ++ concat (encode <$> l)) dictid)).
Proof.
  intros Ha Hd. unfold feedAppendOnlyFile, appended.
  assert (fmt_d indet dictid = dec dictid) as -> by (unfold fmt_d; by rewrite ll_text_ok). cbn zeta. rewrite select_text_ok by done.
  bcase.
  - rewrite propagated_ok by done. destruct (translate cmd argv now) as [t|]; [|done]. cbn. by rewrite app_nil_r, E.
  - rewrite propagated_ok by done. destruct (translate cmd argv now) as [t|]; [|done].
    rewrite !bind_Some. cbn [app fmap list_fmap concat]. by rewrite app_nil_r.
Qed.

End Writing.

(** ** What is on the disk *)

(** The file and the buffer are the stream [h], at least [lo] bytes of which are
    on stable storage. *)
Definition aof_ok (h : bytes) (lo : Z) (a : aof) : Prop :=
  h = disk a ++ aof_buf a /\ aof_current_size a = blen (disk a) /\ lo <= synced a <= blen (disk a).

Lemma aofWrite_ok ios : forall buf tot w n, aofWrite ios buf tot = (w, n) ->
  exists x y, w = tot ++ x /\ buf = x ++ y /\ (n = blen w \/ n = -1 /\ w = [] /\ buf <> []).
Proof.
  induction ios as [|i ios IH]; intros buf tot w n; cbn [aofWrite]; (bcase; [intros [= <- <-]; exists [], buf; rewrite app_nil_r; by eauto|]).
  - intros [= <- <-]. exists [], buf. rewrite app_nil_r. split_and!; [done|done|]. bcase; [right|by left].
    apply blen_0 in E0. split_and!; [done|done|]. intros ->. by apply E.
  - destruct i as [m| |]; cbn zeta.
    + intros H. apply IH in H as (x & y & -> & E1 & Hn). set (k := Z.to_nat _) in *. exists (take k buf ++ x), y.
      split_and!; [by rewrite app_assoc|by rewrite <- app_assoc, <- E1, take_drop|].
      destruct Hn as [Hn|(Hn & Hw & Hb)]; [by left|right]. split_and!; [done|done|]. intros ->. by rewrite drop_nil in Hb.
    + apply IH.
    + intros [= <- <-]. exists [], buf. rewrite app_nil_r. split_and!; [done|done|]. bcase; [right|by left].
      apply blen_0 in E0. split_and!; [done|done|]. intros ->. by apply E.
Qed.

(** Every write is synced. *)
Definition syncing (policy : fsync_policy) (e : env) : Prop := policy = AOF_FSYNC_ALWAYS /\ no_fsync e = false.

Definition outcome_ok (h : bytes) (lo : Z) (o : outcome) : Prop :=
  match o with
  | Running a => aof_ok h lo a
  | Exited a => disk a `prefix_of` h /\ lo <= synced a <= blen (disk a)
  end.

Lemma try_fsync_ok h lo policy e a b : aof_ok h lo a -> outcome_ok h lo (try_fsync policy e a b).
Proof.
  intros (Hh & Hc & Hs). assert (disk a `prefix_of` h) by (rewrite Hh; apply prefix_app_r; done). unfold try_fsync.
  destruct (no_fsync e); [done|]. destruct policy; [done| |]; [destruct (fsync_ok e)|bcase]; cbn; unfold aof_ok; cbn; split_and!; (done || lia).
Qed.

Lemma set_disk_ok h lo a buf size st x y : aof_ok h lo a -> aof_buf a = x ++ y -> buf = y -> size = blen (disk a ++ x) ->
  aof_ok h lo (set_disk a buf size st (disk a ++ x)).
Proof.
  intros (Hh & Hc & Hs) E -> ->. rewrite E in Hh. unfold aof_ok. cbn. rewrite blen_app. pose proof (blen_nonneg x). split_and!; [by rewrite <- app_assoc|done|lia|lia].
Qed.

Lemma postponed_ok h lo policy e a force a' : aof_ok h lo a -> postponed policy e a force = Some a' -> aof_ok h lo a'.
Proof. intros Ha. unfold postponed. destruct (_ && _); [|done]. bcase; [by intros [= <-]|]. bcase; [|done]. by intros [= <-]. Qed.

(** A write that failed wrote [x], [n] bytes of the buffer, or was undone. *)
Lemma failed_ok h lo policy a x y d n : aof_ok h lo a -> aof_buf a = x ++ y -> (d = disk a /\ n = -1 \/ d = disk a ++ x /\ n = blen x) ->
  outcome_ok h lo match policy with
    | AOF_FSYNC_ALWAYS => Exited (set_disk a (aof_buf a) (aof_current_size a) (aof_last_write_status a) d)
    | _ => if n >? 0 then Running (set_disk a (drop (Z.to_nat n) (aof_buf a)) (aof_current_size a + n) C_ERR d)
           else Running (set_disk a (aof_buf a) (aof_current_size a) C_ERR d)
    end.
Proof.
  intros Ha Eb Hd. pose proof Ha as (Hh & Hc & Hs). pose proof (blen_nonneg x).
  assert (d `prefix_of` h /\ blen (disk a) <= blen d) as [Hp Hl].
  { rewrite Hh, Eb. destruct Hd as [[-> _]|[-> _]]; [split; [by apply prefix_app_r|lia]|]. rewrite app_assoc, blen_app. split; [by apply prefix_app_r|lia]. }
  assert (outcome_ok h lo (if n >? 0 then Running (set_disk a (drop (Z.to_nat n) (aof_buf a)) (aof_current_size a + n) C_ERR d)
    else Running (set_disk a (aof_buf a) (aof_current_size a) C_ERR d))) as Hr.
  { destruct Hd as [[-> ->]|[-> ->]]; cbn [Z.gtb Z.compare].
    - rewrite <- (app_nil_r (disk a)). apply (set_disk_ok h lo a _ _ _ [] (aof_buf a)); try done. by rewrite app_nil_r.
    - destruct (blen x >? 0) eqn:E.
      + apply (set_disk_ok h lo a _ _ _ x y); try done; [by rewrite Eb, to_nat_blen, drop_app_length|]. rewrite blen_app. lia.
      + assert (x = []) as -> by (apply blen_0; lia). by apply (set_disk_ok h lo a _ _ _ [] (aof_buf a)); try done; rewrite app_nil_r. }
  destruct policy; [exact Hr| |exact Hr]. cbn. split; [done|lia].
Qed.

(** No byte of the stream is lost or written twice, whatever the writes do. *)
Lemma flushAppendOnlyFile_ok h lo policy e a force : aof_ok h lo a -> outcome_ok h lo (flushAppendOnlyFile policy e a force).
Proof.
  intros Ha. unfold flushAppendOnlyFile. bcase; [destruct (_ && _); [by apply try_fsync_ok|done]|].
  destruct (postponed policy e a force) as [a'|] eqn:Ep; [by eapply postponed_ok|]. clear Ep.
  destruct (aofWrite _ _ _) as [w nw] eqn:Ew. apply aofWrite_ok in Ew as (x & y & -> & Eb & Hn). cbn [app] in *. cbn zeta.
  set (a0 := set_postponed a 0). assert (aof_ok h lo a0) as Ha0 by done. change (aof_buf a) with (aof_buf a0) in *. clearbody a0. clear a Ha E. rename a0 into a.
  pose proof Ha0 as (Hh & Hc & Hs). pose proof (blen_nonneg x). bcase.
  - destruct (nw =? -1) eqn:En; [apply (failed_ok h lo policy a x y); [done|done|by left]|].
    destruct (ftruncate_ok e); apply (failed_ok h lo policy a x y); try done; [left|right].
    + by rewrite Hc, to_nat_blen, take_app_length.
    + destruct Hn as [->|(-> & _)]; [done|lia].
  - apply try_fsync_ok. pose proof (blen_nonneg (aof_buf a)). destruct Hn as [->|(-> & _)]; [|lia].
    apply (set_disk_ok h lo a _ _ _ x y); try done; [|rewrite blen_app; lia]. symmetry. apply blen_0. rewrite Eb, blen_app in E. lia.
Qed.

(** When every write is synced, what a flush that succeeds leaves is on stable
    storage. *)
Lemma flush_synced policy e a force a' : syncing policy e -> synced a = blen (disk a) -> flushAppendOnlyFile policy e a force = Running a' ->
  aof_buf a' = [] /\ synced a' = blen (disk a').
Proof.
  intros [-> Hn] Hs. unfold flushAppendOnlyFile, postponed. cbn [is_everysec andb]. bcase; [intros [= <-]; by apply blen_0 in E|].
  destruct (aofWrite _ _ _) as [w nw]. cbn zeta. bcase; [by destruct (if nw =? -1 then _ else _)|].
  unfold try_fsync. rewrite Hn. destruct (fsync_ok e); [|done]. by intros [= <-].
Qed.

(** ** Starting again *)

Section Recovery.
Context (L : Z) (alloc : Z -> bool) (Halloc : forall n, 0 <= n <= L -> alloc n = true) (HL : L < 2 ^ 63).
Context (table : list (bytes * command_proc)).
Local Abbreviation load := (loadAppendOnlyFile alloc true table).
Local Abbreviation cmd_ok := (cmd_ok L table).
Local Abbreviation replay := (replay table).
Local Abbreviation proc_of := (proc_of table).

Definition log (cmds : list (list bytes)) : bytes := concat (encode <$> cmds).

Lemma log_app a b : log (a ++ b) = log a ++ log b.
Proof. unfold log. by rewrite fmap_app, concat_app. Qed.

Lemma log_take k cmds : log (take k cmds) `prefix_of` log cmds.
Proof. rewrite <- (take_drop k cmds) at 2. rewrite log_app. by apply prefix_app_r. Qed.

Lemma size_mono i j cmds : (i <= j)%nat -> size (take i cmds) <= size (take j cmds).
Proof.
  intros H. replace (take j cmds) with (take i cmds ++ take (j - i) (drop i cmds)).
  - rewrite size_app. unfold size. pose proof (blen_nonneg (concat (encode <$> take (j - i) (drop i cmds)))). lia.
  - by rewrite take_take_drop, Nat.add_comm, Nat.sub_add by done.
Qed.

Lemma take_of_prefix (p q : bytes) h : p `prefix_of` h -> q `prefix_of` h -> blen p <= blen q -> take (length p) q = p.
Proof. intros [r ->] [t E] H. rewrite <- (take_app_le q t), <- E, take_app_length; [done|]. unfold blen in H. lia. Qed.

(** The whole commands of a part [p] of the log are replayed. *)
Lemma load_ok cmds p q : Forall cmd_ok cmds -> log cmds = p ++ q -> p <> [] ->
  exists k c m, (k <= length cmds)%nat /\ size (take k cmds) <= blen p /\ ((k < length cmds)%nat -> blen p < size (take (S k) cmds)) /\
    replay (Fake false [] []) 0 0 (take k cmds) = (c, k, m) /\ (m <= k)%nat /\
    load p = Some (Loaded (executed c) (log (take (if (blen p =? size (take k cmds)) && in_multi c then m else k) cmds))).
Proof.
  intros Hf E Hp. assert (exists p', p = 42 :: p') as [p' Ep].
  { destruct cmds as [|cmd cmds]; [symmetry in E; by apply app_nil in E as [-> _]|]. destruct p as [|x p]; [done|]. injection E as <- _. by eexists. }
  destruct (load_loop_ok L alloc Halloc HL table cmds Hf (S (length p)) [] p q (Fake false [] []) 0 E ltac:(lia) ltac:(done))
    as (k & fp & c & n & m & st & Hk & Hsz & Hlt & Hr & Hm & El & He & Hst).
  exists k, c, m. pose proof (replay_count table (take k cmds) (Fake false [] []) 0 0) as Hn. cbn [length] in Hr. rewrite Hr in Hn. cbn in Hn.
  rewrite length_take_le in Hn by done. subst n. split_and!; try done.
  assert (take 5 p <> str "REDIS") as H5 by (rewrite Ep; cbn; by intros [=]).
  assert (blen p <> 0) as H0 by (intros H0; by apply blen_0 in H0). unfold loadAppendOnlyFile. bdec. rewrite bool_decide_eq_false_2 by done.
  change (size []) with 0 in El. cbn [app] in El. rewrite take_0 in El. change (size []) with 0 in El. rewrite El, bind_Some. f_equal. cbn [finish].
  assert (p `prefix_of` log cmds) as Hpre by (rewrite E; by apply prefix_app_r).
  assert (forall i, (i <= k)%nat -> take (Z.to_nat (size (take i cmds))) p = log (take i cmds)) as Htake.
  { intros i Hi. unfold size. rewrite to_nat_blen. apply (take_of_prefix _ _ (log cmds)); [apply log_take|done|].
    fold (size (take i cmds)). pose proof (size_mono i k cmds Hi). lia. }
  destruct Hst as [[-> Hst]|[-> Hst]]; cbn [finish].
  - rewrite Hst, Z.eqb_refl. cbn [andb]. destruct (in_multi c); [by rewrite Htake|]. f_equal. rewrite <- Htake, <- Hst, to_nat_blen by done. by rewrite firstn_all.
  - rewrite He. rewrite (proj2 (Z.eqb_neq _ _)) by lia. cbn [andb]. by rewrite Htake.
Qed.

(** What is executed as a whole: a command, or the commands [body] of a
    transaction *)
Inductive unit_ := Single (cmd : list bytes) | Transaction (multi : list bytes) (body : list (list bytes)) (exec : list bytes).

Definition flat (u : unit_) : list (list bytes) :=
  match u with Single cmd => [cmd] | Transaction multi body exec => multi :: body ++ [exec] end.
Definition effect (u : unit_) : list (list bytes) :=
  match u with Single cmd => [cmd] | Transaction _ body _ => body end.
Definition any (cmd : list bytes) : Prop := cmd_ok cmd /\ proc_of cmd = Some anyCommand.
Definition unit_ok (u : unit_) : Prop :=
  match u with
  | Single cmd => any cmd
  | Transaction multi body exec =>
      cmd_ok multi /\ proc_of multi = Some multiCommand /\ Forall any body /\ cmd_ok exec /\ proc_of exec = Some execCommand
  end.
Definition flats (us : list unit_) : list (list bytes) := concat (flat <$> us).
Definition effects (us : list unit_) : list (list bytes) := concat (effect <$> us).

Lemma flats_cons u us : flats (u :: us) = flat u ++ flats us.
Proof. done. Qed.
Lemma flats_app us vs : flats (us ++ vs) = flats us ++ flats vs.
Proof. unfold flats. by rewrite fmap_app, concat_app. Qed.

Lemma flats_ok us : Forall unit_ok us -> Forall cmd_ok (flats us).
Proof.
  induction 1 as [|u us Hu Hf IH]; [constructor|]. rewrite flats_cons. apply Forall_app. split; [|done].
  destruct u as [cmd|multi body exec]; cbn in *; [by constructor; [destruct Hu|]|]. destruct Hu as (Hm & _ & Hb & He & _).
  constructor; [done|]. apply Forall_app. split; [|by constructor]. eapply Forall_impl; [exact Hb|]. by intros ? [? _].
Qed.

(** Commands are queued during a transaction. *)
Lemma replay_queue body rest : Forall any body -> forall qs ex n m,
  replay (Fake true qs ex) n m (body ++ rest) = replay (Fake true (qs ++ body) ex) (n + length body) m rest.
Proof.
  induction 1 as [|cmd body [_ Hp] Hf IH]; intros qs ex n m; [by rewrite app_nil_r, Nat.add_0_r|].
  cbn [app AofSpec.replay length]. rewrite Hp. cbn [from_option id fake_run in_multi queued executed]. rewrite IH, <- app_assoc. f_equal. lia.
Qed.

Lemma replay_unit u ex n m rest : unit_ok u ->
  exists m', replay (Fake false [] ex) n m (flat u ++ rest) = replay (Fake false [] (ex ++ effect u)) (n + length (flat u)) m' rest.
Proof.
  destruct u as [cmd|multi body exec]; cbn [unit_ok flat effect app AofSpec.replay].
  - intros [_ ->]. exists m. cbn [from_option id length]. f_equal. lia.
  - intros (_ & -> & Hb & _ & He). exists n. cbn [from_option id fake_run in_multi executed]. rewrite <- app_assoc, replay_queue by done.
    cbn [app AofSpec.replay]. rewrite He. cbn [from_option id fake_run in_multi queued executed app length]. f_equal. rewrite length_app. cbn. lia.
Qed.

(** The part of a unit *)
Lemma replay_part u ex n m k : unit_ok u -> (k < length (flat u))%nat ->
  exists c m', replay (Fake false [] ex) n m (take k (flat u)) = (c, (n + k)%nat, m') /\ executed c = ex /\
    (if in_multi c then m' = n else k = 0%nat).
Proof.
  intros Hu Hk. destruct k as [|k]; [eexists _, _; rewrite Nat.add_0_r; by split_and!|].
  destruct u as [cmd|multi body exec]; [cbn in Hk; lia|]. cbn [unit_ok flat] in *. destruct Hu as (_ & Em & Hb & _). rewrite firstn_cons.
  cbn [AofSpec.replay]. rewrite Em. cbn [from_option id fake_run in_multi executed]. cbn in Hk. rewrite length_app in Hk. cbn in Hk.
  rewrite take_app_le by lia. rewrite <- (app_nil_r (take k body)), replay_queue by (by apply Forall_take). cbn [AofSpec.replay app].
  rewrite length_take_le by lia. eexists _, _. split_and!; [f_equal; f_equal; lia|done|done].
Qed.

(** The whole units of the first [k] commands are executed. *)
Lemma replay_units us : Forall unit_ok us -> forall k ex n m, (k <= length (flats us))%nat ->
  exists j c m', (j <= length us)%nat /\ replay (Fake false [] ex) n m (take k (flats us)) = (c, (n + k)%nat, m') /\
    executed c = ex ++ effects (take j us) /\ (length (flats (take j us)) <= k)%nat /\
    ((j < length us)%nat -> (k < length (flats (take (S j) us)))%nat) /\
    (if in_multi c then m' = (n + length (flats (take j us)))%nat else k = length (flats (take j us))).
Proof.
  induction 1 as [|u us Hu Hf IH]; intros k ex n m Hk.
  { cbn in Hk. assert (k = 0%nat) as -> by lia. exists 0%nat, (Fake false [] ex), m. rewrite app_nil_r, Nat.add_0_r. split_and!; (done || cbn; lia). }
  destruct (decide (k < length (flat u))%nat) as [Hlt|Hge].
  - destruct (replay_part u ex n m k Hu Hlt) as (c & m' & E & Hex & Hm). exists 0%nat, c, m'. rewrite flats_cons, take_app_le by lia.
    rewrite take_0, firstn_cons, take_0, app_nil_r, flats_cons, app_nil_r. cbn [flats fmap list_fmap concat length]. rewrite Nat.add_0_r. split_and!; (done || cbn; lia).
  - rewrite flats_cons, length_app in Hk. destruct (replay_unit u ex n m (take (k - length (flat u)) (flats us)) Hu) as [m0 Er].
    destruct (IH (k - length (flat u))%nat (ex ++ effect u) (n + length (flat u))%nat m0 ltac:(lia)) as (j & c & m' & Hj & E & Hex & Hle & Hlt & Hm).
    exists (S j), c, m'. rewrite !firstn_cons, !flats_cons, !length_app, take_app_ge by lia. rewrite Er, E, Hex. cbn [length].
    split_and!; [lia|f_equal; f_equal; lia|by rewrite <- app_assoc|lia|lia|]. destruct (in_multi c); lia.
Qed.

Lemma flats_take j us : take (length (flats (take j us))) (flats us) = flats (take j us).
Proof. rewrite <- (take_drop j us) at 2. by rewrite flats_app, take_app_length. Qed.

Lemma boundary i k cmds p : size (take k cmds) <= blen p -> ((k < length cmds)%nat -> blen p < size (take (S k) cmds)) ->
  blen p = size (take i cmds) -> blen p = size (take k cmds).
Proof.
  intros Hle Hlt E. destruct (decide (i <= k)%nat) as [Hi|Hi]; [pose proof (size_mono i k cmds Hi); lia|].
  destruct (decide (k < length cmds)%nat) as [Hk|Hk]; [pose proof (size_mono (S k) i cmds ltac:(lia)); specialize (Hlt Hk); lia|].
  rewrite E. by rewrite !take_ge by lia.
Qed.

(** The whole units of a part of the log are executed; the file that is left has
    just these, unless the part ended within a command of a transaction. *)
Lemma recover us p q : Forall unit_ok us -> log (flats us) = p ++ q -> p <> [] ->
  exists j k, (j <= length us)%nat /\ size (flats (take j us)) <= blen p /\ ((j < length us)%nat -> blen p < size (flats (take (S j) us))) /\
    load p = Some (Loaded (effects (take j us)) (log (take k (flats us)))) /\
    (length (flats (take j us)) <= k)%nat /\ ((exists i, blen p = size (take i (flats us))) -> k = length (flats (take j us))).
Proof.
  intros Hus E Hp. destruct (load_ok (flats us) p q (flats_ok us Hus) E Hp) as (k & c & m & Hk & Hsz & Hlt & Hr & Hm & El).
  destruct (replay_units us Hus k [] 0 0 Hk) as (j & c' & m' & Hj & Hr' & Hex & Hle & Hltj & Hmulti). rewrite Hr in Hr'. injection Hr' as <- <-.
  cbn [Nat.add app] in *. rewrite Hex in El. set (k' := if _ && _ then m else k) in El. exists j, k'. rewrite El.
  pose proof (size_mono (length (flats (take j us))) k (flats us) Hle) as Hs. rewrite flats_take in Hs.
  split_and!; [done|lia| |done| |].
  - intros H. specialize (Hltj H). assert (k < length (flats us))%nat as Hk'.
    { rewrite <- (take_drop (S j) us), flats_app, length_app. lia. }
    pose proof (size_mono (S k) _ (flats us) Hltj) as Hs'. rewrite flats_take in Hs'. specialize (Hlt Hk'). lia.
  - unfold k'. destruct (_ && _) eqn:Em; [|done]. apply andb_true_iff in Em as [_ Em]. rewrite Em in Hmulti. lia.
  - intros [i Hi]. unfold k'. rewrite (proj2 (Z.eqb_eq _ _) (boundary i k _ p Hsz Hlt Hi)). cbn [andb]. by destruct (in_multi c).
Qed.

End Recovery.

(** ** The life of the server *)

(** A command is executed, the buffer is flushed, or [n] bytes of the file are
    on stable storage when a background [fsync] ends. *)
Inductive event :=
  | Append (cmd : proc) (dictid : Z) (argv : list robj) (now : Z)
  | Flush (e : env) (force : bool)
  | Sync (n : Z).

Definition state_of (o : outcome) : aof := match o with Running a | Exited a => a end.

(** The events from [a] on, the commands that are written, and the outcome *)
Inductive history (indet : nat -> Z) (policy : fsync_policy) : aof -> list event -> list (list bytes) -> outcome -> Prop :=
  | history_nil a : history indet policy a [] [] (Running a)
  | history_append a cmd dictid argv now a1 l evs cmds o :
      argv_ok argv -> in_sint 64 dictid -> feedAppendOnlyFile indet a cmd dictid argv now = Some a1 ->
      appended (aof_selected_db a) cmd dictid argv now = Some l ->
      history indet policy a1 evs cmds o -> history indet policy a (Append cmd dictid argv now :: evs) (l ++ cmds) o
  | history_flush a e force a1 evs cmds o :
      flushAppendOnlyFile policy e a force = Running a1 ->
      history indet policy a1 evs cmds o -> history indet policy a (Flush e force :: evs) cmds o
  | history_exit a e force a1 :
      flushAppendOnlyFile policy e a force = Exited a1 -> history indet policy a [Flush e force] [] (Exited a1)
  | history_sync a n evs cmds o : n <= blen (disk a) ->
      history indet policy (set_fsync a (aof_fsync_offset a) (aof_last_fsync a) (Z.max (synced a) n)) evs cmds o ->
      history indet policy a (Sync n :: evs) cmds o.

(** The file is new. *)
Definition start (now : Z) : aof := Aof [] (-1) 0 0 now 0 C_OK [] 0.

Lemma start_ok now : aof_ok [] 0 (start now).
Proof. unfold aof_ok. cbn. split_and!; [done|done|done|]. by rewrite blen_nil. Qed.

Lemma history_ok indet policy a evs cmds o lo : history indet policy a evs cmds o ->
  forall h, aof_ok h lo a -> outcome_ok (h ++ log cmds) lo o.
Proof.
  induction 1 as [a|a cmd dictid argv now a1 l evs cmds o Ha Hd Ef Hl Hh IH|a e force a1 evs cmds o Ef Hh IH|a e force a1 Ef|a n evs cmds o Hn Hh IH];
    intros h Hok.
  - by rewrite app_nil_r.
  - rewrite log_app, app_assoc. rewrite feedAppendOnlyFile_ok, Hl, bind_Some in Ef by done. injection Ef as <-. apply (IH (h ++ log l)).
    destruct Hok as (-> & Hc & Hs). unfold aof_ok. cbn. by rewrite <- app_assoc.
  - pose proof (flushAppendOnlyFile_ok h lo policy e a force Hok) as H1. rewrite Ef in H1. by apply IH.
  - pose proof (flushAppendOnlyFile_ok h lo policy e a force Hok) as H1. rewrite Ef in H1. by rewrite app_nil_r.
  - apply (IH h). destruct Hok as (-> & Hc & Hs). unfold aof_ok. cbn. split_and!; (done || lia).
Qed.

(** The flushes sync what they write. *)
Definition synced_event (policy : fsync_policy) (ev : event) : Prop := match ev with Flush e _ => syncing policy e | _ => True end.

Lemma history_synced indet policy a evs cmds o a' : history indet policy a evs cmds o -> Forall (synced_event policy) evs ->
  synced a = blen (disk a) -> o = Running a' -> synced a' = blen (disk a').
Proof.
  induction 1 as [a|a cmd dictid argv now a1 l evs cmds o Ha Hd Ef Hl Hh IH|a e force a1 evs cmds o Ef Hh IH|a e force a1 Ef|a n evs cmds o Hn Hh IH];
    intros Hf Hs Eo; [by injection Eo as <-| | |done|]; apply Forall_cons in Hf as [Hev Hf]; apply IH; try done.
  - rewrite feedAppendOnlyFile_ok, Hl, bind_Some in Ef by done. by injection Ef as <-.
  - by eapply flush_synced.
  - cbn. lia.
Qed.

Section Promises.
Context (L : Z) (alloc : Z -> bool) (Halloc : forall n, 0 <= n <= L -> alloc n = true) (HL : L < 2 ^ 63).
Context (table : list (bytes * command_proc)) (indet : nat -> Z).
Local Abbreviation load := (loadAppendOnlyFile alloc true table).
Local Abbreviation unit_ok := (unit_ok L table).

Lemma crash_prefix policy now evs cmds o p : history indet policy (start now) evs cmds o -> p `prefix_of` disk (state_of o) -> exists q, log cmds = p ++ q.
Proof.
  intros Hh [x Hp]. pose proof (history_ok _ _ _ _ _ _ 0 Hh [] (start_ok now)) as Ho. cbn [app] in Ho.
  assert (disk (state_of o) `prefix_of` log cmds) as [y Hy].
  { destruct o as [a|a]; cbn in *; [destruct Ho as (-> & _); by apply prefix_app_r|by destruct Ho]. }
  exists (x ++ y). by rewrite Hy, Hp, app_assoc.
Qed.


Lemma size_prefix us vs j : (j <= length us)%nat -> size (flats (take j (us ++ vs))) <= size (flats us).
Proof.
  intros H. rewrite take_app_le by done. rewrite <- (take_drop j us) at 2. rewrite flats_app, size_app. unfold size at 3.
  pose proof (blen_nonneg (concat (encode <$> flats (drop j us)))). lia.
Qed.

(** C6: Durability. When the policy is to sync every write, the units that were
    written before a flush which did not end the server survive: whatever happens
    afterwards, a crash leaves a file from which they are executed in full and in
    order, followed by some of the later units in order. *)
Theorem aof_durable policy now evs1 cmds1 a0 e force a1 evs2 cmds2 o us1 us2 rest p :
  Forall (synced_event policy) evs1 -> syncing policy e ->
  history indet policy (start now) evs1 cmds1 (Running a0) -> flushAppendOnlyFile policy e a0 force = Running a1 ->
  history indet policy a1 evs2 cmds2 o ->
  Forall unit_ok (us1 ++ us2) -> flats us1 = cmds1 -> flats us2 = cmds2 ++ rest ->
  p `prefix_of` disk (state_of o) -> synced (state_of o) <= blen p -> p <> [] ->
  exists j f, load p = Some (Loaded (effects us1 ++ effects (take j us2)) f).
Proof.
  intros Hf1 He Hh1 Efl Hh2 Hus E1 E2 [x Hp] Hsy Hne. pose proof (history_ok _ _ _ _ _ _ 0 Hh1 [] (start_ok now)) as H0. cbn [app outcome_ok] in H0.
  pose proof (flushAppendOnlyFile_ok _ _ policy e a0 force H0) as H1. rewrite Efl in H1.
  destruct (flush_synced policy e a0 force a1 He (history_synced _ _ _ _ _ _ _ Hh1 Hf1 eq_refl eq_refl) Efl) as [Eb Es].
  assert (aof_ok (log cmds1) (size cmds1) a1) as H1'.
  { destruct H1 as (Hd & Hc & Hs). rewrite Eb, app_nil_r in Hd. split_and!; [by rewrite Eb, app_nil_r|done|unfold size|lia]. fold (log cmds1). rewrite Hd. lia. }
  pose proof (history_ok _ _ _ _ _ _ _ Hh2 _ H1') as Ho. rewrite <- log_app in Ho.
  assert (size cmds1 <= synced (state_of o) /\ disk (state_of o) `prefix_of` log (cmds1 ++ cmds2)) as [Hlo [y Hy]].
  { destruct o as [a|a]; cbn in *; [destruct Ho as (-> & _ & ?); split; [lia|by apply prefix_app_r]|destruct Ho; split; [lia|done]]. }
  destruct (recover L alloc Halloc HL table (us1 ++ us2) p (x ++ y ++ log rest) Hus) as (j & k & Hj & Hle & Hlt & El & _); [|done|].
  { by rewrite flats_app, E1, E2, app_assoc, log_app, Hy, Hp, <- !app_assoc. }
  assert (length us1 <= j)%nat as Hj1.
  { destruct (decide (length us1 <= j)%nat) as [?|Hn]; [done|]. rewrite length_app in Hlt. specialize (Hlt ltac:(lia)).
    pose proof (size_prefix us1 us2 (S j) ltac:(lia)). rewrite E1 in *. lia. }
  exists (j - length us1)%nat, (log (take k (flats (us1 ++ us2)))). rewrite El. rewrite take_app_ge by done. unfold effects. by rewrite fmap_app, concat_app.
Qed.

(** The commands of an open transaction *)
Definition open_transaction (us : list unit_) (multi : list bytes) (body : list (list bytes)) : list (list bytes) := flats us ++ multi :: body.

Lemma replay_flats us : Forall unit_ok us -> forall ex n m rest,
  exists m', replay table (Fake false [] ex) n m (flats us ++ rest) = replay table (Fake false [] (ex ++ effects us)) (n + length (flats us)) m' rest.
Proof.
  induction 1 as [|u us Hu Hf IH]; intros ex n m rest; [exists m; by rewrite app_nil_r, Nat.add_0_r|].
  rewrite flats_cons, <- app_assoc. destruct (replay_unit L table u ex n m (flats us ++ rest) Hu) as [m1 ->].
  destruct (IH (ex ++ effect u) (n + length (flat u))%nat m1 rest) as [m2 ->]. exists m2. rewrite <- app_assoc, length_app, Nat.add_assoc. done.
Qed.

Lemma replay_open us multi body : Forall unit_ok us -> proc_of table multi = Some multiCommand -> Forall (any L table) body ->
  replay table (Fake false [] []) 0 0 (open_transaction us multi body) =
    (Fake true body (effects us), length (open_transaction us multi body), length (flats us)).
Proof.
  intros Hus Hm Hb. unfold open_transaction. destruct (replay_flats us Hus [] 0 0 (multi :: body)) as [m ->]. cbn [AofSpec.replay]. rewrite Hm.
  cbn [from_option id fake_run in_multi executed app Nat.add]. rewrite <- (app_nil_r body) at 1. rewrite (replay_queue L) by done. cbn [app AofSpec.replay].
  rewrite length_app. cbn. by rewrite Nat.add_succ_r.
Qed.

(** The whole commands of a part [p] that has those of [pre], and not the next *)
Lemma whole_commands pre tl k p : size pre <= blen p -> (tl <> [] -> blen p < size (pre ++ take 1 tl)) ->
  size (take k (pre ++ tl)) <= blen p -> ((k < length (pre ++ tl))%nat -> blen p < size (take (S k) (pre ++ tl))) ->
  (k <= length (pre ++ tl))%nat -> k = length pre.
Proof.
  intros Hpre Htl Hle Hlt Hk. rewrite length_app in *. destruct (decide (k < length pre)%nat) as [H|H].
  - specialize (Hlt ltac:(lia)). pose proof (size_mono (S k) (length pre) (pre ++ tl) ltac:(lia)) as Hs. rewrite take_app_length in Hs. lia.
  - destruct (decide (k = length pre)) as [?|Hne]; [done|]. destruct tl as [|t tl]; [cbn in Hk; lia|]. specialize (Htl ltac:(done)).
    pose proof (size_mono (length pre + 1) k (pre ++ t :: tl) ltac:(lia)) as Hs. rewrite take_app_add in Hs. lia.
Qed.

Lemma open_ok us multi body : Forall unit_ok us -> cmd_ok L table multi -> Forall (any L table) body -> Forall (cmd_ok L table) (open_transaction us multi body).
Proof.
  intros Hus Hm Hb. apply Forall_app. split; [by apply flats_ok|]. constructor; [done|]. eapply Forall_impl; [exact Hb|]. by intros ? [? _].
Qed.

Lemma load_open us multi body cut tl q : Forall unit_ok us -> cmd_ok L table multi -> proc_of table multi = Some multiCommand -> Forall (any L table) body ->
  Forall (cmd_ok L table) tl -> log tl = cut ++ q -> (tl <> [] -> blen cut < size (take 1 tl)) ->
  load (log (open_transaction us multi body) ++ cut) =
    Some (Loaded (effects us) (log (if blen cut =? 0 then flats us else open_transaction us multi body))).
Proof.
  intros Hus Hm Em Hb Htl E Hcut. set (cmds := open_transaction us multi body).
  assert (Forall (cmd_ok L table) (cmds ++ tl)) as Hok by (apply Forall_app; split; [by apply open_ok|done]).
  assert (log cmds ++ cut <> []) as Hne.
  { intros H. apply (f_equal blen) in H. unfold cmds, open_transaction in H. rewrite blen_app, log_app, blen_app in H. change (blen (log (multi :: body))) with (size (multi :: body)) in H.
    rewrite size_cons in H. pose proof (encode_nonempty multi). rewrite blen_nil in H. pose proof (blen_nonneg cut). pose proof (blen_nonneg (log (flats us))).
    pose proof (blen_nonneg (concat (encode <$> body))). unfold size in H. lia. }
  destruct (load_ok L alloc Halloc HL table (cmds ++ tl) (log cmds ++ cut) q Hok) as (k & c & m & Hk & Hsz & Hlt & Hr & Hmk & ->); [by rewrite log_app, E, app_assoc|done|].
  assert (blen (log cmds ++ cut) = size cmds + blen cut) as El by (by rewrite blen_app). pose proof (blen_nonneg cut).
  assert (k = length cmds) as ->.
  { apply (whole_commands cmds tl k (log cmds ++ cut)); try done; [lia|]. intros H1. specialize (Hcut H1). rewrite size_app. lia. }
  rewrite take_app_length in *. unfold cmds in Hr at 1. rewrite replay_open in Hr by done. injection Hr as <- <-. cbn [executed in_multi]. rewrite andb_true_r, El.
  replace (size cmds + blen cut =? size cmds) with (blen cut =? 0) by (destruct (Z.eqb_spec (blen cut) 0), (Z.eqb_spec (size cmds + blen cut) (size cmds)); (done || lia)).
  bcase; [|by rewrite take_app_length]. unfold cmds, open_transaction. by rewrite <- app_assoc, take_app_length.
Qed.


End Promises.

(** ** Examples *)

Definition ex_table : list (bytes * command_proc) :=
  [(str "multi", multiCommand); (str "exec", execCommand); (str "set", anyCommand); (str "select", anyCommand)].
Definition ex_alloc (n : Z) : bool := n <=? 100.
Definition ex_env : env := Env 7 false [Wrote 10; Interrupted; Wrote 1000] true true false.
Definition ex_set (k v : string) : list bytes := [str "SET"; str k; str v].
Definition ex_append (args : list bytes) : event := Append otherCommand 0 (RAW <$> args) 0.
Definition ex_us : list unit_ := [Single (select 0); Single (ex_set "a" "1"); Transaction [str "MULTI"] [ex_set "b" "2"; ex_set "c" "3"] [str "EXEC"]].
Definition ex_evs : list event := (ex_append <$> [ex_set "a" "1"; [str "MULTI"]; ex_set "b" "2"; ex_set "c" "3"; [str "EXEC"]]).

Lemma ex_alloc_ok n : 0 <= n <= 100 -> ex_alloc n = true.
Proof. intros. unfold ex_alloc. lia. Qed.

Ltac units := repeat constructor; first [by vm_compute | eexists; by vm_compute].
Ltac build_history :=
  repeat first
    [ eapply (history_append _ _ _ otherCommand 0); [split; [repeat constructor; by vm_compute|by vm_compute]|by vm_compute|by vm_compute|by vm_compute|]
    | eapply history_flush; [by vm_compute|]
    | apply history_nil ].

Lemma ex_us_ok : Forall (unit_ok 100 ex_table) ex_us.
Proof. units. Qed.

Lemma ex_history : exists cmds a,
  history (fun _ => 0) AOF_FSYNC_ALWAYS (start 0) (ex_evs ++ [Flush ex_env false]) cmds (Running a) /\ cmds = flats ex_us /\ disk a = log (flats ex_us).
Proof. eexists _, _. split; [build_history|]. split; by vm_compute. Qed.


Fixpoint ex_run (a : aof) (cmds : list (list bytes)) : option aof :=
  match cmds with
  | [] => Some a
  | args :: cmds => a ← feedAppendOnlyFile (fun _ => 0) a otherCommand 0 (RAW <$> args) 0; ex_run a cmds
  end.
Definition ex_a0 : aof := Eval vm_compute in default (start 0) (ex_run (start 0) [ex_set "a" "1"; [str "MULTI"]; ex_set "b" "2"; ex_set "c" "3"; [str "EXEC"]]).
Definition ex_a1 : aof := Eval vm_compute in state_of (flushAppendOnlyFile AOF_FSYNC_ALWAYS ex_env ex_a0 false).
Definition ex_a2 : aof := Eval vm_compute in default ex_a1 (ex_run ex_a1 [ex_set "d" "4"]).

Lemma ex_before : history (fun _ => 0) AOF_FSYNC_ALWAYS (start 0) ex_evs (flats ex_us) (Running ex_a0).
Proof.
  assert (flats ex_us = [select 0; ex_set "a" "1"] ++ [[str "MULTI"]] ++ [ex_set "b" "2"] ++ [ex_set "c" "3"] ++ [[str "EXEC"]] ++ []) as -> by (by vm_compute).
  build_history.
Qed.

Lemma ex_after : history (fun _ => 0) AOF_FSYNC_ALWAYS ex_a1 [ex_append (ex_set "d" "4")] [ex_set "d" "4"] (Running ex_a2).
Proof. rewrite <- (app_nil_r [ex_set "d" "4"]). build_history. Qed.

Lemma aof_durable_witness : exists j f,
  loadAppendOnlyFile ex_alloc true ex_table (log (flats ex_us)) = Some (Loaded (effects ex_us ++ effects (take j [Single (ex_set "d" "4")])) f).
Proof.
  apply (aof_durable 100 ex_alloc ex_alloc_ok eq_refl ex_table (fun _ => 0) AOF_FSYNC_ALWAYS 0 ex_evs (flats ex_us) ex_a0 ex_env false ex_a1
    [ex_append (ex_set "d" "4")] [ex_set "d" "4"] (Running ex_a2) ex_us [Single (ex_set "d" "4")] [] (log (flats ex_us))).
  - repeat constructor.
  - by split.
  - exact ex_before.
  - by vm_compute.
  - exact ex_after.
  - apply Forall_app. split; [exact ex_us_ok|units].
  - by vm_compute.
  - by vm_compute.
  - exists []. by vm_compute.
  - by vm_compute.
  - by vm_compute.
Defined.


End AofSafety.
