(* ===== verification/Rdb.v ===== *)
(** Strings in RDB files and in the payloads of DUMP and RESTORE, rdb.c: lengths,
    integers, compressed strings.

    SDS strings are the bytes they hold, and a terminator follows them. *)

From S2P Require Import Prelude Util Sds SdsText Lzf Repl Aof.

Module Rdb.
Import Util Sds SdsText Lzf Repl Aof.

(** ** Input and output *)

(** A computation on the file, which is the bytes written so far or those that
    are left to read. The inner [None] is the result [-1] or [NULL] of an error,
    the outer one undefined behaviour or an assertion. *)
Definition io (A : Type) : Type := bytes -> option (bytes * option A).

#[export] Instance io_ret : MRet io := fun A x rdb => Some (rdb, Some x).
#[export] Instance io_bind : MBind io := fun A B f m rdb =>
  match m rdb with
  | None => None
  | Some (rdb, None) => Some (rdb, None)
  | Some (rdb, Some x) => f x rdb
  end.
Definition error {A} : io A := fun rdb => Some (rdb, None).
Definition lift {A} (x : option A) : io A := fun rdb => x ← x; Some (rdb, Some x).

Definition RDB_6BITLEN : Z := 0.
Definition RDB_14BITLEN : Z := 1.
Definition RDB_32BITLEN : Z := 128.
Definition RDB_64BITLEN : Z := 129.
Definition RDB_ENCVAL : Z := 3.
Definition RDB_LENERR : Z := 2 ^ 64 - 1.
Definition RDB_ENC_INT8 : Z := 0.
Definition RDB_ENC_INT16 : Z := 1.
Definition RDB_ENC_INT32 : Z := 2.
Definition RDB_ENC_LZF : Z := 3.

(** ** Saving *)

(** The bytes of the integer, or the result [0] *)
Definition rdbEncodeInteger (value : Z) : option bytes :=
  if (value >=? - 2 ^ 7) && (value <=? 2 ^ 7 - 1) then
    Some [Z.lor (Z.shiftl RDB_ENCVAL 6) RDB_ENC_INT8; Z.land value 255]
  else if (value >=? - 2 ^ 15) && (value <=? 2 ^ 15 - 1) then
    Some [Z.lor (Z.shiftl RDB_ENCVAL 6) RDB_ENC_INT16; Z.land value 255; Z.land (Z.shiftr value 8) 255]
  else if (value >=? - 2 ^ 31) && (value <=? 2 ^ 31 - 1) then
    Some [Z.lor (Z.shiftl RDB_ENCVAL 6) RDB_ENC_INT32; Z.land value 255; Z.land (Z.shiftr value 8) 255; Z.land (Z.shiftr value 16) 255;
          Z.land (Z.shiftr value 24) 255]
  else None.

Fixpoint skip_digits (s : bytes) : bytes :=
  match s with c :: s' => if isdig c then skip_digits s' else s | [] => [] end.
(** [endptr] of [strtoll(s, &endptr, 10)]: what follows the number *)
Definition strtoll_end (s : bytes) : bytes :=
  let t := skip_spaces s in
  let t := match t with 45 :: t | 43 :: t => t | _ => t end in
  match t with c :: _ => if isdig c then skip_digits t else s | [] => s end.

Section Save.
(** The write of some bytes behind what was written can fail. *)
Context (fails : bytes -> bytes -> bool).
(** Fresh memory, the hash table of LZF, the configuration *)
Context (indet : nat -> Z) (htab0 : htab) (rdb_compression : bool).

(** The number of bytes written *)
Definition rdbWriteRaw (p : bytes) : io Z := fun rdb =>
  if fails rdb p then Some (rdb, None) else Some (rdb ++ p, Some (blen p)).

(** [htonl] and [htonu64] give the bytes in network order. *)
Definition rdbSaveLen (len : Z) : io Z :=
  if len <? 2 ^ 6 then
    _ ← rdbWriteRaw [Z.lor (Z.land len 255) (Z.shiftl RDB_6BITLEN 6)]; mret 1
  else if len <? 2 ^ 14 then
    _ ← rdbWriteRaw [Z.lor (Z.land (Z.shiftr len 8) 255) (Z.shiftl RDB_14BITLEN 6); Z.land len 255]; mret 2
  else if len <=? 2 ^ 32 - 1 then
    _ ← rdbWriteRaw [RDB_32BITLEN]; _ ← rdbWriteRaw (be_bytes 4 len); mret (1 + 4)
  else
    _ ← rdbWriteRaw [RDB_64BITLEN]; _ ← rdbWriteRaw (be_bytes 8 len); mret (1 + 8).

(** [None] is the result [0]. *)
Definition rdbTryIntegerEncoding (s : bytes) : option (option bytes) :=
  let value := strtol (c_str s) in
  if negb (default 0 (head (strtoll_end s)) =? 0) then Some None
  else
    buf ← ll_text indet 32 value;
    if bool_decide (buf = s) then Some (rdbEncodeInteger value) else Some None.

Definition rdbSaveLzfBlob (data : bytes) (compress_len original_len : Z) : io Z :=
  n1 ← rdbWriteRaw [Z.lor (Z.shiftl RDB_ENCVAL 6) RDB_ENC_LZF];
  n2 ← rdbSaveLen compress_len;
  n3 ← rdbSaveLen original_len;
  p ← lift (bread data 0 compress_len);
  n4 ← rdbWriteRaw p;
  mret (n1 + n2 + n3 + n4).

(** The lengths are passed as [unsigned int]. *)
Definition rdbSaveLzfStringObject (s : bytes) : io Z :=
  let len := blen s in
  if len <=? 4 then mret 0
  else
    let outlen := len - 4 in
    '(comprlen, out) ← lift (lzf_compress (s ++ [0]) (uint 32 len) (uint 32 outlen) htab0 (brealloc indet [] (outlen + 1)));
    if comprlen =? 0 then mret 0 else rdbSaveLzfBlob out comprlen len.

Definition rdbSaveRawString (s : bytes) : io Z :=
  let len := blen s in
  enc ← (if len <=? 11 then lift (rdbTryIntegerEncoding s) else mret None);
  match enc with
  | Some buf => rdbWriteRaw buf
  | None =>
      n ← (if rdb_compression && (len >? 20) then rdbSaveLzfStringObject s else mret 0);
      if n >? 0 then mret n
      else
        n ← rdbSaveLen len;
        if len >? 0 then _ ← rdbWriteRaw s; mret (n + len) else mret n
  end.

Definition rdbSaveLongLongAsStringObject (value : Z) : io Z :=
  match rdbEncodeInteger value with
  | Some buf => rdbWriteRaw buf
  | None =>
      buf ← lift (ll_text indet 32 value);
      if blen buf <? 32 then n1 ← rdbSaveLen (blen buf); n2 ← rdbWriteRaw buf; mret (n1 + n2) else lift None
  end.

Definition rdbSaveStringObject (obj : robj) : io Z :=
  match obj with INT v => rdbSaveLongLongAsStringObject v | RAW s => rdbSaveRawString s end.

End Save.

(** ** Loading *)

(** [RDB_LOAD_ENC], [RDB_LOAD_PLAIN] and [RDB_LOAD_SDS]; [RDB_LOAD_NONE] *)
Inductive load_flag := LOAD_NONE | LOAD_ENC | LOAD_PLAIN | LOAD_SDS.

Section Load.
(** Whether a block of that size can be allocated. Blocks of a fixed size, for
    objects and integers, always can. *)
Context (try_ok : Z -> bool) (indet : nat -> Z).

Definition rioRead (n : Z) : io bytes := fun rdb =>
  if n <=? blen rdb then Some (drop (Z.to_nat n) rdb, Some (take (Z.to_nat n) rdb)) else Some ([], None).

(** Whether the value is an encoding, and the value *)
Definition rdbLoadLenByRef : io (bool * Z) :=
  buf ← rioRead 1;
  b0 ← lift (bget buf 0);
  let type := Z.shiftr (Z.land b0 192) 6 in
  if type =? RDB_ENCVAL then mret (true, Z.land b0 63)
  else if type =? RDB_6BITLEN then mret (false, Z.land b0 63)
  else if type =? RDB_14BITLEN then
    buf ← rioRead 1;
    b1 ← lift (bget buf 0);
    mret (false, Z.lor (Z.shiftl (Z.land b0 63) 8) b1)
  else if b0 =? RDB_32BITLEN then len ← rioRead 4; mret (false, be_val len)
  else if b0 =? RDB_64BITLEN then len ← rioRead 8; mret (false, be_val len)
  else error.

(** The callers take [RDB_LENERR] for an error. *)
Definition rdbLoadLen : io (bool * Z) :=
  '(isencoded, len) ← rdbLoadLenByRef;
  if len =? RDB_LENERR then error else mret (isencoded, len).

Definition rdbLoadIntegerObject (enctype : Z) (flag : load_flag) : io robj :=
  val ← (if enctype =? RDB_ENC_INT8 then enc ← rioRead 1; mret (sint 8 (le_val enc))
         else if enctype =? RDB_ENC_INT16 then enc ← rioRead 2; mret (sint 16 (le_val enc))
         else if enctype =? RDB_ENC_INT32 then enc ← rioRead 4; mret (sint 32 (le_val enc))
         else error);
  match flag with
  | LOAD_PLAIN | LOAD_SDS => p ← lift (ll_text indet LONG_STR_SIZE val); mret (RAW p)
  | LOAD_ENC => mret (INT val)
  | LOAD_NONE => p ← lift ('(b, len) ← sdsll2str (fresh indet SDS_LLSTR_SIZE) val; bread b 0 len); mret (RAW p)
  end.

(** The allocation of [_sdsnewlen], which aborts when the size overflows *)
Definition sds_ok (len : Z) : option bool :=
  let type := sdsReqType len in
  let type := if is_type type SDS_TYPE_5 && (len =? 0) then SDS_TYPE_8 else type in
  let hdrlen := sdsHdrSize type in
  assert! uint 64 (len + hdrlen + 1) >? len;
  Some (try_ok (uint 64 (hdrlen + len + 1))).
(** [createRawStringObject] and [createEmbeddedStringObject] abort when there is
    no memory. An embedded string has its object and its header before it. *)
Definition createRawStringObject (len : Z) : option unit :=
  ok ← sds_ok len; if ok : bool then Some () else None.
Definition createStringObject (len : Z) : option unit :=
  if len <=? 44 then if try_ok (16 + 3 + len + 1) then Some () else None
  else createRawStringObject len.

Definition rdbLoadLzfStringObject (flag : load_flag) : io robj :=
  '(_, clen) ← rdbLoadLen;
  '(_, len) ← rdbLoadLen;
  if negb (try_ok clen) then error
  else
    ok ← match flag with LOAD_PLAIN => mret (try_ok len) | _ => lift (sds_ok len) end;
    if negb ok then error
    else
      c ← rioRead clen;
      '(n, val) ← lift (lzf_decompress c (uint 32 clen) (uint 32 len) (brealloc indet [] len));
      if negb (n =? len) then error else mret (RAW val).

Definition rdbGenericLoadStringObject (flag : load_flag) : io robj :=
  '(isencoded, len) ← rdbLoadLen;
  if isencoded : bool then
    if (len =? RDB_ENC_INT8) || (len =? RDB_ENC_INT16) || (len =? RDB_ENC_INT32) then rdbLoadIntegerObject len flag
    else if len =? RDB_ENC_LZF then rdbLoadLzfStringObject flag
    else error
  else
    ok ← match flag with
         | LOAD_PLAIN => mret (try_ok len)
         | LOAD_SDS => lift (sds_ok len)
         | LOAD_ENC => _ ← lift (createStringObject len); mret true
         | LOAD_NONE => _ ← lift (createRawStringObject len); mret true
         end;
    if negb ok then error
    else if len =? 0 then mret (RAW [])
    else s ← rioRead len; mret (RAW s).

End Load.
End Rdb.
