(* ===== verification/RdbSafety.v ===== *)
(** What saving and loading strings promises: any string object that is saved is
    loaded again, in each of the forms the callers ask for. *)

From S2P Require Import Prelude Util Sds SdsText Lzf LzfSpec LzfSafety Repl ReplInv ReplSpec Aof AofSpec Rdb.

Module RdbSafety.
Import Util Sds SdsText Lzf LzfSpec LzfSafety Repl ReplInv ReplSpec Aof AofSpec Rdb.

(** ** Computations *)

(** [m] reads [e] and gives [x]. *)
Definition loads {A} (m : io A) (e : bytes) (x : A) : Prop := forall rest, m (e ++ rest) = Some (rest, Some x).

Lemma loads_ret {A} (x : A) : loads (mret x) [] x.
Proof. done. Qed.
Lemma loads_bind {A B} (m : io A) (f : A -> io B) e1 e2 x y : loads m e1 x -> loads (f x) e2 y -> loads (m ≫= f) (e1 ++ e2) y.
Proof. intros H1 H2 rest. unfold mbind, io_bind. rewrite <- app_assoc, H1. apply H2. Qed.
Lemma loads_bind_l {A B} (m : io A) (f : A -> io B) e x y : loads m [] x -> loads (f x) e y -> loads (m ≫= f) e y.
Proof. apply (loads_bind m f []). Qed.
Lemma loads_bind_r {A B} (m : io A) (f : A -> io B) e x y : loads m e x -> loads (f x) [] y -> loads (m ≫= f) e y.
Proof. intros H1 H2. rewrite <- (app_nil_r e). by eapply loads_bind. Qed.
Lemma loads_pure {A B} (m : io A) (f : A -> B) e x : loads m e x -> loads (y ← m; mret (f y)) e (f x).
Proof. intros H. rewrite <- (app_nil_r e). eapply loads_bind; [exact H|apply loads_ret]. Qed.
Lemma loads_lift {A B} (o : option A) (f : A -> io B) e x y : o = Some x -> loads (f x) e y -> loads (lift o ≫= f) e y.
Proof. intros -> H rest. apply H. Qed.
Lemma loads_read e : loads (rioRead (blen e)) e e.
Proof.
  intros rest. unfold rioRead. rewrite blen_app. pose proof (blen_nonneg rest). bdec. by rewrite to_nat_blen, drop_app_length, take_app_length.
Qed.

(** [m] writes [e] and gives [x], unless a write fails. *)
Definition wrote (fails : bytes -> bytes -> bool) {A} (m : io A) (e : bytes) (x : A) : Prop := forall rdb,
  m rdb = Some (rdb ++ e, Some x) \/ (exists rdb p, fails rdb p = true) /\ exists rdb', m rdb = Some (rdb', None).

Section Save.
Context (fails : bytes -> bytes -> bool).
Local Abbreviation wrote := (wrote fails).

Lemma wrote_write p : wrote (rdbWriteRaw fails p) p (blen p).
Proof. intros rdb. unfold rdbWriteRaw. destruct (fails rdb p) eqn:E; [right|by left]. split; [by exists rdb, p|by eexists]. Qed.
Lemma wrote_ret {A} (x : A) : wrote (mret x) [] x.
Proof. intros rdb. left. by rewrite app_nil_r. Qed.
Lemma wrote_bind {A B} (m : io A) (f : A -> io B) e1 e2 x y : wrote m e1 x -> wrote (f x) e2 y -> wrote (m ≫= f) (e1 ++ e2) y.
Proof.
  intros H1 H2 rdb. unfold mbind, io_bind. destruct (H1 rdb) as [->|[Hf [rdb' ->]]]; [rewrite app_assoc; apply H2|]. right. split; [done|by eexists].
Qed.
Lemma wrote_lift {A B} (o : option A) (f : A -> io B) e x y : o = Some x -> wrote (f x) e y -> wrote (lift o ≫= f) e y.
Proof. intros -> H rdb. apply H. Qed.
Lemma wrote_pure {A B} (m : io A) (f : A -> B) e x : wrote m e x -> wrote (y ← m; mret (f y)) e (f x).
Proof. intros H. rewrite <- (app_nil_r e). eapply wrote_bind; [exact H|apply wrote_ret]. Qed.

Lemma wrote_one p (n : Z) : wrote (_ ← rdbWriteRaw fails p; mret n) p n.
Proof. exact (wrote_pure _ (fun _ => n) _ _ (wrote_write p)). Qed.
Lemma wrote_two p q (n : Z) : wrote (_ ← rdbWriteRaw fails p; _ ← rdbWriteRaw fails q; mret n) (p ++ q) n.
Proof. eapply wrote_bind; [apply wrote_write|apply wrote_one]. Qed.

End Save.

(** ** Lengths *)

Definition len_bytes (len : Z) : bytes :=
  if len <? 2 ^ 6 then [len]
  else if len <? 2 ^ 14 then [64 + len / 256; len mod 256]
  else if len <=? 2 ^ 32 - 1 then 128 :: be_bytes 4 len
  else 129 :: be_bytes 8 len.

Lemma wrote_len fails len : in_uint 64 len -> wrote fails (rdbSaveLen fails len) (len_bytes len) (blen (len_bytes len)).
Proof.
  intros Hl. unfold in_uint in Hl. unfold rdbSaveLen, len_bytes, RDB_6BITLEN, RDB_14BITLEN. repeat bcase.
  - rewrite land_ff, Z.mod_small, Z.lor_0_r by lia. apply wrote_one.
  - rewrite !land_ff, Z.shiftr_div_pow2 by lia. change (2 ^ 8) with 256. rewrite (Z.mod_small (len / 256)) by dlia.
    rewrite lor_shiftl by dlia. replace (len / 256 + 1 * 2 ^ 6) with (64 + len / 256) by lia. apply wrote_one.
  - rewrite blen_cons, blen_be_bytes. apply (wrote_two fails [128] (be_bytes 4 len)).
  - rewrite blen_cons, blen_be_bytes. apply (wrote_two fails [129] (be_bytes 8 len)).
Qed.

Lemma loads_first {A} (f : Z -> io A) b0 e y : loads (f b0) e y -> loads (buf ← rioRead 1; b0 ← lift (bget buf 0); f b0) (b0 :: e) y.
Proof.
  intros H. apply (loads_bind _ _ [b0] e [b0]); [apply (loads_read [b0])|]. eapply loads_lift; [by apply (bget_app [])|done].
Qed.

(** The fields of the first byte *)
Lemma first_byte b0 : is_byte b0 -> Z.shiftr (Z.land b0 192) 6 = b0 / 64 /\ Z.land b0 63 = b0 mod 64.
Proof.
  intros Hb. unfold is_byte in Hb. rewrite Z.shiftr_land. change (Z.shiftr 192 6) with (2 ^ 2 - 1). change 63 with (2 ^ 6 - 1). rewrite !land_ones_mod by done.
  rewrite Z.shiftr_div_pow2 by done. change (2 ^ 2) with 4. change (2 ^ 6) with 64. split; [|done]. dlia.
Qed.

Lemma loads_be n k len : k = Z.of_nat n -> 0 <= len < 2 ^ (8 * k) -> loads (l ← rioRead k; mret (false, be_val l)) (be_bytes n len) (false, len).
Proof.
  intros -> Hl. assert (be_val (be_bytes n len) = len) as E by (rewrite be_val_be_bytes; by apply Z.mod_small). rewrite <- E at 2.
  apply (loads_pure (rioRead (Z.of_nat n)) (fun l => (false, be_val l))). rewrite <- (blen_be_bytes n len). apply loads_read.
Qed.

Lemma loads_lenref len : in_uint 64 len -> loads rdbLoadLenByRef (len_bytes len) (false, len).
Proof.
  intros Hl. unfold in_uint in Hl. unfold rdbLoadLenByRef, len_bytes, RDB_ENCVAL, RDB_6BITLEN, RDB_14BITLEN, RDB_32BITLEN, RDB_64BITLEN. repeat bcase.
  - apply loads_first. destruct (first_byte len ltac:(unfold is_byte; lia)) as [E1 E2]. rewrite E1, E2. cbn zeta.
    assert (len / 64 = 0) as -> by dlia. rewrite Z.mod_small by lia. apply loads_ret.
  - apply loads_first. assert (0 <= len / 256 < 64) by dlia. destruct (first_byte (64 + len / 256) ltac:(unfold is_byte; lia)) as [E3 E4]. rewrite E3, E4. cbn zeta.
    assert ((64 + len / 256) / 64 = 1) as -> by dlia. apply loads_first. cbn.
    assert (Z.lor (Z.shiftl ((64 + len / 256) mod 64) 8) (len mod 256) = len) as ->; [|apply loads_ret].
    rewrite Z.lor_comm, lor_shiftl by dlia. change (2 ^ 8) with 256. dlia.
  - apply loads_first. apply (loads_be 4 4); [done|lia].
  - apply loads_first. apply (loads_be 8 8); [done|lia].
Qed.

Lemma loads_len len : 0 <= len < RDB_LENERR -> loads rdbLoadLen (len_bytes len) (false, len).
Proof.
  unfold RDB_LENERR. intros Hl. unfold rdbLoadLen. rewrite <- (app_nil_r (len_bytes len)). eapply loads_bind; [apply loads_lenref; unfold in_uint; lia|].
  unfold RDB_LENERR. bdec. apply loads_ret.
Qed.

(** An encoding *)
Lemma loads_encoding k : 0 <= k < 64 -> loads rdbLoadLen [192 + k] (true, k).
Proof.
  intros Hk. unfold rdbLoadLen. apply (loads_bind _ _ [192 + k] [] (true, k)); [|unfold RDB_LENERR; bdec; apply loads_ret].
  unfold rdbLoadLenByRef. apply loads_first. destruct (first_byte (192 + k) ltac:(unfold is_byte; lia)) as [E1 E2]. rewrite E1, E2. cbn zeta.
  assert ((192 + k) / 64 = 3) as -> by dlia. assert ((192 + k) mod 64 = k) as -> by dlia. apply loads_ret.
Qed.

(** ** Integers *)

Lemma encode_integer v e : rdbEncodeInteger v = Some e ->
  exists k n, (k = 0 /\ n = 1%nat \/ k = 1 /\ n = 2%nat \/ k = 2 /\ n = 4%nat) /\ in_sint (8 * Z.of_nat n) v /\ e = [192 + k] ++ le_bytes n v.
Proof.
  unfold rdbEncodeInteger. rewrite !land_ff, !Z.shiftr_div_pow2 by done. unfold in_sint. repeat bcase; [| | |done]; intros [= <-].
  - exists 0, 1%nat. split_and!; [lia|lia|lia|done].
  - exists 1, 2%nat. split_and!; [lia|lia|lia|done].
  - exists 2, 4%nat. split_and!; [lia|lia|lia|]. cbn. rewrite !Z.div_div by done. done.
Qed.

Lemma integer_small v e : rdbEncodeInteger v = Some e -> - 2 ^ 31 <= v < 2 ^ 31.
Proof. intros H. apply encode_integer in H as (k & n & Hk & Hv & _). unfold in_sint in Hv. destruct Hk as [[_ ->]|[[_ ->]|[_ ->]]]; cbn in Hv; lia. Qed.

Section Load.
Context (try_ok : Z -> bool) (indet : nat -> Z).

Lemma sdsll2str_dec v : - 2 ^ 31 <= v < 2 ^ 31 -> ('(b, len) ← sdsll2str (fresh indet SDS_LLSTR_SIZE) v; bread b 0 len) = Some (dec v).
Proof.
  intros Hv. assert (in_sint 64 v) as H64 by (unfold in_sint; lia).
  destruct (sdsll2str_ok (fresh indet SDS_LLSTR_SIZE) v H64 ltac:(unfold LLONG_MIN; lia) ltac:(by vm_compute)) as (D & r & -> & HD). rewrite bind_Some.
  rewrite (decimal_unique D (dec v) v HD (proj1 (dec_ok v H64))). by apply (bread_app [] (dec v) (0 :: r)).
Qed.

Lemma loads_integer v e flag : rdbEncodeInteger v = Some e ->
  exists o, loads (rdbGenericLoadStringObject try_ok indet flag) e o /\ text o = dec v.
Proof.
  intros He. pose proof (integer_small v e He) as Hsm. assert (in_sint 64 v) as H64 by (unfold in_sint; lia).
  apply encode_integer in He as (k & n & Hk & Hv & ->).
  exists (match flag with LOAD_ENC => INT v | _ => RAW (dec v) end). split; [|by destruct flag].
  unfold rdbGenericLoadStringObject. eapply loads_bind; [apply loads_encoding; lia|]. cbn beta iota.
  unfold RDB_ENC_INT8, RDB_ENC_INT16, RDB_ENC_INT32. bdec. unfold rdbLoadIntegerObject, RDB_ENC_INT8, RDB_ENC_INT16, RDB_ENC_INT32.
  rewrite <- (app_nil_r (le_bytes n v)). eapply (loads_bind _ _ _ _ v).
  - assert (loads (rioRead (Z.of_nat n)) (le_bytes n v) (le_bytes n v)) as Hr by (rewrite <- (blen_le_bytes n v); apply loads_read).
    apply (loads_pure _ (fun enc => sint (8 * Z.of_nat n) (le_val enc))) in Hr. rewrite sint_le_bytes in Hr by (done || lia).
    destruct Hk as [[-> ->]|[[-> ->]|[-> ->]]]; exact Hr.
  - destruct flag; [|apply loads_ret| |]; (eapply loads_lift; [|apply loads_ret]).
    + by apply sdsll2str_dec.
    + by apply ll_text_ok.
    + by apply ll_text_ok.
Qed.

(** ** Strings *)

(** Strings of up to [L] bytes can be allocated. *)
Context (L : Z) (Htry : forall n, 0 <= n <= L + 20 -> try_ok n = true) (HL : L + 20 < 2 ^ 64).
Local Abbreviation load := (rdbGenericLoadStringObject try_ok indet).

Lemma sds_ok_true len : 0 <= len <= L -> sds_ok try_ok len = Some true.
Proof.
  intros Hl. unfold sds_ok. cbn zeta. set (type := if _ && _ then _ else _). pose proof (hdr_size type). rewrite !uint_small by (unfold in_uint; lia). bdec. by rewrite Htry by lia.
Qed.

(** The allocation of the string *)
Lemma alloc_loads len flag : 0 <= len <= L ->
  loads match flag with
        | LOAD_PLAIN => mret (try_ok len)
        | LOAD_SDS => lift (sds_ok try_ok len)
        | LOAD_ENC => _ ← lift (createStringObject try_ok len); mret true
        | LOAD_NONE => _ ← lift (createRawStringObject try_ok len); mret true
        end [] true.
Proof.
  intros Hl. destruct flag; unfold createStringObject, createRawStringObject; rewrite ?sds_ok_true, ?Htry by lia; [done| |done|done].
  by destruct (len <=? 44).
Qed.
Lemma alloc_loads' len flag : 0 <= len <= L -> loads match flag with LOAD_PLAIN => mret (try_ok len) | _ => lift (sds_ok try_ok len) end [] true.
Proof. intros Hl. destruct flag; rewrite ?sds_ok_true, ?Htry by lia; done. Qed.

Lemma loads_plain s flag : blen s <= L -> loads (load flag) (len_bytes (blen s) ++ s) (RAW s).
Proof.
  intros Hs. pose proof (blen_nonneg s). unfold rdbGenericLoadStringObject. eapply loads_bind; [apply loads_len; unfold RDB_LENERR; lia|]. cbn beta iota.
  eapply loads_bind_l; [by apply alloc_loads|].
  cbn [negb]. bcase; [apply blen_0 in E as ->; apply loads_ret|]. apply (loads_pure _ RAW), loads_read.
Qed.

Lemma loads_lzf ts s flag : Forall token_ok ts -> expands [] ts = Some s -> blen (sers ts) <= L -> blen s <= L -> L < 2 ^ 32 ->
  loads (load flag) ([195] ++ len_bytes (blen (sers ts)) ++ len_bytes (blen s) ++ sers ts) (RAW s).
Proof.
  intros Hts He Hc Hs HL32. pose proof (blen_nonneg s). pose proof (blen_nonneg (sers ts)). unfold rdbGenericLoadStringObject.
  eapply loads_bind; [apply (loads_encoding 3); lia|]. cbn beta iota. unfold RDB_ENC_INT8, RDB_ENC_INT16, RDB_ENC_INT32, RDB_ENC_LZF. bdec. cbn [orb].
  unfold rdbLoadLzfStringObject. eapply loads_bind; [apply loads_len; unfold RDB_LENERR; lia|]. cbn beta iota.
  eapply loads_bind; [apply loads_len; unfold RDB_LENERR; lia|]. cbn beta iota. rewrite Htry by lia. cbn [negb].
  eapply loads_bind_l; [by apply alloc_loads'|].
  cbn [negb]. eapply loads_bind_r; [apply loads_read|]. cbn beta.
  destruct (decompress_tokens ts s (brealloc indet [] (blen s)) (blen s) Hts He) as (val & Ed & [r Hp] & Hl).
  { rewrite blen_alloc by done. lia. }
  rewrite !uint_small by (unfold in_uint; lia). eapply loads_lift; [exact Ed|]. cbn beta iota. bdec.
  rewrite blen_alloc, Hp, blen_app in Hl by done. assert (r = []) as -> by (apply blen_0; lia). rewrite app_nil_r in Hp. rewrite Hp. apply loads_ret.
Qed.

(** ** Saving *)

Context (fails : bytes -> bytes -> bool) (htab0 : htab) (Htab : table_ok htab0) (rdb_compression : bool).
Local Abbreviation wrote := (wrote fails).

Lemma wrote_bind_l {A B} (m : io A) (f : A -> io B) e x y : wrote m [] x -> wrote (f x) e y -> wrote (m ≫= f) e y.
Proof. apply (wrote_bind fails m f []). Qed.
Lemma wrote_bind_r {A B} (m : io A) (f : A -> io B) e x y : wrote m e x -> wrote (f x) [] y -> wrote (m ≫= f) e y.
Proof. intros H1 H2. rewrite <- (app_nil_r e). by eapply wrote_bind. Qed.

Lemma try_integer s : exists r, rdbTryIntegerEncoding indet s = Some r /\
  forall e, r = Some e -> exists v, rdbEncodeInteger v = Some e /\ s = dec v.
Proof.
  unfold rdbTryIntegerEncoding. bcase; [by exists None|]. assert (in_sint 64 (strtol (c_str s))) as Hv by (unfold strtol, in_sint; lia).
  rewrite ll_text_ok, bind_Some by done. case_bool_decide as Hd; [|by exists None]. eexists. split; [done|]. intros e He. by eexists.
Qed.

(** The bytes [e] that are written are loaded as [t], whatever the form. *)
Definition stored (e t : bytes) : Prop := forall flag, exists o, loads (load flag) e o /\ text o = t.

Lemma lzf_blob_ok out ts s : blen (sers ts) <= L -> blen s <= L -> take (Z.to_nat (blen (sers ts))) out = sers ts ->
  let e := [195] ++ len_bytes (blen (sers ts)) ++ len_bytes (blen s) ++ sers ts in
  wrote (rdbSaveLzfBlob fails out (blen (sers ts)) (blen s)) e (blen e).
Proof.
  intros Hc Hs Hout e. pose proof (blen_nonneg s). pose proof (blen_nonneg (sers ts)). unfold rdbSaveLzfBlob, e.
  eapply wrote_bind; [apply (wrote_write fails [195])|]. eapply wrote_bind; [apply wrote_len; unfold in_uint; lia|].
  eapply wrote_bind; [apply wrote_len; unfold in_uint; lia|]. eapply wrote_lift.
  { rewrite <- (take_drop (Z.to_nat (blen (sers ts))) out), Hout. by apply (bread_app [] (sers ts)). }
  rewrite !blen_app, !Z.add_assoc. apply (wrote_pure fails _ (fun n => _ + n)), wrote_write.
Qed.

Lemma save_lzf_ok s : is_bytes s -> blen s <= L -> L < 2 ^ 32 -> 4 < blen s ->
  wrote (rdbSaveLzfStringObject fails indet htab0 s) [] 0 \/
  exists e, wrote (rdbSaveLzfStringObject fails indet htab0 s) e (blen e) /\ 0 < blen e /\ stored e s.
Proof.
  intros Hb Hs HL32 H4. unfold rdbSaveLzfStringObject. bdec. rewrite !uint_small by (unfold in_uint; lia).
  assert (is_bytes (s ++ [0])) as Hb0 by (apply Forall_app; split; [done|by repeat constructor]).
  assert (blen (s ++ [0]) = blen s + 1) as E0 by (by rewrite blen_app).
  destruct (lzf_compress_ok (s ++ [0]) (blen s) (blen s - 4) ltac:(lia) ltac:(lia) Hb0 htab0 (brealloc indet [] (blen s - 4 + 1)) Htab)
    as (n & out & E & Hn); [lia|rewrite blen_alloc by lia; lia|].
  destruct Hn as [->|(Hn & ts & Hts & En & Hout & He)].
  - left. eapply wrote_lift; [exact E|]. apply wrote_ret.
  - right. rewrite to_nat_blen, take_app_length in He. rewrite En in Hn, Hout.
    exists ([195] ++ len_bytes (blen (sers ts)) ++ len_bytes (blen s) ++ sers ts). split_and!.
    + eapply wrote_lift; [exact E|]. cbn beta iota. rewrite En. bdec. apply lzf_blob_ok; [lia|done|done].
    + rewrite blen_app. change (blen [195]) with 1. pose proof (blen_nonneg (len_bytes (blen (sers ts)) ++ len_bytes (blen s) ++ sers ts)). lia.
    + intros flag. exists (RAW s). split; [apply loads_lzf; (done || lia)|done].
Qed.

Lemma save_plain_ok s : blen s <= L ->
  wrote (n ← rdbSaveLen fails (blen s); if blen s >? 0 then _ ← rdbWriteRaw fails s; mret (n + blen s) else mret n)
    (len_bytes (blen s) ++ s) (blen (len_bytes (blen s) ++ s)).
Proof.
  intros Hs. pose proof (blen_nonneg s). rewrite blen_app. eapply wrote_bind; [apply wrote_len; unfold in_uint; lia|].
  bcase; [apply wrote_one|]. assert (s = []) as -> by (apply blen_0; lia). rewrite blen_nil, Z.add_0_r. apply wrote_ret.
Qed.

Lemma save_raw_ok s : is_bytes s -> blen s <= L -> rdb_compression = false \/ L < 2 ^ 32 ->
  exists e, wrote (rdbSaveRawString fails indet htab0 rdb_compression s) e (blen e) /\ stored e s.
Proof.
  intros Hb Hs HL32. unfold rdbSaveRawString.
  assert (exists r, wrote (if blen s <=? 11 then lift (rdbTryIntegerEncoding indet s) else mret None) [] r /\
    forall e, r = Some e -> exists v, rdbEncodeInteger v = Some e /\ s = dec v) as (r & Hr & Hint).
  { bcase; [|exists None; split; [apply wrote_ret|done]]. destruct (try_integer s) as (r & E1 & H). exists r. split; [|done].
    intros rdb. left. unfold lift. rewrite E1, bind_Some, app_nil_r. done. }
  destruct r as [e|].
  { destruct (Hint e eq_refl) as (v & He & ->). exists e. split; [eapply wrote_bind_l; [exact Hr|apply wrote_write]|]. intros flag. by apply loads_integer. }
  assert (stored (len_bytes (blen s) ++ s) s) as Hplain by (intros flag; exists (RAW s); split; [by apply loads_plain|done]).
  destruct (rdb_compression && (blen s >? 20)) eqn:E.
  - apply andb_true_iff in E as [Ec El]. destruct HL32 as [?|HL32]; [congruence|].
    destruct (save_lzf_ok s Hb Hs HL32 ltac:(lia)) as [H0|(e & H0 & Hpos & Hst)].
    + exists (len_bytes (blen s) ++ s). split; [|done]. eapply wrote_bind_l; [exact Hr|]. eapply wrote_bind_l; [exact H0|]. by apply save_plain_ok.
    + exists e. split; [|done]. eapply wrote_bind_l; [exact Hr|]. eapply wrote_bind_r; [exact H0|]. bdec. apply wrote_ret.
  - exists (len_bytes (blen s) ++ s). split; [|done]. eapply wrote_bind_l; [exact Hr|]. eapply wrote_bind_l; [apply wrote_ret|]. by apply save_plain_ok.
Qed.

Lemma save_integer_ok v : in_sint 64 v -> 20 <= L ->
  exists e, wrote (rdbSaveLongLongAsStringObject fails indet v) e (blen e) /\ stored e (dec v).
Proof.
  intros Hv H20. unfold rdbSaveLongLongAsStringObject. destruct (rdbEncodeInteger v) as [e|] eqn:E.
  - exists e. split; [apply wrote_write|]. intros flag. by apply loads_integer.
  - pose proof (dec_ok v Hv) as [Hd _]. pose proof (decimal_short _ _ Hv Hd).
    exists (len_bytes (blen (dec v)) ++ dec v). split; [|intros flag; exists (RAW (dec v)); split; [apply loads_plain; lia|done]].
    eapply wrote_lift; [by apply ll_text_ok|]. cbn beta. bdec. rewrite blen_app. pose proof (blen_nonneg (dec v)).
    eapply wrote_bind; [apply wrote_len; unfold in_uint; lia|]. apply (wrote_pure fails _ (fun n => _ + n)), wrote_write.
Qed.

(** ** Strings of 4 GB *)

(** [m] gives an error on [e]. *)
Definition refuses {A} (m : io A) (e : bytes) : Prop := forall rest, exists rest', m (e ++ rest) = Some (rest', None).

Lemma refuses_bind {A B} (m : io A) (f : A -> io B) e1 e2 x : loads m e1 x -> refuses (f x) e2 -> refuses (m ≫= f) (e1 ++ e2).
Proof. intros H1 H2 rest. unfold mbind, io_bind. rewrite <- app_assoc, H1. apply H2. Qed.

(** The output has less bytes than announced. *)
Lemma refuses_lzf c len flag : is_bytes c -> blen c <= L -> blen c < 2 ^ 32 -> 2 ^ 32 <= len <= L ->
  refuses (load flag) ([195] ++ len_bytes (blen c) ++ len_bytes len ++ c).
Proof.
  intros Hc Hcl Hc32 Hl. pose proof (blen_nonneg c). unfold rdbGenericLoadStringObject.
  eapply refuses_bind; [apply (loads_encoding 3); lia|]. cbn beta iota. unfold RDB_ENC_INT8, RDB_ENC_INT16, RDB_ENC_INT32, RDB_ENC_LZF. bdec. cbn [orb].
  unfold rdbLoadLzfStringObject. eapply refuses_bind; [apply loads_len; unfold RDB_LENERR; lia|]. cbn beta iota.
  eapply refuses_bind; [apply loads_len; unfold RDB_LENERR; lia|]. cbn beta iota. rewrite Htry by lia. cbn [negb].
  apply (refuses_bind _ _ [] c true); [apply alloc_loads'; lia|]. cbn [negb]. rewrite <- (app_nil_r c) at 2.
  eapply refuses_bind; [apply loads_read|]. cbn beta. rewrite (uint_small 32 (blen c)) by (unfold in_uint; lia). pose proof (uint_range 32 len ltac:(lia)).
  destruct (lzf_decompress_ok c (brealloc indet [] len) (uint 32 len) Hc) as (n & val & E & _ & Hn); [rewrite blen_alloc by lia; unfold in_uint in *; lia|].
  assert (n <> len) by (destruct Hn as [(r & (ts & _ & _ & _ & Hle) & -> & _)|[-> _]]; unfold in_uint in *; lia).
  intros rest. exists rest. unfold lift, mbind, io_bind. rewrite E. cbn. bdec. done.
Qed.

Lemma save_lzf_large s n out : is_bytes s -> 2 ^ 32 <= blen s <= L -> 0 < n ->
  lzf_compress (s ++ [0]) (uint 32 (blen s)) (uint 32 (blen s - 4)) htab0 (brealloc indet [] (blen s - 4 + 1)) = Some (n, out) ->
  exists e, wrote (rdbSaveLzfStringObject fails indet htab0 s) e (blen e) /\ 0 < blen e /\ forall flag, refuses (load flag) e.
Proof.
  intros Hb Hs Hn E. unfold rdbSaveLzfStringObject. bdec. pose proof (uint_range 32 (blen s) ltac:(lia)) as U1. pose proof (uint_range 32 (blen s - 4) ltac:(lia)) as U2.
  unfold in_uint in U1, U2. assert (uint 32 (blen s - 4) <= blen s - 4) as U3 by (unfold uint; apply Z.mod_le; lia).
  assert (is_bytes (s ++ [0])) as Hb0 by (apply Forall_app; split; [done|by repeat constructor]).
  assert (blen (s ++ [0]) = blen s + 1) as E0 by (by rewrite blen_app).
  destruct (lzf_compress_ok (s ++ [0]) (uint 32 (blen s)) (uint 32 (blen s - 4)) ltac:(lia) ltac:(lia) Hb0 htab0 (brealloc indet [] (blen s - 4 + 1)) Htab)
    as (n' & out' & E' & Hn'); [lia|rewrite blen_alloc by lia; lia|]. rewrite E in E'. injection E' as <- <-.
  destruct Hn' as [->|(Hn' & ts & Hts & En & Hout & _)]; [lia|]. rewrite En in Hn', Hout.
  exists ([195] ++ len_bytes (blen (sers ts)) ++ len_bytes (blen s) ++ sers ts). split_and!.
  - eapply wrote_lift; [exact E|]. cbn beta iota. rewrite En. bdec. apply lzf_blob_ok; [lia|lia|done].
  - rewrite blen_app. change (blen [195]) with 1. pose proof (blen_nonneg (len_bytes (blen (sers ts)) ++ len_bytes (blen s) ++ sers ts)). lia.
  - intros flag. apply refuses_lzf; [by apply sers_bytes|lia|lia|lia].
Qed.

End Load.

(** C10: String objects in RDB files. Saving a string writes bytes, and gives their
    number, unless a write fails, and then it gives an error. The bytes are loaded
    as a string with the same text, in each of the forms the callers ask for, and
    what follows them is left: for integers of 8, 16, 32 and 64 bits, strings that
    look like one, compressed strings and any others. Strings must fit in memory,
    and be shorter than 4 GB when compression is on. *)
Theorem rdb_string_roundtrip try_ok indet L fails htab0 rdb_compression obj :
  (forall n, 0 <= n <= L + 20 -> try_ok n = true) -> 20 <= L -> L + 20 < 2 ^ 64 -> table_ok htab0 ->
  rdb_compression = false \/ L < 2 ^ 32 ->
  match obj with INT v => in_sint 64 v | RAW s => is_bytes s /\ blen s <= L end ->
  exists e, wrote fails (rdbSaveStringObject fails indet htab0 rdb_compression obj) e (blen e) /\
    forall flag, exists o, loads (rdbGenericLoadStringObject try_ok indet flag) e o /\ text o = text obj.
Proof.
  intros Htry H20 HL Htab Hc Ho. destruct obj as [v|s].
  - by apply (save_integer_ok try_ok indet L Htry HL).
  - destruct Ho. by apply (save_raw_ok try_ok indet L Htry HL).
Qed.

(** C24: Strings of 4 GB and more. LZF takes lengths of 32 bits, and only what the
    length leaves modulo [2 ^ 32] is compressed. When this succeeds, the string is
    saved without an error, in a form that is refused whenever it is loaded. *)
Theorem rdb_large_string_lost try_ok indet L fails htab0 s n out :
  (forall n, 0 <= n <= L + 20 -> try_ok n = true) -> L + 20 < 2 ^ 64 -> table_ok htab0 ->
  is_bytes s -> 2 ^ 32 <= blen s <= L ->
  lzf_compress (s ++ [0]) (uint 32 (blen s)) (uint 32 (blen s - 4)) htab0 (brealloc indet [] (blen s - 4 + 1)) = Some (n, out) -> 0 < n ->
  exists e, wrote fails (rdbSaveStringObject fails indet htab0 true (RAW s)) e (blen e) /\
    forall flag, refuses (rdbGenericLoadStringObject try_ok indet flag) e.
Proof.
  intros Htry HL Htab Hb Hs E Hn. destruct (save_lzf_large try_ok indet L Htry HL fails htab0 Htab s n out Hb Hs Hn E) as (e & Hw & He & Hr).
  exists e. split; [|done]. cbn [rdbSaveStringObject]. unfold rdbSaveRawString. assert (blen s <=? 11 = false) as -> by lia.
  assert (blen s >? 20 = true) as -> by lia. eapply wrote_bind_l; [apply wrote_ret|]. cbn [andb].
  eapply wrote_bind_r; [exact Hw|]. assert (blen e >? 0 = true) as -> by lia. apply wrote_ret.
Qed.

(** ** Examples *)

Lemma rdb_string_roundtrip_witness :
  (exists e, wrote (fun _ _ => false) (rdbSaveStringObject (fun _ _ => false) (fun _ => 7) (fun _ => 0) true (RAW ex_text)) e (blen e) /\
     forall flag, exists o, loads (rdbGenericLoadStringObject (fun n => n <? 1000) (fun _ => 7) flag) e o /\ text o = ex_text) /\
  (exists e, wrote (fun _ _ => false) (rdbSaveStringObject (fun _ _ => false) (fun _ => 7) (fun _ => 0) true (INT (- 70000))) e (blen e) /\
     forall flag, exists o, loads (rdbGenericLoadStringObject (fun n => n <? 1000) (fun _ => 7) flag) e o /\ text o = dec (- 70000)).
Proof.
  split.
  - apply (rdb_string_roundtrip (fun n => n <? 1000) (fun _ => 7) 900 (fun _ _ => false) (fun _ => 0) true (RAW ex_text)); try lia; [done|].
    split; [by repeat constructor|by vm_compute].
  - apply (rdb_string_roundtrip (fun n => n <? 1000) (fun _ => 7) 900 (fun _ _ => false) (fun _ => 0) true (INT (- 70000))); try lia; [done|].
    unfold in_sint. lia.
Defined.

(** The string is compressed. *)
Example ex_saved :
  (match rdbSaveStringObject (fun _ _ => false) (fun _ => 7) (fun _ => 0) true (RAW ex_text) [] with Some (rdb, Some n) => Some (blen rdb, n) | _ => None end)
  = Some (17, 17).
Proof. by vm_compute. Qed.

(** The letter a, 4 GB and 100 bytes of it *)
Definition ex_large : bytes := replicate (Z.to_nat (2 ^ 32 + 100)) 97.

Lemma zero_table : table_ok (fun _ => 0).
Proof. done. Qed.
Lemma replicate_bytes n v : is_byte v -> is_bytes (replicate n v).
Proof. apply Forall_replicate. Qed.
Lemma alloc_const v n : brealloc (fun _ => v) [] n = replicate (Z.to_nat n) v.
Proof. unfold brealloc. rewrite take_nil. cbn. rewrite Nat.sub_0_r. generalize (Z.to_nat n), 0%nat. intros k. induction k as [|k IH]; intros i; [done|]. cbn. by rewrite IH. Qed.

Lemma ex_large_compress N :
  lzf_compress (replicate (100 + N) 97 ++ [0]) 100 96 (fun _ => 0) (replicate (97 + N) 0) =
  Some (9, ([1; 97; 97; 224; 87; 0; 1; 97; 97] ++ replicate 88 0) ++ replicate N 0).
Proof. rewrite !replicate_add, <- app_assoc. apply lzf_compress_ext. by vm_compute. Qed.

Lemma rdb_large_string_lost_witness :
  exists e, wrote (fun _ _ => false) (rdbSaveStringObject (fun _ _ => false) (fun _ => 0) (fun _ => 0) true (RAW ex_large)) e (blen e) /\
    forall flag, refuses (rdbGenericLoadStringObject (fun n => n <? 2 ^ 40) (fun _ => 0) flag) e.
Proof.
  assert (blen ex_large = 2 ^ 32 + 100) as El by (unfold ex_large; rewrite blen_replicate; lia).
  apply (rdb_large_string_lost (fun n => n <? 2 ^ 40) (fun _ => 0) (2 ^ 33) (fun _ _ => false) (fun _ => 0) ex_large 9
    (([1; 97; 97; 224; 87; 0; 1; 97; 97] ++ replicate 88 0) ++ replicate (Z.to_nat (2 ^ 32)) 0)); [lia|lia|exact zero_table|apply replicate_bytes; unfold is_byte; lia|lia| |lia].
  rewrite El, alloc_const. replace (uint 32 (2 ^ 32 + 100)) with 100 by (clear; reflexivity). replace (uint 32 (2 ^ 32 + 100 - 4)) with 96 by (clear; reflexivity). unfold ex_large.
  replace (Z.to_nat (2 ^ 32 + 100)) with (100 + Z.to_nat (2 ^ 32))%nat by lia.
  replace (Z.to_nat (2 ^ 32 + 100 - 4 + 1)) with (97 + Z.to_nat (2 ^ 32))%nat by lia. exact (ex_large_compress (Z.to_nat (2 ^ 32))).
Defined.

End RdbSafety.
