(* ===== verification/Stream.v ===== *)
(** t_stream.c / stream.h: stream IDs. Arithmetic and comparison on the
    128-bit IDs, generation from the clock, the big endian encoding used as
    radix tree key, printing and parsing; with [string2ull] of util.c. *)

From S2P Require Import Prelude Endian Util Sds SdsText.
Import Endian Util Sds SdsText.

Module Stream.

Definition UINT64_MAX : Z := 2 ^ 64 - 1.

Record streamID := StreamID { ms : Z; seq : Z }.

Definition streamIncrID (id : streamID) : streamID * retcode :=
  if seq id =? UINT64_MAX then
    if ms id =? UINT64_MAX then (StreamID 0 0, C_ERR)
    else (StreamID (uint 64 (ms id + 1)) 0, C_OK)
  else (StreamID (ms id) (uint 64 (seq id + 1)), C_OK).

Definition streamDecrID (id : streamID) : streamID * retcode :=
  if seq id =? 0 then
    if ms id =? 0 then (StreamID UINT64_MAX UINT64_MAX, C_ERR)
    else (StreamID (uint 64 (ms id - 1)) UINT64_MAX, C_OK)
  else (StreamID (ms id) (uint 64 (seq id - 1)), C_OK).

(** [mstime] is the value the clock returns. *)
Definition streamNextID (mstime : Z) (last_id : streamID) : streamID :=
  let now := uint 64 mstime in
  if now >? ms last_id then StreamID now 0 else fst (streamIncrID last_id).

Definition streamCompareID (a b : streamID) : Z :=
  if ms a >? ms b then 1
  else if ms a <? ms b then -1
  else if seq a >? seq b then 1
  else if seq a <? seq b then -1
  else 0.

Section Host.
Context (e : endian).

Definition streamEncodeID (buf : bytes) (id : streamID) : option bytes :=
  e0 ← htonu64 e (ms id);
  e1 ← htonu64 e (seq id);
  bwrite buf 0 (host_store e 8 e0 ++ host_store e 8 e1).

Definition streamDecodeID (buf : bytes) : option streamID :=
  b0 ← bread buf 0 8; b1 ← bread buf 8 8;
  m ← ntohu64 e (host_load e b0);
  s ← ntohu64 e (host_load e b1);
  Some (StreamID m s).
End Host.

(** The check at the start of [streamAppendItem]: the ID of the new entry, or
    the error return. *)
Definition append_id (mstime : Z) (last_id : streamID) (use_id : option streamID) : option streamID :=
  let id := match use_id with Some id => id | None => streamNextID mstime last_id end in
  if streamCompareID id last_id <=? 0 then None else Some id.

(** ** Text *)

(** The longest prefix of digits. *)
Fixpoint digit_span (s : bytes) : bytes * bytes :=
  match s with
  | c :: t => if isdig c then let '(d, r) := digit_span t in (c :: d, r) else ([], s)
  | [] => ([], [])
  end.

(** [strtoull(s, &endptr, 10)]: the value, whether [errno] is [ERANGE], and
    the string at [endptr]. *)
Definition strtoull (s : bytes) : Z * bool * bytes :=
  let t := drop_while isspace s in
  let '(neg, t) := match t with
                   | 45 :: t => (true, t)
                   | 43 :: t => (false, t)
                   | _ => (false, t)
                   end in
  let '(d, r) := digit_span t in
  match d with
  | [] => (0, false, s)
  | _ => let v := dec_val d in
         if v >? ULLONG_MAX then (ULLONG_MAX, true, r)
         else (if neg : bool then uint 64 (- v) else v, false, r)
  end.

Definition string2ull (b : bytes) : option (option Z) :=
  s ← cstr b;
  r ← string2ll s (blen s);
  match r with
  | Some ll => Some (if ll <? 0 then None else Some ll)
  | None =>
      let '(value, erange, endptr) := strtoull s in
      Some (if erange || negb (negb (bool_decide (s = [])) && bool_decide (endptr = [])) then None else Some value)
  end.

(** [strchr(s, c)] as an index. *)
Fixpoint find_char (c : Z) (s : bytes) : option Z :=
  match s with
  | [] => None
  | x :: s => if x =? c then Some 0 else k ← find_char c s; Some (k + 1)
  end.

Section Alloc.
Context (usable : Z -> Z) (try_ok : Z -> bool) (indet : nat -> Z).

Definition createObjectFromStreamID (id : streamID) : option sds :=
  s ← sdsempty usable try_ok indet;
  sdscatfmt usable indet s (str "%U-%U" ++ [0]) [ArgULL (ms id); ArgULL (seq id)].

(** The body after the special cases: [<ms>-<seq>] or [<ms>]. *)
Definition parse_ms_seq (buf : bytes) (missing_seq : Z) : option (option streamID) :=
  s ← cstr buf;
  match find_char 45 s with
  | Some dot =>
      buf ← bset buf dot 0;
      m ← string2ull buf;
      match m with
      | None => Some None
      | Some m => q ← string2ull (drop (Z.to_nat (dot + 1)) buf);
                  match q with None => Some None | Some q => Some (Some (StreamID m q)) end
      end
  | None =>
      m ← string2ull buf;
      match m with None => Some None | Some m => Some (Some (StreamID m missing_seq)) end
  end.

(** [Some None] is [C_ERR]. *)
Definition streamGenericParseIDOrReply (o : sds) (missing_seq : Z) (strict : bool) : option (option streamID) :=
  if sdslen o >? 128 - 1 then Some None
  else
    t ← bread (sbuf o) 0 (sdslen o + 1);
    buf ← bwrite (fresh indet 128) 0 t;
    c0 ← bget buf 0;
    c1 ← (if (c0 =? 45) || (c0 =? 43) then bget buf 1 else Some 1);
    if strict && ((c0 =? 45) || (c0 =? 43)) && (c1 =? 0) then Some None
    else if (c0 =? 45) && (c1 =? 0) then Some (Some (StreamID 0 0))
    else if (c0 =? 43) && (c1 =? 0) then Some (Some (StreamID UINT64_MAX UINT64_MAX))
    else parse_ms_seq buf missing_seq.

Definition streamParseID (o : sds) : option (option streamID) := streamGenericParseIDOrReply o 0 false.
Definition streamParseIDOrReply (o : sds) (missing_seq : Z) : option (option streamID) :=
  streamGenericParseIDOrReply o missing_seq false.
Definition streamParseStrictIDOrReply (o : sds) (missing_seq : Z) : option (option streamID) :=
  streamGenericParseIDOrReply o missing_seq true.

(** The result and the value stored through [exclude]; [want_exclude] is
    [exclude != NULL]. *)
Definition streamParseIntervalIDOrReply (o : sds) (want_exclude : bool) (missing_seq : Z) : option (option streamID * bool) :=
  c0 ← bget (sbuf o) 0;
  let exclude := want_exclude && (sdslen o >? 1) && (c0 =? 40) in
  if exclude then
    p ← bread (sbuf o) 1 (sdslen o - 1);
    t ← sdsnewlen usable try_ok indet (INIT p) (sdslen o - 1);
    r ← streamParseStrictIDOrReply t missing_seq; Some (r, exclude)
  else r ← streamParseIDOrReply o missing_seq; Some (r, exclude).
End Alloc.

(** ** IDs as 128-bit numbers *)

Definition id_ok (id : streamID) : Prop := in_uint 64 (ms id) /\ in_uint 64 (seq id).
Definition id_val (id : streamID) : Z := ms id * 2 ^ 64 + seq id.

Lemma id_val_range id : id_ok id -> 0 <= id_val id < 2 ^ 128.
Proof. unfold id_ok, in_uint, id_val. change (2 ^ 128) with (2 ^ 64 * 2 ^ 64). nia. Qed.

Lemma id_val_inj a b : id_ok a -> id_ok b -> id_val a = id_val b -> a = b.
Proof.
  destruct a as [m1 s1], b as [m2 s2]. unfold id_ok, in_uint, id_val. cbn [ms seq]. intros.
  assert (m1 = m2) by nia. f_equal; lia.
Qed.

Lemma streamCompareID_val a b :
  id_ok a -> id_ok b -> streamCompareID a b = match id_val a ?= id_val b with Lt => -1 | Eq => 0 | Gt => 1 end.
Proof.
  intros Ha Hb. unfold id_ok, in_uint in *. unfold streamCompareID, id_val.
  destruct (Z.compare_spec (ms a * 2 ^ 64 + seq a) (ms b * 2 ^ 64 + seq b)); repeat bcase; nia || done.
Qed.

Lemma streamIncrID_val id : id_ok id ->
  let '(id', r) := streamIncrID id in
  id_ok id' /\ id_val id' = (id_val id + 1) mod 2 ^ 128 /\ (r = C_ERR <-> id_val id = 2 ^ 128 - 1).
Proof.
  intros Hid. pose proof (id_val_range id Hid). destruct id as [m s]. unfold id_ok, in_uint, id_val, streamIncrID, UINT64_MAX in *.
  cbn [ms seq] in *. change (2 ^ 128) with (2 ^ 64 * 2 ^ 64) in *. repeat bcase; cbn [ms seq].
  - split_and!; [lia..|subst; done|]. split; [lia|done].
  - rewrite uint_small by (unfold in_uint; lia). split_and!; [lia..|rewrite Z.mod_small; nia|]. split; [done|nia].
  - rewrite uint_small by (unfold in_uint; lia). split_and!; [lia..|rewrite Z.mod_small; nia|]. split; [done|nia].
Qed.

Lemma streamDecrID_val id : id_ok id ->
  let '(id', r) := streamDecrID id in
  id_ok id' /\ id_val id' = (id_val id - 1) mod 2 ^ 128 /\ (r = C_ERR <-> id_val id = 0).
Proof.
  intros Hid. pose proof (id_val_range id Hid). destruct id as [m s]. unfold id_ok, in_uint, id_val, streamDecrID, UINT64_MAX in *.
  cbn [ms seq] in *. change (2 ^ 128) with (2 ^ 64 * 2 ^ 64) in *. repeat bcase; cbn [ms seq].
  - split_and!; [lia..|subst; done|]. split; [lia|done].
  - rewrite uint_small by (unfold in_uint; lia). split_and!; [lia..|rewrite Z.mod_small; nia|]. split; [done|nia].
  - rewrite uint_small by (unfold in_uint; lia). split_and!; [lia..|rewrite Z.mod_small; nia|]. split; [done|nia].
Qed.

(** [streamIncrID] and [streamDecrID] are the successor and predecessor
    of the ID read as a 128-bit number, undo each other, and report an error
    exactly when they wrap around. *)
Theorem stream_id_succ_pred id :
  id_ok id ->
  id_val (fst (streamIncrID id)) = (id_val id + 1) mod 2 ^ 128 /\
  id_val (fst (streamDecrID id)) = (id_val id - 1) mod 2 ^ 128 /\
  fst (streamDecrID (fst (streamIncrID id))) = id /\ fst (streamIncrID (fst (streamDecrID id))) = id /\
  (snd (streamIncrID id) = C_ERR <-> id = StreamID UINT64_MAX UINT64_MAX) /\
  (snd (streamDecrID id) = C_ERR <-> id = StreamID 0 0).
Proof.
  intros Hid. pose proof (id_val_range id Hid) as Hr.
  pose proof (streamIncrID_val id Hid) as Hi. pose proof (streamDecrID_val id Hid) as Hd.
  destruct (streamIncrID id) as [i ri], (streamDecrID id) as [d rd]. destruct Hi as (Hi & Hiv & Hie), Hd as (Hd & Hdv & Hde).
  pose proof (streamDecrID_val i Hi) as Hi2. pose proof (streamIncrID_val d Hd) as Hd2. cbn [fst snd].
  destruct (streamDecrID i) as [i2 ri2], (streamIncrID d) as [d2 rd2]. destruct Hi2 as (Hi2 & Hiv2 & _), Hd2 as (Hd2 & Hdv2 & _).
  cbn [fst snd]. change (2 ^ 128) with 340282366920938463463374607431768211456 in *. split_and!; [done|done|..].
  - apply id_val_inj; [done..|]. rewrite Hiv2, Hiv. dlia.
  - apply id_val_inj; [done..|]. rewrite Hdv2, Hdv. dlia.
  - rewrite Hie. split; [intros E; apply id_val_inj; [done|by split|by rewrite E]|by intros ->].
  - rewrite Hde. split; [intros E; apply id_val_inj; [done|by split|by rewrite E]|by intros ->].
Qed.

Lemma stream_id_succ_pred_witness :
  let id := StreamID 5 UINT64_MAX in
  id_val (fst (streamIncrID id)) = (id_val id + 1) mod 2 ^ 128 /\
  id_val (fst (streamDecrID id)) = (id_val id - 1) mod 2 ^ 128 /\
  fst (streamDecrID (fst (streamIncrID id))) = id /\ fst (streamIncrID (fst (streamDecrID id))) = id /\
  (snd (streamIncrID id) = C_ERR <-> id = StreamID UINT64_MAX UINT64_MAX) /\
  (snd (streamDecrID id) = C_ERR <-> id = StreamID 0 0).
Proof. apply (stream_id_succ_pred (StreamID 5 UINT64_MAX)). by split. Defined.

(** ** Generated IDs *)

(** Entries appended with automatic IDs, at the given clock readings. *)
Fixpoint append_all (last_id : streamID) (clock : list Z) : option (list streamID) :=
  match clock with
  | [] => Some []
  | t :: clock =>
      id ← append_id t last_id None;
      ids ← append_all id clock;
      Some (id :: ids)
  end.

Lemma streamNextID_val t id :
  id_ok id -> 0 <= t < 2 ^ 63 -> id_val id < 2 ^ 128 - 1 ->
  id_ok (streamNextID t id) /\ id_val id < id_val (streamNextID t id) <= Z.max (2 ^ 127) (id_val id + 1).
Proof.
  intros Hid Ht Hmax. unfold streamNextID. rewrite uint_small by (unfold in_uint; lia). bcase.
  - unfold id_ok, in_uint, id_val in *. cbn [ms seq]. change (2 ^ 127) with (2 ^ 63 * 2 ^ 64). split; [lia|]. nia.
  - pose proof (streamIncrID_val id Hid) as Hi. destruct (streamIncrID id) as [i r]. destruct Hi as (Hi & Hv & _). cbn [fst].
    pose proof (id_val_range id Hid). rewrite Z.mod_small in Hv by lia. split; [done|lia].
Qed.

Lemma compare_lt a b : id_ok a -> id_ok b -> streamCompareID a b = -1 <-> id_val a < id_val b.
Proof. intros Ha Hb. rewrite streamCompareID_val by done. destruct (Z.compare_spec (id_val a) (id_val b)); lia. Qed.

Lemma append_all_ok clock : forall last k,
  id_ok last -> Forall (fun t => 0 <= t < 2 ^ 63) clock -> id_val last <= 2 ^ 127 + k -> 0 <= k ->
  k + Z.of_nat (length clock) <= 2 ^ 64 ->
  exists ids, append_all last clock = Some ids /\ length ids = length clock /\
    StronglySorted (fun a b => streamCompareID a b = -1) (last :: ids) /\ Forall id_ok ids /\
    Forall (fun i => id_val last < id_val i) ids.
Proof.
  induction clock as [|t clock IH]; intros last k Hok Ht Hv Hk Hn; cbn [append_all].
  { exists []. split_and!; try done. by repeat constructor. }
  apply Forall_cons in Ht as [Ht Hts]. cbn [length] in Hn.
  destruct (streamNextID_val t last Hok Ht) as [Hok' Hv'].
  { change (2 ^ 127) with (2 ^ 128 / 2) in Hv. change (2 ^ 128) with (2 ^ 64 * 2 ^ 64) in *. dlia. }
  set (id := streamNextID t last) in *. unfold append_id. fold id.
  assert (Hc : (streamCompareID id last <=? 0) = false).
  { rewrite streamCompareID_val by done. destruct (Z.compare_spec (id_val id) (id_val last)); lia. }
  rewrite Hc, bind_Some. destruct (IH id (k + 1) Hok' Hts) as (ids & -> & Hl & Hs & Hi & Hlt); [lia..|]. rewrite bind_Some.
  exists (id :: ids). cbn [length]. assert (Hall : Forall (fun i => id_val last < id_val i) (id :: ids)).
  { constructor; [lia|]. eapply Forall_impl; [exact Hlt|]. cbn. intros; lia. }
  split_and!; [done|by rewrite Hl| |by constructor|done]. constructor; [done|].
  assert (Hi' : Forall id_ok (id :: ids)) by by constructor. rewrite Forall_forall in *. intros x Hx. apply compare_lt; auto.
Qed.

(** C40: Entries appended with automatic IDs are accepted and get strictly
    increasing IDs, all greater than the last ID of the stream, also when the
    clock stands still or goes backwards. *)
Theorem stream_ids_increase last clock :
  id_ok last -> ms last < 2 ^ 63 -> Forall (fun t => 0 <= t < 2 ^ 63) clock -> Z.of_nat (length clock) <= 2 ^ 64 ->
  exists ids, append_all last clock = Some ids /\ length ids = length clock /\
    StronglySorted (fun a b => streamCompareID a b = -1) (last :: ids).
Proof.
  intros Hok Hm Hc Hn. destruct (append_all_ok clock last 0 Hok Hc) as (ids & ? & ? & ? & _); [|lia|lia|by exists ids].
  destruct Hok as [H1 H2]. unfold in_uint in *. unfold id_val. change (2 ^ 127) with (2 ^ 63 * 2 ^ 64). nia.
Qed.

Lemma stream_ids_increase_witness : exists ids,
  append_all (StreamID 5 3) [4; 5; 9; 2] = Some ids /\ length ids = 4%nat /\
  StronglySorted (fun a b => streamCompareID a b = -1) (StreamID 5 3 :: ids).
Proof. apply (stream_ids_increase (StreamID 5 3) [4; 5; 9; 2]); [done|done|by repeat constructor|done]. Defined.

(** Once the last ID is the maximal one no entry can be appended any more,
    whatever the clock says: the generated ID wraps around to 0-0. *)
Theorem append_id_exhausted t id :
  append_id t (StreamID UINT64_MAX UINT64_MAX) None = None /\
  (id_ok id -> append_id t (StreamID UINT64_MAX UINT64_MAX) (Some id) = None).
Proof.
  assert (Hall : forall id, id_ok id -> (streamCompareID id (StreamID UINT64_MAX UINT64_MAX) <=? 0) = true).
  { intros i Hi. rewrite streamCompareID_val by (done || by split). pose proof (id_val_range i Hi).
    change (id_val (StreamID UINT64_MAX UINT64_MAX)) with (2 ^ 128 - 1). destruct (Z.compare_spec (id_val i) (2 ^ 128 - 1)); lia. }
  unfold append_id. split; [|intros Hid; by rewrite Hall]. rewrite Hall; [done|]. unfold streamNextID.
  pose proof (uint_range 64 t ltac:(lia)) as Ht. unfold in_uint in Ht. cbn [ms]. unfold UINT64_MAX at 1.
  replace (uint 64 t >? 2 ^ 64 - 1) with false by lia. by split.
Qed.

(** ** Encoding *)

Lemma le_val_app a b : le_val (a ++ b) = le_val a + 2 ^ (8 * blen a) * le_val b.
Proof.
  induction a as [|x a IH]; cbn [app le_val]; [rewrite blen_nil; lia|].
  rewrite IH, blen_cons. replace (8 * (1 + blen a)) with (8 + 8 * blen a) by lia.
  rewrite Z.pow_add_r by (pose proof (blen_nonneg a); lia). change (2 ^ 8) with 256. lia.
Qed.

Lemma be_val_cons x a : be_val (x :: a) = x * 2 ^ (8 * blen a) + be_val a.
Proof.
  unfold be_val. rewrite reverse_cons, le_val_app, blen_reverse. cbn [le_val]. lia.
Qed.

Lemma be_val_app a b : be_val (a ++ b) = be_val a * 2 ^ (8 * blen b) + be_val b.
Proof. unfold be_val. rewrite reverse_app, le_val_app, blen_reverse. lia. Qed.

Lemma be_val_bound a : is_bytes a -> 0 <= be_val a < 2 ^ (8 * blen a).
Proof. intros Ha. unfold be_val. rewrite <- (blen_reverse a). apply le_val_bound. by apply Forall_reverse. Qed.

(** Comparing big endian numbers byte by byte. *)
Lemma memcmp_be a : forall b,
  is_bytes a -> is_bytes b -> length a = length b ->
  memcmp a b = match be_val a ?= be_val b with Lt => -1 | Eq => 0 | Gt => 1 end.
Proof.
  induction a as [|x a IH]; intros [|y b] Ha Hb Hl; try done. apply Forall_cons in Ha as [Hx Ha], Hb as [Hy Hb].
  injection Hl as Hl. cbn [memcmp]. rewrite !be_val_cons. pose proof (be_val_bound a Ha) as Hba. pose proof (be_val_bound b Hb) as Hbb.
  assert (blen a = blen b) as El by (unfold blen; lia). rewrite El in *. set (w := 2 ^ (8 * blen b)) in *.
  specialize (IH b Ha Hb Hl). destruct (Z.compare_spec (x * w + be_val a) (y * w + be_val b)); repeat bcase; try nia.
  - rewrite IH. replace (be_val a) with (be_val b) by nia. by rewrite Z.compare_refl.
  - rewrite IH. destruct (Z.compare_spec (be_val a) (be_val b)); nia.
  - rewrite IH. destruct (Z.compare_spec (be_val a) (be_val b)); nia.
Qed.

Definition id_bytes (id : streamID) : bytes := be_bytes 8 (ms id) ++ be_bytes 8 (seq id).

Lemma htonu64_store e v : in_uint 64 v -> exists r, htonu64 e v = Some r /\ host_store e 8 r = be_bytes 8 v.
Proof.
  intros Hv. destruct e; cbn [htonu64 host_store]; [|by eexists].
  unfold intrev64. cbn [host_store host_load]. rewrite <- (app_nil_r (le_bytes 8 v)), <- (app_nil_l (le_bytes 8 v ++ [])).
  rewrite memrev64_app by (done || apply length_le_bytes). rewrite bind_Some. eexists. split; [done|].
  rewrite app_nil_l, app_nil_r. change (reverse (le_bytes 8 v)) with (be_bytes 8 v). apply le_bytes_le_val_len.
  - apply be_bytes_is_bytes.
  - unfold be_bytes. by rewrite length_reverse, length_le_bytes.
Qed.

Lemma ntohu64_load e v : in_uint 64 v -> ntohu64 e (host_load e (be_bytes 8 v)) = Some v.
Proof.
  intros Hv. destruct e; cbn [ntohu64 host_load]; [|f_equal; by apply uint_be_bytes].
  unfold intrev64. cbn [host_store host_load]. rewrite (le_bytes_le_val_len 8 (be_bytes 8 v));
    [|apply be_bytes_is_bytes|unfold be_bytes; by rewrite length_reverse, length_le_bytes].
  rewrite <- (app_nil_r (be_bytes 8 v)), <- (app_nil_l (be_bytes 8 v ++ [])).
  rewrite memrev64_app; [|done|unfold be_bytes; by rewrite length_reverse, length_le_bytes]. rewrite bind_Some, app_nil_l, app_nil_r.
  unfold be_bytes. rewrite reverse_involutive. f_equal. by apply uint_le_bytes.
Qed.

Lemma blen_id_bytes id : blen (id_bytes id) = 16.
Proof. unfold id_bytes. by rewrite blen_app, !blen_be_bytes. Qed.

Lemma encode_ok e buf id :
  id_ok id -> 16 <= blen buf -> exists r, streamEncodeID e buf id = Some (id_bytes id ++ r).
Proof.
  intros [Hm Hs] Hb. unfold streamEncodeID. destruct (htonu64_store e (ms id) Hm) as (e0 & -> & E0). rewrite bind_Some.
  destruct (htonu64_store e (seq id) Hs) as (e1 & -> & E1). rewrite bind_Some, E0, E1.
  destruct (bwrite_fit buf [] buf (id_bytes id)) as (r & E & _); [done|rewrite blen_id_bytes; lia|].
  rewrite blen_nil in E. by exists r.
Qed.

(** The 16 byte encoding of stream IDs decodes to the same ID and is the
    same on every host, and comparing two encodings byte by byte orders them as
    [streamCompareID] orders the IDs. *)
Theorem streamEncodeID_ordered e e' buf buf' a b :
  id_ok a -> id_ok b -> 16 <= blen buf -> 16 <= blen buf' ->
  exists x y, streamEncodeID e buf a = Some x /\ streamEncodeID e' buf' b = Some y /\
    streamDecodeID e' x = Some a /\ streamDecodeID e y = Some b /\
    memcmp (take 16 x) (take 16 y) = streamCompareID a b.
Proof.
  intros Ha Hb Hl Hl'. destruct (encode_ok e buf a Ha Hl) as (r & E). destruct (encode_ok e' buf' b Hb Hl') as (r' & E').
  exists (id_bytes a ++ r), (id_bytes b ++ r').
  assert (Hdec : forall e id r, id_ok id -> streamDecodeID e (id_bytes id ++ r) = Some id).
  { intros e1 id r1 [Hm Hs]. unfold streamDecodeID, id_bytes. rewrite <- app_assoc.
    rewrite <- (blen_be_bytes 8 (ms id)) at 1. rewrite (bread_area _ (be_bytes 8 (ms id)) _ eq_refl), bind_Some.
    rewrite (bread_app (be_bytes 8 (ms id)) (be_bytes 8 (seq id)) r1 8 8), bind_Some by by rewrite blen_be_bytes.
    rewrite !ntohu64_load, !bind_Some by done. by destruct id. }
  assert (Hlen : forall id, length (id_bytes id) = 16%nat) by (intros id; pose proof (blen_id_bytes id); unfold blen in *; lia).
  split_and!; [done|done|by apply Hdec|by apply Hdec|]. rewrite !take_app_exact by by rewrite Hlen.
  assert (Hby : forall id, is_bytes (id_bytes id)) by (intros; apply Forall_app; split; apply be_bytes_is_bytes).
  rewrite memcmp_be by (done || by rewrite !Hlen). rewrite streamCompareID_val by done.
  assert (Hval : forall id, id_ok id -> be_val (id_bytes id) = id_val id).
  { intros id [Hm Hs]. unfold id_bytes. rewrite be_val_app, blen_be_bytes, !be_val_be_bytes.
    change (8 * Z.of_nat 8) with 64. rewrite !Z.mod_small by done. done. }
  by rewrite !Hval.
Qed.

Lemma streamEncodeID_ordered_witness : exists x y,
  streamEncodeID LITTLE_ENDIAN (replicate 16 0) (StreamID 1 256) = Some x /\
  streamEncodeID BIG_ENDIAN (replicate 16 0) (StreamID 1 3) = Some y /\
  streamDecodeID BIG_ENDIAN x = Some (StreamID 1 256) /\ streamDecodeID LITTLE_ENDIAN y = Some (StreamID 1 3) /\
  memcmp (take 16 x) (take 16 y) = streamCompareID (StreamID 1 256) (StreamID 1 3).
Proof. apply (streamEncodeID_ordered LITTLE_ENDIAN BIG_ENDIAN (replicate 16 0) (replicate 16 0)); done. Defined.

(** ** Parsing *)

Lemma digits_nonzero (D : bytes) : Forall (fun c => 48 <= c <= 57) D -> Forall (fun c => c <> 0) D.
Proof. intros H. eapply Forall_impl; [exact H|]. cbn. lia. Qed.

Lemma digit_span_all (D : bytes) : Forall (fun c => 48 <= c <= 57) D -> digit_span D = (D, []).
Proof.
  induction 1 as [|c D Hc _ IH]; [done|]. cbn [digit_span]. replace (isdig c) with true; [by rewrite IH|].
  symmetry. by apply isdig_true.
Qed.

Lemma udecimal_first D v : udecimal D v -> exists d D', D = d :: D' /\ 48 <= d <= 57.
Proof.
  intros (Hd & _ & Hz). destruct D as [|d D]; [by destruct Hz as [?|(?&?&?&_)]|]. apply Forall_cons in Hd as [? _]. by eexists _, _.
Qed.

Lemma strtoull_digits D v :
  udecimal D v -> v <= ULLONG_MAX -> strtoull D = (v, false, []) /\ strtoull (45 :: D) = (uint 64 (- v), false, []).
Proof.
  intros HD Hv. destruct (udecimal_first D v HD) as (d & D' & -> & Hd). destruct HD as (Hall & Hval & _).
  unfold strtoull. cbn [drop_while isspace]. replace (isspace d) with false by (unfold isspace; lia).
  assert (Hm : match d :: D' with 45 :: t => (true, t) | 43 :: t => (false, t) | _ => (false, d :: D') end = (false, d :: D')).
  { destruct d as [|p|p]; [lia| |lia]. do 6 (destruct p as [p|p|]; try done; try lia). }
  rewrite Hm. change (isspace 45) with false. cbn iota. rewrite digit_span_all, Hval by done.
  replace (v >? ULLONG_MAX) with false by lia. done.
Qed.

Lemma string2ll_big D v neg :
  udecimal D v -> (if neg : bool then 2 ^ 63 < v else 2 ^ 63 <= v) ->
  string2ll (if neg then 45 :: D else D) (blen (if neg then 45 :: D else D)) = Some None.
Proof.
  intros HD Hv. destruct (udecimal_first D v HD) as (d & D' & Ed & Hd).
  destruct (string2ll_spec (if neg then 45 :: D else D)) as (r & -> & Hr). f_equal. destruct r as [u|]; [exfalso|done].
  destruct (proj1 (Hr u) eq_refl) as [Hu Hdec]. unfold in_sint in Hu. unfold decimal in Hdec. revert Hdec.
  destruct HD as (_ & Hval & _). destruct neg; bcase.
  - intros (s' & [= <-] & (_ & Hval' & _)). lia.
  - intros (Hs & _ & _). apply Forall_cons in Hs as [? _]. lia.
  - intros (s' & Hs & _). rewrite Ed in Hs. injection Hs as -> _. lia.
  - intros (_ & Hval' & _). lia.
Qed.

Lemma string2ull_digits D v r : udecimal D v -> in_uint 64 v -> string2ull (D ++ 0 :: r) = Some (Some v).
Proof.
  intros HD Hv. unfold in_uint in Hv. unfold string2ull. rewrite cstr_app, bind_Some by apply digits_nonzero, HD.
  destruct (Z_lt_le_dec v (2 ^ 63)) as [Hlt|Hge].
  - destruct (string2ll_spec D) as (x & -> & Hx). rewrite bind_Some.
    assert (x = Some v) as ->; [|by replace (v <? 0) with false by lia].
    apply Hx. split; [unfold in_sint; lia|]. unfold decimal. by replace (v <? 0) with false by lia.
  - rewrite (string2ll_big D v false HD), bind_Some by done. destruct (strtoull_digits D v HD) as [-> _]; [unfold ULLONG_MAX; lia|].
    destruct (udecimal_first D v HD) as (d & D' & -> & _). by rewrite (bool_decide_false (d :: D' = [])), bool_decide_true by done.
Qed.

(** Below the range of 64-bit signed integers [string2ull] accepts negative
    numbers and returns their value modulo 2^64. *)
Theorem string2ull_negative D v r :
  udecimal D v -> 2 ^ 63 < v < 2 ^ 64 -> string2ull (45 :: D ++ 0 :: r) = Some (Some (2 ^ 64 - v)).
Proof.
  intros HD Hv. unfold string2ull. change (45 :: D ++ 0 :: r) with ((45 :: D) ++ 0 :: r).
  rewrite cstr_app, bind_Some by (constructor; [lia|apply digits_nonzero, HD]).
  rewrite (string2ll_big D v true HD), bind_Some by lia.
  destruct (strtoull_digits D v HD) as [_ ->]; [unfold ULLONG_MAX; lia|].
  rewrite (bool_decide_false (45 :: D = [])), bool_decide_true by done. cbn [negb andb orb].
  do 2 f_equal. unfold uint. rewrite <- (Z.mod_unique_pos (- v) (2 ^ 64) (-1) (2 ^ 64 - v)); lia.
Qed.

Lemma string2ull_negative_witness :
  string2ull (45 :: str "18446744073709551615" ++ 0 :: []) = Some (Some (2 ^ 64 - 18446744073709551615)).
Proof.
  apply (string2ull_negative (str "18446744073709551615") 18446744073709551615 []); [|lia].
  split_and!; [by repeat constructor|done|]. right. by exists 49, (str "8446744073709551615").
Defined.

Lemma find_char_app c a b : Forall (fun x => x <> c) a -> find_char c (a ++ c :: b) = Some (blen a).
Proof.
  induction 1 as [|x a Hx _ IH]; cbn [app find_char]; [by rewrite Z.eqb_refl|].
  replace (x =? c) with false by lia. rewrite IH, bind_Some, blen_cons. f_equal. lia.
Qed.

Lemma udecimal_blen D v : udecimal D v -> in_uint 64 v -> blen D <= 20.
Proof.
  intros HD Hv. unfold in_uint in Hv. destruct (udecimal_ndigits _ _ HD) as (_ & _ & [Hd|Hd]); [lia|].
  destruct (Z_lt_le_dec 20 (blen D)) as [Hgt|]; [|done]. assert (10 ^ 20 <= 10 ^ (blen D - 1)) by (apply Z.pow_le_mono_r; lia). lia.
Qed.

Lemma parse_text indet o D1 D2 id missing strict :
  holds o (D1 ++ 45 :: D2) -> id_ok id -> udecimal D1 (ms id) -> udecimal D2 (seq id) ->
  streamGenericParseIDOrReply indet o missing strict = Some (Some id).
Proof.
  intros Ho [Hm Hs] H1 H2. pose proof (udecimal_blen _ _ H1 Hm) as Hl1. pose proof (udecimal_blen _ _ H2 Hs) as Hl2.
  set (t := D1 ++ 45 :: D2) in *. assert (Hlt : blen t = blen D1 + 1 + blen D2) by (unfold t; rewrite blen_app, blen_cons; lia).
  unfold streamGenericParseIDOrReply, sdslen. rewrite (h_len Ho). replace (blen t >? 128 - 1) with false by lia.
  destruct (h_buf Ho) as [r Hr]. rewrite Hr. pose proof (blen_nonneg t).
  assert (Hrd : bread (t ++ 0 :: r) 0 (blen t + 1) = Some (t ++ [0])).
  { change (t ++ 0 :: r) with (t ++ [0] ++ r). rewrite app_assoc. replace (blen t + 1) with (blen (t ++ [0])) by by rewrite blen_app.
    by apply (bread_area _ (t ++ [0]) r). }
  rewrite Hrd, bind_Some. destruct (bwrite_fit (fresh indet 128) [] (fresh indet 128) (t ++ [0])) as (junk & Ew & _);
    [done|rewrite blen_fresh, blen_app, blen_cons, blen_nil by lia; lia|].
  rewrite blen_nil in Ew. rewrite Ew, bind_Some. cbn [app]. rewrite <- app_assoc. cbn [app].
  destruct (udecimal_first D1 _ H1) as (d & D1' & Ed & Hd).
  assert (Hg : bget (t ++ 0 :: junk) 0 = Some d) by (unfold t; rewrite Ed; by apply (bget_app [] d)).
  rewrite Hg, bind_Some. replace (d =? 45) with false by lia. replace (d =? 43) with false by lia.
  cbn [orb andb]. rewrite bind_Some, andb_false_r. cbn [andb]. unfold parse_ms_seq.
  rewrite cstr_app, bind_Some by (unfold t; apply Forall_app; split; [|constructor; [lia|]]; [apply digits_nonzero, H1|apply digits_nonzero, H2]).
  unfold t. rewrite find_char_app by (eapply Forall_impl; [apply H1|cbn; lia]).
  rewrite <- app_assoc. cbn [app]. rewrite (bset_app D1 45 0), bind_Some by done.
  rewrite (string2ull_digits D1 (ms id)), bind_Some by done.
  replace (Z.to_nat (blen D1 + 1)) with (length (D1 ++ [0])) by (rewrite length_app; unfold blen; cbn [length]; lia).
  change (D1 ++ 0 :: D2 ++ 0 :: junk) with (D1 ++ [0] ++ D2 ++ 0 :: junk). rewrite app_assoc, drop_app_length.
  rewrite (string2ull_digits D2 (seq id)), bind_Some by done. by destruct id.
Qed.

Section TextFacts.
Context (usable : Z -> Z) (try_ok : Z -> bool) (indet : nat -> Z) (Husable : alloc_ok usable).

Lemma create_ok id :
  id_ok id -> exists s D1 D2, createObjectFromStreamID usable try_ok indet id = Some s /\
    holds s (D1 ++ 45 :: D2) /\ udecimal D1 (ms id) /\ udecimal D2 (seq id).
Proof.
  intros [Hm Hs]. unfold createObjectFromStreamID. destruct (sdsempty_ok usable try_ok indet Husable) as (s0 & -> & H0).
  rewrite bind_Some.
  destruct (sdsull2str_ok (fresh indet SDS_LLSTR_SIZE) (ms id) Hm) as (D1 & _ & _ & H1); [done|].
  destruct (sdsull2str_ok (fresh indet SDS_LLSTR_SIZE) (seq id) Hs) as (D2 & _ & _ & H2); [done|].
  pose proof (udecimal_blen _ _ H1 Hm). pose proof (udecimal_blen _ _ H2 Hs).
  destruct (sdscatfmt_spec usable try_ok indet Husable s0 [] (str "%U-%U") [] [ArgULL (ms id); ArgULL (seq id)] (D1 ++ 45 :: D2))
    as (s & E & Hh); [done| |done|rewrite blen_app, blen_cons, blen_nil; unfold LIMIT; lia|].
  - apply (F_ull _ D1); [done..|]. apply (F_char 45); [done..|]. rewrite <- (app_nil_r D2). by apply F_ull; [..|apply F_end].
  - by exists s, D1, D2.
Qed.

(** The text form of a stream ID parses back to the same ID, for every
    pair of 64-bit numbers and in the strict and the lax form of the parser. *)
Theorem stream_id_text_roundtrip id missing strict :
  id_ok id -> exists s, createObjectFromStreamID usable try_ok indet id = Some s /\
    streamGenericParseIDOrReply indet s missing strict = Some (Some id).
Proof.
  intros Hid. destruct (create_ok id Hid) as (s & D1 & D2 & E & Hh & H1 & H2). exists s. split; [done|]. by eapply parse_text.
Qed.
End TextFacts.

Lemma stream_id_text_roundtrip_witness : exists s,
  createObjectFromStreamID round16 (fun _ => true) (fun _ => 9) (StreamID 1526919030474 UINT64_MAX) = Some s /\
  streamGenericParseIDOrReply (fun _ => 9) s 0 true = Some (Some (StreamID 1526919030474 UINT64_MAX)).
Proof. apply (stream_id_text_roundtrip round16 (fun _ => true) (fun _ => 9) round16_ok (StreamID 1526919030474 UINT64_MAX) 0 true). by split. Defined.

End Stream.
