(* ===== verification/Rand.v ===== *)
(** rand.c: the reimplementation of [drand48]'s generator, used by the
    scripting engine so that scripts see the same sequence on every platform.
    The 48-bit state is kept in three 16-bit limbs and updated with 32-bit
    arithmetic. *)

From S2P Require Import Prelude.

Module Rand.

Definition MASK : Z := 65535.
(** [LOW] and [HIGH] apply to 32-bit values, [HIGH] with an arithmetic shift
    on signed ones. *)
Definition LOW (x : Z) : Z := Z.land (uint 32 x) MASK.
Definition HIGH (x : Z) : Z := LOW (Z.shiftr x 16).
(** [MUL(x, y, z)]: the two elements of [z]. *)
Definition MUL (x y : Z) : Z * Z := let l := sint 32 (x * y) in (LOW l, HIGH l).
Definition CARRY (x y : Z) : Z := Z.b2z (sint 32 x + y >? MASK).
(** [ADDEQU(x, y, z)]: the new [x] and [z]. *)
Definition ADDEQU (x y : Z) : Z * Z := (LOW (uint 32 (x + y)), CARRY x y).

Definition X0 : Z := 0x330E.
Definition X1 : Z := 0xABCD.
Definition X2 : Z := 0x1234.
Definition A0 : Z := 0xE66D.
Definition A1 : Z := 0xDEEC.
Definition A2 : Z := 0x5.
Definition C : Z := 0xB.

(** The static arrays [x], [a] and the static [c]. *)
Record state := State { x0 : Z; x1 : Z; x2 : Z; a0 : Z; a1 : Z; a2 : Z; c : Z }.
Definition initial : state := State X0 X1 X2 A0 A1 A2 C.
Definition SEED (y0 y1 y2 : Z) : state := State y0 y1 y2 A0 A1 A2 C.

Definition next (s : state) : state :=
  let '(p0, p1) := MUL (a0 s) (x0 s) in
  let '(p0, carry0) := ADDEQU p0 (c s) in
  let '(p1, carry1) := ADDEQU p1 carry0 in
  let '(q0, q1) := MUL (a0 s) (x1 s) in
  let '(p1, carry0) := ADDEQU p1 q0 in
  let '(r0, r1) := MUL (a1 s) (x0 s) in
  State (LOW p0) (LOW (uint 32 (p1 + r0)))
    (LOW (uint 32 (carry0 + carry1 + CARRY p1 r0 + q1 + r1 + a0 s * x2 s + a1 s * x1 s + a2 s * x0 s)))
    (a0 s) (a1 s) (a2 s) (c s).

Definition redisLrand48 (s : state) : state * Z :=
  let s := next s in
  (s, sint 32 (uint 32 (Z.shiftl (sint 32 (x2 s)) 15 + Z.shiftr (x1 s) 1))).

Definition redisSrand48 (seedval : Z) : state := SEED X0 (LOW seedval) (HIGH seedval).

(** ** The generator as one 48-bit number *)

Definition LCG_A : Z := 0x5DEECE66D.
Definition LCG_C : Z := 0xB.
Definition lcg (x : Z) : Z := (LCG_A * x + LCG_C) mod 2 ^ 48.

Definition val (s : state) : Z := x0 s + 2 ^ 16 * x1 s + 2 ^ 32 * x2 s.
Definition state_ok (s : state) : Prop :=
  in_uint 16 (x0 s) /\ in_uint 16 (x1 s) /\ in_uint 16 (x2 s) /\
  a0 s = A0 /\ a1 s = A1 /\ a2 s = A2 /\ c s = C.

Lemma LOW_mod v : LOW v = v mod 65536.
Proof.
  unfold LOW, MASK, uint. change 65535 with (2 ^ 16 - 1). rewrite land_ones_mod by lia.
  change (2 ^ 16) with 65536. change (2 ^ 32) with 4294967296. dlia.
Qed.

Lemma MUL_ok x y : 0 <= x * y < 2 ^ 32 -> MUL x y = ((x * y) mod 65536, x * y / 65536).
Proof.
  intros H. unfold MUL, HIGH. rewrite !LOW_mod, Z.shiftr_div_pow2 by lia. unfold sint.
  change (2 ^ 16) with 65536. change (2 ^ 32) with 4294967296 in *. change (2 ^ (32 - 1)) with 2147483648.
  bcase; f_equal; dlia.
Qed.

Lemma CARRY_ok x y : 0 <= x < 65536 -> 0 <= y < 65536 -> CARRY x y = (x + y) / 65536.
Proof.
  intros Hx Hy. unfold CARRY, MASK. rewrite sint_small by (unfold in_sint; lia). destruct (Z.gtb_spec (x + y) 65535); cbn [Z.b2z]; dlia.
Qed.
Lemma ADDEQU_ok x y : 0 <= x < 65536 -> 0 <= y < 65536 -> ADDEQU x y = ((x + y) mod 65536, (x + y) / 65536).
Proof.
  intros Hx Hy. unfold ADDEQU. rewrite LOW_mod, CARRY_ok by done. f_equal. rewrite uint_small by (unfold in_uint; lia). done.
Qed.

Lemma next_lcg s : state_ok s -> state_ok (next s) /\ val (next s) = lcg (val s).
Proof.
  intros (H0 & H1 & H2 & E0 & E1 & E2 & E3). unfold in_uint in *. unfold next. rewrite E0, E1, E2, E3.
  unfold A0, A1, A2, C. rewrite MUL_ok by lia. cbv iota beta.
  set (p := 58989 * x0 s). assert (Hp : 0 <= p < 2 ^ 32) by (unfold p; lia).
  assert (Hp0 : 0 <= p mod 65536 < 65536) by dlia. assert (Hp1 : 0 <= p / 65536 < 65536) by dlia.
  rewrite ADDEQU_ok by lia. cbv iota beta.
  set (n0 := (p mod 65536 + 11) mod 65536). set (k0 := (p mod 65536 + 11) / 65536).
  assert (Hk0 : 0 <= k0 <= 1) by (unfold k0; dlia). rewrite ADDEQU_ok by lia. cbv iota beta.
  set (m1 := (p / 65536 + k0) mod 65536). set (k1 := (p / 65536 + k0) / 65536).
  assert (Hm1 : 0 <= m1 < 65536) by (unfold m1; dlia).
  rewrite (MUL_ok 58989 (x1 s)) by lia. cbv iota beta. set (q := 58989 * x1 s).
  assert (Hq0 : 0 <= q mod 65536 < 65536) by dlia. rewrite ADDEQU_ok by lia. cbv iota beta.
  set (m2 := (m1 + q mod 65536) mod 65536). set (k2 := (m1 + q mod 65536) / 65536).
  assert (Hm2 : 0 <= m2 < 65536) by (unfold m2; dlia).
  rewrite (MUL_ok 57068 (x0 s)) by lia. cbv iota beta. set (r := 57068 * x0 s).
  assert (Hr0 : 0 <= r mod 65536 < 65536) by dlia. rewrite CARRY_ok by done. rewrite !LOW_mod.
  set (hi := _ + 5 * x0 s). unfold state_ok, val, lcg, in_uint. cbn [x0 x1 x2 a0 a1 a2 c].
  unfold uint. change (2 ^ 16) with 65536. change (2 ^ 32) with 4294967296.
  split; [split_and!; try done; apply Z.mod_pos_bound; lia|].
  assert (Hn0 : n0 mod 65536 = n0) by (unfold n0; dlia). rewrite Hn0.
  replace (((m2 + r mod 65536) mod 4294967296) mod 65536) with ((m2 + r mod 65536) mod 65536) by dlia.
  replace ((hi mod 4294967296) mod 65536) with (hi mod 65536) by dlia.
  set (l1 := (m2 + r mod 65536) mod 65536).
  assert (T : n0 + 65536 * l1 + 4294967296 * hi = p + 11 + 65536 * (q + r) + 4294967296 * (58989 * x2 s + 57068 * x1 s + 5 * x0 s)).
  { pose proof (Z.div_mod p 65536 ltac:(lia)). pose proof (Z.div_mod q 65536 ltac:(lia)). pose proof (Z.div_mod r 65536 ltac:(lia)).
    pose proof (Z.div_mod (p mod 65536 + 11) 65536 ltac:(lia)) as D0. fold n0 k0 in D0.
    pose proof (Z.div_mod (p / 65536 + k0) 65536 ltac:(lia)) as D1. fold m1 k1 in D1.
    pose proof (Z.div_mod (m1 + q mod 65536) 65536 ltac:(lia)) as D2. fold m2 k2 in D2.
    pose proof (Z.div_mod (m2 + r mod 65536) 65536 ltac:(lia)) as D3. fold l1 in D3. unfold hi. lia. }
  pose proof (Z.div_mod hi 65536 ltac:(lia)) as Dh. unfold LCG_A, LCG_C.
  apply (Z.mod_unique_pos _ _ (hi / 65536 + (57068 * x2 s + 5 * x1 s) + 65536 * 5 * x2 s)).
  - assert (0 <= n0 < 65536) by (apply Z.mod_pos_bound; lia). assert (0 <= l1 < 65536) by (apply Z.mod_pos_bound; lia).
    assert (0 <= hi mod 65536 < 65536) by (apply Z.mod_pos_bound; lia). change (2 ^ 48) with 281474976710656. lia.
  - change (2 ^ 48) with 281474976710656. unfold p, q, r in T. lia.
Qed.

Lemma initial_ok : state_ok initial.
Proof. by repeat split. Qed.

Lemma redisSrand48_val seed : in_sint 32 seed -> state_ok (redisSrand48 seed) /\ val (redisSrand48 seed) = 2 ^ 16 * uint 32 seed + 0x330E.
Proof.
  intros Hs. unfold in_sint in Hs. unfold redisSrand48, SEED, state_ok, val, HIGH. cbn [x0 x1 x2 a0 a1 a2 c]. rewrite !LOW_mod, Z.shiftr_div_pow2 by lia.
  unfold in_uint, X0, uint. change (2 ^ 16) with 65536. change (2 ^ 32) with 4294967296. split; [split_and!; try done; dlia|]. dlia.
Qed.

Lemma redisLrand48_val s : state_ok s ->
  let '(s', r) := redisLrand48 s in state_ok s' /\ val s' = lcg (val s) /\ r = val s' / 2 ^ 17.
Proof.
  intros Hs. destruct (next_lcg s Hs) as [Hok Hv]. unfold redisLrand48. cbv zeta. split_and!; [done|done|].
  destruct Hok as (H0 & H1 & H2 & _). unfold in_uint in *. unfold val. set (s' := next s) in *.
  rewrite (sint_small 32 (x2 s')) by (unfold in_sint; lia). rewrite Z.shiftl_mul_pow2, Z.shiftr_div_pow2 by lia.
  change (2 ^ 16) with 65536. change (2 ^ 32) with 4294967296. change (2 ^ 15) with 32768. change (2 ^ 17) with 131072. change (2 ^ 1) with 2.
  assert (0 <= x1 s' / 2 < 32768) by dlia. rewrite uint_small by (unfold in_uint; lia). rewrite sint_small by (unfold in_sint; lia). dlia.
Qed.

(** The numbers drawn one after the other. *)
Fixpoint draw (n : nat) (s : state) : list Z :=
  match n with
  | O => []
  | S n => let '(s, r) := redisLrand48 s in r :: draw n s
  end.
Fixpoint lcg_draw (n : nat) (x : Z) : list Z :=
  match n with
  | O => []
  | S n => let x := lcg x in x / 2 ^ 17 :: lcg_draw n x
  end.

Lemma draw_ok n : forall s, state_ok s -> draw n s = lcg_draw n (val s).
Proof.
  induction n as [|n IH]; intros s Hs; [done|]. cbn [draw lcg_draw]. pose proof (redisLrand48_val s Hs) as H.
  destruct (redisLrand48 s) as [s' r]. destruct H as (Hok & Hv & ->). cbv zeta. rewrite <- Hv. f_equal. by apply IH.
Qed.

Lemma lcg_draw_range n x : Forall (fun r => 0 <= r < 2 ^ 31) (lcg_draw n x).
Proof.
  revert x. induction n as [|n IH]; intros x; [done|]. constructor; [|apply IH]. unfold lcg.
  pose proof (Z.mod_pos_bound (LCG_A * x + LCG_C) (2 ^ 48) ltac:(lia)). dlia.
Qed.

(** After seeding, the limb arithmetic on 16 and 32 bits draws exactly the
    31 top bits of the 48-bit linear congruential sequence of [drand48], each
    number being a non-negative 32-bit integer. *)
Theorem redisLrand48_sequence seed n :
  in_sint 32 seed ->
  draw n (redisSrand48 seed) = lcg_draw n (2 ^ 16 * uint 32 seed + 0x330E) /\
  Forall (fun r => 0 <= r < 2 ^ 31) (draw n (redisSrand48 seed)).
Proof.
  intros Hs. destruct (redisSrand48_val seed Hs) as [Hok Hv].
  rewrite (draw_ok n _ Hok), Hv. split; [done|apply lcg_draw_range].
Qed.

Lemma redisLrand48_sequence_witness :
  draw 3 (redisSrand48 (-7)) = lcg_draw 3 (2 ^ 16 * uint 32 (-7) + 0x330E) /\
  Forall (fun r => 0 <= r < 2 ^ 31) (draw 3 (redisSrand48 (-7))).
Proof. apply (redisLrand48_sequence (-7) 3). done. Defined.

End Rand.
