(* ===== verification/Cluster.v ===== *)
(** cluster.c / cluster.h: the hash slot of a key, the table of slot owners
    with the bitmap of every node, rebinding of slots from a configuration
    message, configuration epochs, and granting of votes in failover elections. *)

From stdpp Require Import gmap.
From S2P Require Import Prelude Crc Sds.
Import Crc Sds.

Module Cluster.

Definition CLUSTER_SLOTS : Z := 16384.

(** ** Hash slots *)

(** [for (s = from; s < keylen; s++) if (key[s] == c) break;] *)
Fixpoint find_from (fuel : nat) (key : bytes) (keylen c s : Z) : option Z :=
  match fuel with
  | O => None
  | S fuel =>
      if s <? keylen then x ← bget key s; if x =? c then Some s else find_from fuel key keylen c (s + 1)
      else Some s
  end.

Definition slot_of (k : bytes) : option Z := h ← crc16 k; Some (Z.land h 0x3FFF).

Definition keyHashSlot (key : bytes) (keylen : Z) : option Z :=
  let fuel := S (Z.to_nat keylen) in
  s ← find_from fuel key keylen 123 0;
  if s =? keylen then k ← bread key 0 keylen; slot_of k
  else
    e ← find_from fuel key keylen 125 (s + 1);
    if (e =? keylen) || (e =? s + 1) then k ← bread key 0 keylen; slot_of k
    else k ← bread key (s + 1) (e - s - 1); slot_of k.

(** ** Bitmaps *)

Definition bitmapTestBit (bitmap : bytes) (pos : Z) : option bool :=
  b ← bget bitmap (pos / 8);
  Some (negb (Z.land b (Z.shiftl 1 (Z.land pos 7)) =? 0)).
Definition bitmapSetBit (bitmap : bytes) (pos : Z) : option bytes :=
  b ← bget bitmap (pos / 8);
  bset bitmap (pos / 8) (uint 8 (Z.lor b (Z.shiftl 1 (Z.land pos 7)))).
Definition bitmapClearBit (bitmap : bytes) (pos : Z) : option bytes :=
  b ← bget bitmap (pos / 8);
  bset bitmap (pos / 8) (uint 8 (Z.land b (Z.lnot (Z.shiftl 1 (Z.land pos 7))))).

(** ** Nodes and state

    A node is referenced by its address; [nodes] maps the address of every known
    node to its structure. *)

Definition CLUSTER_NODE_MASTER : Z := 1.
Definition CLUSTER_NODE_SLAVE : Z := 2.
Definition CLUSTER_NODE_PFAIL : Z := 4.
Definition CLUSTER_NODE_FAIL : Z := 8.
Definition CLUSTER_NODE_MYSELF : Z := 16.
Definition CLUSTER_NODE_HANDSHAKE : Z := 32.
Definition CLUSTER_NODE_MIGRATE_TO : Z := 256.

Record clusterNodeFailReport := FailReport { fr_node : Z; fr_time : Z }.

Record clusterNode := Node {
  name : bytes;
  flags : Z;
  configEpoch : Z;
  slots : bytes;
  numslots : Z;
  slaves : list Z;
  slaveof : option Z;
  fail_time : Z;
  voted_time : Z;
  fail_reports : list clusterNodeFailReport;
}.

Record clusterState := State {
  myself : Z;
  currentEpoch : Z;
  lastVoteEpoch : Z;
  size : Z;
  nodes : gmap Z clusterNode;
  migrating_slots_to : list (option Z);
  importing_slots_from : list (option Z);
  owner : list (option Z);
}.

Definition numslaves (n : clusterNode) : Z := Z.of_nat (length (slaves n)).

Definition has_flag (n : clusterNode) (f : Z) : bool := negb (Z.land (flags n) f =? 0).
Definition nodeIsMaster (n : clusterNode) : bool := has_flag n CLUSTER_NODE_MASTER.
Definition nodeIsSlave (n : clusterNode) : bool := has_flag n CLUSTER_NODE_SLAVE.
Definition nodeInHandshake (n : clusterNode) : bool := has_flag n CLUSTER_NODE_HANDSHAKE.
Definition nodeTimedOut (n : clusterNode) : bool := has_flag n CLUSTER_NODE_PFAIL.
Definition nodeFailed (n : clusterNode) : bool := has_flag n CLUSTER_NODE_FAIL.

(** Assignments to the fields of a structure. *)
Definition set_flags (f : Z) (n : clusterNode) : clusterNode :=
  Node (name n) f (configEpoch n) (slots n) (numslots n) (slaves n) (slaveof n) (fail_time n) (voted_time n)
    (fail_reports n).
Definition set_configEpoch (e : Z) (n : clusterNode) : clusterNode :=
  Node (name n) (flags n) e (slots n) (numslots n) (slaves n) (slaveof n) (fail_time n) (voted_time n)
    (fail_reports n).
Definition set_slots (b : bytes) (k : Z) (n : clusterNode) : clusterNode :=
  Node (name n) (flags n) (configEpoch n) b k (slaves n) (slaveof n) (fail_time n) (voted_time n) (fail_reports n).
Definition set_slaves (l : list Z) (n : clusterNode) : clusterNode :=
  Node (name n) (flags n) (configEpoch n) (slots n) (numslots n) l (slaveof n) (fail_time n) (voted_time n)
    (fail_reports n).
Definition set_slaveof (m : option Z) (n : clusterNode) : clusterNode :=
  Node (name n) (flags n) (configEpoch n) (slots n) (numslots n) (slaves n) m (fail_time n) (voted_time n)
    (fail_reports n).
Definition set_fail_time (t : Z) (n : clusterNode) : clusterNode :=
  Node (name n) (flags n) (configEpoch n) (slots n) (numslots n) (slaves n) (slaveof n) t (voted_time n)
    (fail_reports n).
Definition set_voted_time (t : Z) (n : clusterNode) : clusterNode :=
  Node (name n) (flags n) (configEpoch n) (slots n) (numslots n) (slaves n) (slaveof n) (fail_time n) t
    (fail_reports n).
Definition set_fail_reports (l : list clusterNodeFailReport) (n : clusterNode) : clusterNode :=
  Node (name n) (flags n) (configEpoch n) (slots n) (numslots n) (slaves n) (slaveof n) (fail_time n) (voted_time n) l.

Definition set_nodes (m : gmap Z clusterNode) (st : clusterState) : clusterState :=
  State (myself st) (currentEpoch st) (lastVoteEpoch st) (size st) m (migrating_slots_to st)
    (importing_slots_from st) (owner st).
Definition set_owner (l : list (option Z)) (st : clusterState) : clusterState :=
  State (myself st) (currentEpoch st) (lastVoteEpoch st) (size st) (nodes st) (migrating_slots_to st)
    (importing_slots_from st) l.
Definition set_open (mig imp : list (option Z)) (st : clusterState) : clusterState :=
  State (myself st) (currentEpoch st) (lastVoteEpoch st) (size st) (nodes st) mig imp (owner st).
Definition set_epochs (cur vote : Z) (st : clusterState) : clusterState :=
  State (myself st) cur vote (size st) (nodes st) (migrating_slots_to st) (importing_slots_from st) (owner st).

(** [n->field = ...], for a node that is still allocated. *)
Definition upd (st : clusterState) (n : Z) (f : clusterNode -> clusterNode) : option clusterState :=
  node ← nodes st !! n; Some (set_nodes (<[n := f node]> (nodes st)) st).

(** [slots[j]], inside the array. *)
Definition slot_get (l : list (option Z)) (j : Z) : option (option Z) :=
  if 0 <=? j then l !! Z.to_nat j else None.
Definition slot_set (l : list (option Z)) (j : Z) (v : option Z) : option (list (option Z)) :=
  if (0 <=? j) && (j <? Z.of_nat (length l)) then Some (<[Z.to_nat j := v]> l) else None.

(** Calls that leave this file. *)
Inductive effect :=
  | ReplicationSetMaster (n : Z)
  | ReplicationUnsetMaster
  | ResetManualFailover
  | DelKeysInSlot (j : Z)
  | EmptyDb
  | SendFail (n : Z)
  | SendFailoverAuth (n : Z).

(** ** Slots *)

Definition clusterMastersHaveSlaves (st : clusterState) : bool :=
  let slaves := map_fold (fun _ n acc => if nodeIsSlave n then acc else acc + numslaves n) 0 (nodes st) in
  negb (sint 32 slaves =? 0).

(** The result is the old value of the bit. *)
Definition clusterNodeSetSlotBit (st : clusterState) (n slot : Z) : option (clusterState * bool) :=
  node ← nodes st !! n;
  old ← bitmapTestBit (slots node) slot;
  b ← bitmapSetBit (slots node) slot;
  if old : bool then
    st ← upd st n (set_slots b (numslots node));
    Some (st, old)
  else
    let k := sint 32 (numslots node + 1) in
    st ← upd st n (set_slots b k);
    if (k =? 1) && clusterMastersHaveSlaves st then
      st ← upd st n (set_flags (Z.lor (flags node) CLUSTER_NODE_MIGRATE_TO));
      Some (st, old)
    else Some (st, old).

Definition clusterNodeClearSlotBit (st : clusterState) (n slot : Z) : option (clusterState * bool) :=
  node ← nodes st !! n;
  old ← bitmapTestBit (slots node) slot;
  b ← bitmapClearBit (slots node) slot;
  st ← upd st n (set_slots b (if old : bool then sint 32 (numslots node - 1) else numslots node));
  Some (st, old).

Definition clusterNodeGetSlotBit (st : clusterState) (n slot : Z) : option bool :=
  node ← nodes st !! n; bitmapTestBit (slots node) slot.

Definition clusterAddSlot (st : clusterState) (n slot : Z) : option (clusterState * retcode) :=
  o ← slot_get (owner st) slot;
  match o with
  | Some _ => Some (st, C_ERR)
  | None =>
      '(st, _) ← clusterNodeSetSlotBit st n slot;
      l ← slot_set (owner st) slot (Some n);
      Some (set_owner l st, C_OK)
  end.

Definition clusterDelSlot (st : clusterState) (slot : Z) : option (clusterState * retcode) :=
  o ← slot_get (owner st) slot;
  match o with
  | None => Some (st, C_ERR)
  | Some n =>
      '(st, old) ← clusterNodeClearSlotBit st n slot;
      assert! old : bool;
      l ← slot_set (owner st) slot None;
      Some (set_owner l st, C_OK)
  end.

Fixpoint del_node_loop (fuel : nat) (st : clusterState) (node j deleted : Z) : option (clusterState * Z) :=
  match fuel with
  | O => Some (st, deleted)
  | S fuel =>
      b ← clusterNodeGetSlotBit st node j;
      if b : bool then
        '(st, _) ← clusterDelSlot st j;
        del_node_loop fuel st node (j + 1) (deleted + 1)
      else del_node_loop fuel st node (j + 1) deleted
  end.
Definition clusterDelNodeSlots (st : clusterState) (node : Z) : option (clusterState * Z) :=
  del_node_loop (Z.to_nat CLUSTER_SLOTS) st node 0 0.

Definition clusterCloseAllSlots (st : clusterState) : clusterState :=
  let zero := replicate (Z.to_nat CLUSTER_SLOTS) None in set_open zero zero st.

(** ** Replicas *)

(** The first occurrence of [x] is removed, the rest moves down. *)
Fixpoint remove_first (x : Z) (l : list Z) : option (list Z) :=
  match l with
  | [] => None
  | y :: l => if y =? x then Some l else l ← remove_first x l; Some (y :: l)
  end.

Definition clusterNodeRemoveSlave (st : clusterState) (master slave : Z) : option (clusterState * retcode) :=
  m ← nodes st !! master;
  match remove_first slave (slaves m) with
  | Some l =>
      st ← upd st master (fun m =>
             let m := set_slaves l m in
             if numslaves m =? 0 then set_flags (Z.land (flags m) (Z.lnot CLUSTER_NODE_MIGRATE_TO)) m else m);
      Some (st, C_OK)
  | None => Some (st, C_ERR)
  end.

Definition clusterNodeAddSlave (st : clusterState) (master slave : Z) : option (clusterState * retcode) :=
  m ← nodes st !! master;
  if existsb (Z.eqb slave) (slaves m) then Some (st, C_ERR)
  else
    st ← upd st master (fun m =>
           set_flags (Z.lor (flags m) CLUSTER_NODE_MIGRATE_TO) (set_slaves (slaves m ++ [slave]) m));
    Some (st, C_OK).

Fixpoint clusterCountNonFailingSlaves_loop (st : clusterState) (l : list Z) (okslaves : Z) : option Z :=
  match l with
  | [] => Some okslaves
  | s :: l =>
      node ← nodes st !! s;
      clusterCountNonFailingSlaves_loop st l (if nodeFailed node then okslaves else okslaves + 1)
  end.
Definition clusterCountNonFailingSlaves (st : clusterState) (n : Z) : option Z :=
  node ← nodes st !! n; clusterCountNonFailingSlaves_loop st (slaves node) 0.

Definition clusterSetNodeAsMaster (st : clusterState) (n : Z) : option clusterState :=
  node ← nodes st !! n;
  if nodeIsMaster node then Some st
  else
    st ← match slaveof node with
         | Some m =>
             '(st, _) ← clusterNodeRemoveSlave st m n;
             if n =? myself st then Some st
             else upd st n (fun node => set_flags (Z.lor (flags node) CLUSTER_NODE_MIGRATE_TO) node)
         | None => Some st
         end;
    upd st n (fun node =>
      set_slaveof None
        (set_flags (Z.lor (Z.land (flags node) (Z.lnot CLUSTER_NODE_SLAVE)) CLUSTER_NODE_MASTER) node)).

Definition clusterSetMaster (st : clusterState) (n : Z) : option (clusterState * list effect) :=
  assert! negb (n =? myself st);
  me ← nodes st !! myself st;
  assert! numslots me =? 0;
  st ← (if nodeIsMaster me then
          st ← upd st (myself st) (fun me =>
                 set_flags (Z.lor (Z.land (flags me)
                   (Z.lnot (Z.lor CLUSTER_NODE_MASTER CLUSTER_NODE_MIGRATE_TO))) CLUSTER_NODE_SLAVE) me);
          Some (clusterCloseAllSlots st)
        else
          match slaveof me with
          | Some m => '(st, _) ← clusterNodeRemoveSlave st m (myself st); Some st
          | None => Some st
          end);
  st ← upd st (myself st) (set_slaveof (Some n));
  '(st, _) ← clusterNodeAddSlave st n (myself st);
  Some (st, [ReplicationSetMaster n; ResetManualFailover]).

(** ** Rebinding slots *)

Record upd_loop := UpdLoop {
  u_st : clusterState;
  u_dirty : list Z;
  u_newmaster : bool;
  u_sender_slots : Z;
  u_migrated : Z;
}.

(** One turn of the loop of [clusterUpdateSlotsConfigWith]: a slot claimed by
    [sender] is rebound to it when it is free or owned under an older epoch. *)
Definition update_slot (countKeysInSlot : Z -> Z) (curmaster : option Z) (sender senderConfigEpoch : Z)
    (claimed : bytes) (j : Z) (u : upd_loop) : option upd_loop :=
  let st := u_st u in
  b ← bitmapTestBit claimed j;
  if negb b then Some u
  else
    let u := UpdLoop st (u_dirty u) (u_newmaster u) (u_sender_slots u + 1) (u_migrated u) in
    o ← slot_get (owner st) j;
    if bool_decide (o = Some sender) then Some u
    else
      imp ← slot_get (importing_slots_from st) j;
      if bool_decide (is_Some imp) then Some u
      else
        rebind ← match o with
                 | None => Some true
                 | Some n => node ← nodes st !! n; Some (configEpoch node <? senderConfigEpoch)
                 end;
        if negb rebind then Some u
        else
          let dirty :=
            if bool_decide (o = Some (myself st)) && negb (countKeysInSlot j =? 0) && negb (sender =? myself st)
            then u_dirty u ++ [j] else u_dirty u in
          let mine := bool_decide (o = curmaster) in
          '(st, _) ← clusterDelSlot st j;
          '(st, _) ← clusterAddSlot st sender j;
          Some (UpdLoop st dirty (mine || u_newmaster u) (u_sender_slots u)
                  (if mine then u_migrated u + 1 else u_migrated u)).

Fixpoint update_slots_loop (fuel : nat) (countKeysInSlot : Z -> Z) (curmaster : option Z)
    (sender senderConfigEpoch : Z) (claimed : bytes) (j : Z) (u : upd_loop) : option upd_loop :=
  match fuel with
  | O => Some u
  | S fuel =>
      u ← update_slot countKeysInSlot curmaster sender senderConfigEpoch claimed j u;
      update_slots_loop fuel countKeysInSlot curmaster sender senderConfigEpoch claimed (j + 1) u
  end.

(** [no_redirection] is the module flag, [allow_migration] the configuration
    directive [cluster-allow-replica-migration]. *)
Definition clusterUpdateSlotsConfigWith (countKeysInSlot : Z -> Z) (no_redirection allow_migration : bool)
    (st : clusterState) (sender senderConfigEpoch : Z) (claimed : bytes) : option (clusterState * list effect) :=
  me ← nodes st !! myself st;
  let curmaster := if nodeIsMaster me then Some (myself st) else slaveof me in
  if sender =? myself st then Some (st, [])
  else
    u ← update_slots_loop (Z.to_nat CLUSTER_SLOTS) countKeysInSlot curmaster sender senderConfigEpoch claimed 0
          (UpdLoop st [] false 0 0);
    if no_redirection then Some (u_st u, [])
    else
      turn ← (if u_newmaster u then
                m ← curmaster;
                node ← nodes (u_st u) !! m;
                Some ((numslots node =? 0) && (allow_migration || (u_sender_slots u =? u_migrated u)))
              else Some false);
      if turn : bool then clusterSetMaster (u_st u) sender
      else Some (u_st u, map DelKeysInSlot (u_dirty u)).

Fixpoint claim_loop (fuel : nat) (st : clusterState) (oldmaster j : Z) : option clusterState :=
  match fuel with
  | O => Some st
  | S fuel =>
      b ← clusterNodeGetSlotBit st oldmaster j;
      if b : bool then
        '(st, _) ← clusterDelSlot st j;
        '(st, _) ← clusterAddSlot st (myself st) j;
        claim_loop fuel st oldmaster (j + 1)
      else claim_loop fuel st oldmaster (j + 1)
  end.

(** The new table of slots is then saved and broadcast. *)
Definition clusterFailoverReplaceYourMaster (st : clusterState) : option (clusterState * list effect) :=
  me ← nodes st !! myself st;
  if nodeIsMaster me then Some (st, [])
  else
    match slaveof me with
    | None => Some (st, [])
    | Some oldmaster =>
        st ← clusterSetNodeAsMaster st (myself st);
        st ← claim_loop (Z.to_nat CLUSTER_SLOTS) st oldmaster 0;
        Some (st, [ReplicationUnsetMaster; ResetManualFailover])
    end.

(** ** Failure reports *)

Definition CLUSTER_FAIL_REPORT_VALIDITY_MULT : Z := 2.
Definition CLUSTER_FAIL_UNDO_TIME_MULT : Z := 2.

Fixpoint report_update (sender now : Z) (l : list clusterNodeFailReport) : option (list clusterNodeFailReport) :=
  match l with
  | [] => None
  | fr :: l =>
      if fr_node fr =? sender then Some (FailReport sender now :: l)
      else l ← report_update sender now l; Some (fr :: l)
  end.
Definition clusterNodeAddFailureReport (failing : clusterNode) (sender now : Z) : clusterNode * Z :=
  match report_update sender now (fail_reports failing) with
  | Some l => (set_fail_reports l failing, 0)
  | None => (set_fail_reports (fail_reports failing ++ [FailReport sender now]) failing, 1)
  end.

Definition clusterNodeCleanupFailureReports (node_timeout now : Z) (node : clusterNode) : clusterNode :=
  let maxtime := node_timeout * CLUSTER_FAIL_REPORT_VALIDITY_MULT in
  set_fail_reports (List.filter (fun fr => negb (now - fr_time fr >? maxtime)) (fail_reports node)) node.

Fixpoint report_remove (sender : Z) (l : list clusterNodeFailReport) : option (list clusterNodeFailReport) :=
  match l with
  | [] => None
  | fr :: l => if fr_node fr =? sender then Some l else l ← report_remove sender l; Some (fr :: l)
  end.
Definition clusterNodeDelFailureReport (node_timeout now : Z) (node : clusterNode) (sender : Z) : clusterNode * Z :=
  match report_remove sender (fail_reports node) with
  | None => (node, 0)
  | Some l => (clusterNodeCleanupFailureReports node_timeout now (set_fail_reports l node), 1)
  end.

Definition clusterNodeFailureReportsCount (node_timeout now : Z) (node : clusterNode) : clusterNode * Z :=
  let node := clusterNodeCleanupFailureReports node_timeout now node in
  (node, Z.of_nat (length (fail_reports node))).

Definition markNodeAsFailingIfNeeded (node_timeout now : Z) (st : clusterState) (n : Z)
    : option (clusterState * list effect) :=
  let needed_quorum := Z.quot (size st) 2 + 1 in
  node ← nodes st !! n;
  if negb (nodeTimedOut node) then Some (st, [])
  else if nodeFailed node then Some (st, [])
  else
    let '(node', failures) := clusterNodeFailureReportsCount node_timeout now node in
    st ← upd st n (fun _ => node');
    me ← nodes st !! myself st;
    let failures := if nodeIsMaster me then failures + 1 else failures in
    if failures <? needed_quorum then Some (st, [])
    else
      st ← upd st n (fun node =>
             set_fail_time now
               (set_flags (Z.lor (Z.land (flags node) (Z.lnot CLUSTER_NODE_PFAIL)) CLUSTER_NODE_FAIL) node));
      Some (st, [SendFail n]).

Definition clearNodeFailureIfNeeded (node_timeout now : Z) (st : clusterState) (n : Z) : option clusterState :=
  node ← nodes st !! n;
  assert! nodeFailed node;
  let clear node := set_flags (Z.land (flags node) (Z.lnot CLUSTER_NODE_FAIL)) node in
  st ← (if nodeIsSlave node || (numslots node =? 0) then upd st n clear else Some st);
  node ← nodes st !! n;
  if nodeIsMaster node && (numslots node >? 0)
     && (now - fail_time node >? node_timeout * CLUSTER_FAIL_UNDO_TIME_MULT)
  then upd st n clear else Some st.

(** ** Creating and deleting nodes *)

Definition createClusterNode (nodename : bytes) (f : Z) : clusterNode :=
  Node nodename f 0 (replicate (Z.to_nat (CLUSTER_SLOTS / 8)) 0) 0 [] None 0 0 [].

(** [address] is where the new node was allocated. *)
Definition clusterAddNode (st : clusterState) (address : Z) (node : clusterNode) : clusterState :=
  set_nodes (<[address := node]> (nodes st)) st.

Fixpoint orphan_loop (st : clusterState) (l : list Z) : option clusterState :=
  match l with
  | [] => Some st
  | s :: l => st ← upd st s (set_slaveof None); orphan_loop st l
  end.

Definition freeClusterNode (st : clusterState) (n : Z) : option clusterState :=
  node ← nodes st !! n;
  st ← orphan_loop st (slaves node);
  node ← nodes st !! n;
  st ← (if nodeIsSlave node then
          match slaveof node with
          | Some m => '(st, _) ← clusterNodeRemoveSlave st m n; Some st
          | None => Some st
          end
        else Some st);
  Some (set_nodes (delete n (nodes st)) st).

(** [if (l[j] == n) l[j] = NULL] *)
Definition forget_slot (n : Z) (l : list (option Z)) (j : Z) : option (list (option Z)) :=
  o ← slot_get l j;
  if bool_decide (o = Some n) then slot_set l j None else Some l.

Fixpoint del_slots_loop (fuel : nat) (st : clusterState) (delnode j : Z) : option clusterState :=
  match fuel with
  | O => Some st
  | S fuel =>
      imp ← forget_slot delnode (importing_slots_from st) j;
      mig ← forget_slot delnode (migrating_slots_to st) j;
      let st := set_open mig imp st in
      o ← slot_get (owner st) j;
      if bool_decide (o = Some delnode) then
        '(st, _) ← clusterDelSlot st j; del_slots_loop fuel st delnode (j + 1)
      else del_slots_loop fuel st delnode (j + 1)
  end.

Definition del_reports (node_timeout now : Z) (delnode : Z) (m : gmap Z clusterNode) : gmap Z clusterNode :=
  map_imap (fun n node =>
    Some (if n =? delnode then node else (clusterNodeDelFailureReport node_timeout now node delnode).1)) m.

Definition clusterDelNode (node_timeout now : Z) (st : clusterState) (delnode : Z) : option clusterState :=
  st ← del_slots_loop (Z.to_nat CLUSTER_SLOTS) st delnode 0;
  let st := set_nodes (del_reports node_timeout now delnode (nodes st)) st in
  freeClusterNode st delnode.

(** ** Epochs and votes *)

Definition clusterGetMaxEpoch (st : clusterState) : Z :=
  let max := map_fold (fun _ n max => if configEpoch n >? max then configEpoch n else max) 0 (nodes st) in
  if max <? currentEpoch st then currentEpoch st else max.

(** [currentEpoch++; myself->configEpoch = currentEpoch;] *)
Definition new_epoch (st : clusterState) : option clusterState :=
  let cur := uint 64 (currentEpoch st + 1) in
  upd (set_epochs cur (lastVoteEpoch st) st) (myself st) (set_configEpoch cur).

Definition clusterBumpConfigEpochWithoutConsensus (st : clusterState) : option (clusterState * retcode) :=
  let maxEpoch := clusterGetMaxEpoch st in
  me ← nodes st !! myself st;
  if (configEpoch me =? 0) || negb (configEpoch me =? maxEpoch) then st ← new_epoch st; Some (st, C_OK)
  else Some (st, C_ERR).

Definition clusterHandleConfigEpochCollision (st : clusterState) (sender : Z) : option clusterState :=
  s ← nodes st !! sender;
  me ← nodes st !! myself st;
  if negb (configEpoch s =? configEpoch me) || negb (nodeIsMaster s) || negb (nodeIsMaster me) then Some st
  else if memcmp (name s) (name me) <=? 0 then Some st
  else new_epoch st.

Record clusterMsg := Msg {
  m_currentEpoch : Z;
  m_configEpoch : Z;
  myslots : bytes;
  force_ack : bool;
}.

(** No claimed slot is served under a greater epoch. *)
Fixpoint claims_ok (fuel : nat) (st : clusterState) (claimed : bytes) (reqEpoch j : Z) : option bool :=
  match fuel with
  | O => Some true
  | S fuel =>
      b ← bitmapTestBit claimed j;
      if negb b then claims_ok fuel st claimed reqEpoch (j + 1)
      else
        o ← slot_get (owner st) j;
        match o with
        | None => claims_ok fuel st claimed reqEpoch (j + 1)
        | Some n =>
            node ← nodes st !! n;
            if configEpoch node <=? reqEpoch then claims_ok fuel st claimed reqEpoch (j + 1) else Some false
        end
  end.

Definition clusterSendFailoverAuthIfNeeded (node_timeout now : Z) (st : clusterState) (node : Z) (request : clusterMsg)
    : option (clusterState * list effect) :=
  n ← nodes st !! node;
  me ← nodes st !! myself st;
  if nodeIsSlave me || (numslots me =? 0) then Some (st, [])
  else if m_currentEpoch request <? currentEpoch st then Some (st, [])
  else if lastVoteEpoch st =? currentEpoch st then Some (st, [])
  else if nodeIsMaster n then Some (st, [])
  else
    match slaveof n with
    | None => Some (st, [])
    | Some master =>
        m ← nodes st !! master;
        if negb (nodeFailed m) && negb (force_ack request) then Some (st, [])
        else if now - voted_time m <? node_timeout * 2 then Some (st, [])
        else
          ok ← claims_ok (Z.to_nat CLUSTER_SLOTS) st (myslots request) (m_configEpoch request) 0;
          if negb ok then Some (st, [])
          else
            st ← upd (set_epochs (currentEpoch st) (currentEpoch st) st) master (set_voted_time now);
            Some (st, [SendFailoverAuth node])
    end.

(** ** Packets

    The node names of a packet are resolved by [clusterLookupNode]; a packet here
    carries the addresses, [None] for a name that is not known. *)

(** A packet of a known node publishes its epochs. *)
Definition packet_epochs (st : clusterState) (sender : Z) (hdr : clusterMsg) : option clusterState :=
  s ← nodes st !! sender;
  if nodeInHandshake s then Some st
  else
    let st := if m_currentEpoch hdr >? currentEpoch st then set_epochs (m_currentEpoch hdr) (lastVoteEpoch st) st
              else st in
    if m_configEpoch hdr >? configEpoch s then upd st sender (set_configEpoch (m_configEpoch hdr)) else Some st.

(** A PONG on the link of node [n]. *)
Definition packet_pong (node_timeout now : Z) (st : clusterState) (n : Z) : option clusterState :=
  node ← nodes st !! n;
  if nodeTimedOut node then
    upd st n (fun node => set_flags (Z.land (flags node) (Z.lnot CLUSTER_NODE_PFAIL)) node)
  else if nodeFailed node then clearNodeFailureIfNeeded node_timeout now st n
  else Some st.

(** The role in the header of PING, PONG and MEET: [None] is a master. *)
Definition packet_role (st : clusterState) (sender : Z) (role : option (option Z)) : option clusterState :=
  match role with
  | None => clusterSetNodeAsMaster st sender
  | Some master =>
      s ← nodes st !! sender;
      st ← (if nodeIsMaster s then
              '(st, _) ← clusterDelNodeSlots st sender;
              upd st sender (fun s =>
                set_flags (Z.lor (Z.land (flags s)
                  (Z.lnot (Z.lor CLUSTER_NODE_MASTER CLUSTER_NODE_MIGRATE_TO))) CLUSTER_NODE_SLAVE) s)
            else Some st);
      s ← nodes st !! sender;
      match master with
      | None => Some st
      | Some m =>
          if bool_decide (slaveof s = Some m) then Some st
          else
            st ← match slaveof s with
                 | Some old => '(st, _) ← clusterNodeRemoveSlave st old sender; Some st
                 | None => Some st
                 end;
            '(st, _) ← clusterNodeAddSlave st m sender;
            upd st sender (set_slaveof (Some m))
      end
  end.

(** The slots in the header: rebinding, then an epoch collision. In between, a
    sender with an outdated view is sent an UPDATE packet, which changes nothing
    here. *)
Definition packet_slots (countKeysInSlot : Z -> Z) (no_redirection allow_migration : bool)
    (st : clusterState) (sender : Z) (hdr : clusterMsg) : option (clusterState * list effect) :=
  s ← nodes st !! sender;
  let sender_master := if nodeIsMaster s then Some sender else slaveof s in
  dirty_slots ← match sender_master with
                | Some m => node ← nodes st !! m; Some (negb (memcmp (slots node) (myslots hdr) =? 0))
                | None => Some false
                end;
  '(st, effs) ← (if nodeIsMaster s && dirty_slots
                 then clusterUpdateSlotsConfigWith countKeysInSlot no_redirection allow_migration st sender
                        (m_configEpoch hdr) (myslots hdr)
                 else Some (st, []));
  me ← nodes st !! myself st;
  s ← nodes st !! sender;
  st ← (if nodeIsMaster me && nodeIsMaster s && (m_configEpoch hdr =? configEpoch me)
        then clusterHandleConfigEpochCollision st sender else Some st);
  Some (st, effs).

(** An entry of the gossip section about a known node: its flags as seen by the
    sender, and whether no ping to it is pending ([ping_sent == 0]). The failure
    reports are counted, and so cleaned up, when the node is up and idle. *)
Definition gossip_entry (node_timeout now : Z) (st : clusterState) (sender node f : Z) (idle : bool)
    : option (clusterState * list effect) :=
  s ← nodes st !! sender;
  let failing := negb (Z.land f (Z.lor CLUSTER_NODE_FAIL CLUSTER_NODE_PFAIL) =? 0) in
  '(st, effs) ← (if nodeIsMaster s && negb (node =? myself st) then
                   if failing then
                     st ← upd st node (fun n => (clusterNodeAddFailureReport n sender now).1);
                     markNodeAsFailingIfNeeded node_timeout now st node
                   else
                     st ← upd st node (fun n => (clusterNodeDelFailureReport node_timeout now n sender).1);
                     Some (st, [])
                 else Some (st, []));
  st ← (if negb failing && idle
        then upd st node (fun n => (clusterNodeFailureReportsCount node_timeout now n).1)
        else Some st);
  Some (st, effs).

Fixpoint gossip_section (node_timeout now : Z) (st : clusterState) (sender : Z) (g : list (Z * Z * bool))
    : option (clusterState * list effect) :=
  match g with
  | [] => Some (st, [])
  | (node, f, idle) :: g =>
      '(st, e1) ← gossip_entry node_timeout now st sender node f idle;
      '(st, e2) ← gossip_section node_timeout now st sender g;
      Some (st, e1 ++ e2)
  end.

(** A FAIL packet about node [failing]. *)
Definition packet_fail (now : Z) (st : clusterState) (failing : Z) : option clusterState :=
  f ← nodes st !! failing;
  if has_flag f (Z.lor CLUSTER_NODE_FAIL CLUSTER_NODE_MYSELF) then Some st
  else upd st failing (fun f =>
         set_fail_time now
           (set_flags (Z.land (Z.lor (flags f) CLUSTER_NODE_FAIL) (Z.lnot CLUSTER_NODE_PFAIL)) f)).

(** An UPDATE packet: the configuration of node [n] as another node knows it. *)
Definition packet_update (countKeysInSlot : Z -> Z) (no_redirection allow_migration : bool)
    (st : clusterState) (n reportedConfigEpoch : Z) (claimed : bytes) : option (clusterState * list effect) :=
  node ← nodes st !! n;
  if configEpoch node >=? reportedConfigEpoch then Some (st, [])
  else
    st ← (if nodeIsSlave node then clusterSetNodeAsMaster st n else Some st);
    st ← upd st n (set_configEpoch reportedConfigEpoch);
    clusterUpdateSlotsConfigWith countKeysInSlot no_redirection allow_migration st n reportedConfigEpoch claimed.

(** The state of a node that starts without a configuration file. *)
Definition clusterInit (address : Z) (nodename : bytes) : clusterState :=
  let none := replicate (Z.to_nat CLUSTER_SLOTS) None in
  clusterAddNode (State address 0 0 1 ∅ none none none) address
    (createClusterNode nodename (Z.lor CLUSTER_NODE_MYSELF CLUSTER_NODE_MASTER)).

(** ** Events

    The configuration of the server and the clock are arguments of an event. *)

Record env := Env {
  node_timeout : Z;
  now : Z;
  countKeysInSlot : Z -> Z;
  no_redirection : bool;
  allow_migration : bool;
}.

Inductive event :=
  | Ping (sender : Z) (hdr : clusterMsg) (role : option (option Z)) (gossip : list (Z * Z * bool))
  | Pong (n : Z)
  | FailMsg (sender : Z) (hdr : clusterMsg) (failing : Z)
  | AuthRequest (sender : Z) (hdr : clusterMsg)
  | UpdateMsg (sender : Z) (hdr : clusterMsg) (n reportedConfigEpoch : Z) (claimed : bytes)
  | AddSlot (n slot : Z)
  | DelSlot (slot : Z)
  | AddNode (address : Z) (nodename : bytes) (f : Z)
  | DelNode (n : Z)
  | SetMaster (n : Z)
  | BumpEpoch
  | StartElection
  | WinElection (failover_auth_epoch : Z).

(** A packet of type PING, PONG or MEET, from a known node. *)
Definition packet_ping (ev : env) (st : clusterState) (sender : Z) (hdr : clusterMsg) (role : option (option Z))
    (gossip : list (Z * Z * bool)) : option (clusterState * list effect) :=
  st ← packet_epochs st sender hdr;
  st ← packet_role st sender role;
  '(st, e1) ← packet_slots (countKeysInSlot ev) (no_redirection ev) (allow_migration ev) st sender hdr;
  '(st, e2) ← gossip_section (node_timeout ev) (now ev) st sender gossip;
  Some (st, e1 ++ e2).

(** The election is won: the node takes the epoch it asked the votes for. *)
Definition win_election (st : clusterState) (failover_auth_epoch : Z) : option (clusterState * list effect) :=
  me ← nodes st !! myself st;
  st ← (if configEpoch me <? failover_auth_epoch then upd st (myself st) (set_configEpoch failover_auth_epoch)
        else Some st);
  clusterFailoverReplaceYourMaster st.

Definition exec (ev : env) (st : clusterState) (e : event) : option (clusterState * list effect) :=
  match e with
  | Ping sender hdr role gossip => packet_ping ev st sender hdr role gossip
  | Pong n => st ← packet_pong (node_timeout ev) (now ev) st n; Some (st, [])
  | FailMsg sender hdr failing =>
      st ← packet_epochs st sender hdr; st ← packet_fail (now ev) st failing; Some (st, [])
  | AuthRequest sender hdr =>
      st ← packet_epochs st sender hdr; clusterSendFailoverAuthIfNeeded (node_timeout ev) (now ev) st sender hdr
  | UpdateMsg sender hdr n e claimed =>
      st ← packet_epochs st sender hdr;
      packet_update (countKeysInSlot ev) (no_redirection ev) (allow_migration ev) st n e claimed
  | AddSlot n slot => '(st, _) ← clusterAddSlot st n slot; Some (st, [])
  | DelSlot slot => '(st, _) ← clusterDelSlot st slot; Some (st, [])
  | AddNode address nodename f => Some (clusterAddNode st address (createClusterNode nodename f), [])
  | DelNode n => st ← clusterDelNode (node_timeout ev) (now ev) st n; Some (st, [])
  | SetMaster n => clusterSetMaster st n
  | BumpEpoch => '(st, _) ← clusterBumpConfigEpochWithoutConsensus st; Some (st, [])
  | StartElection => Some (set_epochs (uint 64 (currentEpoch st + 1)) (lastVoteEpoch st) st, [])
  | WinElection failover_auth_epoch => win_election st failover_auth_epoch
  end.

(** A sequence of events; the result has the epochs of the votes granted. *)
Fixpoint steps (st : clusterState) (l : list (env * event)) : option (clusterState * list Z) :=
  match l with
  | [] => Some (st, [])
  | (ev, e) :: l =>
      '(st, effs) ← exec ev st e;
      '(st', vs) ← steps st l;
      Some (st', omap (fun f => match f with SendFailoverAuth _ => Some (lastVoteEpoch st) | _ => None end) effs ++ vs)
  end.

End Cluster.
