(* ===== verification/ClusterInv.v ===== *)
(** The invariants of the cluster state: the table of slot owners agrees with the
    bitmap and the counter of every node, the links between masters and
    replicas are symmetric, and no pointer outlives the node it refers to. *)

From stdpp Require Import gmap.
From S2P Require Import Prelude Crc Sds Cluster.
Import Crc Cluster.

Module ClusterInv.

(** ** Bitmaps *)

Definition bit_at (b : bytes) (j : Z) : bool := Z.testbit (default 0 (b !! Z.to_nat (j / 8))) (j mod 8).

Lemma land_7 j : Z.land j 7 = j mod 8.
Proof. exact (land_ones_mod j 3 ltac:(lia)). Qed.

Lemma shift_bit j : Z.shiftl 1 (Z.land j 7) = 2 ^ (j mod 8).
Proof. rewrite land_7, Z.shiftl_mul_pow2 by (apply Z.mod_pos_bound; lia). lia. Qed.

Lemma bget_byte b j :
  is_bytes b -> 0 <= j < 8 * blen b ->
  exists x, bget b (j / 8) = Some x /\ b !! Z.to_nat (j / 8) = Some x /\ is_byte x.
Proof.
  intros Hb Hj. destruct (bget_is_Some b (j / 8)) as [x Hx]; [dlia|].
  exists x. split; [done|]. split; [by apply bget_Some in Hx as [_ ?] | by eapply bget_is_byte].
Qed.

Lemma bset_insert b i v : 0 <= i < blen b -> bset b i v = Some (<[Z.to_nat i := v]> b).
Proof.
  intros Hi. destruct (bget_is_Some b i Hi) as [x [_ Hx]%bget_Some].
  rewrite (insert_take_drop b _ v) by (by eapply lookup_lt_Some).
  apply (bset_at _ _ _ x); [by rewrite take_drop_middle|].
  apply lookup_lt_Some in Hx. unfold blen. rewrite length_take. lia.
Qed.

Lemma bitmapTestBit_ok b j :
  is_bytes b -> 0 <= j < 8 * blen b -> bitmapTestBit b j = Some (bit_at b j).
Proof.
  intros Hb Hj. destruct (bget_byte b j) as (x & Hx & Hl & _); [done..|].
  unfold bitmapTestBit, bit_at. rewrite Hx, bind_Some, Hl, shift_bit, land_pow2 by (apply Z.mod_pos_bound; lia).
  done.
Qed.

(** Writing the byte of bit [j] changes the bits of that byte only. *)
Lemma bitmap_write b j v :
  is_bytes b -> 0 <= j < 8 * blen b ->
  exists b', bset b (j / 8) (uint 8 v) = Some b' /\ is_bytes b' /\ blen b' = blen b /\
    forall i, 0 <= i < 8 * blen b -> bit_at b' i = if i / 8 =? j / 8 then Z.testbit v (i mod 8) else bit_at b i.
Proof.
  intros Hb Hj. exists (<[Z.to_nat (j / 8) := uint 8 v]> b).
  assert (Hlt : (Z.to_nat (j / 8) < length b)%nat) by (unfold blen in Hj; dlia).
  split_and!.
  - apply bset_insert. dlia.
  - apply Forall_insert; [done|]. apply (uint_range 8 v). lia.
  - unfold blen. by rewrite length_insert.
  - intros i Hi. unfold bit_at. destruct (Z.eqb_spec (i / 8) (j / 8)) as [-> | Hne].
    + rewrite list_lookup_insert_eq by done. cbn. unfold uint.
      rewrite Z.mod_pow2_bits_low; [done|]. pose proof (Z.mod_pos_bound i 8). lia.
    + rewrite list_lookup_insert_ne; [done|]. dlia.
Qed.

Lemma bitmapSetBit_ok b j :
  is_bytes b -> 0 <= j < 8 * blen b ->
  exists b', bitmapSetBit b j = Some b' /\ is_bytes b' /\ blen b' = blen b /\
    forall i, 0 <= i < 8 * blen b -> bit_at b' i = (i =? j) || bit_at b i.
Proof.
  intros Hb Hj. destruct (bget_byte b j) as (x & Hx & Hl & _); [done..|].
  unfold bitmapSetBit. rewrite Hx, bind_Some, shift_bit.
  destruct (bitmap_write b j (Z.lor x (2 ^ (j mod 8)))) as (b' & -> & Hb' & Hlen & Hbits); [done..|].
  exists b'. split_and!; [done..|]. intros i Hi. rewrite Hbits by done. unfold bit_at.
  destruct (Z.eqb_spec (i / 8) (j / 8)) as [E | E].
  - rewrite E, Hl, Z.lor_spec, Z.pow2_bits_eqb, orb_comm by (apply Z.mod_pos_bound; lia). cbn. f_equal. dlia.
  - bdestr (i =? j); [subst; done | done].
Qed.

Lemma bitmapClearBit_ok b j :
  is_bytes b -> 0 <= j < 8 * blen b ->
  exists b', bitmapClearBit b j = Some b' /\ is_bytes b' /\ blen b' = blen b /\
    forall i, 0 <= i < 8 * blen b -> bit_at b' i = negb (i =? j) && bit_at b i.
Proof.
  intros Hb Hj. destruct (bget_byte b j) as (x & Hx & Hl & _); [done..|].
  unfold bitmapClearBit. rewrite Hx, bind_Some, shift_bit.
  destruct (bitmap_write b j (Z.land x (Z.lnot (2 ^ (j mod 8))))) as (b' & -> & Hb' & Hlen & Hbits); [done..|].
  exists b'. split_and!; [done..|]. intros i Hi. rewrite Hbits by done. unfold bit_at.
  destruct (Z.eqb_spec (i / 8) (j / 8)) as [E | E].
  - assert (0 <= i mod 8) by (apply Z.mod_pos_bound; lia).
    rewrite E, Hl, Z.land_spec, Z.lnot_spec, Z.pow2_bits_eqb, andb_comm by (apply Z.mod_pos_bound; lia).
    cbn. do 2 f_equal. dlia.
  - bdestr (i =? j); [subst; done | done].
Qed.

(** ** Slots *)

(** How many slots node [n] owns. *)
Definition slot_count (n : Z) (own : list (option Z)) : Z :=
  Z.of_nat (length (filter (fun o => o = Some n) own)).

Definition one_if (b : bool) : Z := if b then 1 else 0.

Lemma slot_count_insert n own i o o' :
  own !! i = Some o ->
  slot_count n (<[i := o']> own) = slot_count n own - one_if (bool_decide (o = Some n))
                                   + one_if (bool_decide (o' = Some n)).
Proof.
  intros Hi. rewrite (insert_take_drop own i o') by (by eapply lookup_lt_Some).
  transitivity (slot_count n (take i own ++ o' :: drop (S i) own)); [done|].
  replace (slot_count n own) with (slot_count n (take i own ++ o :: drop (S i) own)) by (by rewrite take_drop_middle).
  unfold slot_count. rewrite !filter_app, !filter_cons, !length_app.
  rewrite !bool_decide_decide. repeat case_decide; cbn [length one_if]; lia.
Qed.

Lemma slot_count_bound n own : 0 <= slot_count n own <= Z.of_nat (length own).
Proof. unfold slot_count. pose proof (length_filter (fun o => o = Some n) own). lia. Qed.

(** The bitmap and the counter of a node say which slots it owns; a replica owns
    none. *)
Record node_slots (own : list (option Z)) (n : Z) (node : clusterNode) : Prop := {
  ns_bytes : is_bytes (slots node);
  ns_len : blen (slots node) = CLUSTER_SLOTS / 8;
  ns_bits : forall j, 0 <= j < CLUSTER_SLOTS ->
    bit_at (slots node) j = bool_decide (own !! Z.to_nat j = Some (Some n));
  ns_num : numslots node = slot_count n own;
  ns_idle : nodeIsSlave node = true -> numslots node = 0;
}.

Record slots_ok (own : list (option Z)) (m : gmap Z clusterNode) : Prop := {
  so_len : length own = Z.to_nat CLUSTER_SLOTS;
  so_known : forall j n, own !! j = Some (Some n) -> is_Some (m !! n);
  so_node : forall n node, m !! n = Some node -> node_slots own n node;
}.

(** Two nodes that may differ in the slots they serve only. *)
Record same_node (a b : clusterNode) : Prop := {
  sn_name : name a = name b;
  sn_epoch : configEpoch a = configEpoch b;
  sn_slaves : slaves a = slaves b;
  sn_slaveof : slaveof a = slaveof b;
  sn_reports : fail_reports a = fail_reports b;
  sn_master : nodeIsMaster a = nodeIsMaster b;
  sn_slave : nodeIsSlave a = nodeIsSlave b;
}.
Definition same_nodes (m m' : gmap Z clusterNode) : Prop :=
  forall n, option_relation same_node (fun _ => False) (fun _ => False) (m !! n) (m' !! n).

#[export] Instance same_node_equiv : Equivalence same_node.
Proof.
  split; [by intros a | intros a b []; split; done | intros a b c [] []; split; congruence].
Qed.
#[export] Instance same_nodes_equiv : Equivalence same_nodes.
Proof.
  split.
  - intros m n. by destruct (m !! n).
  - intros m m' H n. specialize (H n). destruct (m !! n), (m' !! n); cbn in *; by try symmetry.
  - intros m m' m'' H H' n. specialize (H n). specialize (H' n).
    destruct (m !! n), (m' !! n), (m'' !! n); cbn in *; try done. by etransitivity.
Qed.

Lemma same_nodes_fwd m m' n a : same_nodes m m' -> m !! n = Some a -> exists b, m' !! n = Some b /\ same_node a b.
Proof. intros H Ha. specialize (H n). rewrite Ha in H. destruct (m' !! n); [eauto | done]. Qed.
Lemma same_nodes_bwd m m' n b : same_nodes m m' -> m' !! n = Some b -> exists a, m !! n = Some a /\ same_node a b.
Proof. intros H Hb. specialize (H n). rewrite Hb in H. destruct (m !! n); [eauto | done]. Qed.

Lemma same_nodes_insert m n a b : m !! n = Some a -> same_node a b -> same_nodes m (<[n := b]> m).
Proof.
  intros Ha Hab k. destruct (decide (k = n)) as [-> | Hne].
  - by rewrite lookup_insert_eq, Ha.
  - rewrite lookup_insert_ne by done. by destruct (m !! k).
Qed.

(** The flag bits. *)
Lemma has_flag_bit n k : 0 <= k -> has_flag n (2 ^ k) = Z.testbit (flags n) k.
Proof. apply land_pow2. Qed.
Lemma master_bit n : nodeIsMaster n = Z.testbit (flags n) 0.
Proof. by apply (has_flag_bit n 0). Qed.
Lemma slave_bit n : nodeIsSlave n = Z.testbit (flags n) 1.
Proof. by apply (has_flag_bit n 1). Qed.

(** Set or clear flags that do not concern the role. *)
Ltac flag_bits :=
  rewrite ?master_bit, ?slave_bit; cbn [flags set_flags set_slaves set_slaveof set_fail_time set_slots set_configEpoch
    set_voted_time set_fail_reports];
  rewrite ?Z.lor_spec, ?Z.land_spec, ?Z.lnot_spec, ?Z.lor_spec by lia;
  cbn; rewrite ?andb_true_r, ?andb_false_r, ?orb_false_r, ?orb_true_r.

(** [st'] has the slots of [st] rebound, and nothing else changed. *)
Record rebound (st st' : clusterState) : Prop := {
  rb_state : st' = set_owner (owner st') (set_nodes (nodes st') st);
  rb_same : same_nodes (nodes st) (nodes st');
  rb_ok : slots_ok (owner st') (nodes st');
}.

Lemma rebound_refl st : slots_ok (owner st) (nodes st) -> rebound st st.
Proof. intros. split; [by destruct st | done | done]. Qed.
Lemma rebound_trans st1 st2 st3 : rebound st1 st2 -> rebound st2 st3 -> rebound st1 st3.
Proof.
  intros [E2 S2 _] [E3 S3 O3]. split; [|by etransitivity|done].
  rewrite E3 at 1. rewrite E2. done.
Qed.
Lemma rebound_myself st st' : rebound st st' -> myself st' = myself st.
Proof. by intros [-> _ _]. Qed.

Lemma slots_lookup own m j :
  slots_ok own m -> 0 <= j < CLUSTER_SLOTS -> exists o, slot_get own j = Some o /\ own !! Z.to_nat j = Some o.
Proof.
  intros Hok Hj. destruct (lookup_lt_is_Some_2 own (Z.to_nat j)) as [o Ho].
  { rewrite (so_len _ _ Hok). lia. }
  exists o. unfold slot_get. by rewrite (proj2 (Z.leb_le 0 j)) by lia.
Qed.

Lemma slot_set_ok own m j v :
  slots_ok own m -> 0 <= j < CLUSTER_SLOTS -> slot_set own j v = Some (<[Z.to_nat j := v]> own).
Proof.
  intros Hok Hj. unfold slot_set. rewrite (so_len _ _ Hok). bcase; [done|]. rewrite Z2Nat.id in *; lia.
Qed.

(** One slot changes hands between two nodes: what the nodes have to record. *)
Lemma node_slots_insert own n node j o o' b k :
  node_slots own n node -> 0 <= j < CLUSTER_SLOTS -> own !! Z.to_nat j = Some o ->
  is_bytes b -> blen b = CLUSTER_SLOTS / 8 ->
  (forall i, 0 <= i < CLUSTER_SLOTS ->
     bit_at b i = if i =? j then bool_decide (o' = Some n) else bit_at (slots node) i) ->
  k = numslots node - one_if (bool_decide (o = Some n)) + one_if (bool_decide (o' = Some n)) ->
  forall node', slots node' = b -> numslots node' = k -> (nodeIsSlave node' = true -> k = 0) ->
  node_slots (<[Z.to_nat j := o']> own) n node'.
Proof.
  intros [_ _ Hbits Hnum _] Hj Ho Hb Hlen Hb' -> node' Es En Hidle.
  split; rewrite ?Es, ?En; try done.
  - intros i Hi. rewrite Hb' by done. destruct (Z.eqb_spec i j) as [-> | Hne].
    + rewrite list_lookup_insert_eq by (by eapply lookup_lt_Some).
      by apply bool_decide_ext; split; [intros -> | intros [=]].
    + rewrite list_lookup_insert_ne by lia. by apply Hbits.
  - by rewrite (slot_count_insert _ _ _ o) by done; rewrite Hnum.
Qed.

(** A node that is neither the old nor the new owner has nothing to record. *)
Lemma node_slots_other own n node j o o' :
  node_slots own n node -> 0 <= j < CLUSTER_SLOTS -> own !! Z.to_nat j = Some o ->
  o <> Some n -> o' <> Some n -> node_slots (<[Z.to_nat j := o']> own) n node.
Proof.
  intros Hns Hj Ho H1 H2. apply (node_slots_insert own n node j o o' (slots node) (numslots node));
    try done; try apply Hns.
  - intros i Hi. destruct (Z.eqb_spec i j) as [-> | ]; [|done].
    rewrite (ns_bits _ _ _ Hns), Ho by done. by rewrite !bool_decide_false by congruence.
  - rewrite !bool_decide_false by done. cbn. lia.
Qed.

Lemma upd_Some st n node f : nodes st !! n = Some node -> upd st n f = Some (set_nodes (<[n := f node]> (nodes st)) st).
Proof. intros H. unfold upd. by rewrite H. Qed.

Lemma set_nodes_twice m m' st : set_nodes m (set_nodes m' st) = set_nodes m st.
Proof. done. Qed.

Lemma slots_ok_insert own m j o o' n a b :
  slots_ok own m -> 0 <= j < CLUSTER_SLOTS -> own !! Z.to_nat j = Some o -> m !! n = Some a ->
  (forall k, k <> n -> o <> Some k /\ o' <> Some k) ->
  node_slots (<[Z.to_nat j := o']> own) n b ->
  slots_ok (<[Z.to_nat j := o']> own) (<[n := b]> m).
Proof.
  intros Hok Hj Ho Hn Hother Hb. split.
  - rewrite length_insert. apply Hok.
  - intros i k. destruct (decide (i = Z.to_nat j)) as [-> | Hne].
    + rewrite list_lookup_insert_eq by (by eapply lookup_lt_Some). intros [= ->].
      destruct (decide (k = n)) as [-> | Hk]; [by rewrite lookup_insert_eq|].
      by destruct (Hother k Hk).
    + rewrite list_lookup_insert_ne by done. intros Hi%(so_known _ _ Hok).
      destruct (decide (k = n)) as [-> | Hk]; [by rewrite lookup_insert_eq | by rewrite lookup_insert_ne].
  - intros k node. destruct (decide (k = n)) as [-> | Hk].
    + rewrite lookup_insert_eq. by intros [= <-].
    + rewrite lookup_insert_ne by done. intros Hk'. destruct (Hother k Hk).
      eapply node_slots_other; try done. by apply Hok.
Qed.

Lemma numslots_range own m n node : slots_ok own m -> m !! n = Some node -> 0 <= numslots node <= CLUSTER_SLOTS.
Proof.
  intros Hok Hn. rewrite (ns_num _ _ _ (so_node _ _ Hok _ _ Hn)).
  pose proof (slot_count_bound n own). rewrite (so_len _ _ Hok) in *. unfold CLUSTER_SLOTS in *. lia.
Qed.

Lemma slots_bits b : blen b = CLUSTER_SLOTS / 8 -> 8 * blen b = CLUSTER_SLOTS.
Proof. intros ->. done. Qed.

(** [clusterDelSlot] on an assigned slot. *)
Lemma clusterDelSlot_spec st j n :
  slots_ok (owner st) (nodes st) -> 0 <= j < CLUSTER_SLOTS -> owner st !! Z.to_nat j = Some (Some n) ->
  exists st', clusterDelSlot st j = Some (st', C_OK) /\ rebound st st' /\
    owner st' = <[Z.to_nat j := None]> (owner st).
Proof.
  intros Hok Hj Ho. destruct (so_known _ _ Hok _ _ Ho) as [node Hn].
  pose proof (so_node _ _ Hok _ _ Hn) as Hns. pose proof (numslots_range _ _ _ _ Hok Hn) as Hnum.
  pose proof (slots_bits _ (ns_len _ _ _ Hns)) as Hbl.
  destruct (slots_lookup _ _ j Hok Hj) as (o & Hg & Ho'). rewrite Ho in Ho'. injection Ho' as <-.
  assert (Hbit : bit_at (slots node) j = true) by (rewrite (ns_bits _ _ _ Hns) by done; by rewrite bool_decide_true).
  destruct (bitmapClearBit_ok (slots node) j) as (b & Hc & Hb & Hblen & Hbits); [apply Hns | lia |].
  set (node' := set_slots b (sint 32 (numslots node - 1)) node).
  exists (set_owner (<[Z.to_nat j := None]> (owner st)) (set_nodes (<[n := node']> (nodes st)) st)).
  split; [|split; [|done]].
  - unfold clusterDelSlot, clusterNodeClearSlotBit. rewrite Hg, !bind_Some, Hn, bind_Some.
    rewrite bitmapTestBit_ok, bind_Some, Hc, bind_Some, (upd_Some _ _ _ _ Hn), Hbit by (apply Hns || lia).
    cbn -[slot_set]. by rewrite (slot_set_ok _ _ _ _ Hok).
  - split; [done | by eapply same_nodes_insert |].
    apply (slots_ok_insert _ _ _ (Some n) _ _ node); try done; [intros k Hk; split; congruence|].
    assert (Hk : slot_count n (owner st) <= Z.of_nat (length (owner st))) by apply slot_count_bound.
    assert (E : sint 32 (numslots node - 1) = numslots node - 1).
    { apply sint_small; [lia|]. unfold in_sint, CLUSTER_SLOTS in *. lia. }
    eapply node_slots_insert; try done; cbn [slots numslots node' set_slots].
    + rewrite Hblen. apply Hns.
    + intros i Hi. rewrite Hbits by lia. by destruct (i =? j).
    + rewrite E, bool_decide_true, bool_decide_false by done. cbn. lia.
    + intros Hs. apply (ns_idle _ _ _ Hns) in Hs. cbn in *.
      pose proof (slot_count_insert n _ _ _ None Ho) as Hcnt. rewrite bool_decide_true, bool_decide_false in Hcnt by done.
      pose proof (slot_count_bound n (<[Z.to_nat j:=None]> (owner st))) as [Hge _].
      rewrite <- (ns_num _ _ _ Hns) in Hcnt. cbn in Hcnt. lia.
Qed.

Lemma clusterDelSlot_free st j :
  slots_ok (owner st) (nodes st) -> 0 <= j < CLUSTER_SLOTS -> owner st !! Z.to_nat j = Some None ->
  clusterDelSlot st j = Some (st, C_ERR).
Proof.
  intros Hok Hj Ho. destruct (slots_lookup _ _ j Hok Hj) as (o & Hg & Ho'). rewrite Ho in Ho'.
  injection Ho' as <-. unfold clusterDelSlot. by rewrite Hg.
Qed.

(** The node after the first part of [clusterNodeSetSlotBit]. *)
Lemma clusterNodeSetSlotBit_spec st n node j :
  nodes st !! n = Some node -> is_bytes (slots node) -> 0 <= j < 8 * blen (slots node) ->
  bit_at (slots node) j = false -> 0 <= numslots node <= CLUSTER_SLOTS ->
  exists b node', clusterNodeSetSlotBit st n j = Some (set_nodes (<[n := node']> (nodes st)) st, false) /\
    bitmapSetBit (slots node) j = Some b /\ slots node' = b /\ numslots node' = numslots node + 1 /\
    same_node node node'.
Proof.
  intros Hn Hb Hj Hbit Hnum. destruct (bitmapSetBit_ok (slots node) j Hb Hj) as (b & Hs & _).
  assert (E : sint 32 (numslots node + 1) = numslots node + 1).
  { apply sint_small; [lia|]. unfold in_sint, CLUSTER_SLOTS in *. lia. }
  unfold clusterNodeSetSlotBit. rewrite Hn, bind_Some, bitmapTestBit_ok, bind_Some, Hs, bind_Some, Hbit by done.
  rewrite E, (upd_Some _ _ _ _ Hn), bind_Some. cbv zeta.
  destruct ((numslots node + 1 =? 1) && _).
  - rewrite (upd_Some _ _ (set_slots b (numslots node + 1) node)) by apply lookup_insert_eq.
    cbn [nodes set_nodes]. rewrite insert_insert_eq, set_nodes_twice, bind_Some.
    exists b. eexists. split_and!; [done..|]. split; try done; flag_bits; done.
  - exists b. eexists. split_and!; [done..|]. by split.
Qed.

(** [clusterAddSlot] on a free slot. *)
Lemma clusterAddSlot_spec st j n node :
  slots_ok (owner st) (nodes st) -> 0 <= j < CLUSTER_SLOTS -> owner st !! Z.to_nat j = Some None ->
  nodes st !! n = Some node -> nodeIsSlave node = false ->
  exists st', clusterAddSlot st n j = Some (st', C_OK) /\ rebound st st' /\
    owner st' = <[Z.to_nat j := Some n]> (owner st).
Proof.
  intros Hok Hj Ho Hn Hslave.
  pose proof (so_node _ _ Hok _ _ Hn) as Hns. pose proof (numslots_range _ _ _ _ Hok Hn) as Hnum.
  pose proof (slots_bits _ (ns_len _ _ _ Hns)) as Hbl.
  destruct (slots_lookup _ _ j Hok Hj) as (o & Hg & Ho'). rewrite Ho in Ho'. injection Ho' as <-.
  assert (Hbit : bit_at (slots node) j = false) by (rewrite (ns_bits _ _ _ Hns), Ho by done; done).
  destruct (clusterNodeSetSlotBit_spec st n node j) as (b & node' & Hset & Hs & Es & En & Hsame);
    [done | apply Hns | lia | done | done |].
  destruct (bitmapSetBit_ok (slots node) j) as (b' & Hs' & Hb & Hblen & Hbits); [apply Hns | lia |].
  rewrite Hs in Hs'. injection Hs' as <-.
  exists (set_owner (<[Z.to_nat j := Some n]> (owner st)) (set_nodes (<[n := node']> (nodes st)) st)).
  split; [|split; [|done]].
  - unfold clusterAddSlot. rewrite Hg, bind_Some, Hset, bind_Some. cbn -[slot_set].
    by rewrite (slot_set_ok _ _ _ _ Hok).
  - split; [done | by eapply same_nodes_insert |].
    apply (slots_ok_insert _ _ _ None _ _ node); try done; [intros k Hk; split; congruence|].
    eapply node_slots_insert; try done.
    + rewrite Hblen. apply Hns.
    + intros i Hi. rewrite Hbits by lia. bdestr (i =? j); [|done]. by rewrite bool_decide_true.
    + rewrite bool_decide_false, bool_decide_true by done. cbn. lia.
    + rewrite <- (sn_slave _ _ Hsame). congruence.
Qed.

Lemma clusterAddSlot_busy st j n k :
  slots_ok (owner st) (nodes st) -> 0 <= j < CLUSTER_SLOTS -> owner st !! Z.to_nat j = Some (Some k) ->
  clusterAddSlot st n j = Some (st, C_ERR).
Proof.
  intros Hok Hj Ho. destruct (slots_lookup _ _ j Hok Hj) as (o & Hg & Ho'). rewrite Ho in Ho'.
  injection Ho' as <-. unfold clusterAddSlot. by rewrite Hg.
Qed.

(** [clusterDelSlot(j); clusterAddSlot(n, j);] *)
Lemma reassign_spec st j n node :
  slots_ok (owner st) (nodes st) -> 0 <= j < CLUSTER_SLOTS ->
  nodes st !! n = Some node -> nodeIsSlave node = false ->
  exists st1 c st2, clusterDelSlot st j = Some (st1, c) /\ clusterAddSlot st1 n j = Some (st2, C_OK) /\
    rebound st st1 /\ rebound st st2 /\ owner st2 = <[Z.to_nat j := Some n]> (owner st).
Proof.
  intros Hok Hj Hn Hslave. destruct (slots_lookup _ _ j Hok Hj) as ([k|] & _ & Ho).
  - destruct (clusterDelSlot_spec st j k) as (st1 & Hdel & Hr1 & Ho1); [done..|].
    destruct (same_nodes_fwd _ _ _ _ (rb_same _ _ Hr1) Hn) as (node1 & Hn1 & Hsame).
    destruct (clusterAddSlot_spec st1 j n node1) as (st2 & Hadd & Hr2 & Ho2).
    { apply Hr1. } { done. }
    { rewrite Ho1. apply list_lookup_insert_eq. by eapply lookup_lt_Some. } { done. }
    { by rewrite <- (sn_slave _ _ Hsame). }
    exists st1, C_OK, st2. split_and!; [done..| by eapply rebound_trans |].
    by rewrite Ho2, Ho1, list_insert_insert_eq.
  - destruct (clusterAddSlot_spec st j n node) as (st2 & Hadd & Hr2 & Ho2); [done..|].
    exists st, C_ERR, st2. split_and!; [by apply clusterDelSlot_free | done | by apply rebound_refl | done..].
Qed.

(** ** Loops over the slots *)

(** The owners in [lo, hi) went through [g], the others are as before. *)
Definition slots_mapped (g : Z -> option Z -> option Z) (lo hi : Z) (own own' : list (option Z)) : Prop :=
  forall i, 0 <= i < CLUSTER_SLOTS ->
  own' !! Z.to_nat i = if (lo <=? i) && (i <? hi) then g i <$> own !! Z.to_nat i else own !! Z.to_nat i.

Lemma slots_mapped_nil g lo own : slots_mapped g lo lo own own.
Proof. intros i Hi. by bcase; [lia|]. Qed.

Lemma slots_mapped_step g lo hi own o own1 own' :
  0 <= lo < hi -> own !! Z.to_nat lo = Some o -> own1 = <[Z.to_nat lo := g lo o]> own ->
  slots_mapped g (lo + 1) hi own1 own' -> slots_mapped g lo hi own own'.
Proof.
  intros Hlo Ho -> H i Hi. rewrite H by done. destruct (Z.eqb_spec i lo) as [-> | Hne].
  - rewrite (proj2 (Z.leb_gt (lo + 1) lo)), Z.leb_refl, (proj2 (Z.ltb_lt lo hi)) by lia. cbn.
    rewrite list_lookup_insert_eq, Ho by (by eapply lookup_lt_Some). done.
  - rewrite list_lookup_insert_ne by lia.
    replace (lo + 1 <=? i) with (lo <=? i) by lia. done.
Qed.

Lemma slots_mapped_skip g lo hi own o own' :
  0 <= lo < hi -> own !! Z.to_nat lo = Some o -> g lo o = o ->
  slots_mapped g (lo + 1) hi own own' -> slots_mapped g lo hi own own'.
Proof.
  intros Hlo Ho Hg. apply (slots_mapped_step _ _ _ _ o); [done..|]. by rewrite Hg, list_insert_id.
Qed.

(** The state at turn [lo] of such a loop: the rest is still to be mapped. *)
Lemma rebound_slots st st' : rebound st st' -> slots_ok (owner st') (nodes st').
Proof. apply rb_ok. Qed.
#[export] Hint Resolve rebound_slots rebound_refl : core.

Definition lose (n : Z) (o : option Z) : option Z := if bool_decide (o = Some n) then None else o.

Lemma slot_bit_spec st n node j :
  slots_ok (owner st) (nodes st) -> nodes st !! n = Some node -> 0 <= j < CLUSTER_SLOTS ->
  clusterNodeGetSlotBit st n j = Some (bool_decide (owner st !! Z.to_nat j = Some (Some n))).
Proof.
  intros Hok Hn Hj. pose proof (so_node _ _ Hok _ _ Hn) as Hns. pose proof (slots_bits _ (ns_len _ _ _ Hns)).
  unfold clusterNodeGetSlotBit. rewrite Hn, bind_Some, bitmapTestBit_ok by (apply Hns || lia).
  by rewrite (ns_bits _ _ _ Hns).
Qed.

Lemma del_node_loop_spec fuel : forall st n node j d,
  slots_ok (owner st) (nodes st) -> nodes st !! n = Some node -> 0 <= j -> j + Z.of_nat fuel <= CLUSTER_SLOTS ->
  exists st', del_node_loop fuel st n j d = Some (st', d + slot_count n (owner st) - slot_count n (owner st')) /\
    rebound st st' /\ slots_mapped (fun _ => lose n) j (j + Z.of_nat fuel) (owner st) (owner st').
Proof.
  induction fuel as [|fuel IH]; intros st n node j d Hok Hn Hj Hf; cbn [del_node_loop].
  - exists st. split_and!; [do 2 f_equal; lia | auto |]. rewrite Z.add_0_r. apply slots_mapped_nil.
  - rewrite (slot_bit_spec _ _ node), bind_Some by (done || lia).
    destruct (slots_lookup _ _ j Hok) as (o & _ & Ho); [lia|]. rewrite Ho.
    replace (j + Z.of_nat (S fuel)) with (j + 1 + Z.of_nat fuel) by lia.
    destruct (decide (o = Some n)) as [-> | Hne].
    + rewrite bool_decide_true by done.
      destruct (clusterDelSlot_spec st j n) as (st1 & -> & Hr1 & Ho1); [done | lia | done |]. rewrite bind_Some.
      destruct (same_nodes_fwd _ _ _ _ (rb_same _ _ Hr1) Hn) as (node1 & Hn1 & _).
      destruct (IH st1 n node1 (j + 1) (d + 1)) as (st' & -> & Hr & Hm); [eauto | done | lia.. |].
      pose proof (slot_count_insert n _ _ _ None Ho) as Hc.
      rewrite bool_decide_true, bool_decide_false, <- Ho1 in Hc by done. cbn in Hc.
      exists st'. split_and!; [do 2 f_equal; lia | by eapply rebound_trans |].
      eapply slots_mapped_step; [lia | done | | done]. unfold lose. by rewrite bool_decide_true.
    + rewrite bool_decide_false by congruence.
      destruct (IH st n node (j + 1) d) as (st' & -> & Hr & Hm); [done | done | lia.. |].
      exists st'. split_and!; [done..|]. eapply slots_mapped_skip; [lia | done | | done].
      unfold lose. by rewrite bool_decide_false.
Qed.

Lemma slots_mapped_all g own own' j :
  slots_mapped g 0 CLUSTER_SLOTS own own' -> 0 <= j < CLUSTER_SLOTS -> own' !! Z.to_nat j = g j <$> own !! Z.to_nat j.
Proof.
  intros H Hj. rewrite H by done. by rewrite (proj2 (Z.leb_le 0 j)), (proj2 (Z.ltb_lt j _)) by lia.
Qed.

Lemma slot_count_0 n own :
  slot_count n own = 0 <-> forall i, own !! i <> Some (Some n).
Proof.
  unfold slot_count. split.
  - intros H i Hi. assert (Hnil : filter (fun o => o = Some n) own = []) by (apply length_zero_iff_nil; lia).
    apply (not_elem_of_nil (Some n)). rewrite <- Hnil.
    apply list_elem_of_filter. split; [done | by eapply list_elem_of_lookup_2].
  - intros H. destruct (filter _ own) as [|x l] eqn:E; [done|].
    assert (Hx : x ∈ filter (fun o => o = Some n) own) by (rewrite E; left).
    apply list_elem_of_filter in Hx as [-> Hx]. apply list_elem_of_lookup in Hx as [i Hi]. by destruct (H i).
Qed.

(** Afterwards the node owns no slot, and the result is how many it had. *)
Lemma clusterDelNodeSlots_spec st n node :
  slots_ok (owner st) (nodes st) -> nodes st !! n = Some node ->
  exists st', clusterDelNodeSlots st n = Some (st', numslots node) /\ rebound st st' /\
    slots_mapped (fun _ => lose n) 0 CLUSTER_SLOTS (owner st) (owner st') /\ slot_count n (owner st') = 0.
Proof.
  intros Hok Hn. unfold clusterDelNodeSlots.
  destruct (del_node_loop_spec (Z.to_nat CLUSTER_SLOTS) st n node 0 0) as (st' & -> & Hr & Hm); [done..|].
  assert (Hz : slot_count n (owner st') = 0).
  { apply slot_count_0. intros i Hi. pose proof (lookup_lt_Some _ _ _ Hi) as Hlt.
    rewrite (so_len _ _ (rb_ok _ _ Hr)) in Hlt.
    rewrite <- (Nat2Z.id i), (slots_mapped_all _ _ _ (Z.of_nat i) Hm) in Hi by lia.
    destruct (owner st !! _); [|done]. cbn in Hi. injection Hi as Hi. unfold lose in Hi. by case_bool_decide. }
  exists st'. rewrite Hz, <- (ns_num _ _ _ (so_node _ _ Hok _ _ Hn)). split_and!; [do 2 f_equal; lia | done..].
Qed.

Definition take_over (old n : Z) (o : option Z) : option Z := if bool_decide (o = Some old) then Some n else o.

Lemma claim_loop_spec fuel : forall st old oldnode me j,
  slots_ok (owner st) (nodes st) -> nodes st !! old = Some oldnode ->
  nodes st !! myself st = Some me -> nodeIsSlave me = false -> 0 <= j -> j + Z.of_nat fuel <= CLUSTER_SLOTS ->
  exists st', claim_loop fuel st old j = Some st' /\ rebound st st' /\
    slots_mapped (fun _ => take_over old (myself st)) j (j + Z.of_nat fuel) (owner st) (owner st').
Proof.
  induction fuel as [|fuel IH]; intros st old oldnode me j Hok Hn Hme Hs Hj Hf; cbn [claim_loop].
  - exists st. split_and!; [done | auto |]. rewrite Z.add_0_r. apply slots_mapped_nil.
  - rewrite (slot_bit_spec _ _ oldnode), bind_Some by (done || lia).
    destruct (slots_lookup _ _ j Hok) as (o & _ & Ho); [lia|]. rewrite Ho.
    replace (j + Z.of_nat (S fuel)) with (j + 1 + Z.of_nat fuel) by lia.
    destruct (decide (o = Some old)) as [-> | Hne].
    + rewrite bool_decide_true by done.
      destruct (reassign_spec st j (myself st) me) as (st1 & c & st2 & -> & Hadd & Hr1 & Hr2 & Ho2);
        [done | lia | done..|].
      rewrite bind_Some, (rebound_myself _ _ Hr1), Hadd, bind_Some.
      pose proof (rebound_myself _ _ Hr2) as Em.
      destruct (same_nodes_fwd _ _ _ _ (rb_same _ _ Hr2) Hn) as (oldnode' & Hn' & _).
      destruct (same_nodes_fwd _ _ _ _ (rb_same _ _ Hr2) Hme) as (me' & Hme' & Hsame).
      destruct (IH st2 old oldnode' me' (j + 1)) as (st' & -> & Hr & Hm); [eauto | done | by rewrite Em | | lia.. |].
      { by rewrite <- (sn_slave _ _ Hsame). }
      exists st'. split_and!; [done | by eapply rebound_trans |]. rewrite Em in Hm.
      eapply slots_mapped_step; [lia | done | | done]. unfold take_over. by rewrite bool_decide_true.
    + rewrite bool_decide_false by congruence.
      destruct (IH st old oldnode me (j + 1)) as (st' & -> & Hr & Hm); [done.. | lia | lia |].
      exists st'. split_and!; [done..|]. eapply slots_mapped_skip; [lia | done | | done].
      unfold take_over. by rewrite bool_decide_false.
Qed.

(** ** Rebinding from a configuration message *)

Definition epoch_of (m : gmap Z clusterNode) (n : Z) : Z := from_option configEpoch 0 (m !! n).

Lemma epoch_of_same m m' n : same_nodes m m' -> epoch_of m' n = epoch_of m n.
Proof.
  intros H. specialize (H n). unfold epoch_of. destruct (m !! n), (m' !! n); try done. symmetry. apply H.
Qed.

(** Pointers of the tables of open slots. *)
Record open_ok (l : list (option Z)) (m : gmap Z clusterNode) : Prop := {
  oo_len : length l = Z.to_nat CLUSTER_SLOTS;
  oo_known : forall j n, l !! j = Some (Some n) -> is_Some (m !! n);
}.

(** Who owns a slot after [sender] claimed the slots of the bitmap [claimed]
    under epoch [e]; [imp] is the table of slots being imported. *)
Definition claimed_owner (m : gmap Z clusterNode) (imp : list (option Z)) (sender e : Z) (claimed : bytes)
    (j : Z) (o : option Z) : option Z :=
  if bit_at claimed j && bool_decide (imp !! Z.to_nat j = Some None)
     && match o with Some n => epoch_of m n <? e | None => true end
  then Some sender else o.

Lemma claimed_owner_same m m' imp sender e claimed j o :
  same_nodes m m' -> claimed_owner m' imp sender e claimed j o = claimed_owner m imp sender e claimed j o.
Proof. intros H. unfold claimed_owner. destruct o as [n|]; [|done]. by rewrite (epoch_of_same m m' n). Qed.

Lemma update_slot_spec count cur sender node e claimed j u o :
  let st := u_st u in
  slots_ok (owner st) (nodes st) -> length (importing_slots_from st) = Z.to_nat CLUSTER_SLOTS ->
  nodes st !! sender = Some node -> nodeIsSlave node = false ->
  is_bytes claimed -> blen claimed = CLUSTER_SLOTS / 8 -> 0 <= j < CLUSTER_SLOTS -> owner st !! Z.to_nat j = Some o ->
  exists u', update_slot count cur sender e claimed j u = Some u' /\ rebound st (u_st u') /\
    owner (u_st u') = <[Z.to_nat j := claimed_owner (nodes st) (importing_slots_from st) sender e claimed j o]> (owner st) /\
    (u_newmaster u' = true -> u_newmaster u = true \/ o = cur).
Proof.
  intros st Hok Himp Hn Hs Hb Hlen Hj Ho. unfold update_slot, claimed_owner. fold st.
  rewrite bitmapTestBit_ok, bind_Some by (rewrite ?(slots_bits _ Hlen); done).
  destruct (slots_lookup _ _ j Hok Hj) as (o' & Hg & Ho').
  rewrite Ho in Ho'. injection Ho' as <-.
  assert (Hskip : <[Z.to_nat j := o]> (owner st) = owner st) by (by apply list_insert_id).
  destruct (bit_at claimed j); cbn [negb andb]; [|by exists u; rewrite Hskip; auto 6].
  rewrite Hg, bind_Some. destruct (decide (o = Some sender)) as [-> | Hne].
  { rewrite bool_decide_true by done. eexists. split_and!; [done | auto | cbn | by left].
    by destruct (_ && _). }
  rewrite bool_decide_false by done.
  destruct (lookup_lt_is_Some_2 (importing_slots_from st) (Z.to_nat j)) as [imp Hi]; [rewrite Himp; lia|].
  unfold slot_get at 1. rewrite (proj2 (Z.leb_le 0 j)), Hi, bind_Some by lia.
  destruct imp as [imp|].
  { rewrite (bool_decide_true (is_Some _)), (bool_decide_false (Some (Some imp) = _)) by done. cbn [andb].
    eexists. split_and!; [done | auto | by rewrite Hskip | by left]. }
  rewrite (bool_decide_false (is_Some _)) by (by intros []).
  rewrite (bool_decide_true (Some None = Some None)) by done. cbn [andb].
  assert (Hrb : match o with
                | Some n => node0 ← nodes st !! n; Some (configEpoch node0 <? e)
                | None => Some true
                end = Some match o with Some n => epoch_of (nodes st) n <? e | None => true end).
  { destruct o as [n|]; [|done]. destruct (so_known _ _ Hok _ _ Ho) as [x Hx]. unfold epoch_of. by rewrite Hx. }
  rewrite Hrb, bind_Some. clear Hrb. generalize (match o with Some n => epoch_of (nodes st) n <? e | None => true end).
  intros [|]; cbn [negb].
  - destruct (reassign_spec st j sender node) as (st1 & c & st2 & -> & Hadd & Hr1 & Hr2 & Ho2); [done..|].
    rewrite bind_Some, Hadd, bind_Some. eexists. split_and!; [done | exact Hr2 | exact Ho2 |]. cbn.
    intros [?%bool_decide_eq_true | ?]%orb_true_iff; auto.
  - eexists. split_and!; [done | auto | by rewrite Hskip | by left].
Qed.

Lemma rebound_open st st' :
  rebound st st' -> importing_slots_from st' = importing_slots_from st /\ migrating_slots_to st' = migrating_slots_to st.
Proof. by intros [-> _ _]. Qed.

Lemma update_slots_loop_spec fuel : forall count cur sender node e claimed j u,
  let st := u_st u in
  slots_ok (owner st) (nodes st) -> length (importing_slots_from st) = Z.to_nat CLUSTER_SLOTS ->
  nodes st !! sender = Some node -> nodeIsSlave node = false ->
  is_bytes claimed -> blen claimed = CLUSTER_SLOTS / 8 -> 0 <= j -> j + Z.of_nat fuel <= CLUSTER_SLOTS ->
  exists u', update_slots_loop fuel count cur sender e claimed j u = Some u' /\ rebound st (u_st u') /\
    slots_mapped (claimed_owner (nodes st) (importing_slots_from st) sender e claimed) j (j + Z.of_nat fuel)
      (owner st) (owner (u_st u')).
Proof.
  induction fuel as [|fuel IH]; intros count cur sender node e claimed j u st Hok Himp Hn Hs Hb Hlen Hj Hf;
    cbn [update_slots_loop].
  - exists u. split_and!; [done | auto |]. rewrite Z.add_0_r. apply slots_mapped_nil.
  - destruct (slots_lookup _ _ j Hok) as (o & _ & Ho); [lia|].
    destruct (update_slot_spec count cur sender node e claimed j u o) as (u1 & -> & Hr1 & Ho1 & _);
      [done.. | lia | done |]. rewrite bind_Some. fold st in Hr1, Ho1.
    destruct (rebound_open _ _ Hr1) as [Ei _].
    destruct (same_nodes_fwd _ _ _ _ (rb_same _ _ Hr1) Hn) as (node1 & Hn1 & Hsame).
    destruct (IH count cur sender node1 e claimed (j + 1) u1) as (u' & -> & Hr & Hm);
      [eauto | by rewrite Ei | done | by rewrite <- (sn_slave _ _ Hsame) | done | done | lia | lia |].
    exists u'. split_and!; [done | by eapply rebound_trans |].
    replace (j + Z.of_nat (S fuel)) with (j + 1 + Z.of_nat fuel) by lia.
    apply (slots_mapped_step _ _ _ _ o (owner (u_st u1))); [lia | done | done |].
    intros i Hi. rewrite Hm, Ei by done. bcase; [|done]. destruct (owner (u_st u1) !! Z.to_nat i); [|done].
    cbn. by rewrite (claimed_owner_same _ _ _ _ _ _ _ _ (rb_same _ _ Hr1)).
Qed.

(** ** Links between masters and replicas *)

Definition master_of (m : gmap Z clusterNode) (n : Z) : option Z := m !! n ≫= slaveof.
Definition slaves_of (m : gmap Z clusterNode) (n : Z) : list Z := from_option slaves [] (m !! n).

(** [slaves] and [slaveof] are inverse of each other, except that the node [x],
    if any, is being moved and is in no list. *)
Record links (x : option Z) (m : gmap Z clusterNode) : Prop := {
  lk_sym : forall n k, n ∈ slaves_of m k <-> x <> Some n /\ master_of m n = Some k;
  lk_nodup : forall n, NoDup (slaves_of m n);
}.

(** A node is not both a master and a replica, and only replicas have a master. *)
Record role_ok (node : clusterNode) : Prop := {
  ro_excl : nodeIsMaster node = true -> nodeIsSlave node = false;
  ro_slave : slaveof node <> None -> nodeIsSlave node = true;
}.
Definition roles_ok (m : gmap Z clusterNode) : Prop := forall n node, m !! n = Some node -> role_ok node.

(** A node has at most one failure report from every other node, all known. *)
Record reports_ok (m : gmap Z clusterNode) (node : clusterNode) : Prop := {
  rp_nodup : NoDup (fr_node <$> fail_reports node);
  rp_known : forall r, r ∈ fail_reports node -> is_Some (m !! fr_node r);
}.
Definition all_reports_ok (m : gmap Z clusterNode) : Prop :=
  forall n node, m !! n = Some node -> reports_ok m node.

Record core_ok (st : clusterState) : Prop := {
  ck_slots : slots_ok (owner st) (nodes st);
  ck_migrating : open_ok (migrating_slots_to st) (nodes st);
  ck_importing : open_ok (importing_slots_from st) (nodes st);
  ck_roles : roles_ok (nodes st);
  ck_reports : all_reports_ok (nodes st);
  ck_myself : exists me, nodes st !! myself st = Some me /\ (nodeIsMaster me || nodeIsSlave me) = true;
}.

(** The whole state, while the node [x], if any, is being moved. *)
Record cluster_but (x : option Z) (st : clusterState) : Prop := {
  ck_core :> core_ok st;
  ck_links : links x (nodes st);
}.
Abbreviation cluster_ok := (cluster_but None).

Lemma master_of_insert m n b p : master_of (<[n := b]> m) p = if decide (p = n) then slaveof b else master_of m p.
Proof.
  unfold master_of. case_decide; [subst; by rewrite lookup_insert_eq | by rewrite lookup_insert_ne].
Qed.
Lemma slaves_of_insert m n b p : slaves_of (<[n := b]> m) p = if decide (p = n) then slaves b else slaves_of m p.
Proof.
  unfold slaves_of. case_decide; [subst; by rewrite lookup_insert_eq | by rewrite lookup_insert_ne].
Qed.
Lemma master_of_node m n a : m !! n = Some a -> master_of m n = slaveof a.
Proof. unfold master_of. by intros ->. Qed.
Lemma slaves_of_node m n a : m !! n = Some a -> slaves_of m n = slaves a.
Proof. unfold slaves_of. by intros ->. Qed.
Lemma slaves_of_known m n k : n ∈ slaves_of m k -> is_Some (m !! k).
Proof. unfold slaves_of. destruct (m !! k); [eauto | intros H; by apply elem_of_nil in H]. Qed.

(** Rewriting of a node keeps what it says about the node. *)
Lemma links_upd x m n a b :
  links x m -> m !! n = Some a -> slaves b = slaves a -> slaveof b = slaveof a -> links x (<[n := b]> m).
Proof.
  intros [Hsym Hnd] Hn Es Em. split.
  - intros p k. rewrite slaves_of_insert, master_of_insert. rewrite <- (slaves_of_node m n a) in Es by done.
    rewrite <- (master_of_node m n a) in Em by done. specialize (Hsym p k). repeat case_decide; subst; congruence.
  - intros p. rewrite slaves_of_insert. case_decide; [|apply Hnd]. subst.
    rewrite Es, <- (slaves_of_node m n a) by done. apply Hnd.
Qed.

Lemma roles_upd m n b : roles_ok m -> role_ok b -> roles_ok (<[n := b]> m).
Proof.
  intros H Hb p node. destruct (decide (p = n)) as [-> | Hne].
  - rewrite lookup_insert_eq. by intros [= <-].
  - rewrite lookup_insert_ne by done. apply H.
Qed.

Lemma known_insert (m : gmap Z clusterNode) (n : Z) (a b : clusterNode) (k : Z) : m !! n = Some a -> is_Some (m !! k) -> is_Some (<[n := b]> m !! k).
Proof.
  intros Hn Hk. destruct (decide (k = n)) as [-> | Hne]; [by rewrite lookup_insert_eq | by rewrite lookup_insert_ne].
Qed.

Lemma reports_upd m n a b :
  all_reports_ok m -> m !! n = Some a -> reports_ok m b -> all_reports_ok (<[n := b]> m).
Proof.
  intros H Hn Hb p node Hp.
  assert (Ho : reports_ok m node).
  { destruct (decide (p = n)) as [-> | Hne].
    - rewrite lookup_insert_eq in Hp. by injection Hp as <-.
    - rewrite lookup_insert_ne in Hp by done. by eapply H. }
  split; [apply Ho|]. intros r Hr. eapply known_insert; [done | by apply Ho].
Qed.

Lemma open_upd l m n a b : open_ok l m -> m !! n = Some a -> open_ok l (<[n := b]> m).
Proof. intros [Hl Hk] Hn. split; [done|]. intros j k Hj. eapply known_insert; eauto. Qed.

Lemma slots_upd own m n a b :
  slots_ok own m -> m !! n = Some a -> slots b = slots a -> numslots b = numslots a ->
  (nodeIsSlave b = true -> numslots a = 0) -> slots_ok own (<[n := b]> m).
Proof.
  intros Hok Hn Es En Hs. split; [apply Hok | |].
  - intros j k Hj. eapply known_insert; [done | by eapply Hok].
  - intros p node. destruct (decide (p = n)) as [-> | Hne].
    + rewrite lookup_insert_eq. intros [= <-]. destruct (so_node _ _ Hok _ _ Hn).
      split; rewrite ?Es, ?En; done.
    + rewrite lookup_insert_ne by done. apply Hok.
Qed.

(** An assignment that keeps the slots of a node and leaves it a legal role. *)
Record quiet (st : clusterState) (n : Z) (a b : clusterNode) : Prop := {
  qu_slots : slots b = slots a;
  qu_numslots : numslots b = numslots a;
  qu_reports : reports_ok (nodes st) b;
  qu_role : role_ok b;
  qu_idle : nodeIsSlave b = true -> numslots a = 0;
  qu_myself : n = myself st -> (nodeIsMaster b || nodeIsSlave b) = true;
}.

Lemma core_upd st n a b :
  core_ok st -> nodes st !! n = Some a -> quiet st n a b -> core_ok (set_nodes (<[n := b]> (nodes st)) st).
Proof.
  intros [Hs Hmi Him Hro Hre (me & Hme & Hrole)] Hn [Es En Hrep Hr Hidle Hmy]. split; cbn.
  - by apply (slots_upd _ _ _ a).
  - by eapply open_upd.
  - by eapply open_upd.
  - by apply roles_upd.
  - by eapply reports_upd.
  - destruct (decide (n = myself st)) as [E | E].
    + exists b. rewrite <- E, lookup_insert_eq. auto.
    + exists me. by rewrite lookup_insert_ne.
Qed.

Lemma cluster_upd x st n a b :
  cluster_but x st -> nodes st !! n = Some a -> quiet st n a b -> slaves b = slaves a -> slaveof b = slaveof a ->
  cluster_but x (set_nodes (<[n := b]> (nodes st)) st).
Proof. intros [Hc Hl] Hn Hq Esl Eso. split; [by eapply core_upd | by eapply links_upd]. Qed.

(** Most assignments keep the role and the failure reports too. *)
Lemma quiet_same st n a b :
  core_ok st -> nodes st !! n = Some a -> slots b = slots a -> numslots b = numslots a ->
  fail_reports b = fail_reports a -> nodeIsMaster b = nodeIsMaster a -> nodeIsSlave b = nodeIsSlave a ->
  (slaveof b <> None -> nodeIsSlave a = true) -> quiet st n a b.
Proof.
  intros [Hs _ _ Hro Hre (me & Hme & Hrole)] Hn Es En Er Em Esv Hso.
  destruct (Hro _ _ Hn) as [Hex _]. destruct (Hre _ _ Hn). split; try done.
  - by split; rewrite Er.
  - by split; rewrite ?Em, ?Esv.
  - rewrite Esv. exact (ns_idle _ _ _ (so_node _ _ Hs _ _ Hn)).
  - intros ->. rewrite Em, Esv. congruence.
Qed.

Lemma remove_first_Some x l :
  x ∈ l -> NoDup l -> exists l', remove_first x l = Some l' /\ NoDup l' /\ forall y, y ∈ l' <-> y ∈ l /\ y <> x.
Proof.
  induction l as [|y l IH]; intros Hx Hnd; [by apply elem_of_nil in Hx|].
  apply NoDup_cons in Hnd as [Hy Hnd]. cbn [remove_first]. destruct (Z.eqb_spec y x) as [-> | Hne].
  - exists l. split_and!; [done..|]. intros z. rewrite elem_of_cons. split; [|tauto].
    intros Hz. split; [auto|]. by intros ->.
  - apply elem_of_cons in Hx as [-> | Hx]; [done|]. destruct (IH Hx Hnd) as (l' & -> & Hnd' & Hl').
    exists (y :: l'). split_and!; [done | |].
    + apply NoDup_cons. split; [|done]. by rewrite Hl'; intros [].
    + intros z. rewrite !elem_of_cons, Hl'. split; [intros [-> | []]; auto | tauto].
Qed.

(** Two nodes with the same role, epoch and master. *)
Record like (a b : clusterNode) : Prop := {
  li_epoch : configEpoch b = configEpoch a;
  li_slaveof : slaveof b = slaveof a;
  li_master : nodeIsMaster b = nodeIsMaster a;
  li_slave : nodeIsSlave b = nodeIsSlave a;
  li_slots : slots b = slots a;
  li_numslots : numslots b = numslots a;
}.

Lemma quiet_like st n a b :
  core_ok st -> nodes st !! n = Some a -> like a b -> fail_reports b = fail_reports a -> quiet st n a b.
Proof.
  intros Hc Hn [] Er. apply quiet_same; try done. intros Hso. apply (ck_roles _ Hc _ _ Hn). congruence.
Qed.

Lemma clusterNodeRemoveSlave_found st n k kn :
  nodes st !! k = Some kn -> n ∈ slaves kn -> NoDup (slaves kn) ->
  exists kn', clusterNodeRemoveSlave st k n = Some (set_nodes (<[k := kn']> (nodes st)) st, C_OK) /\ like kn kn' /\
    fail_reports kn' = fail_reports kn /\ NoDup (slaves kn') /\ (forall p, p ∈ slaves kn' <-> p ∈ slaves kn /\ p <> n).
Proof.
  intros Hkn Hin Hnd. destruct (remove_first_Some n (slaves kn)) as (l & Hrm & Hndl & Hl); [done..|].
  unfold clusterNodeRemoveSlave. rewrite Hkn, bind_Some, Hrm, (upd_Some _ _ kn), bind_Some by done.
  eexists. split; [done|]. cbv zeta.
  destruct (_ =? 0); split_and!; try done; split; try done; flag_bits; done.
Qed.

(** [clusterNodeRemoveSlave(n->slaveof, n)] *)
Lemma clusterNodeRemoveSlave_spec st n node k :
  cluster_ok st -> nodes st !! n = Some node -> slaveof node = Some k ->
  exists kn kn' st', clusterNodeRemoveSlave st k n = Some (st', C_OK) /\ cluster_but (Some n) st' /\
    nodes st !! k = Some kn /\ st' = set_nodes (<[k := kn']> (nodes st)) st /\ like kn kn'.
Proof.
  intros [Hc [Hsym Hnd]] Hn Hk.
  assert (Hpn : master_of (nodes st) n = Some k) by (by rewrite (master_of_node _ _ _ Hn)).
  assert (Hin : n ∈ slaves_of (nodes st) k) by (by apply Hsym).
  destruct (slaves_of_known _ _ _ Hin) as [kn Hkn]. rewrite (slaves_of_node _ _ kn) in Hin by done.
  destruct (clusterNodeRemoveSlave_found st n k kn) as (kn' & -> & Hlike & Er & Hndl & Hl); [done | done | |].
  { rewrite <- (slaves_of_node _ k) by done. apply Hnd. }
  pose proof (li_slaveof _ _ Hlike) as Eso. exists kn, kn'. eexists. split_and!; [done | | done..]. split.
  - eapply core_upd; [done..|]. by apply quiet_like.
  - split; cbn.
    + intros p q. rewrite slaves_of_insert, master_of_insert. destruct (decide (q = k)) as [-> | Hq].
      * rewrite Hl. rewrite <- (slaves_of_node (nodes st) k) by done. rewrite Hsym.
        destruct (decide (p = k)) as [-> | ]; [rewrite Eso, <- (master_of_node _ _ _ Hkn)|]; naive_solver.
      * rewrite Hsym.
        destruct (decide (p = k)) as [-> | ]; [rewrite Eso, <- (master_of_node _ _ _ Hkn)|]; naive_solver.
    + intros p. rewrite slaves_of_insert. case_decide; [done | apply Hnd].
Qed.

(** A node without a master is in no list. *)
Lemma links_detached m n : links None m -> master_of m n = None -> links (Some n) m.
Proof. intros [Hsym Hnd] Hn. split; [|done]. intros p k. rewrite Hsym. naive_solver. Qed.

(** A moved node ends up without a master. *)
Lemma cluster_settle st n a b :
  cluster_but (Some n) st -> nodes st !! n = Some a -> quiet st n a b -> slaves b = slaves a -> slaveof b = None ->
  cluster_ok (set_nodes (<[n := b]> (nodes st)) st).
Proof.
  intros [Hc [Hsym Hnd]] Hn Hq Esl Eso. split; [by eapply core_upd|]. split; cbn.
  - intros p k. rewrite slaves_of_insert, master_of_insert. rewrite <- (slaves_of_node (nodes st) n a) in Esl by done.
    specialize (Hsym p k). repeat case_decide; subst; rewrite ?Esl, ?Eso; naive_solver.
  - intros p. rewrite slaves_of_insert. case_decide; [|apply Hnd].
    rewrite Esl, <- (slaves_of_node (nodes st) n) by done. apply Hnd.
Qed.

(** A moved node ends up in the list of its new master. *)
Lemma links_attach m m' n k :
  links (Some n) m -> slaves_of m' k = slaves_of m k ++ [n] ->
  (forall p, p <> k -> slaves_of m' p = slaves_of m p) ->
  master_of m' n = Some k -> (forall p, p <> n -> master_of m' p = master_of m p) -> links None m'.
Proof.
  intros [Hsym Hnd] Hk Hs Hn Hm. split.
  - intros p q. destruct (decide (q = k)) as [-> | Hq]; [rewrite Hk, elem_of_app, list_elem_of_singleton | rewrite Hs by done];
      rewrite Hsym; destruct (decide (p = n)) as [-> | Hp]; rewrite ?Hn, ?(Hm p) by done; naive_solver.
  - intros p. destruct (decide (p = k)) as [-> | Hp]; [|by rewrite Hs]. rewrite Hk. apply NoDup_app.
    split_and!; [apply Hnd | | apply NoDup_singleton].
    intros y Hy ->%list_elem_of_singleton. apply Hsym in Hy. naive_solver.
Qed.

Definition is_master (m : gmap Z clusterNode) (n : Z) : bool := from_option nodeIsMaster false (m !! n).

(** Only the nodes changed, not their epochs; and only the role of node [x], if
    any, may have changed. *)
Record frame (x : option Z) (st st' : clusterState) : Prop := {
  fm_state : st' = set_nodes (nodes st') st;
  fm_epochs : forall n, configEpoch <$> nodes st' !! n = configEpoch <$> nodes st !! n;
  fm_master : forall n, x <> Some n -> is_master (nodes st') n = is_master (nodes st) n;
  fm_slaveof : forall n, x <> Some n -> master_of (nodes st') n = master_of (nodes st) n;
}.
#[export] Instance frame_preorder x : PreOrder (frame x).
Proof.
  split; [by intros []; split|]. intros st1 st2 st3 [E2 H2 M2 S2] [E3 H3 M3 S3]. split.
  - rewrite E3 at 1. by rewrite E2.
  - intros n. by rewrite H3.
  - intros n Hn. by rewrite M3, M2.
  - intros n Hn. by rewrite S3, S2.
Qed.

Lemma frame_weaken x st st' : frame None st st' -> frame x st st'.
Proof. intros []. split; auto. Qed.

Lemma frame_upd st n a b :
  nodes st !! n = Some a -> configEpoch b = configEpoch a -> frame (Some n) st (set_nodes (<[n := b]> (nodes st)) st).
Proof.
  intros Hn He. split; [done | | |]; intros k; cbn.
  - destruct (decide (k = n)) as [-> | Hne]; [|by rewrite lookup_insert_ne].
    rewrite lookup_insert_eq, Hn. cbn. by rewrite He.
  - intros Hk. unfold is_master. rewrite lookup_insert_ne by congruence. done.
  - intros Hk. unfold master_of. rewrite lookup_insert_ne by congruence. done.
Qed.

Lemma frame_like st n a b :
  nodes st !! n = Some a -> like a b -> frame None st (set_nodes (<[n := b]> (nodes st)) st).
Proof.
  intros Hn []. split; [done | | |]; intros k; cbn; unfold is_master, master_of;
    (destruct (decide (k = n)) as [-> | Hne];
     [rewrite lookup_insert_eq, Hn; cbn; congruence | by rewrite lookup_insert_ne]).
Qed.

Lemma frame_known x st st' n : frame x st st' -> is_Some (nodes st !! n) -> is_Some (nodes st' !! n).
Proof. intros [_ H _ _] Hn. specialize (H n). destruct (nodes st' !! n); [eauto|]. by destruct (nodes st !! n), Hn. Qed.

Lemma frame_myself x st st' : frame x st st' -> myself st' = myself st.
Proof. by intros [-> _]. Qed.

(** Detach a node from its master, whether it has one or not. *)
Definition detach (st : clusterState) (n : Z) (a : clusterNode) : option clusterState :=
  match slaveof a with
  | Some m => '(st, _) ← clusterNodeRemoveSlave st m n; Some st
  | None => Some st
  end.

Lemma detach_spec st n a :
  cluster_ok st -> nodes st !! n = Some a ->
  exists st' a', detach st n a = Some st' /\ cluster_but (Some n) st' /\ frame None st st' /\
    nodes st' !! n = Some a' /\ like a a'.
Proof.
  intros Hok Hn. unfold detach. destruct (slaveof a) as [k|] eqn:Ek.
  - destruct (clusterNodeRemoveSlave_spec st n a k) as (kn & kn' & st' & -> & Hok' & Hkn & -> & Hlike); [done..|].
    rewrite bind_Some. destruct (decide (n = k)) as [<- | Hne].
    + rewrite Hkn in Hn. injection Hn as ->. exists (set_nodes (<[n := kn']> (nodes st)) st), kn'.
      split_and!; [done.. | by eapply frame_like | apply lookup_insert_eq | done].
    + do 2 eexists. split_and!; [done | done | by eapply frame_like | | done].
      cbn. by rewrite lookup_insert_ne.
  - exists st, a. split_and!; try done. destruct Hok as [Hc Hl]. split; [done|]. apply links_detached; [done|].
    by rewrite (master_of_node _ _ a).
Qed.

Lemma clusterSetNodeAsMaster_spec st n a :
  cluster_ok st -> nodes st !! n = Some a ->
  exists st' a', clusterSetNodeAsMaster st n = Some st' /\ cluster_ok st' /\ frame (Some n) st st' /\
    nodes st' !! n = Some a' /\ nodeIsMaster a' = true /\ nodeIsSlave a' = false.
Proof.
  intros Hok Hn. unfold clusterSetNodeAsMaster. rewrite Hn, bind_Some.
  destruct (nodeIsMaster a) eqn:Em.
  { exists st, a. split_and!; try done. by apply (ck_roles _ Hok _ _ Hn). }
  destruct (detach_spec st n a Hok Hn) as (st1 & a1 & Hd & Hok1 & Hf1 & Hn1 & Hl1). unfold detach in Hd.
  assert (Hst2 : exists st2 a2, match slaveof a with
      | Some m => '(st, _) ← clusterNodeRemoveSlave st m n; if n =? myself st then Some st
                  else upd st n (fun node => set_flags (Z.lor (flags node) CLUSTER_NODE_MIGRATE_TO) node)
      | None => Some st
      end = Some st2 /\ cluster_but (Some n) st2 /\ frame (Some n) st st2 /\ nodes st2 !! n = Some a2).
  { destruct (slaveof a) as [k|]; [|by exists st1, a1; rewrite Hd; split_and!; try done; apply frame_weaken].
    destruct (clusterNodeRemoveSlave st k n) as [[st1' c]|] eqn:Er; [|done]. rewrite bind_Some in Hd |- *.
    injection Hd as ->. apply (frame_weaken (Some n)) in Hf1.
    destruct (n =? myself st1) eqn:Emy; [by exists st1, a1|].
    rewrite (upd_Some _ _ a1) by done. do 2 eexists. split_and!; [done | | | apply lookup_insert_eq].
    - eapply cluster_upd; try done. apply quiet_like; try done; [apply Hok1|]. split; try done; flag_bits; done.
    - etransitivity; [done|]. by eapply frame_upd. }
  destruct Hst2 as (st2 & a2 & -> & Hok2 & Hf2 & Hn2). rewrite bind_Some, (upd_Some _ _ a2) by done.
  set (b := set_slaveof _ _). exists (set_nodes (<[n := b]> (nodes st2)) st2), b.
  assert (Hb : nodeIsMaster b = true /\ nodeIsSlave b = false) by (unfold b; split; flag_bits; done).
  destruct Hb as [Hbm Hbs]. split_and!; [done | | | apply lookup_insert_eq | done | done].
  - eapply cluster_settle; try done. split; [done | done | | by split | |].
    + destruct (ck_reports _ Hok2 _ _ Hn2). by split.
    + by rewrite Hbs.
    + by rewrite Hbm.
  - etransitivity; [done|]. by eapply frame_upd.
Qed.

Lemma clusterNodeAddSlave_new st n k kn :
  nodes st !! k = Some kn -> n ∉ slaves kn ->
  exists kn', clusterNodeAddSlave st k n = Some (set_nodes (<[k := kn']> (nodes st)) st, C_OK) /\ like kn kn' /\
    slaves kn' = slaves kn ++ [n] /\ fail_reports kn' = fail_reports kn.
Proof.
  intros Hk Hn. unfold clusterNodeAddSlave. rewrite Hk, bind_Some.
  destruct (existsb (Z.eqb n) (slaves kn)) eqn:E.
  { apply existsb_exists in E as (y & Hy & ->%Z.eqb_eq). by apply list_elem_of_In in Hy. }
  rewrite (upd_Some _ _ kn) by done. eexists. split; [done|]. split_and!; try done. split; try done; flag_bits; done.
Qed.

(** The master of a node being moved may be set at will. *)
Lemma cluster_moving st n a b :
  cluster_but (Some n) st -> nodes st !! n = Some a -> quiet st n a b -> slaves b = slaves a ->
  cluster_but (Some n) (set_nodes (<[n := b]> (nodes st)) st).
Proof.
  intros [Hc [Hsym Hnd]] Hn Hq Esl. rewrite <- (slaves_of_node (nodes st) n a) in Esl by done.
  split; [by eapply core_upd|]. split; cbn.
  - intros p k. rewrite slaves_of_insert, master_of_insert.
    specialize (Hsym p k). repeat case_decide; subst; rewrite ?Esl; naive_solver.
  - intros p. rewrite slaves_of_insert. case_decide; [rewrite Esl|]; apply Hnd.
Qed.

Lemma moving_not_listed st n k kn : cluster_but (Some n) st -> nodes st !! k = Some kn -> n ∉ slaves kn.
Proof.
  intros [_ [Hsym _]] Hk Hin. rewrite <- (slaves_of_node _ _ _ Hk) in Hin. apply Hsym in Hin as [? _]. done.
Qed.

(** [n->slaveof = k; clusterNodeAddSlave(k, n);] *)
Lemma attach_spec st n a k kn :
  cluster_but (Some n) st -> nodes st !! n = Some a -> slaveof a = Some k -> nodes st !! k = Some kn ->
  exists st', clusterNodeAddSlave st k n = Some (st', C_OK) /\ cluster_ok st' /\ frame None st st'.
Proof.
  intros Hok Hn Ha Hk. pose proof (moving_not_listed _ _ _ _ Hok Hk) as Hnot. destruct Hok as [Hc Hl].
  destruct (clusterNodeAddSlave_new st n k kn Hk Hnot) as (kn' & -> & Hlike & Esl & Er).
  eexists. split_and!; [done | | by eapply frame_like]. split.
  - eapply core_upd; [done..|]. by apply quiet_like.
  - assert (Hm : forall p, master_of (<[k := kn']> (nodes st)) p = master_of (nodes st) p).
    { intros p. rewrite master_of_insert. case_decide; [|done]. subst.
      rewrite (li_slaveof _ _ Hlike). by rewrite (master_of_node _ _ _ Hk). }
    apply (links_attach (nodes st) _ n k); try done; cbn.
    + by rewrite slaves_of_insert, decide_True, Esl, (slaves_of_node _ _ _ Hk) by done.
    + intros p Hp. by rewrite slaves_of_insert, decide_False.
    + by rewrite Hm, (master_of_node _ _ _ Hn).
Qed.

(** [clusterNodeAddSlave(k, n); n->slaveof = k;] *)
Lemma attach_spec' st n a k kn :
  cluster_but (Some n) st -> nodes st !! n = Some a -> nodeIsSlave a = true -> nodes st !! k = Some kn ->
  exists st1 st', clusterNodeAddSlave st k n = Some (st1, C_OK) /\ upd st1 n (set_slaveof (Some k)) = Some st' /\
    cluster_ok st' /\ frame (Some n) st st'.
Proof.
  intros Hok Hn Ha Hk. pose proof (moving_not_listed _ _ _ _ Hok Hk) as Hnot. destruct Hok as [Hc Hl].
  destruct (clusterNodeAddSlave_new st n k kn Hk Hnot) as (kn' & -> & Hlike & Esl & Er).
  set (st1 := set_nodes _ st). assert (Hf1 : frame None st st1) by (by eapply frame_like).
  assert (Hc1 : core_ok st1) by (eapply core_upd; [done..|]; by apply quiet_like).
  assert (Hn1 : exists a1, nodes st1 !! n = Some a1 /\ nodeIsSlave a1 = true).
  { unfold st1. cbn. destruct (decide (n = k)) as [<- | Hne].
    - exists kn'. rewrite lookup_insert_eq. split; [done|]. rewrite (li_slave _ _ Hlike). congruence.
    - exists a. by rewrite lookup_insert_ne. }
  destruct Hn1 as (a1 & Hn1 & Hs1). exists st1. eexists. split; [done|].
  split; [by apply upd_Some|]. split; [split|].
  - eapply core_upd; [done..|]. by apply quiet_same.
  - apply (links_attach (nodes st) _ n k); try done; cbn.
    + rewrite slaves_of_insert. case_decide as E.
      * subst. cbn. rewrite <- (slaves_of_node _ _ _ Hn1). unfold st1. cbn.
        by rewrite slaves_of_insert, decide_True, Esl, (slaves_of_node _ _ _ Hk) by done.
      * by rewrite slaves_of_insert, decide_True, Esl, (slaves_of_node _ _ _ Hk) by done.
    + intros p Hp. rewrite slaves_of_insert. case_decide; [|by rewrite slaves_of_insert, decide_False].
      subst. cbn. rewrite <- (slaves_of_node _ _ _ Hn1). unfold st1. cbn. by rewrite slaves_of_insert, decide_False.
    + by rewrite master_of_insert, decide_True.
    + intros p Hp. rewrite !master_of_insert, decide_False by done. case_decide; [|done]. subst.
      by rewrite (li_slaveof _ _ Hlike), (master_of_node _ _ _ Hk).
  - transitivity st1; [by apply frame_weaken | by eapply frame_upd].
Qed.

Lemma myself_role st : core_ok st -> exists me, nodes st !! myself st = Some me /\
  (nodeIsMaster me = true /\ nodeIsSlave me = false /\ slaveof me = None \/ nodeIsMaster me = false /\ nodeIsSlave me = true).
Proof.
  intros Hc. destruct (ck_myself _ Hc) as (me & Hme & Hr). exists me. split; [done|].
  destruct (ck_roles _ Hc _ _ Hme) as [Hex Hso]. destruct (nodeIsMaster me); [|by right].
  left. split_and!; [done | auto |]. destruct (slaveof me); [|done].
  specialize (Hex eq_refl). rewrite Hso in Hex; done.
Qed.

Lemma clusterCloseAllSlots_ok x st : cluster_but x st -> cluster_but x (clusterCloseAllSlots st).
Proof.
  intros [[Hs _ _ Hro Hre Hme] Hl]. split; [|done]. split; try done; cbn.
  all: split; [apply length_replicate | intros j n Hj]; by apply lookup_replicate in Hj as [? _].
Qed.

(** Roles and open slots may have changed, but neither the owners nor the epochs. *)
Record still (st st' : clusterState) : Prop := {
  sl_owner : owner st' = owner st;
  sl_myself : myself st' = myself st;
  sl_current : currentEpoch st' = currentEpoch st;
  sl_vote : lastVoteEpoch st' = lastVoteEpoch st;
  sl_epochs : forall n, configEpoch <$> nodes st' !! n = configEpoch <$> nodes st !! n;
}.
#[export] Instance still_preorder : PreOrder still.
Proof. split; [by intros []; split|]. intros st1 st2 st3 [] []. split; congruence. Qed.
Lemma frame_still x st st' : frame x st st' -> still st st'.
Proof. intros [-> H _ _]. by split. Qed.

Definition turn_slave (n : clusterNode) : clusterNode :=
  set_flags (Z.lor (Z.land (flags n) (Z.lnot (Z.lor CLUSTER_NODE_MASTER CLUSTER_NODE_MIGRATE_TO))) CLUSTER_NODE_SLAVE) n.

Lemma turn_slave_role n : nodeIsMaster (turn_slave n) = false /\ nodeIsSlave (turn_slave n) = true.
Proof. unfold turn_slave. split; flag_bits; done. Qed.

(** A master without slots becomes a replica, yet without a master. *)
Lemma turn_slave_ok x st n a :
  cluster_but x st -> nodes st !! n = Some a -> numslots a = 0 ->
  cluster_but x (set_nodes (<[n := turn_slave a]> (nodes st)) st).
Proof.
  intros Hok Hn Hz. destruct (turn_slave_role a) as [Em Es]. eapply cluster_upd; try done. split; try done.
  - destruct (ck_reports _ Hok _ _ Hn). by split.
  - split; [by rewrite Em | done].
  - by rewrite Em, Es.
Qed.

Lemma demote_spec st me :
  cluster_ok st -> nodes st !! myself st = Some me -> numslots me = 0 ->
  exists st1 me1,
    (if nodeIsMaster me then st1 ← upd st (myself st) turn_slave; Some (clusterCloseAllSlots st1)
     else detach st (myself st) me) = Some st1 /\
    cluster_but (Some (myself st)) st1 /\ still st st1 /\
    nodes st1 !! myself st = Some me1 /\ nodeIsSlave me1 = true.
Proof.
  intros Hok Hme Hz. destruct (myself_role st Hok) as (me' & Hme' & Hr). rewrite Hme in Hme'. injection Hme' as <-.
  destruct Hr as [(-> & Hs & Hso) | (-> & Hs)].
  - rewrite (upd_Some _ _ me), bind_Some by done.
    exists (clusterCloseAllSlots (set_nodes (<[myself st := turn_slave me]> (nodes st)) st)), (turn_slave me).
    split_and!; [done | | | apply lookup_insert_eq | apply turn_slave_role].
    + apply clusterCloseAllSlots_ok. apply turn_slave_ok; try done. destruct Hok as [Hc Hl]. split; [done|].
      apply links_detached; [done|]. by rewrite (master_of_node _ _ me).
    + transitivity (set_nodes (<[myself st := turn_slave me]> (nodes st)) st); [|done].
      eapply frame_still. by eapply frame_upd.
  - destruct (detach_spec st (myself st) me Hok Hme) as (st1 & me1 & Hd & Hok1 & Hf & Hme1 & Hl).
    exists st1, me1. split_and!; [done | done | by eapply frame_still | done |]. by rewrite (li_slave _ _ Hl).
Qed.

(** Turning this node into a replica does not fail when it serves no slot. *)
Lemma clusterSetMaster_spec st n me :
  cluster_ok st -> is_Some (nodes st !! n) -> n <> myself st ->
  nodes st !! myself st = Some me -> numslots me = 0 ->
  exists st', clusterSetMaster st n = Some (st', [ReplicationSetMaster n; ResetManualFailover]) /\
    cluster_ok st' /\ still st st' /\ master_of (nodes st') (myself st) = Some n.
Proof.
  intros Hok Hn Hne Hme Hz. unfold clusterSetMaster. rewrite guard_bool, Hme, bind_Some, guard_bool by lia.
  destruct (demote_spec st me Hok Hme Hz) as (st1 & me1 & Hd & Hok1 & Hs1 & Hme1 & Hsl1).
  unfold detach, turn_slave in Hd. rewrite Hd, bind_Some. clear Hd.
  pose proof (sl_myself _ _ Hs1) as Emy. rewrite Emy, (upd_Some _ _ me1), bind_Some by done.
  set (me2 := set_slaveof (Some n) me1). set (st2 := set_nodes _ st1).
  assert (Hok2 : cluster_but (Some (myself st)) st2).
  { eapply cluster_moving; try done. apply quiet_same; try done. apply Hok1. }
  assert (Hf2 : frame (Some (myself st)) st1 st2) by (by eapply frame_upd).
  destruct (frame_known _ st1 st2 n Hf2) as [kn Hkn].
  { pose proof (sl_epochs _ _ Hs1 n) as He. destruct (nodes st1 !! n); [eauto|]. by destruct (nodes st !! n), Hn. }
  rewrite (frame_myself _ _ _ Hf2), Emy.
  destruct (attach_spec st2 (myself st) me2 n kn) as (st' & -> & Hok' & Hf'); [done | | done | done |].
  { apply lookup_insert_eq. }
  rewrite bind_Some. exists st'. split_and!; [done..| |].
  - transitivity st1; [done|]. transitivity st2; by eapply frame_still.
  - rewrite (fm_slaveof _ _ _ Hf') by done. apply (master_of_node _ _ me2), lookup_insert_eq.
Qed.

(** ** Rebinding keeps the rest of the state *)

Lemma same_master_of m m' n : same_nodes m m' -> master_of m' n = master_of m n.
Proof.
  intros H. specialize (H n). unfold master_of. destruct (m !! n), (m' !! n); try done. cbn. symmetry. apply H.
Qed.
Lemma same_slaves_of m m' n : same_nodes m m' -> slaves_of m' n = slaves_of m n.
Proof.
  intros H. specialize (H n). unfold slaves_of. destruct (m !! n), (m' !! n); try done. cbn. symmetry. apply H.
Qed.
Lemma same_known m m' n : same_nodes m m' -> is_Some (m !! n) -> is_Some (m' !! n).
Proof. intros H [a Ha]. destruct (same_nodes_fwd _ _ _ _ H Ha) as (b & -> & _). eauto. Qed.

#[export] Instance links_proper x : Proper (same_nodes ==> impl) (links x).
Proof.
  intros m m' H [Hsym Hnd]. split; intros n; rewrite ?(same_slaves_of m m') by done; [|apply Hnd].
  intros k. rewrite (same_slaves_of m m'), (same_master_of m m') by done. apply Hsym.
Qed.
#[export] Instance roles_proper : Proper (same_nodes ==> impl) roles_ok.
Proof.
  intros m m' H Hr n b Hb. destruct (same_nodes_bwd _ _ _ _ H Hb) as (a & Ha & Hab).
  destruct (Hr _ _ Ha). split; by rewrite <- ?(sn_master _ _ Hab), <- ?(sn_slave _ _ Hab), <- ?(sn_slaveof _ _ Hab).
Qed.
#[export] Instance reports_proper : Proper (same_nodes ==> impl) all_reports_ok.
Proof.
  intros m m' H Hr n b Hb. destruct (same_nodes_bwd _ _ _ _ H Hb) as (a & Ha & Hab).
  destruct (Hr _ _ Ha) as [Hnd Hk]. rewrite (sn_reports _ _ Hab) in *. split; [done|].
  intros r Hr'. eapply same_known; [done | by apply Hk].
Qed.
#[export] Instance open_proper l : Proper (same_nodes ==> impl) (open_ok l).
Proof. intros m m' H [Hl Hk]. split; [done|]. intros j n Hj. eapply same_known; eauto. Qed.

Lemma myself_same st m' :
  core_ok st -> same_nodes (nodes st) m' ->
  exists me, m' !! myself st = Some me /\ (nodeIsMaster me || nodeIsSlave me) = true.
Proof.
  intros Hc H. destruct (ck_myself _ Hc) as (me & Hme & Hr).
  destruct (same_nodes_fwd _ _ _ _ H Hme) as (me' & Hme' & Hs).
  exists me'. by rewrite <- (sn_master _ _ Hs), <- (sn_slave _ _ Hs).
Qed.

Lemma rebound_cluster x st st' : cluster_but x st -> rebound st st' -> cluster_but x st'.
Proof.
  intros [Hc Hl] [E Hs Hok]. destruct (myself_same st (nodes st') Hc Hs) as (me & Hme & Hr).
  destruct Hc as [_ Hmi Him Hro Hre _]. rewrite E in *. cbn [nodes owner set_owner set_nodes] in *.
  split; [split|]; cbn; [done | by rewrite <- Hs.. | by exists me | by rewrite <- Hs].
Qed.

End ClusterInv.
