(* ===== verification/ClusterRun.v ===== *)
(** The cluster as a state machine: what the handlers of cluster.c do to the
    invariant of the cluster state, the rebinding of slots by configuration
    messages, deletion of nodes, and votes. *)

From stdpp Require Import gmap.
From S2P Require Import Prelude Crc Sds Cluster ClusterInv.
Import Crc Cluster ClusterInv.

Module ClusterRun.

(** The votes among the calls of a step. *)
Definition votes (effs : list effect) : list Z :=
  omap (fun e => match e with SendFailoverAuth n => Some n | _ => None end) effs.

Lemma votes_app a b : votes (a ++ b) = votes a ++ votes b.
Proof. apply omap_app. Qed.
Lemma votes_del l : votes (map DelKeysInSlot l) = [].
Proof. by induction l. Qed.

(** ** Configuration messages *)

(** This node is a master, or knows the master it replicates. *)
Definition has_master (m : gmap Z clusterNode) (n : Z) : Prop := is_master m n = true \/ master_of m n <> None.

(** Neither the state of elections nor the epochs of nodes changed; and this
    node did not lose its master. *)
Record epochs_kept (st st' : clusterState) : Prop := {
  ek_myself : myself st' = myself st;
  ek_current : currentEpoch st' = currentEpoch st;
  ek_vote : lastVoteEpoch st' = lastVoteEpoch st;
  ek_epochs : forall n, configEpoch <$> nodes st' !! n = configEpoch <$> nodes st !! n;
  ek_master : has_master (nodes st) (myself st) -> has_master (nodes st') (myself st);
}.
#[export] Instance epochs_kept_preorder : PreOrder epochs_kept.
Proof.
  split; [by intros []; split|]. intros st1 st2 st3 [] []. split; try congruence.
  intros. rewrite ek_myself0 in *. auto.
Qed.

Lemma frame_kept x st st' :
  frame x st st' -> (x = Some (myself st) -> has_master (nodes st') (myself st)) -> epochs_kept st st'.
Proof.
  intros Hf Hx. pose proof (frame_still _ _ _ Hf) as [_ ? ? ? ?]. split; try done.
  destruct (decide (x = Some (myself st))) as [E | E]; [auto|].
  unfold has_master. by rewrite (fm_master _ _ _ Hf), (fm_slaveof _ _ _ Hf) by done.
Qed.
Lemma frame_kept_ne n st st' : frame (Some n) st st' -> n <> myself st -> epochs_kept st st'.
Proof. intros Hf Hn. eapply frame_kept; [done|]. congruence. Qed.
Lemma frame_kept_all st st' : frame None st st' -> epochs_kept st st'.
Proof. intros Hf. by eapply frame_kept. Qed.
Lemma rebound_kept st st' : rebound st st' -> epochs_kept st st'.
Proof.
  intros [E H _]. split; try (by rewrite E).
  - intros n. specialize (H n). destruct (nodes st !! n), (nodes st' !! n); try done. cbn. f_equal. symmetry. apply H.
  - unfold has_master. rewrite (same_master_of _ _ _ H). unfold is_master. specialize (H (myself st)).
    destruct (nodes st !! _), (nodes st' !! _); try done. cbn. by rewrite (sn_master _ _ H).
Qed.
Lemma kept_known st st' n : epochs_kept st st' -> is_Some (nodes st !! n) -> is_Some (nodes st' !! n).
Proof. intros H Hn. pose proof (ek_epochs _ _ H n). destruct (nodes st' !! n); [eauto|]. by destruct (nodes st !! n), Hn. Qed.

#[export] Hint Resolve frame_kept_ne frame_kept_all rebound_kept : core.

Lemma master_known st n a k : cluster_ok st -> nodes st !! n = Some a -> slaveof a = Some k -> is_Some (nodes st !! k).
Proof.
  intros [_ [Hsym _]] Hn Ha. apply (slaves_of_known _ n), Hsym. by rewrite (master_of_node _ _ _ Hn).
Qed.
Lemma is_master_node m n a : m !! n = Some a -> is_master m n = nodeIsMaster a.
Proof. unfold is_master. by intros ->. Qed.

Lemma clusterUpdateSlotsConfigWith_spec count noredir migr st sender node e claimed :
  cluster_ok st -> has_master (nodes st) (myself st) -> nodes st !! sender = Some node -> nodeIsSlave node = false ->
  is_bytes claimed -> blen claimed = CLUSTER_SLOTS / 8 ->
  exists st' effs, clusterUpdateSlotsConfigWith count noredir migr st sender e claimed = Some (st', effs) /\
    cluster_ok st' /\ epochs_kept st st' /\ votes effs = [] /\
    (sender = myself st -> st' = st) /\
    (sender <> myself st ->
     slots_mapped (claimed_owner (nodes st) (importing_slots_from st) sender e claimed) 0 CLUSTER_SLOTS
       (owner st) (owner st')).
Proof.
  intros Hok Hmast Hn Hs Hb Hlen. destruct (ck_myself _ Hok) as (me & Hme & _).
  unfold has_master in Hmast. rewrite (is_master_node _ _ _ Hme), (master_of_node _ _ _ Hme) in Hmast.
  unfold clusterUpdateSlotsConfigWith. rewrite Hme, bind_Some.
  set (cur := if nodeIsMaster me then _ else _).
  destruct (Z.eqb_spec sender (myself st)) as [E | E].
  { exists st, []. by split_and!. }
  assert (Hcur : exists k kn, cur = Some k /\ nodes st !! k = Some kn /\ (k = myself st \/ nodeIsSlave me = true)).
  { destruct (myself_role st Hok) as (me' & Hme' & Hr). rewrite Hme in Hme'. injection Hme' as <-.
    unfold cur. destruct Hr as [(Em & _) | (Em & Esl)]; rewrite Em in *; [by exists (myself st), me; auto|].
    destruct (slaveof me) as [k|] eqn:Ek; [|by destruct Hmast].
    destruct (master_known st (myself st) me k) as [kn Hkn]; [done..|]. exists k, kn. by auto. }
  destruct Hcur as (k & kn & -> & Hk & Hrole).
  destruct (update_slots_loop_spec (Z.to_nat CLUSTER_SLOTS) count (Some k) sender node e claimed 0 (UpdLoop st [] false 0 0))
    as (u & -> & Hr & Hm); [apply Hok | apply Hok | exact Hn | done | done | done | done | by rewrite Z2Nat.id|].
  cbn [u_st] in Hr, Hm. rewrite Z2Nat.id, Z.add_0_l in Hm by done. rewrite bind_Some.
  assert (Hok1 : cluster_ok (u_st u)) by (by eapply rebound_cluster).
  destruct noredir; [by exists (u_st u), []; split_and!; auto|].
  destruct (same_nodes_fwd _ _ _ _ (rb_same _ _ Hr) Hk) as (kn1 & Hk1 & _).
  rewrite bind_Some, Hk1, bind_Some. clear Hk. cbv zeta.
  match goal with |- context [(if u_newmaster u then Some ?x else _)] => set (turn := x) end.
  replace (if u_newmaster u then Some turn else Some false) with (Some (u_newmaster u && turn))
    by (by destruct (u_newmaster u)).
  rewrite bind_Some. destruct (u_newmaster u && turn) eqn:Et; [|do 2 eexists; by split_and!; eauto using votes_del].
  apply andb_true_iff in Et as [_ [Hz%Z.eqb_eq _]%andb_true_iff].
  destruct (same_nodes_fwd _ _ _ _ (rb_same _ _ Hr) Hme) as (me1 & Hme1 & Hsame).
  assert (Hz1 : numslots me1 = 0).
  { destruct Hrole as [-> | Esl]; [congruence|].
    apply (ns_idle _ _ _ (so_node _ _ (ck_slots _ Hok1) _ _ Hme1)). by rewrite <- (sn_slave _ _ Hsame). }
  pose proof (rebound_myself _ _ Hr) as Emy. rewrite <- Emy in E, Hme1.
  destruct (clusterSetMaster_spec (u_st u) sender me1) as (st' & -> & Hok' & Hst & Hm'); [done | | done..|].
  { eapply same_known; [apply Hr | eauto]. }
  do 2 eexists. split_and!; [done | done | | done | congruence |].
  - transitivity (u_st u); [auto|]. destruct Hst. split; try done. right. by rewrite Hm'.
  - intros _. by rewrite (sl_owner _ _ Hst).
Qed.

(** ** Failover *)

Lemma clusterFailoverReplaceYourMaster_spec st :
  cluster_ok st ->
  exists st' effs, clusterFailoverReplaceYourMaster st = Some (st', effs) /\ cluster_ok st' /\ epochs_kept st st' /\ votes effs = [] /\
    (effs <> [] -> exists old, master_of (nodes st) (myself st) = Some old /\
       slots_mapped (fun _ => take_over old (myself st)) 0 CLUSTER_SLOTS (owner st) (owner st')).
Proof.
  intros Hok. destruct (myself_role st Hok) as (me & Hme & _). unfold clusterFailoverReplaceYourMaster.
  rewrite Hme, bind_Some. destruct (nodeIsMaster me); [by exists st, []|].
  destruct (slaveof me) as [old|] eqn:Eo; [|by exists st, []].
  destruct (clusterSetNodeAsMaster_spec st (myself st) me Hok Hme) as (st1 & me1 & -> & Hok1 & Hf & Hme1 & Hm1 & Hs1).
  rewrite bind_Some. destruct (master_known st (myself st) me old) as [oldnode Hold]; [done..|].
  destruct (frame_known _ st st1 old Hf) as [old1 Hold1]; [eauto|].
  pose proof (frame_myself _ _ _ Hf) as Emy. rewrite <- Emy in Hme1.
  destruct (claim_loop_spec (Z.to_nat CLUSTER_SLOTS) st1 old old1 me1 0) as (st' & -> & Hr & Hm);
    [apply Hok1 | done | done | done | done | by rewrite Z2Nat.id|].
  rewrite bind_Some. rewrite Z2Nat.id, Z.add_0_l in Hm by done. do 2 eexists. split_and!; [done | by eapply rebound_cluster | | done |].
  { transitivity st1; [|auto]. eapply frame_kept; [done|]. intros _. left. rewrite (is_master_node _ _ me1); congruence. }
  intros _. exists old. rewrite (master_of_node _ _ _ Hme). split; [done|].
  rewrite Emy in Hm. rewrite (fm_state _ _ _ Hf) in Hm. exact Hm.
Qed.

(** ** Roles published by other nodes *)

Lemma packet_role_spec st sender s role :
  cluster_ok st -> nodes st !! sender = Some s -> sender <> myself st -> (nodeIsMaster s || nodeIsSlave s) = true ->
  (forall k, role = Some (Some k) -> is_Some (nodes st !! k)) ->
  exists st', packet_role st sender role = Some st' /\ cluster_ok st' /\ epochs_kept st st'.
Proof.
  intros Hok Hs Hne Hrole Hknown. destruct role as [master|]; cbn [packet_role].
  2: { destruct (clusterSetNodeAsMaster_spec st sender s Hok Hs) as (st' & s' & -> & Hok' & Hf & _). eauto. }
  rewrite Hs, bind_Some.
  assert (H1 : exists st1 s1, (if nodeIsMaster s then '(st1, _) ← clusterDelNodeSlots st sender; upd st1 sender turn_slave
                 else Some st) = Some st1 /\ cluster_ok st1 /\ epochs_kept st st1 /\
                 nodes st1 !! sender = Some s1 /\ nodeIsSlave s1 = true).
  { destruct (nodeIsMaster s) eqn:Em; [|by exists st, s].
    destruct (clusterDelNodeSlots_spec st sender s) as (st1 & -> & Hr & Hm & Hz); [apply Hok | done|].
    rewrite bind_Some. assert (Hok1 : cluster_ok st1) by (by eapply rebound_cluster).
    destruct (same_nodes_fwd _ _ _ _ (rb_same _ _ Hr) Hs) as (s1 & Hs1 & _). rewrite (upd_Some _ _ s1) by done.
    do 2 eexists. split_and!; [done | apply turn_slave_ok; try done | | apply lookup_insert_eq | apply turn_slave_role].
    - by rewrite (ns_num _ _ _ (so_node _ _ (ck_slots _ Hok1) _ _ Hs1)).
    - transitivity st1; [auto|]. eapply frame_kept_ne; [by eapply frame_upd|]. by rewrite (rebound_myself _ _ Hr). }
  destruct H1 as (st1 & s1 & E1 & Hok1 & Hk1 & Hs1 & Hsl1). unfold turn_slave in E1. rewrite E1, bind_Some, Hs1, bind_Some.
  destruct master as [k|]; [|by eauto].
  destruct (decide (slaveof s1 = Some k)) as [E | E]; [rewrite bool_decide_true by done; eauto|].
  rewrite bool_decide_false by done.
  destruct (detach_spec st1 sender s1 Hok1 Hs1) as (st2 & s2 & Hd & Hok2 & Hf2 & Hs2 & Hl2). unfold detach in Hd.
  rewrite Hd, bind_Some. clear Hd. assert (Hk2 : epochs_kept st st2) by (transitivity st1; auto).
  destruct (kept_known st st2 k Hk2) as [kn Hkn]; [by apply Hknown|].
  destruct (attach_spec' st2 sender s2 k kn) as (st3 & st' & -> & Hu & Hok' & Hf'); try done.
  { by rewrite (li_slave _ _ Hl2). }
  rewrite bind_Some. exists st'. split_and!; [done..|]. transitivity st2; [done|]. eapply frame_kept_ne; [done|].
  by rewrite (ek_myself _ _ Hk2).
Qed.

(** ** The invariant of a running node *)

Record good (st : clusterState) : Prop := {
  gd_ok : cluster_ok st;
  gd_master : has_master (nodes st) (myself st);
  gd_vote : lastVoteEpoch st <= currentEpoch st;
  gd_epoch : 0 <= currentEpoch st;
}.

(** The same node, with the same nodes known, in a good state. *)
Record goes (st st' : clusterState) : Prop := {
  gs_good : good st';
  gs_myself : myself st' = myself st;
  gs_known : forall n, is_Some (nodes st !! n) -> is_Some (nodes st' !! n);
  gs_current : currentEpoch st <= currentEpoch st';
  gs_vote : lastVoteEpoch st' = lastVoteEpoch st;
}.

Lemma goes_refl st : good st -> goes st st.
Proof. by intros H; split. Qed.
Lemma goes_trans st1 st2 st3 : goes st1 st2 -> goes st2 st3 -> goes st1 st3.
Proof. intros [] []. split; try done; [congruence | auto | lia | congruence]. Qed.

Lemma kept_goes st st' : good st -> cluster_ok st' -> epochs_kept st st' -> goes st st'.
Proof.
  intros [_ Hm Hv He] Hok Hk. pose proof (fun n => kept_known st st' n Hk) as Hkn. destruct Hk.
  split; [split; [done | rewrite ek_myself0; auto | lia | lia] | done | exact Hkn | lia | done].
Qed.

(** Assignments to fields that no invariant mentions. *)
Record touched (a b : clusterNode) : Prop := {
  to_slots : slots b = slots a;
  to_numslots : numslots b = numslots a;
  to_slaves : slaves b = slaves a;
  to_slaveof : slaveof b = slaveof a;
  to_master : nodeIsMaster b = nodeIsMaster a;
  to_slave : nodeIsSlave b = nodeIsSlave a;
}.

Lemma touch_spec st n a b :
  good st -> nodes st !! n = Some a -> touched a b -> reports_ok (nodes st) b ->
  goes st (set_nodes (<[n := b]> (nodes st)) st).
Proof.
  intros [Hok Hm Hv He] Hn [Es En Esl Eso Em Esv] Hr. split; try done; cbn; [|by intros k; eapply known_insert].
  destruct (ck_roles _ Hok _ _ Hn) as [Hex Hso].
  assert (Hq : quiet st n a b).
  { split; try done.
    - by split; rewrite ?Em, ?Esv, ?Eso.
    - rewrite Esv. exact (ns_idle _ _ _ (so_node _ _ (ck_slots _ Hok) _ _ Hn)).
    - intros ->. destruct (ck_myself _ Hok) as (me & Hme & Hrole). rewrite Em, Esv. congruence. }
  split; cbn; [by eapply cluster_upd | | done | done]. unfold has_master, is_master in *. rewrite master_of_insert.
  case_decide as E; [|by rewrite lookup_insert_ne]. rewrite E, lookup_insert_eq in *. cbn.
  rewrite Hn, (master_of_node _ _ _ Hn) in Hm. cbn in Hm. by rewrite Em, Eso.
Qed.

Lemma upd_touch st n a f :
  good st -> nodes st !! n = Some a -> touched a (f a) -> fail_reports (f a) = fail_reports a ->
  exists st', upd st n f = Some st' /\ goes st st' /\ st' = set_nodes (<[n := f a]> (nodes st)) st.
Proof.
  intros Hg Hn Ht Er. eexists. split; [by apply upd_Some|]. split; [|done]. eapply touch_spec; try done.
  destruct (ck_reports _ (gd_ok _ Hg) _ _ Hn). by split; rewrite Er.
Qed.

Lemma set_epochs_goes st cur :
  good st -> currentEpoch st <= cur -> goes st (set_epochs cur (lastVoteEpoch st) st).
Proof.
  intros [Hok Hm Hv He] Hc. split; try done. split; cbn; [|done | lia | lia].
  destruct Hok as [[] Hl]. by split; [split|].
Qed.

(** ** Epochs *)

Lemma packet_epochs_spec st sender s hdr :
  good st -> nodes st !! sender = Some s ->
  exists st' s', packet_epochs st sender hdr = Some st' /\ goes st st' /\
    nodes st' !! sender = Some s' /\ touched s s' /\
    currentEpoch st' <= Z.max (currentEpoch st) (m_currentEpoch hdr).
Proof.
  intros Hg Hs. unfold packet_epochs. rewrite Hs, bind_Some.
  destruct (nodeInHandshake s); [exists st, s; split_and!; [done | by apply goes_refl | done | done | lia]|].
  set (st1 := if _ >? _ then _ else st).
  assert (H1 : goes st st1) by (unfold st1; bcase; [apply set_epochs_goes; [done | lia] | by apply goes_refl]).
  assert (Hs1 : nodes st1 !! sender = Some s) by (unfold st1; by destruct (_ >? _)).
  assert (Hc1 : currentEpoch st1 <= Z.max (currentEpoch st) (m_currentEpoch hdr)) by (unfold st1; bcase; cbn; lia).
  destruct (_ >? configEpoch s); [|by exists st1, s].
  destruct (upd_touch st1 sender s (set_configEpoch (m_configEpoch hdr))) as (st' & -> & Hg' & ->); try done; [apply H1|].
  do 2 eexists. split_and!; [done | by eapply goes_trans | apply lookup_insert_eq | done | done].
Qed.

Lemma new_epoch_spec st :
  good st -> currentEpoch st < 2 ^ 64 - 1 -> exists st', new_epoch st = Some st' /\ goes st st'.
Proof.
  intros Hg Hc. pose proof (gd_epoch _ Hg). unfold new_epoch. rewrite uint_small by (unfold in_uint; lia).
  assert (H1 : goes st (set_epochs (currentEpoch st + 1) (lastVoteEpoch st) st)) by (apply set_epochs_goes; [done | lia]).
  destruct (ck_myself _ (gd_ok _ Hg)) as (me & Hme & _).
  destruct (upd_touch (set_epochs (currentEpoch st + 1) (lastVoteEpoch st) st) (myself st) me
              (set_configEpoch (currentEpoch st + 1))) as (st' & -> & Hg' & _); try done; [apply H1|].
  exists st'. split; [done | by eapply goes_trans].
Qed.

Lemma collision_spec st sender :
  good st -> is_Some (nodes st !! sender) -> currentEpoch st < 2 ^ 64 - 1 ->
  exists st', clusterHandleConfigEpochCollision st sender = Some st' /\ goes st st'.
Proof.
  intros Hg [s Hs] Hc. destruct (ck_myself _ (gd_ok _ Hg)) as (me & Hme & _).
  unfold clusterHandleConfigEpochCollision. rewrite Hs, Hme, !bind_Some.
  destruct (_ || _); [by eauto using goes_refl|]. destruct (_ <=? 0); [by eauto using goes_refl|].
  by apply new_epoch_spec.
Qed.

Lemma bump_spec st :
  good st -> currentEpoch st < 2 ^ 64 - 1 ->
  exists st' c, clusterBumpConfigEpochWithoutConsensus st = Some (st', c) /\ goes st st'.
Proof.
  intros Hg Hc. destruct (ck_myself _ (gd_ok _ Hg)) as (me & Hme & _).
  unfold clusterBumpConfigEpochWithoutConsensus. rewrite Hme, bind_Some.
  destruct (_ || _); [|by eauto using goes_refl].
  destruct (new_epoch_spec st) as (st' & -> & H); [done..|]. eauto.
Qed.

(** ** Slots published by other nodes *)

Lemma packet_slots_spec count noredir migr st sender s hdr :
  good st -> nodes st !! sender = Some s -> is_bytes (myslots hdr) -> blen (myslots hdr) = CLUSTER_SLOTS / 8 ->
  currentEpoch st < 2 ^ 64 - 1 ->
  exists st' effs, packet_slots count noredir migr st sender hdr = Some (st', effs) /\ goes st st' /\ votes effs = [].
Proof.
  intros Hg Hs Hb Hlen Hc. pose proof (gd_ok _ Hg) as Hok. unfold packet_slots. rewrite Hs, bind_Some.
  assert (Hd : exists d, match (if nodeIsMaster s then Some sender else slaveof s) with
      | Some m => node ← nodes st !! m; Some (negb (Sds.memcmp (slots node) (myslots hdr) =? 0))
      | None => Some false end = Some d).
  { destruct (nodeIsMaster s); [rewrite Hs; eauto|]. destruct (slaveof s) as [k|] eqn:Ek; [|eauto].
    destruct (master_known st sender s k) as [kn ->]; eauto. }
  destruct Hd as [d ->]. rewrite bind_Some.
  assert (H1 : exists st1 effs, (if nodeIsMaster s && d
      then clusterUpdateSlotsConfigWith count noredir migr st sender (m_configEpoch hdr) (myslots hdr)
      else Some (st, [])) = Some (st1, effs) /\ cluster_ok st1 /\ epochs_kept st st1 /\ votes effs = []).
  { destruct (nodeIsMaster s && d) eqn:E; [|by exists st, []]. apply andb_true_iff in E as [Em _].
    destruct (clusterUpdateSlotsConfigWith_spec count noredir migr st sender s (m_configEpoch hdr) (myslots hdr))
      as (st1 & effs & -> & ? & ? & ? & _);
      [done | apply Hg | done | by apply (ck_roles _ Hok _ _ Hs) | done | done |]. by exists st1, effs. }
  destruct H1 as (st1 & effs & -> & Hok1 & Hk1 & Hv1). rewrite bind_Some.
  pose proof (kept_goes st st1 Hg Hok1 Hk1) as Hg1.
  destruct (ck_myself _ Hok1) as (me & -> & _). destruct (kept_known st st1 sender Hk1) as [s1 Hs1]; [eauto|].
  rewrite Hs1, !bind_Some. destruct (_ && _); [|by exists st1, effs].
  destruct (collision_spec st1 sender) as (st' & -> & Hg'); [apply Hg1 | eauto | by rewrite (ek_current _ _ Hk1) |].
  exists st', effs. split_and!; [done | by eapply goes_trans | done].
Qed.

Lemma packet_update_spec count noredir migr st n e claimed :
  good st -> is_Some (nodes st !! n) -> is_bytes claimed -> blen claimed = CLUSTER_SLOTS / 8 ->
  exists st' effs, packet_update count noredir migr st n e claimed = Some (st', effs) /\ goes st st' /\ votes effs = [].
Proof.
  intros Hg [node Hn] Hb Hlen. pose proof (gd_ok _ Hg) as Hok. unfold packet_update. rewrite Hn, bind_Some.
  destruct (_ >=? e); [by exists st, []; eauto using goes_refl|].
  assert (H1 : exists st1 n1, (if nodeIsSlave node then clusterSetNodeAsMaster st n else Some st) = Some st1 /\
                 goes st st1 /\ nodes st1 !! n = Some n1 /\ nodeIsSlave n1 = false).
  { destruct (nodeIsSlave node) eqn:Es; [|by exists st, node; eauto using goes_refl].
    destruct (clusterSetNodeAsMaster_spec st n node Hok Hn) as (st1 & n1 & -> & Hok1 & Hf & Hn1 & Hm1 & Hs1).
    exists st1, n1. split_and!; [done | | done..]. apply kept_goes; [done..|]. eapply frame_kept; [done|].
    intros [= ->]. left. by rewrite (is_master_node _ _ _ Hn1). }
  destruct H1 as (st1 & n1 & -> & Hg1 & Hn1 & Hs1). rewrite bind_Some.
  destruct (upd_touch st1 n n1 (set_configEpoch e)) as (st2 & -> & Hg2 & ->); try done; [apply Hg1|].
  rewrite bind_Some. set (st2 := set_nodes _ st1) in *. pose proof (gs_good _ _ Hg2) as Hgood2.
  destruct (clusterUpdateSlotsConfigWith_spec count noredir migr st2 n (set_configEpoch e n1) e claimed)
    as (st' & effs & -> & Hok' & Hk' & Hv & _); try done; [apply Hgood2 | apply Hgood2 | apply lookup_insert_eq|].
  exists st', effs. split_and!; [done | | done]. eapply goes_trans; [done|]. eapply goes_trans; [done|].
  by apply kept_goes.
Qed.

(** ** Failure reports and flags *)

Lemma report_update_ok sender t l :
  match report_update sender t l with
  | Some l' => fr_node <$> l' = fr_node <$> l
  | None => sender ∉ fr_node <$> l
  end.
Proof.
  induction l as [|fr l IH]; cbn [report_update]; [apply not_elem_of_nil|].
  destruct (Z.eqb_spec (fr_node fr) sender) as [<- | Hne]; [done|].
  destruct (report_update sender t l); cbn; [by rewrite IH|]. by apply not_elem_of_cons.
Qed.

Lemma add_report_ok m node sender t :
  reports_ok m node -> is_Some (m !! sender) -> reports_ok m (clusterNodeAddFailureReport node sender t).1.
Proof.
  intros [Hnd Hk] Hs. assert (Hk' : forall n, n ∈ fr_node <$> fail_reports node -> is_Some (m !! n)).
  { intros n (r & -> & Hr)%list_elem_of_fmap. by apply Hk. }
  unfold clusterNodeAddFailureReport. pose proof (report_update_ok sender t (fail_reports node)) as H.
  destruct (report_update _ _ _) as [l|]; cbn; split; cbn.
  - by rewrite H.
  - intros r Hr. apply Hk'. rewrite <- H. by apply list_elem_of_fmap_2.
  - rewrite fmap_app, NoDup_app. split_and!; [done | | apply NoDup_singleton].
    intros x Hx ->%list_elem_of_singleton. done.
  - intros r [Hr | ->%list_elem_of_singleton]%elem_of_app; [by apply Hk | done].
Qed.

Lemma sublist_reports_ok m node l :
  reports_ok m node -> l `sublist_of` fail_reports node -> reports_ok m (set_fail_reports l node).
Proof.
  intros [Hnd Hk] Hl. split; cbn.
  - eapply sublist_NoDup; [done|]. by apply fmap_sublist.
  - intros r Hr. apply Hk. by eapply elem_of_sublist.
Qed.

Lemma filter_sublist {A} (f : A -> bool) l : List.filter f l `sublist_of` l.
Proof. induction l as [|x l IH]; cbn; [done|]. destruct (f x); by constructor. Qed.

Lemma cleanup_report_ok m timeout t node :
  reports_ok m node -> reports_ok m (clusterNodeCleanupFailureReports timeout t node).
Proof. intros H. apply sublist_reports_ok; [done|]. apply filter_sublist. Qed.

Lemma report_remove_Some sender l l' :
  report_remove sender l = Some l' ->
  l' `sublist_of` l /\ (NoDup (fr_node <$> l) -> sender ∉ fr_node <$> l').
Proof.
  revert l'. induction l as [|fr l IH]; intros l'; cbn [report_remove]; [done|].
  destruct (Z.eqb_spec (fr_node fr) sender) as [<- | Hne].
  - intros [= <-]. split; [by constructor|]. cbn. by intros [? _]%NoDup_cons.
  - destruct (report_remove sender l) as [l1|]; [|done]. intros [= <-]. destruct (IH l1) as [H1 H2]; [done|].
    split; [by constructor|]. cbn. intros [_ Hnd]%NoDup_cons. apply not_elem_of_cons. auto.
Qed.
Lemma report_remove_None sender l : report_remove sender l = None -> sender ∉ fr_node <$> l.
Proof.
  induction l as [|fr l IH]; cbn [report_remove]; [intros _; apply not_elem_of_nil|].
  destruct (Z.eqb_spec (fr_node fr) sender) as [<- | Hne]; [done|].
  destruct (report_remove sender l); [done|]. intros _. cbn. apply not_elem_of_cons. auto.
Qed.

(** Afterwards there is no report of [sender] left. *)
Lemma del_report_ok m timeout t node sender :
  reports_ok m node ->
  reports_ok m (clusterNodeDelFailureReport timeout t node sender).1 /\
  sender ∉ fr_node <$> fail_reports (clusterNodeDelFailureReport timeout t node sender).1.
Proof.
  intros H. unfold clusterNodeDelFailureReport. destruct (report_remove sender (fail_reports node)) as [l|] eqn:E.
  - destruct (report_remove_Some _ _ _ E) as [Hl Hn]. cbn. split.
    + apply cleanup_report_ok, sublist_reports_ok; done.
    + intros Hin. apply Hn; [apply H|]. eapply elem_of_sublist; [done|]. apply fmap_sublist, filter_sublist.
  - split; [done|]. by apply report_remove_None.
Qed.

Lemma add_report_touched node sender t : touched node (clusterNodeAddFailureReport node sender t).1.
Proof. unfold clusterNodeAddFailureReport. by destruct (report_update _ _ _). Qed.
Lemma del_report_touched timeout t node sender : touched node (clusterNodeDelFailureReport timeout t node sender).1.
Proof. unfold clusterNodeDelFailureReport. by destruct (report_remove _ _). Qed.

Lemma mark_failing_spec timeout t st n :
  good st -> is_Some (nodes st !! n) ->
  exists st' effs, markNodeAsFailingIfNeeded timeout t st n = Some (st', effs) /\ goes st st' /\ votes effs = [].
Proof.
  intros Hg [node Hn]. unfold markNodeAsFailingIfNeeded. rewrite Hn, bind_Some.
  destruct (negb (nodeTimedOut node)); [by exists st, []; eauto using goes_refl|].
  destruct (nodeFailed node); [by exists st, []; eauto using goes_refl|]. cbn [clusterNodeFailureReportsCount].
  set (node' := clusterNodeCleanupFailureReports timeout t node). rewrite (upd_Some _ _ node), bind_Some by done.
  set (st1 := set_nodes _ st).
  assert (H1 : goes st st1).
  { eapply touch_spec; try done. apply cleanup_report_ok. by apply (ck_reports _ (gd_ok _ Hg) n). }
  pose proof (gs_good _ _ H1) as Hg1. destruct (ck_myself _ (gd_ok _ Hg1)) as (me & -> & _). rewrite bind_Some.
  destruct (_ <? _); [by exists st1, []|].
  destruct (upd_touch st1 n node' (fun node => set_fail_time t
    (set_flags (Z.lor (Z.land (flags node) (Z.lnot CLUSTER_NODE_PFAIL)) CLUSTER_NODE_FAIL) node)))
    as (st' & -> & Hg' & _); [done | apply lookup_insert_eq | | done |].
  { split; try done; flag_bits; done. }
  rewrite bind_Some. do 2 eexists. split_and!; [done | by eapply goes_trans | done].
Qed.

Lemma gossip_entry_spec timeout t st sender n f idle :
  good st -> is_Some (nodes st !! sender) -> is_Some (nodes st !! n) ->
  exists st' effs, gossip_entry timeout t st sender n f idle = Some (st', effs) /\ goes st st' /\ votes effs = [].
Proof.
  intros Hg [s Hs] [node Hn]. pose proof (ck_reports _ (gd_ok _ Hg) _ _ Hn) as Hr.
  unfold gossip_entry. rewrite Hs, bind_Some. cbv zeta. set (failing := negb (Z.land f _ =? 0)). clearbody failing.
  match goal with |- context [@mbind _ _ _ _ _ ?x] => assert (H1 : exists st1 effs, x = Some (st1, effs) /\ goes st st1 /\ votes effs = []) end.
  { destruct (_ && _); [|by exists st, []; eauto using goes_refl].
    destruct failing; rewrite (upd_Some _ _ node), bind_Some by done; set (st1 := set_nodes _ st).
    - assert (H1 : goes st st1) by (eapply touch_spec; [done.. | apply add_report_touched | apply add_report_ok; eauto]).
      destruct (mark_failing_spec timeout t st1 n) as (st' & effs & -> & H' & Hv); [apply H1 | by apply H1; eauto |].
      exists st', effs. split_and!; [done | by eapply goes_trans | done].
    - exists st1, []. split_and!; [done | | done].
      eapply touch_spec; [done.. | apply del_report_touched | by apply del_report_ok]. }
  destruct H1 as (st1 & effs & -> & H1 & Hv). rewrite bind_Some.
  destruct (_ && idle); [|by exists st1, effs].
  destruct (gs_known _ _ H1 n) as [n1 Hn1]; [eauto|]. rewrite (upd_Some _ _ n1), bind_Some by done.
  do 2 eexists. split_and!; [done | | done]. eapply goes_trans; [done|].
  eapply touch_spec; [apply H1 | done | done |]. apply cleanup_report_ok.
  by apply (ck_reports _ (gd_ok _ (gs_good _ _ H1)) n).
Qed.

Lemma gossip_section_spec timeout t sender g : forall st,
  good st -> is_Some (nodes st !! sender) -> Forall (fun p => is_Some (nodes st !! p.1.1)) g ->
  exists st' effs, gossip_section timeout t st sender g = Some (st', effs) /\ goes st st' /\ votes effs = [].
Proof.
  induction g as [|[[n f] idle] g IH]; intros st Hg Hs Hk; cbn [gossip_section]; [by exists st, []; eauto using goes_refl|].
  apply Forall_cons in Hk as [Hn Hk].
  destruct (gossip_entry_spec timeout t st sender n f idle) as (st1 & e1 & -> & H1 & Hv1); [done..|]. rewrite bind_Some.
  destruct (IH st1) as (st' & e2 & -> & H' & Hv2); [apply H1 | by apply H1 | |].
  { eapply Forall_impl; [done|]. intros p. apply H1. }
  rewrite bind_Some. do 2 eexists. split_and!; [done | by eapply goes_trans |]. by rewrite votes_app, Hv1, Hv2.
Qed.

(** Updates of flags that are no roles. *)
Lemma flag_upd_spec st n f :
  good st -> is_Some (nodes st !! n) -> (forall a, touched a (f a) /\ fail_reports (f a) = fail_reports a) ->
  exists st', upd st n f = Some st' /\ goes st st'.
Proof.
  intros Hg [a Ha] Hf. destruct (Hf a) as [Ht Hr].
  destruct (upd_touch st n a f) as (st' & -> & H & _); [done..|]. eauto.
Qed.

Ltac flags_only := intros a; split; [split; try done; flag_bits; done | done].

Lemma packet_pong_spec timeout t st n :
  good st -> is_Some (nodes st !! n) -> exists st', packet_pong timeout t st n = Some st' /\ goes st st'.
Proof.
  intros Hg Hk. destruct Hk as [node Hn]. unfold packet_pong. rewrite Hn, bind_Some.
  destruct (nodeTimedOut node); [by apply flag_upd_spec; [done | eauto | flags_only]|].
  destruct (nodeFailed node) eqn:Ef; [|by eauto using goes_refl].
  unfold clearNodeFailureIfNeeded. rewrite Hn, bind_Some, guard_bool by done.
  set (clear := fun node => set_flags _ node).
  assert (H1 : exists st1, (if nodeIsSlave node || (numslots node =? 0) then upd st n clear else Some st) = Some st1 /\
                 goes st st1).
  { destruct (_ || _); [|by eauto using goes_refl]. apply flag_upd_spec; [done | eauto | unfold clear; flags_only]. }
  destruct H1 as (st1 & -> & H1). rewrite bind_Some.
  destruct (gs_known _ _ H1 n) as [n1 Hn1]; [eauto|]. rewrite Hn1, bind_Some.
  destruct (_ && _); [|by eauto].
  destruct (flag_upd_spec st1 n clear) as (st' & -> & H'); [apply H1 | eauto | unfold clear; flags_only |].
  exists st'. split; [done | by eapply goes_trans].
Qed.

Lemma packet_fail_spec t st n :
  good st -> is_Some (nodes st !! n) -> exists st', packet_fail t st n = Some st' /\ goes st st'.
Proof.
  intros Hg Hk. destruct Hk as [node Hn]. unfold packet_fail. rewrite Hn, bind_Some.
  destruct (has_flag _ _); [by eauto using goes_refl|]. apply flag_upd_spec; [done | eauto | flags_only].
Qed.

(** ** Votes *)

(** The slots claimed by a candidate, as this node knows them. *)
Definition fresh_claims (st : clusterState) (claimed : bytes) (e : Z) (lo hi : Z) : Prop :=
  forall j n, lo <= j < hi -> bit_at claimed j = true -> owner st !! Z.to_nat j = Some (Some n) ->
  epoch_of (nodes st) n <= e.

Lemma claims_ok_spec st claimed e fuel : forall j,
  slots_ok (owner st) (nodes st) -> is_bytes claimed -> blen claimed = CLUSTER_SLOTS / 8 ->
  0 <= j -> j + Z.of_nat fuel <= CLUSTER_SLOTS ->
  exists b, claims_ok fuel st claimed e j = Some b /\ (b = true <-> fresh_claims st claimed e j (j + Z.of_nat fuel)).
Proof.
  induction fuel as [|fuel IH]; intros j Hok Hb Hlen Hj Hf; cbn [claims_ok].
  { exists true. split; [done|]. split; [|done]. intros _ i n Hi. lia. }
  rewrite bitmapTestBit_ok, bind_Some by (rewrite ?(slots_bits _ Hlen); done || lia).
  destruct (IH (j + 1)) as (b & Hrec & Hiff); [done | done | done | lia | lia |].
  replace (j + 1 + Z.of_nat fuel) with (j + Z.of_nat (S fuel)) in Hiff by lia. rewrite Hrec.
  assert (Hskip : (bit_at claimed j = true -> forall n, owner st !! Z.to_nat j = Some (Some n) -> epoch_of (nodes st) n <= e) ->
    b = true <-> fresh_claims st claimed e j (j + Z.of_nat (S fuel))).
  { intros Hhere. rewrite Hiff. split; intros H i n Hi Hbit Ho; [|by apply (H i n); [lia|..]].
    destruct (decide (i = j)) as [-> | Hne]; [by apply Hhere|]. apply (H i n); [lia | done..]. }
  destruct (bit_at claimed j) eqn:Ebit; cbn [negb]; [|by exists b; split; [|apply Hskip]].
  destruct (slots_lookup _ _ j Hok) as (o & -> & Ho); [lia|]. rewrite bind_Some.
  destruct o as [n|]; [|exists b; split; [done|]; apply Hskip; intros _ n; congruence].
  destruct (so_known _ _ Hok _ _ Ho) as [node Hn]. rewrite Hn, bind_Some.
  assert (He : epoch_of (nodes st) n = configEpoch node) by (unfold epoch_of; by rewrite Hn).
  destruct (Z.leb_spec (configEpoch node) e) as [Hle | Hgt].
  - exists b. split; [done|]. apply Hskip. intros _ n'. rewrite Ho. intros [= <-]. lia.
  - exists false. split; [done|]. split; [done|]. intros H. specialize (H j n ltac:(lia) Ebit Ho). lia.
Qed.

(** A vote is granted by a master with slots to the replica of a failed master,
    unless the request forces it, whose claims are not older than what this
    node knows, at most once per epoch. *)
Lemma vote_spec timeout t st n hdr :
  good st -> is_Some (nodes st !! n) -> is_bytes (myslots hdr) -> blen (myslots hdr) = CLUSTER_SLOTS / 8 ->
  (clusterSendFailoverAuthIfNeeded timeout t st n hdr = Some (st, [])) \/
  (exists st', clusterSendFailoverAuthIfNeeded timeout t st n hdr = Some (st', [SendFailoverAuth n]) /\
     good st' /\ myself st' = myself st /\ (forall k, is_Some (nodes st !! k) -> is_Some (nodes st' !! k)) /\
     lastVoteEpoch st < currentEpoch st /\ currentEpoch st <= m_currentEpoch hdr /\
     currentEpoch st' = currentEpoch st /\ lastVoteEpoch st' = currentEpoch st /\
     is_master (nodes st) (myself st) = true /\
     fresh_claims st (myslots hdr) (m_configEpoch hdr) 0 CLUSTER_SLOTS).
Proof.
  intros Hg [node Hn] Hb Hlen. pose proof (gd_ok _ Hg) as Hok. pose proof (gd_vote _ Hg) as Hv.
  unfold clusterSendFailoverAuthIfNeeded. destruct (myself_role st Hok) as (me & Hme & Hrole). rewrite Hn, Hme, !bind_Some.
  destruct (nodeIsSlave me || (numslots me =? 0)) eqn:E1; [by left|].
  destruct (_ <? currentEpoch st) eqn:E2; [by left|]. destruct (lastVoteEpoch st =? _) eqn:E3; [by left|].
  destruct (nodeIsMaster node); [by left|]. destruct (slaveof node) as [k|] eqn:Ek; [|by left].
  destruct (master_known st n node k) as [m Hm]; [done..|]. rewrite Hm, bind_Some.
  destruct (_ && _); [by left|]. destruct (_ <? timeout * 2); [by left|].
  destruct (claims_ok_spec st (myslots hdr) (m_configEpoch hdr) (Z.to_nat CLUSTER_SLOTS) 0) as (b & -> & Hiff);
    [apply Hok | done | done | done | by rewrite Z2Nat.id |].
  rewrite bind_Some. destruct b; cbn [negb]; [|by left]. right.
  set (st1 := set_epochs (currentEpoch st) (currentEpoch st) st).
  assert (Hg1 : good st1) by (destruct Hg; split; cbn; [destruct Hok as [[] ?]; by split; [split|] | done | lia | done]).
  destruct (upd_touch st1 k m (set_voted_time t)) as (st' & -> & H' & ->); [done.. |]. rewrite bind_Some.
  eexists. split; [done|]. split_and!; try done; [apply H' | apply (gs_known _ _ H') | lia | lia | |].
  - rewrite (is_master_node _ _ _ Hme). by destruct Hrole as [(-> & _) | (_ & Es)]; [|rewrite Es in E1].
  - rewrite Z2Nat.id, Z.add_0_l in Hiff by done. by apply Hiff.
Qed.

(** ** New nodes *)

Lemma bit_at_zero k j : bit_at (replicate k 0) j = false.
Proof.
  unfold bit_at. destruct (replicate k 0 !! Z.to_nat (j / 8)) eqn:E; cbn; [|apply Z.bits_0].
  apply lookup_replicate in E as [-> _]. apply Z.bits_0.
Qed.

Lemma known_fresh (m : gmap Z clusterNode) n k b : is_Some (m !! k) -> is_Some (<[n := b]> m !! k).
Proof.
  intros H. destruct (decide (k = n)) as [-> | Hne]; [by rewrite lookup_insert_eq | by rewrite lookup_insert_ne].
Qed.

Lemma add_node_spec st a nm f :
  let node := createClusterNode nm f in
  good st -> nodes st !! a = None -> (nodeIsMaster node = true -> nodeIsSlave node = false) ->
  goes st (clusterAddNode st a node).
Proof.
  intros node [[[Hs Hmi Him Hro Hre (me & Hme & Hr)] [Hsym Hnd]] Hm Hv He] Ha Hex.
  assert (Hne : myself st <> a) by congruence.
  assert (Hnone : master_of (nodes st) a = None) by (unfold master_of; by rewrite Ha).
  assert (Hnil : slaves_of (nodes st) a = []) by (unfold slaves_of; by rewrite Ha).
  split; try done; cbn; [|by intros; apply known_fresh].
  split; cbn; [|by unfold has_master, is_master in *; rewrite master_of_insert, decide_False, lookup_insert_ne | done | done].
  split; [split; cbn|split; cbn].
  - split; [apply Hs | intros j n Hj; apply known_fresh; by apply (so_known _ _ Hs j) |].
    intros n x. destruct (decide (n = a)) as [-> | Hna]; [|rewrite lookup_insert_ne by done; apply Hs].
    rewrite lookup_insert_eq. intros [= <-].
    assert (Hno : forall i, owner st !! i <> Some (Some a)).
    { intros i Hi%(so_known _ _ Hs). rewrite Ha in Hi. by destruct Hi. }
    split; cbn; try done.
    + by apply Forall_replicate.
    + intros j Hj. rewrite bit_at_zero. by rewrite bool_decide_false.
    + symmetry. by apply slot_count_0.
  - split; [apply Hmi | intros j n Hj; apply known_fresh; by apply (oo_known _ _ Hmi j)].
  - split; [apply Him | intros j n Hj; apply known_fresh; by apply (oo_known _ _ Him j)].
  - by apply roles_upd.
  - intros n x. destruct (decide (n = a)) as [-> | Hna].
    + rewrite lookup_insert_eq. intros [= <-]. split; cbn; [constructor | intros r Hr'; by apply elem_of_nil in Hr'].
    + rewrite lookup_insert_ne by done. intros Hx. destruct (Hre _ _ Hx). split; [done|].
      intros r Hr'. by apply known_fresh, rp_known0.
  - exists me. by rewrite lookup_insert_ne.
  - intros n k. rewrite slaves_of_insert, master_of_insert.
    destruct (decide (k = a)) as [-> | Hk]; [|destruct (decide (n = a)) as [-> | Hn]]; cbn [slaves slaveof].
    + split; [intros H; by apply elem_of_nil in H|]. intros [_ H]. destruct (decide (n = a)); [done|].
      change (n ∈ @nil Z). rewrite <- Hnil. by apply Hsym.
    + rewrite Hsym, Hnone. done.
    + apply Hsym.
  - intros n. rewrite slaves_of_insert. case_decide; [constructor | apply Hnd].
Qed.

End ClusterRun.
