(* ===== verification/ClusterDel.v ===== *)
(** Deleting a node from the cluster: after [clusterDelNode] no pointer to the
    freed node is left in the state. *)

From stdpp Require Import gmap.
From S2P Require Import Prelude Crc Sds Cluster ClusterInv ClusterRun.
Import Crc Cluster ClusterInv ClusterRun.

Module ClusterDel.

(** ** The tables of slots *)

Lemma forget_slot_spec n l m j :
  open_ok l m -> 0 <= j < CLUSTER_SLOTS ->
  exists o, l !! Z.to_nat j = Some o /\ forget_slot n l j = Some (<[Z.to_nat j := lose n o]> l).
Proof.
  intros [Hl _] Hj. destruct (lookup_lt_is_Some_2 l (Z.to_nat j)) as [o Ho]; [rewrite Hl; lia|].
  exists o. split; [done|]. unfold forget_slot, slot_get, lose. rewrite (proj2 (Z.leb_le 0 j)), Ho, bind_Some by lia.
  destruct (bool_decide (o = Some n)); [|by rewrite list_insert_id].
  unfold slot_set. rewrite Hl. bcase; [done|]. rewrite Z2Nat.id in *; unfold CLUSTER_SLOTS in *; lia.
Qed.

Lemma open_lose n l m j o :
  open_ok l m -> l !! j = Some o -> open_ok (<[j := lose n o]> l) m.
Proof.
  intros [Hl Hk] Hj. split; [by rewrite length_insert|]. intros i k.
  destruct (decide (i = j)) as [-> | Hne]; [|rewrite list_lookup_insert_ne by done; apply Hk].
  rewrite list_lookup_insert_eq by (by eapply lookup_lt_Some). unfold lose. case_bool_decide; [done|].
  intros [= ->]. by eapply Hk.
Qed.

Definition all_lost (n lo hi : Z) (st st' : clusterState) : Prop :=
  slots_mapped (fun _ => lose n) lo hi (owner st) (owner st') /\
  slots_mapped (fun _ => lose n) lo hi (migrating_slots_to st) (migrating_slots_to st') /\
  slots_mapped (fun _ => lose n) lo hi (importing_slots_from st) (importing_slots_from st').

(** Only the tables of slots changed. *)
Record tables_only (st st' : clusterState) : Prop := {
  tb_nodes : same_nodes (nodes st) (nodes st');
  tb_myself : myself st' = myself st;
  tb_current : currentEpoch st' = currentEpoch st;
  tb_vote : lastVoteEpoch st' = lastVoteEpoch st;
}.
#[export] Instance tables_only_preorder : PreOrder tables_only.
Proof.
  split; [by intros st; split|]. intros st1 st2 st3 [] []. split; [by etransitivity | congruence..].
Qed.

Lemma del_slots_loop_spec fuel : forall st n j,
  cluster_ok st -> 0 <= j -> j + Z.of_nat fuel <= CLUSTER_SLOTS ->
  exists st', del_slots_loop fuel st n j = Some st' /\ cluster_ok st' /\ tables_only st st' /\
    all_lost n j (j + Z.of_nat fuel) st st'.
Proof.
  induction fuel as [|fuel IH]; intros st n j Hok Hj Hf; cbn [del_slots_loop].
  { exists st. split_and!; [done..|]. rewrite Z.add_0_r. split_and!; apply slots_mapped_nil. }
  destruct (forget_slot_spec n (importing_slots_from st) (nodes st) j) as (oi & Hi & ->); [apply Hok | lia|].
  destruct (forget_slot_spec n (migrating_slots_to st) (nodes st) j) as (om & Hm & ->); [apply Hok | lia|].
  rewrite !bind_Some. set (st1 := set_open _ _ st).
  assert (Hok1 : cluster_ok st1).
  { destruct Hok as [[] Hl]. split; [split|]; cbn; try done; by apply open_lose. }
  destruct (slots_lookup (owner st1) (nodes st1) j) as (o & -> & Ho); [apply Hok1 | lia|]. rewrite bind_Some.
  assert (H2 : exists st2, (if bool_decide (o = Some n) then '(st2, _) ← clusterDelSlot st1 j; Some st2 else Some st1)
                 = Some st2 /\ rebound st1 st2 /\ owner st2 = <[Z.to_nat j := lose n o]> (owner st1)).
  { unfold lose. destruct (decide (o = Some n)) as [-> | Hne].
    - rewrite bool_decide_true by done.
      destruct (clusterDelSlot_spec st1 j n) as (st2 & -> & Hr & Ho2); [apply Hok1 | lia | done |]. by exists st2.
    - rewrite bool_decide_false by done. exists st1. split_and!; [done | apply rebound_refl, Hok1 |].
      by rewrite list_insert_id. }
  destruct H2 as (st2 & E2 & Hr & Ho2). destruct (rebound_open _ _ Hr) as [Ei Em].
  assert (Hok2 : cluster_ok st2) by (by eapply rebound_cluster).
  destruct (IH st2 n (j + 1)) as (st' & Hrec & Hok' & Ht & (Ho' & Hm' & Hi')); [done | lia | lia |].
  exists st'. split; [|split; [done|split]].
  - destruct (bool_decide (o = Some n)).
    + destruct (clusterDelSlot st1 j) as [[st2' c]|]; [|done]. rewrite bind_Some in E2 |- *. by injection E2 as ->.
    + by injection E2 as ->.
  - etransitivity; [|done]. destruct (rebound_kept _ _ Hr). split; try done. apply Hr.
  - replace (j + Z.of_nat (S fuel)) with (j + 1 + Z.of_nat fuel) by lia. rewrite Em in Hm'. rewrite Ei in Hi'.
    split_and!; (eapply slots_mapped_step; [lia | | | done]); [exact Ho | exact Ho2 | exact Hm | done | exact Hi | done].
Qed.

Lemma lose_not n o k : lose n o = Some k -> k <> n.
Proof. unfold lose. case_bool_decide; congruence. Qed.

Lemma lost_not_in n l l' :
  length l' = Z.to_nat CLUSTER_SLOTS -> slots_mapped (fun _ => lose n) 0 CLUSTER_SLOTS l l' ->
  forall i, l' !! i <> Some (Some n).
Proof.
  intros Hl Hm i Hi. pose proof (lookup_lt_Some _ _ _ Hi) as Hlt. rewrite Hl in Hlt.
  rewrite <- (Nat2Z.id i), (slots_mapped_all _ _ _ (Z.of_nat i) Hm) in Hi by lia.
  destruct (l !! _); [|done]. cbn in Hi. injection Hi as Hi. by apply lose_not in Hi.
Qed.

(** ** The failure reports *)

Definition touched_nodes (m m' : gmap Z clusterNode) : Prop :=
  forall n, option_relation touched (fun _ => False) (fun _ => False) (m !! n) (m' !! n).

Lemma touched_known m m' n : touched_nodes m m' -> is_Some (m !! n) -> is_Some (m' !! n).
Proof. intros H. specialize (H n). destruct (m !! n), (m' !! n); by try intros []. Qed.

Lemma touched_bwd m m' n b : touched_nodes m m' -> m' !! n = Some b -> exists a, m !! n = Some a /\ touched a b.
Proof. intros H Hb. specialize (H n). rewrite Hb in H. destruct (m !! n); [eauto | done]. Qed.

Lemma touched_cluster st m' :
  cluster_ok st -> touched_nodes (nodes st) m' -> all_reports_ok m' -> cluster_ok (set_nodes m' st).
Proof.
  intros [[Hs Hmi Him Hro _ (me & Hme & Hr)] [Hsym Hnd]] Ht Hre.
  assert (Hma : forall n, master_of m' n = master_of (nodes st) n).
  { intros n. specialize (Ht n). unfold master_of. destruct (nodes st !! n), (m' !! n); try done. apply Ht. }
  assert (Hsl : forall n, slaves_of m' n = slaves_of (nodes st) n).
  { intros n. specialize (Ht n). unfold slaves_of. destruct (nodes st !! n), (m' !! n); try done. apply Ht. }
  split; [split; cbn; try done|].
  - split; [apply Hs | intros j n Hj; eapply touched_known; [done | by apply (so_known _ _ Hs j)] |].
    intros n b Hb. destruct (touched_bwd _ _ _ _ Ht Hb) as (a & Ha & [Es En _ _ _ Esv]).
    destruct (so_node _ _ Hs _ _ Ha). split; rewrite ?Es, ?En, ?Esv; done.
  - split; [apply Hmi | intros j n Hj; eapply touched_known; [done | by apply (oo_known _ _ Hmi j)]].
  - split; [apply Him | intros j n Hj; eapply touched_known; [done | by apply (oo_known _ _ Him j)]].
  - intros n b Hb. destruct (touched_bwd _ _ _ _ Ht Hb) as (a & Ha & [_ _ _ Eso Em Esv]).
    destruct (Hro _ _ Ha). split; rewrite ?Em, ?Esv, ?Eso; done.
  - specialize (Ht (myself st)). rewrite Hme in Ht. destruct (m' !! myself st) as [me'|]; [|done].
    exists me'. destruct Ht as [_ _ _ _ Em Esv]. by rewrite Em, Esv.
  - split; intros n; cbn; rewrite ?Hsl; [|apply Hnd]. intros k. by rewrite Hsl, Hma.
Qed.

Lemma del_reports_spec timeout t st n :
  cluster_ok st ->
  let m' := del_reports timeout t n (nodes st) in
  cluster_ok (set_nodes m' st) /\ touched_nodes (nodes st) m' /\
  (forall k, configEpoch <$> m' !! k = configEpoch <$> nodes st !! k) /\
  forall k node, m' !! k = Some node -> k <> n -> n ∉ fr_node <$> fail_reports node.
Proof.
  intros Hok m'.
  assert (Hlk : forall k, m' !! k = (fun node => if k =? n then node else (clusterNodeDelFailureReport timeout t node n).1)
                            <$> nodes st !! k).
  { intros k. unfold m', del_reports. rewrite map_lookup_imap. by destruct (nodes st !! k). }
  assert (Ht : touched_nodes (nodes st) m').
  { intros k. rewrite Hlk. destruct (nodes st !! k) as [a|]; cbn; [|done].
    destruct (k =? n); [done | apply del_report_touched]. }
  split_and!; [|done| |].
  - apply touched_cluster; [done..|]. intros k b Hb. rewrite Hlk in Hb.
    destruct (nodes st !! k) as [a|] eqn:Ea; [|done]. cbn in Hb. injection Hb as <-.
    assert (Ha : reports_ok m' a).
    { destruct (ck_reports _ Hok _ _ Ea) as [Hnd Hk]. split; [done|]. intros r Hr. eapply touched_known; [done | by apply Hk]. }
    destruct (k =? n); [done | by apply del_report_ok].
  - intros k. rewrite Hlk. destruct (nodes st !! k) as [a|]; [|done]. cbn. f_equal. destruct (k =? n); [done|].
    unfold clusterNodeDelFailureReport. by destruct (report_remove _ _).
  - intros k node Hk Hne. rewrite Hlk in Hk. destruct (nodes st !! k) as [a|] eqn:Ea; [|done]. cbn in Hk.
    injection Hk as <-. rewrite (proj2 (Z.eqb_neq k n)) by done. eapply del_report_ok, (ck_reports _ Hok _ _ Ea).
Qed.

(** ** The links *)

Definition orphaned (l : list Z) (m : gmap Z clusterNode) (p : Z) : option clusterNode :=
  if bool_decide (p ∈ l) then set_slaveof None <$> m !! p else m !! p.

Lemma orphan_loop_spec l : forall st,
  core_ok st -> (forall s, s ∈ l -> is_Some (nodes st !! s)) ->
  exists m', orphan_loop st l = Some (set_nodes m' st) /\ core_ok (set_nodes m' st) /\
    forall p, m' !! p = orphaned l (nodes st) p.
Proof.
  induction l as [|s l IH]; intros st Hc Hk; cbn [orphan_loop].
  { exists (nodes st). split; [by destruct st|]. split; [by destruct st|]. intros p. unfold orphaned.
    by rewrite bool_decide_false by apply not_elem_of_nil. }
  destruct (Hk s) as [a Ha]; [left|]. rewrite (upd_Some _ _ a), bind_Some by done.
  destruct (IH (set_nodes (<[s := set_slaveof None a]> (nodes st)) st)) as (m' & -> & Hc' & Hm').
  { eapply core_upd; [done..|]. by apply quiet_same. }
  { intros k Hl. cbn. eapply known_insert; [done|]. apply Hk. by right. }
  exists m'. split; [done|]. split; [done|]. intros p. rewrite Hm'. unfold orphaned. cbn.
  destruct (decide (p = s)) as [-> | Hne].
  - rewrite lookup_insert_eq, (bool_decide_true (s ∈ s :: l)), Ha by left. cbn. by destruct (bool_decide (s ∈ l)).
  - rewrite lookup_insert_ne by done. rewrite (bool_decide_ext (p ∈ l) (p ∈ s :: l)); [done|].
    rewrite elem_of_cons. naive_solver.
Qed.

(** No pointer to [n] outside of the node itself and of the links. *)
Record unreferenced (n : Z) (st : clusterState) : Prop := {
  ur_owner : forall i, owner st !! i <> Some (Some n);
  ur_migrating : forall i, migrating_slots_to st !! i <> Some (Some n);
  ur_importing : forall i, importing_slots_from st !! i <> Some (Some n);
  ur_reports : forall k node, nodes st !! k = Some node -> k <> n -> n ∉ fr_node <$> fail_reports node;
}.

Lemma core_delete st n :
  core_ok st -> unreferenced n st -> n <> myself st -> core_ok (set_nodes (delete n (nodes st)) st).
Proof.
  intros [Hs Hmi Him Hro Hre (me & Hme & Hr)] [Uo Um Ui Ur] Hne.
  assert (Hk : forall k, k <> n -> is_Some (nodes st !! k) -> is_Some (delete n (nodes st) !! k)).
  { intros k Hk. by rewrite lookup_delete_ne. }
  assert (Hd : forall k node, delete n (nodes st) !! k = Some node -> k <> n /\ nodes st !! k = Some node).
  { intros k node [? ?]%lookup_delete_Some. auto. }
  split; cbn.
  - split; [apply Hs | intros j k Hj; apply Hk; [by intros ->; eapply Uo | by apply (so_known _ _ Hs j)] |].
    intros k node [_ Hn]%Hd. by apply Hs.
  - split; [apply Hmi | intros j k Hj; apply Hk; [by intros ->; eapply Um | by apply (oo_known _ _ Hmi j)]].
  - split; [apply Him | intros j k Hj; apply Hk; [by intros ->; eapply Ui | by apply (oo_known _ _ Him j)]].
  - intros k node [_ Hn]%Hd. by eapply Hro.
  - intros k node [Hkn Hn]%Hd. destruct (Hre _ _ Hn) as [Hnd Hknown]. split; [done|].
    intros r Hr'. apply Hk; [|by apply Hknown]. intros E. apply (Ur _ _ Hn Hkn). rewrite <- E. by apply list_elem_of_fmap_2.
  - exists me. by rewrite lookup_delete_ne.
Qed.

(** The links that are left when [n] is gone. *)
Lemma links_delete m m' n :
  links None m -> m' !! n = None ->
  (forall k, k <> n -> NoDup (slaves_of m' k) /\ forall p, p ∈ slaves_of m' k <-> p ∈ slaves_of m k /\ p <> n) ->
  (forall p, p <> n -> master_of m' p = if bool_decide (master_of m p = Some n) then None else master_of m p) ->
  links None m'.
Proof.
  intros [Hsym Hnd] Hn Hs Hm.
  assert (Hnil : slaves_of m' n = []) by (unfold slaves_of; by rewrite Hn).
  assert (Hnone : master_of m' n = None) by (unfold master_of; by rewrite Hn).
  split.
  - intros p k. destruct (decide (k = n)) as [-> | Hk].
    + rewrite Hnil. split; [intros H; by apply elem_of_nil in H|]. intros [_ H].
      destruct (decide (p = n)) as [-> | Hp]; [congruence|]. rewrite Hm in H by done. by case_bool_decide.
    + destruct (Hs k Hk) as [_ ->]. rewrite Hsym. destruct (decide (p = n)) as [-> | Hp]; [rewrite Hnone; naive_solver|].
      rewrite Hm by done. case_bool_decide; naive_solver.
  - intros k. destruct (decide (k = n)) as [-> | Hk]; [rewrite Hnil; constructor | by apply Hs].
Qed.

(** ** Deleting a node *)

(** What a node is apart from its links and slots. *)
Definition facts (a : clusterNode) : bool * Z * list clusterNodeFailReport :=
  (nodeIsMaster a, configEpoch a, fail_reports a).
Definition same_facts (m m' : gmap Z clusterNode) : Prop := forall k, facts <$> m' !! k = facts <$> m !! k.

Lemma same_facts_node m m' k a' :
  same_facts m m' -> m' !! k = Some a' -> exists a, m !! k = Some a /\ facts a' = facts a.
Proof. intros H Ha. specialize (H k). rewrite Ha in H. destruct (m !! k) as [a|]; [|done]. exists a. cbn in H. split; congruence. Qed.

Lemma same_facts_master m m' k : same_facts m m' -> is_master m' k = is_master m k.
Proof. intros H. specialize (H k). unfold is_master. destruct (m !! k), (m' !! k); try done. unfold facts in H. cbn in *. congruence. Qed.
Lemma same_facts_epoch m m' k : same_facts m m' -> configEpoch <$> m' !! k = configEpoch <$> m !! k.
Proof. intros H. specialize (H k). destruct (m !! k), (m' !! k); try done. unfold facts in H. cbn in *. congruence. Qed.

Lemma unreferenced_facts n st m' : unreferenced n st -> same_facts (nodes st) m' -> unreferenced n (set_nodes m' st).
Proof.
  intros [] H. split; try done. intros k a' Ha Hk. destruct (same_facts_node _ _ _ _ H Ha) as (a & Hk' & [= _ _ ->]).
  by eapply ur_reports0.
Qed.

Lemma orphaned_facts l m m' : (forall p, m' !! p = orphaned l m p) -> same_facts m m'.
Proof. intros H k. rewrite H. unfold orphaned. destruct (bool_decide _), (m !! k); done. Qed.
Lemma orphaned_slaves l m m' k : (forall p, m' !! p = orphaned l m p) -> slaves_of m' k = slaves_of m k.
Proof. intros H. unfold slaves_of. rewrite H. unfold orphaned. destruct (bool_decide _), (m !! k); done. Qed.
Lemma orphaned_master l m m' k :
  (forall p, m' !! p = orphaned l m p) -> master_of m' k = if bool_decide (k ∈ l) then None else master_of m k.
Proof. intros H. unfold master_of. rewrite H. unfold orphaned. by destruct (bool_decide _), (m !! k). Qed.

(** The second half of [freeClusterNode], after the replicas were released. *)
Lemma unlink_spec st n node1 :
  core_ok st -> nodes st !! n = Some node1 ->
  (forall k, NoDup (slaves_of (nodes st) k)) ->
  (forall k, k <> n -> n ∈ slaves_of (nodes st) k <-> slaveof node1 = Some k) -> slaveof node1 <> Some n ->
  exists m2, (if nodeIsSlave node1 then detach st n node1 else Some st) = Some (set_nodes m2 st) /\
    core_ok (set_nodes m2 st) /\ same_facts (nodes st) m2 /\
    (forall k, master_of m2 k = master_of (nodes st) k) /\
    forall k, k <> n -> NoDup (slaves_of m2 k) /\ forall p, p ∈ slaves_of m2 k <-> p ∈ slaves_of (nodes st) k /\ p <> n.
Proof.
  intros Hc Hn Hnd Hin Hself.
  assert (Hnone : slaveof node1 = None -> exists m2, Some st = Some (set_nodes m2 st) /\
    core_ok (set_nodes m2 st) /\ same_facts (nodes st) m2 /\
    (forall k, master_of m2 k = master_of (nodes st) k) /\
    forall k, k <> n -> NoDup (slaves_of m2 k) /\ forall p, p ∈ slaves_of m2 k <-> p ∈ slaves_of (nodes st) k /\ p <> n).
  { intros E. exists (nodes st). replace (set_nodes (nodes st) st) with st by (by destruct st). split_and!; try done.
    intros k Hk. split; [apply Hnd|]. intros p. split; [|tauto]. intros Hp. split; [done|]. intros ->.
    apply (Hin k Hk) in Hp. congruence. }
  destruct (nodeIsSlave node1) eqn:Es.
  2: { apply Hnone. destruct (slaveof node1) eqn:E; [|done]. destruct (ck_roles _ Hc _ _ Hn) as [_ Hso].
       rewrite Hso in Es; congruence. }
  unfold detach. destruct (slaveof node1) as [k|] eqn:Ek; [|by apply Hnone]. clear Hnone.
  assert (Hk : k <> n) by congruence. pose proof (proj2 (Hin k Hk) eq_refl) as Hl.
  destruct (slaves_of_known _ _ _ Hl) as [kn Hkn]. rewrite (slaves_of_node _ _ _ Hkn) in Hl.
  destruct (clusterNodeRemoveSlave_found st n k kn) as (kn' & -> & Hlike & Er & Hndl & Hpl); [done | done | |].
  { rewrite <- (slaves_of_node _ _ _ Hkn). apply Hnd. }
  rewrite bind_Some. eexists. split; [done|]. split_and!.
  - eapply core_upd; [done..|]. by apply quiet_like.
  - intros p. destruct (decide (p = k)) as [-> | Hp]; [|by rewrite lookup_insert_ne].
    rewrite lookup_insert_eq, Hkn. cbn. unfold facts. by rewrite Er, (li_master _ _ Hlike), (li_epoch _ _ Hlike).
  - intros p. rewrite master_of_insert. case_decide; [|done]. subst. rewrite (li_slaveof _ _ Hlike).
    by rewrite (master_of_node _ _ _ Hkn).
  - intros q Hq. rewrite slaves_of_insert. case_decide as E; [subst|].
    + split; [done|]. intros p. by rewrite Hpl, (slaves_of_node _ _ _ Hkn).
    + split; [apply Hnd|]. intros p. split; [|tauto]. intros Hp. split; [done|]. intros ->.
      apply (Hin q Hq) in Hp. congruence.
Qed.

Lemma freeClusterNode_spec st n node :
  cluster_ok st -> nodes st !! n = Some node -> unreferenced n st -> n <> myself st ->
  exists m', freeClusterNode st n = Some (set_nodes m' st) /\ cluster_ok (set_nodes m' st) /\ m' !! n = None /\
    (forall k, k <> n -> facts <$> m' !! k = facts <$> nodes st !! k) /\
    (forall k, k <> n ->
       master_of m' k = if bool_decide (master_of (nodes st) k = Some n) then None else master_of (nodes st) k).
Proof.
  intros Hok Hn Hu Hne. pose proof Hok as [Hc Hl]. destruct Hl as [Hsym Hnd]. unfold freeClusterNode. rewrite Hn, bind_Some.
  assert (Hslaves : forall s, s ∈ slaves node <-> master_of (nodes st) s = Some n).
  { intros s. rewrite <- (slaves_of_node _ _ _ Hn), Hsym. naive_solver. }
  destruct (orphan_loop_spec (slaves node) st) as (m1 & -> & Hc1 & Hm1); [done | |].
  { intros s Hs%Hslaves. unfold master_of in Hs. destruct (nodes st !! s); [eauto | done]. }
  rewrite bind_Some. cbn [nodes set_nodes].
  assert (Hmaster : forall k, master_of m1 k = if bool_decide (master_of (nodes st) k = Some n) then None
                                               else master_of (nodes st) k).
  { intros k. rewrite (orphaned_master (slaves node) (nodes st) m1 k Hm1).
    by rewrite (bool_decide_ext _ _ (Hslaves k)). }
  destruct (same_facts_node m1 (nodes st) n node) as (node1 & Hn1 & _); [|done|].
  { intros k. symmetry. by apply (orphaned_facts (slaves node)). }
  assert (Hso : slaveof node1 = master_of m1 n) by (by rewrite (master_of_node _ _ _ Hn1)).
  rewrite Hn1, bind_Some. rewrite Hmaster in Hso.
  destruct (unlink_spec (set_nodes m1 st) n node1) as (m2 & Hd & Hc2 & Hf2 & Hma2 & Hsl2); [done | done | | | |].
  { intros k. cbn. rewrite (orphaned_slaves _ _ _ k Hm1). apply Hnd. }
  { intros k Hk. cbn. rewrite (orphaned_slaves _ _ _ k Hm1), Hsym, Hso. case_bool_decide; naive_solver. }
  { rewrite Hso. by case_bool_decide. }
  unfold detach in Hd. rewrite Hd, bind_Some. cbn [nodes set_nodes] in *. exists (delete n m2).
  assert (Hf : same_facts (nodes st) m2).
  { intros k. rewrite Hf2. by apply (orphaned_facts (slaves node)). }
  assert (Hdm : forall k, k <> n -> delete n m2 !! k = m2 !! k) by (intros; by apply lookup_delete_ne).
  split; [done|]. split_and!; [split | apply lookup_delete_eq | |].
  - apply (core_delete (set_nodes m2 st) n); [done | by apply unreferenced_facts | done].
  - apply (links_delete (nodes st) _ n); [by split | apply lookup_delete_eq | |].
    + intros k Hk. unfold slaves_of at 1 2. cbn. rewrite Hdm by done. destruct (Hsl2 k Hk) as [H1 H2].
      rewrite (orphaned_slaves _ _ _ k Hm1) in H2. done.
    + intros p Hp. unfold master_of at 1. cbn. rewrite Hdm by done. rewrite <- Hmaster, <- Hma2. done.
  - intros k Hk. rewrite Hdm by done. apply Hf.
  - intros k Hk. unfold master_of at 1. rewrite Hdm by done. rewrite <- Hmaster, <- Hma2. done.
Qed.

(** After [clusterDelNode] the node is gone, the invariant holds (so that no
    pointer to it is left), and the other nodes keep their role and epoch. *)
Lemma clusterDelNode_spec timeout t st n :
  good st -> is_Some (nodes st !! n) -> n <> myself st -> master_of (nodes st) (myself st) <> Some n ->
  exists st', clusterDelNode timeout t st n = Some st' /\ good st' /\ nodes st' !! n = None /\
    myself st' = myself st /\ currentEpoch st' = currentEpoch st /\ lastVoteEpoch st' = lastVoteEpoch st /\
    (forall k, k <> n -> configEpoch <$> nodes st' !! k = configEpoch <$> nodes st !! k).
Proof.
  intros Hg [node Hn] Hne Hmine. pose proof (gd_ok _ Hg) as Hok. unfold clusterDelNode.
  destruct (del_slots_loop_spec (Z.to_nat CLUSTER_SLOTS) st n 0) as (st1 & -> & Hok1 & Ht1 & Hlost);
    [done | done | by rewrite Z2Nat.id |].
  rewrite Z2Nat.id, Z.add_0_l in Hlost by done. destruct Hlost as (Lo & Lm & Li). rewrite bind_Some.
  pose proof (del_reports_spec timeout t st1 n Hok1) as (Hok2 & Ht2 & He2 & Hrep). cbv zeta in *.
  set (m2 := del_reports timeout t n (nodes st1)) in *.
  destruct (touched_known (nodes st1) m2 n Ht2) as [node2 Hn2].
  { eapply same_known; [apply Ht1 | eauto]. }
  destruct (freeClusterNode_spec (set_nodes m2 st1) n node2) as (m' & -> & Hok' & Hgone & Hf & Hm);
    [done | done | | cbn; by rewrite (tb_myself _ _ Ht1) |].
  { split; cbn; [eapply lost_not_in.. | done]; try done; apply Hok1. }
  cbn [nodes set_nodes] in *.
  assert (Hmo : forall k, master_of m2 k = master_of (nodes st) k).
  { intros k. rewrite <- (same_master_of _ _ k (tb_nodes _ _ Ht1)). unfold master_of. specialize (Ht2 k).
    destruct (nodes st1 !! k), (m2 !! k); try done. apply Ht2. }
  assert (Hepoch : forall k, k <> n -> configEpoch <$> m' !! k = configEpoch <$> nodes st !! k).
  { intros k Hk. transitivity (configEpoch <$> m2 !! k).
    - specialize (Hf k Hk). destruct (m' !! k), (m2 !! k); try done. unfold facts in Hf. cbn in *. congruence.
    - rewrite He2. pose proof (tb_nodes _ _ Ht1 k) as Hs. destruct (nodes st1 !! k), (nodes st !! k); try done.
      cbn. f_equal. symmetry. apply Hs. }
  assert (Hism : forall k, k <> n -> is_master m' k = is_master (nodes st) k).
  { intros k Hk. specialize (Hf k Hk). specialize (Ht2 k). pose proof (tb_nodes _ _ Ht1 k) as Hs. unfold is_master.
    destruct (m' !! k), (m2 !! k); try done; destruct (nodes st1 !! k), (nodes st !! k); try done.
    unfold facts in Hf. destruct Hs, Ht2. cbn in *. congruence. }
  destruct Ht1 as [_ Emy Ec Ev]. eexists. split; [done|]. split_and!; try done.
  destruct Hg as [_ Hhm Hv He]. split; cbn; [done | | congruence | congruence].
  rewrite Emy. unfold has_master in *. rewrite Hism, Hm, Hmo by done. by rewrite bool_decide_false.
Qed.

End ClusterDel.
