(* ===== verification/ClusterSafety.v ===== *)
(** The theorems about the cluster: the invariant of the state is kept by every
    sequence of events, no event fails, a node votes once per epoch, what
    configuration messages do to the owners of slots, and the slot of a key. *)

From stdpp Require Import gmap.
From S2P Require Import Prelude Crc Sds Cluster ClusterInv ClusterRun ClusterDel.
Import Crc Cluster ClusterInv ClusterRun ClusterDel.

Module ClusterSafety.

(** ** When an event may happen *)

Definition known (st : clusterState) (n : Z) : bool := bool_decide (is_Some (nodes st !! n)).
Definition has_role (st : clusterState) (n : Z) : bool :=
  from_option (fun node => nodeIsMaster node || nodeIsSlave node) false (nodes st !! n).
Definition bitmap_ok (b : bytes) : bool := bool_decide (is_bytes b) && (blen b =? CLUSTER_SLOTS / 8).
Definition EPOCH_LIMIT : Z := 2 ^ 64 - 1.
Definition hdr_ok (hdr : clusterMsg) : bool := bitmap_ok (myslots hdr) && (m_currentEpoch hdr <? EPOCH_LIMIT).

(** What the callers check before they call the handlers: names were resolved to
    nodes, slots are in range, a node that is forgotten is neither this one nor
    its master, a node made a replica serves no slot. The 64-bit epoch counter
    has not reached its limit. *)
Definition allowed (st : clusterState) (e : event) : bool :=
  (currentEpoch st <? EPOCH_LIMIT) &&
  match e with
  | Ping sender hdr role gossip =>
      has_role st sender && negb (sender =? myself st) && hdr_ok hdr
      && match role with Some (Some k) => known st k | _ => true end
      && forallb (fun g => known st g.1.1) gossip
  | Pong n => known st n
  | FailMsg sender hdr failing => known st sender && known st failing
  | AuthRequest sender hdr => known st sender && hdr_ok hdr
  | UpdateMsg sender hdr n _ claimed => known st sender && known st n && bitmap_ok claimed
  | AddSlot n slot =>
      from_option (fun node => negb (nodeIsSlave node)) false (nodes st !! n) && (0 <=? slot) && (slot <? CLUSTER_SLOTS)
  | DelSlot slot => (0 <=? slot) && (slot <? CLUSTER_SLOTS)
  | AddNode a nm f =>
      let node := createClusterNode nm f in negb (known st a) && negb (nodeIsMaster node && nodeIsSlave node)
  | DelNode n => known st n && negb (n =? myself st) && bool_decide (master_of (nodes st) (myself st) <> Some n)
  | SetMaster n =>
      known st n && negb (n =? myself st) && from_option (fun me => numslots me =? 0) false (nodes st !! myself st)
  | BumpEpoch | StartElection | WinElection _ => true
  end.

(** The votes of a step, relative to the epochs before and after. *)
Definition vote_rel (st st' : clusterState) (effs : list effect) : Prop :=
  currentEpoch st <= currentEpoch st' /\
  (votes effs = [] /\ lastVoteEpoch st' = lastVoteEpoch st \/
   exists n, votes effs = [n] /\ lastVoteEpoch st < lastVoteEpoch st').

Definition step_ok (st : clusterState) (r : option (clusterState * list effect)) : Prop :=
  exists st' effs, r = Some (st', effs) /\ good st' /\ vote_rel st st' effs.

Lemma goes_step st st' effs : goes st st' -> votes effs = [] -> step_ok st (Some (st', effs)).
Proof. intros [] Hv. exists st', effs. split_and!; try done. split; [done|]. by left. Qed.

Lemma known_Some st n : known st n = true -> is_Some (nodes st !! n).
Proof. apply bool_decide_eq_true. Qed.
Lemma bitmap_ok_spec b : bitmap_ok b = true -> is_bytes b /\ blen b = CLUSTER_SLOTS / 8.
Proof. intros [?%bool_decide_eq_true ?%Z.eqb_eq]%andb_true_iff. done. Qed.

Ltac split_allowed :=
  repeat match goal with
    | H : _ && _ = true |- _ => apply andb_true_iff in H as [? ?]
    | H : known _ _ = true |- _ => apply known_Some in H
    | H : bitmap_ok _ = true |- _ => apply bitmap_ok_spec in H as [? ?]
    | H : hdr_ok _ = true |- _ => unfold hdr_ok in H
    | H : (_ <? _) = true |- _ => apply Z.ltb_lt in H
    | H : (_ <=? _) = true |- _ => apply Z.leb_le in H
    | H : negb (_ =? _) = true |- _ => apply negb_true_iff, Z.eqb_neq in H
    | H : bool_decide _ = true |- _ => apply bool_decide_eq_true in H
    end.

Lemma ping_ok ev st sender hdr role g :
  good st -> allowed st (Ping sender hdr role g) = true -> step_ok st (packet_ping ev st sender hdr role g).
Proof.
  intros Hg Ha. unfold allowed in Ha. split_allowed. unfold has_role, EPOCH_LIMIT in *.
  destruct (nodes st !! sender) as [s|] eqn:Es; [|done]. cbn in *. unfold packet_ping.
  destruct (packet_epochs_spec st sender s hdr Hg Es) as (st1 & s1 & -> & G1 & Es1 & Ht & Hc). rewrite bind_Some.
  destruct (packet_role_spec st1 sender s1 role) as (st2 & -> & Hok2 & Hk2);
    [apply G1 | done | by rewrite (gs_myself _ _ G1) | by rewrite (to_master _ _ Ht), (to_slave _ _ Ht) | |].
  { intros k ->. apply G1. by apply known_Some. }
  rewrite bind_Some. pose proof (kept_goes _ _ (gs_good _ _ G1) Hok2 Hk2) as G2.
  destruct (kept_known st1 st2 sender Hk2) as [s2 Hs2]; [eauto|].
  destruct (packet_slots_spec (countKeysInSlot ev) (no_redirection ev) (allow_migration ev) st2 sender s2 hdr)
    as (st3 & e1 & -> & G3 & Hv3); [apply G2 | done | done | done | rewrite (ek_current _ _ Hk2); lia |].
  rewrite bind_Some. pose proof (goes_trans _ _ _ (goes_trans _ _ _ G1 G2) G3) as G13.
  destruct (gossip_section_spec (node_timeout ev) (now ev) sender g st3) as (st4 & e2 & -> & G4 & Hv4);
    [apply G13 | apply G13; eauto | |].
  { apply Forall_forall. intros p Hp. apply G13, known_Some. match goal with H : forallb _ g = true |- _ => rewrite forallb_forall in H; apply (H p) end.
    by apply list_elem_of_In. }
  rewrite bind_Some. apply goes_step; [by eapply goes_trans|]. by rewrite votes_app, Hv3, Hv4.
Qed.

Lemma auth_ok ev st sender hdr :
  good st -> allowed st (AuthRequest sender hdr) = true -> step_ok st (exec ev st (AuthRequest sender hdr)).
Proof.
  intros Hg Ha. unfold allowed in Ha. split_allowed. cbn [exec].
  match goal with H : is_Some _ |- _ => destruct H as [s Hs] end.
  destruct (packet_epochs_spec st sender s hdr Hg Hs) as (st1 & s1 & -> & G1 & Hs1 & _ & _). rewrite bind_Some.
  destruct (vote_spec (node_timeout ev) (now ev) st1 sender hdr) as [-> | Hvote]; [apply G1 | eauto | done | done | |].
  - by apply goes_step.
  - destruct Hvote as (st' & -> & Hg' & _ & _ & Hlt & _ & Hc' & Hv' & _). exists st', [SendFailoverAuth sender].
    destruct G1 as [_ _ _ Hc Hv]. split_and!; [done..|]. split; [lia|]. right. exists sender. split; [done | lia].
Qed.

(** Every event that may happen is processed, and keeps the invariant. *)
Lemma exec_ok ev st e : good st -> allowed st e = true -> step_ok st (exec ev st e).
Proof.
  intros Hg Ha. pose proof (gd_ok _ Hg) as Hok.
  destruct e; [by apply ping_ok | | | by apply auth_ok | ..]; unfold allowed in Ha; split_allowed; cbn [exec].
  - destruct (packet_pong_spec (node_timeout ev) (now ev) st n) as (st' & -> & G); [done..|]. by apply goes_step.
  - match goal with H : is_Some (nodes st !! sender) |- _ => destruct H as [s Hs] end.
    destruct (packet_epochs_spec st sender s hdr Hg Hs) as (st1 & s1 & -> & G1 & _). rewrite bind_Some.
    destruct (packet_fail_spec (now ev) st1 failing) as (st' & -> & G'); [apply G1 | by apply G1 |].
    apply goes_step; [by eapply goes_trans | done].
  - match goal with H : is_Some (nodes st !! sender) |- _ => destruct H as [s Hs] end.
    destruct (packet_epochs_spec st sender s hdr Hg Hs) as (st1 & s1 & -> & G1 & _). rewrite bind_Some.
    destruct (packet_update_spec (countKeysInSlot ev) (no_redirection ev) (allow_migration ev) st1 n reportedConfigEpoch claimed)
      as (st' & effs & -> & G' & Hv); [apply G1 | by apply G1 | done | done |].
    apply goes_step; [by eapply goes_trans | done].
  - destruct (nodes st !! n) as [node|] eqn:Hn; [|done]. cbn in *.
    match goal with H : negb (nodeIsSlave node) = true |- _ => apply negb_true_iff in H end.
    destruct (slots_lookup (owner st) (nodes st) slot) as ([k|] & _ & Ho); [apply Hok | done | |].
    + rewrite (clusterAddSlot_busy st slot n k), bind_Some by (apply Hok || done).
      apply goes_step; [by apply goes_refl | done].
    + destruct (clusterAddSlot_spec st slot n node) as (st' & -> & Hr & _); [apply Hok | done..|]. rewrite bind_Some.
      apply goes_step; [|done]. apply kept_goes; [done | by eapply rebound_cluster | auto].
  - destruct (slots_lookup (owner st) (nodes st) slot) as ([k|] & _ & Ho); [apply Hok | done | |].
    + destruct (clusterDelSlot_spec st slot k) as (st' & -> & Hr & _); [apply Hok | done..|]. rewrite bind_Some.
      apply goes_step; [|done]. apply kept_goes; [done | by eapply rebound_cluster | auto].
    + rewrite clusterDelSlot_free, bind_Some by (apply Hok || done). apply goes_step; [by apply goes_refl | done].
  - apply goes_step; [|done]. apply add_node_spec; [done | |].
    + destruct (nodes st !! address) eqn:E; [|done]. unfold known in *. rewrite E in *. by rewrite bool_decide_true in * by eauto.
    + intros Em. match goal with H : negb (_ && _) = true |- _ => rewrite Em in H; by apply negb_true_iff in H end.
  - destruct (clusterDelNode_spec (node_timeout ev) (now ev) st n) as (st' & -> & Hg' & _ & _ & Hc & Hv & _); [done..|].
    exists st', []. split_and!; [done..|]. split; [lia|]. by left.
  - destruct (ck_myself _ Hok) as (me & Hme & _). rewrite Hme in *. cbn in *.
    destruct (clusterSetMaster_spec st n me) as (st' & -> & Hok' & Hst & Hm'); [done.. | lia |].
    apply goes_step; [|done]. apply kept_goes; [done..|]. destruct Hst. split; try done. right. by rewrite Hm'.
  - destruct (bump_spec st) as (st' & c & -> & G); [done | done |]. by apply goes_step.
  - pose proof (gd_epoch _ Hg). unfold EPOCH_LIMIT in *. rewrite uint_small by (unfold in_uint; lia).
    apply goes_step; [|done]. apply set_epochs_goes; [done | lia].
  - unfold win_election. destruct (ck_myself _ Hok) as (me & Hme & _). rewrite Hme, bind_Some.
    assert (H1 : exists st1, (if configEpoch me <? failover_auth_epoch
        then upd st (myself st) (set_configEpoch failover_auth_epoch) else Some st) = Some st1 /\ goes st st1).
    { destruct (_ <? _); [|by eauto using goes_refl]. by apply flag_upd_spec; [done | eauto |]. }
    destruct H1 as (st1 & -> & G1). rewrite bind_Some.
    destruct (clusterFailoverReplaceYourMaster_spec st1) as (st' & effs & -> & Hok' & Hk' & Hv & _); [apply G1|].
    apply goes_step; [|done]. eapply goes_trans; [done|]. apply kept_goes; [apply G1 | done..].
Qed.

(** ** Sequences of events *)

Fixpoint admissible (st : clusterState) (l : list (env * event)) : bool :=
  match l with
  | [] => true
  | (ev, e) :: l => allowed st e && match exec ev st e with Some (st', _) => admissible st' l | None => true end
  end.

Lemma clusterInit_good a nm : good (clusterInit a nm).
Proof.
  set (st0 := State a 0 0 1 ∅ (replicate (Z.to_nat CLUSTER_SLOTS) None) (replicate (Z.to_nat CLUSTER_SLOTS) None)
                (replicate (Z.to_nat CLUSTER_SLOTS) None)).
  set (node := createClusterNode nm (Z.lor CLUSTER_NODE_MYSELF CLUSTER_NODE_MASTER)).
  change (clusterInit a nm) with (set_nodes {[a := node]} st0).
  assert (Hm : nodeIsMaster node = true /\ nodeIsSlave node = false) by (by split). destruct Hm as [Hm Hs].
  assert (Hlk : forall n x, ({[a := node]} : gmap Z clusterNode) !! n = Some x -> n = a /\ x = node).
  { intros n x [-> ->]%lookup_singleton_Some. done. }
  assert (Hno : forall i k, replicate (Z.to_nat CLUSTER_SLOTS) (None : option Z) !! i <> Some (Some k)).
  { intros i k H. by apply lookup_replicate in H as [? _]. }
  assert (Hopen : open_ok (replicate (Z.to_nat CLUSTER_SLOTS) None) {[a := node]}).
  { split; [apply length_replicate|]. intros j n H. by destruct (Hno j n). }
  split; cbn; [|left; unfold is_master; by rewrite lookup_singleton_eq | done | done].
  split; [split; cbn; try done|].
  - split; [apply length_replicate | intros j n H; by destruct (Hno j n) |]. intros n x [-> ->]%Hlk.
    split.
    + by apply Forall_replicate.
    + unfold blen. cbn [slots node createClusterNode]. by rewrite length_replicate, Z2Nat.id.
    + intros j Hj. cbn [slots node createClusterNode]. rewrite bit_at_zero. rewrite bool_decide_false; [done | apply Hno].
    + symmetry. apply slot_count_0. intros i. apply Hno.
    + done.
  - intros n x [-> ->]%Hlk. by split.
  - intros n x [-> ->]%Hlk. split; cbn; [constructor | intros r H; by apply elem_of_nil in H].
  - exists node. split; [apply lookup_singleton_eq | by rewrite Hm].
  - assert (Hsl : forall k, slaves_of {[a := node]} k = []).
    { intros k. unfold slaves_of. destruct (({[a := node]} : gmap Z clusterNode) !! k) eqn:E; [|done].
      by apply Hlk in E as [_ ->]. }
    split; intros n; cbn; rewrite ?Hsl; [|constructor]. intros k. rewrite Hsl.
    split; [intros H; by apply elem_of_nil in H|]. intros [_ H]. unfold master_of in H.
    destruct (({[a := node]} : gmap Z clusterNode) !! n) eqn:E; [|done]. by apply Hlk in E as [_ ->].
Qed.

Lemma vote_epochs st' effs :
  omap (fun f => match f with SendFailoverAuth _ => Some (lastVoteEpoch st') | _ => None end) effs =
  (fun _ => lastVoteEpoch st') <$> votes effs.
Proof. induction effs as [|[] effs IH]; cbn; try done. by rewrite IH. Qed.

Lemma steps_ok l : forall st,
  good st -> admissible st l = true ->
  exists st' vs, steps st l = Some (st', vs) /\ good st' /\ StronglySorted Z.lt vs /\
    Forall (fun v => lastVoteEpoch st < v) vs.
Proof.
  induction l as [|[ev e] l IH]; intros st Hg Ha; cbn [steps].
  { exists st, []. split_and!; [done | done | constructor | constructor]. }
  apply andb_true_iff in Ha as [Ha Hl]. destruct (exec_ok ev st e Hg Ha) as (st1 & effs & E & Hg1 & _ & Hv).
  rewrite E in Hl |- *. rewrite bind_Some. destruct (IH st1 Hg1 Hl) as (st' & vs & -> & Hg' & Hs & Hf).
  rewrite bind_Some, vote_epochs. exists st'. eexists. split_and!; [done | done | |].
  - destruct Hv as [[-> _] | (n & -> & _)]; [done|]. cbn. by constructor.
  - destruct Hv as [[-> Ev] | (n & -> & Hlt)]; cbn; [by rewrite <- Ev|]. constructor; [done|].
    eapply Forall_impl; [done|]. cbn. intros. lia.
Qed.

(** Run a sequence of events, checking that each may happen. *)
Fixpoint trial (st : clusterState) (l : list (env * event)) : option (list Z) :=
  match l with
  | [] => Some []
  | (ev, e) :: l =>
      if allowed st e then
        '(st, effs) ← exec ev st e;
        vs ← trial st l;
        Some (((fun _ => lastVoteEpoch st) <$> votes effs) ++ vs)
      else None
  end.

Lemma trial_ok l : forall st vs,
  trial st l = Some vs -> admissible st l = true /\ exists st', steps st l = Some (st', vs).
Proof.
  induction l as [|[ev e] l IH]; intros st vs; cbn [trial admissible steps]; [intros [= <-]; eauto|].
  destruct (allowed st e); [|done]. cbn [andb]. destruct (exec ev st e) as [[st1 effs]|]; [|done]. rewrite !bind_Some.
  destruct (trial st1 l) as [vs1|] eqn:E; [|done]. destruct (IH st1 vs1 E) as (-> & st' & ->). rewrite !bind_Some.
  intros [= <-]. rewrite vote_epochs. eauto.
Qed.

(** A master fails and its replica gets the vote of epoch 1, once. *)
Definition demo : list (env * event) :=
  let ev t := Env 15000 t (fun _ => 0) false true in
  let hdr e := Msg e 0 (replicate (Z.to_nat (CLUSTER_SLOTS / 8)) 0) false in
  [(ev 0, AddNode 2 [] CLUSTER_NODE_MASTER); (ev 0, AddNode 3 [] CLUSTER_NODE_SLAVE); (ev 0, AddSlot 1 0);
   (ev 10, Ping 3 (hdr 0) (Some (Some 2)) [(2, CLUSTER_NODE_PFAIL, false)]); (ev 20, FailMsg 3 (hdr 0) 2);
   (ev 30000, AuthRequest 3 (hdr 1)); (ev 70000, AuthRequest 3 (hdr 1))].

Lemma demo_votes : trial (clusterInit 1 []) demo = Some [1].
Proof. vm_compute. reflexivity. Qed.



(** C36: a node grants at most one vote per epoch: in any such sequence of
    events the epochs of the votes it grants are strictly increasing. *)
Theorem cluster_votes_increase address nodename l st vs :
  admissible (clusterInit address nodename) l = true ->
  steps (clusterInit address nodename) l = Some (st, vs) -> StronglySorted Z.lt vs.
Proof.
  intros Ha Hs. destruct (steps_ok l _ (clusterInit_good address nodename) Ha) as (st' & vs' & E & _ & ? & _).
  congruence.
Qed.

Lemma cluster_votes_increase_witness : StronglySorted Z.lt [1].
Proof.
  destruct (proj2 (trial_ok _ _ _ demo_votes)) as [st Hst].
  exact (cluster_votes_increase 1 [] demo st [1] (proj1 (trial_ok _ _ _ demo_votes)) Hst).
Defined.

(** ** Owners of slots *)

(** What the owner of a slot was and is. *)
Definition owner_of (st : clusterState) (j : Z) : option Z := default None (owner st !! Z.to_nat j).

(** C37: a configuration message of [sender] for epoch [e] is processed without
    failure and rebinds exactly the claimed slots that are not being imported
    and are free or owned under an older epoch. So the epoch under which a slot
    is served never decreases, for a sender known under an epoch of at least
    [e]. *)
Theorem clusterUpdateSlots_owners count noredir migr st sender node e claimed :
  good st -> nodes st !! sender = Some node -> nodeIsSlave node = false -> sender <> myself st ->
  is_bytes claimed -> blen claimed = CLUSTER_SLOTS / 8 -> e <= configEpoch node ->
  exists st' effs, clusterUpdateSlotsConfigWith count noredir migr st sender e claimed = Some (st', effs) /\ good st' /\
    forall j, 0 <= j < CLUSTER_SLOTS ->
      (owner_of st' j = if bit_at claimed j && bool_decide (importing_slots_from st !! Z.to_nat j = Some None)
                           && match owner_of st j with Some n => epoch_of (nodes st) n <? e | None => true end
                        then Some sender else owner_of st j) /\
      (forall n, owner_of st j = Some n ->
         exists n', owner_of st' j = Some n' /\ epoch_of (nodes st) n <= epoch_of (nodes st') n').
Proof.
  intros Hg Hn Hs Hne Hb Hlen He.
  destruct (clusterUpdateSlotsConfigWith_spec count noredir migr st sender node e claimed)
    as (st' & effs & -> & Hok' & Hk & _ & _ & Hm); [apply Hg | apply Hg | done..|]. specialize (Hm Hne).
  exists st', effs. split_and!; [done | by eapply gs_good, kept_goes |]. intros j Hj.
  assert (Ho : owner_of st' j = claimed_owner (nodes st) (importing_slots_from st) sender e claimed j (owner_of st j)).
  { unfold owner_of. rewrite (slots_mapped_all _ _ _ j Hm Hj).
    destruct (slots_lookup (owner st) (nodes st) j) as (o & _ & ->); [apply Hg | done |]. done. }
  split; [exact Ho|]. intros n En. rewrite En in Ho.
  assert (Hep : forall k, epoch_of (nodes st') k = epoch_of (nodes st) k).
  { intros k. pose proof (ek_epochs _ _ Hk k) as E. unfold epoch_of.
    destruct (nodes st' !! k), (nodes st !! k); try done; cbn in *; congruence. }
  unfold claimed_owner in Ho. destruct (_ && _) eqn:E; [exists sender | exists n]; rewrite Hep; (split; [done|]); [|lia].
  apply andb_true_iff in E as [_ E]. apply Z.ltb_lt in E. unfold epoch_of at 2. rewrite Hn. cbn. lia.
Qed.

(** A cluster of two masters. *)
Definition two_masters : clusterState :=
  clusterAddNode (clusterInit 1 []) 2 (createClusterNode [] CLUSTER_NODE_MASTER).
Definition first_slot : bytes := 1 :: replicate (Z.to_nat (CLUSTER_SLOTS / 8 - 1)) 0.

Lemma two_masters_good : good two_masters.
Proof. apply (add_node_spec (clusterInit 1 []) 2 [] CLUSTER_NODE_MASTER); [apply clusterInit_good | done | done]. Qed.

Lemma clusterUpdateSlots_owners_witness : exists st' effs,
  clusterUpdateSlotsConfigWith (fun _ => 0) false true two_masters 2 0 first_slot = Some (st', effs) /\
  owner_of st' 0 = Some 2.
Proof.
  destruct (clusterUpdateSlots_owners (fun _ => 0) false true two_masters 2 (createClusterNode [] CLUSTER_NODE_MASTER) 0
    first_slot) as (st' & effs & E & _ & Ho); [apply two_masters_good | done | done | done | | done | done |].
  { constructor; [done | by apply Forall_replicate]. }
  exists st', effs. split; [exact E|]. clear E.
  pose proof (proj1 (Ho 0 (conj (Z.le_refl 0) eq_refl))) as H0. rewrite H0. reflexivity.
Defined.

(** ** Deleted nodes *)

(** [clusterDelNode] succeeds on a known node other than this one and its
    master, keeps the invariant, and leaves no pointer to the freed node: in the
    tables of slots, in the lists of replicas, as a master, in the failure
    reports. *)
Theorem clusterDelNode_no_dangling timeout t st n :
  good st -> is_Some (nodes st !! n) -> n <> myself st -> master_of (nodes st) (myself st) <> Some n ->
  exists st', clusterDelNode timeout t st n = Some st' /\ good st' /\ nodes st' !! n = None /\
    (forall i, owner st' !! i <> Some (Some n) /\ migrating_slots_to st' !! i <> Some (Some n) /\
               importing_slots_from st' !! i <> Some (Some n)) /\
    (forall k node, nodes st' !! k = Some node ->
       n ∉ slaves node /\ slaveof node <> Some n /\ n ∉ fr_node <$> fail_reports node).
Proof.
  intros Hg Hn Hne Hm. destruct (clusterDelNode_spec timeout t st n) as (st' & -> & Hg' & Hgone & _); [done..|].
  exists st'. assert (Hun : ~ is_Some (nodes st' !! n)) by (rewrite Hgone; by intros []).
  pose proof (gd_ok _ Hg') as Hok. split_and!; [done..| |].
  - intros i. split_and!; intros H; apply Hun;
      [exact (so_known _ _ (ck_slots _ Hok) i n H) | exact (oo_known _ _ (ck_migrating _ Hok) i n H)
      | exact (oo_known _ _ (ck_importing _ Hok) i n H)].
  - intros k node Hk. destruct (ck_links _ _ Hok) as [Hsym _]. split_and!.
    + rewrite <- (slaves_of_node _ _ _ Hk), Hsym. unfold master_of. rewrite Hgone. by intros [_ ?].
    + rewrite <- (master_of_node _ _ _ Hk). intros H. apply Hun, (slaves_of_known _ k), Hsym. done.
    + intros (r & -> & Hr)%list_elem_of_fmap. by apply Hun, (rp_known _ _ (ck_reports _ Hok _ _ Hk)).
Qed.

Lemma clusterDelNode_no_dangling_witness : exists st', clusterDelNode 15000 0 two_masters 2 = Some st' /\ nodes st' !! 2 = None.
Proof.
  destruct (clusterDelNode_no_dangling 15000 0 two_masters 2) as (st' & E & _ & Hn & _);
    [apply two_masters_good | by eexists | done | done |].
  exists st'. split; [exact E | exact Hn].
Defined.

(** ** The slot of a key *)

Lemma find_from_step fuel p x q c :
  let key := p ++ x :: q in
  find_from (S fuel) key (blen key) c (blen p) =
  if x =? c then Some (blen p) else find_from fuel key (blen key) c (blen (p ++ [x])).
Proof.
  intros key. cbn [find_from]. assert (Hlt : blen p < blen key).
  { unfold key. rewrite blen_app, blen_cons. pose proof (blen_nonneg q). lia. }
  rewrite (proj2 (Z.ltb_lt _ _) Hlt). unfold key. rewrite bget_app, bind_Some by done.
  by rewrite (blen_app p [x]).
Qed.

Lemma find_from_at c b : forall a fuel p,
  let key := p ++ a ++ c :: b in
  c ∉ a -> (length a < fuel)%nat -> find_from fuel key (blen key) c (blen p) = Some (blen p + blen a).
Proof.
  induction a as [|x a IH]; intros [|fuel] p key Hc Hf; cbn [length] in Hf; try lia; unfold key.
  - cbn [app]. rewrite find_from_step, Z.eqb_refl, blen_nil. f_equal. lia.
  - apply not_elem_of_cons in Hc as [Hx Hc]. rewrite <- app_comm_cons, find_from_step, (proj2 (Z.eqb_neq x c)) by done.
    specialize (IH fuel (p ++ [x]) Hc ltac:(lia)). rewrite <- !app_assoc in IH. cbn [app] in IH.
    rewrite IH, blen_app, blen_cons, blen_cons, blen_nil. f_equal. lia.
Qed.

Lemma find_from_none c : forall q fuel p,
  let key := p ++ q in
  c ∉ q -> (length q < fuel)%nat -> find_from fuel key (blen key) c (blen p) = Some (blen key).
Proof.
  induction q as [|x q IH]; intros [|fuel] p key Hc Hf; cbn [length] in Hf; try lia; unfold key.
  - cbn [find_from]. rewrite app_nil_r. by rewrite Z.ltb_irrefl.
  - apply not_elem_of_cons in Hc as [Hx Hc]. rewrite find_from_step, (proj2 (Z.eqb_neq x c)) by done.
    specialize (IH fuel (p ++ [x]) Hc ltac:(lia)). rewrite <- !app_assoc in IH. exact IH.
Qed.

(** The hash tag of a key: what is between the first '{' and the first '}' after
    it, when that is not empty. *)
Definition has_tag (key t : bytes) : Prop :=
  exists a b, key = a ++ 123 :: t ++ 125 :: b /\ 123 ∉ a /\ 125 ∉ t /\ t <> [].

Lemma slot_of_spec k : is_bytes k -> slot_of k = Some (crc16_ref k mod CLUSTER_SLOTS).
Proof.
  intros Hk. unfold slot_of, crc16. rewrite crc16_loop_ok, bind_Some by done. f_equal.
  exact (land_ones_mod _ 14 ltac:(lia)).
Qed.

Lemma bread_whole k : bread k 0 (blen k) = Some k.
Proof. exact (bread_suffix [] k 0 (blen k) eq_refl eq_refl). Qed.

Lemma keyHashSlot_tag a t b :
  123 ∉ a -> 125 ∉ t -> is_bytes t ->
  let key := a ++ 123 :: t ++ 125 :: b in
  keyHashSlot key (blen key) = if bool_decide (t = []) then k ← bread key 0 (blen key); slot_of k else slot_of t.
Proof.
  intros Ha Ht Hb key. unfold keyHashSlot.
  assert (Hlen : blen key = blen a + 2 + blen t + blen b).
  { unfold key. rewrite blen_app, blen_cons, blen_app, blen_cons. lia. }
  pose proof (blen_nonneg a). pose proof (blen_nonneg t). pose proof (blen_nonneg b).
  pose proof (find_from_at 123 (t ++ 125 :: b) a (S (Z.to_nat (blen key))) [] Ha) as E1.
  cbn [app] in E1. fold key in E1. rewrite blen_nil, Z.add_0_l in E1. rewrite E1, bind_Some by (unfold blen in *; lia).
  rewrite (proj2 (Z.eqb_neq (blen a) (blen key))) by lia.
  pose proof (find_from_at 125 b t (S (Z.to_nat (blen key))) (a ++ [123]) Ht) as E2.
  rewrite <- app_assoc in E2. cbn [app] in E2. fold key in E2.
  rewrite blen_app, blen_cons, blen_nil in E2. change (1 + 0) with 1 in E2.
  rewrite E2, bind_Some by (unfold blen in *; lia).
  rewrite (proj2 (Z.eqb_neq (blen a + 1 + blen t) (blen key))) by lia. cbn [orb].
  destruct (decide (t = [])) as [-> | Hne]; [by rewrite bool_decide_true, blen_nil, (proj2 (Z.eqb_eq _ _)) by (done || lia)|].
  rewrite bool_decide_false by done. assert (blen t <> 0) by (intros E; by apply blen_0 in E).
  rewrite (proj2 (Z.eqb_neq _ _)) by lia.
  replace (bread key (blen a + 1) (blen a + 1 + blen t - blen a - 1)) with (Some t); [done|]. symmetry.
  replace key with ((a ++ [123]) ++ t ++ 125 :: b) by (unfold key; by rewrite <- app_assoc).
  apply bread_app; [rewrite blen_app; done | lia].
Qed.

(** The slot of a key is the CRC-16 of its hash tag modulo 16384, where the
    tag is the non-empty string between the first '{' and the first '}' after it;
    a key without a tag is hashed as a whole. The search stays inside the key. *)
Theorem keyHashSlot_correct key :
  is_bytes key ->
  (forall t, has_tag key t -> keyHashSlot key (blen key) = Some (crc16_ref t mod CLUSTER_SLOTS)) /\
  ((forall t, ~ has_tag key t) -> keyHashSlot key (blen key) = Some (crc16_ref key mod CLUSTER_SLOTS)).
Proof.
  intros Hb. split.
  - intros t (a & b & -> & Ha & Ht & Hne).
    assert (is_bytes t) by (apply Forall_app in Hb as [_ [_ [? _]%Forall_app]%Forall_cons]; done).
    rewrite keyHashSlot_tag, bool_decide_false by done. by apply slot_of_spec.
  - intros Hno. rewrite <- (slot_of_spec key Hb).
    destruct (decide (123 ∈ key)) as [H1 | H1].
    2: { unfold keyHashSlot. rewrite (find_from_none 123 key _ []), bind_Some by (done || unfold blen; lia).
         cbn [app]. by rewrite Z.eqb_refl, bread_whole. }
    apply list_elem_of_split_l in H1 as (a & q & -> & Ha).
    destruct (decide (125 ∈ q)) as [H2 | H2].
    + apply list_elem_of_split_l in H2 as (t & b & -> & Ht).
      assert (is_bytes t) by (apply Forall_app in Hb as [_ [_ [? _]%Forall_app]%Forall_cons]; done).
      rewrite keyHashSlot_tag by done. destruct (decide (t = [])) as [-> | Hne].
      * by rewrite bool_decide_true, bread_whole.
      * destruct (Hno t). by exists a, b.
    + unfold keyHashSlot.
      pose proof (find_from_at 123 q a (S (Z.to_nat (blen (a ++ 123 :: q)))) [] Ha) as E1.
      cbn [app] in E1. rewrite blen_nil, Z.add_0_l in E1. rewrite E1, bind_Some by (unfold blen; rewrite length_app; lia).
      rewrite (proj2 (Z.eqb_neq _ _)) by (rewrite blen_app, blen_cons; pose proof (blen_nonneg q); lia).
      pose proof (find_from_none 125 q (S (Z.to_nat (blen (a ++ 123 :: q)))) (a ++ [123]) H2) as E2.
      rewrite <- app_assoc in E2. cbn [app] in E2. rewrite (blen_app a [123]) in E2. change (blen [123]) with 1 in E2.
      rewrite E2, bind_Some by (unfold blen; rewrite length_app; cbn; lia). by rewrite Z.eqb_refl, bread_whole.
Qed.

Lemma keyHashSlot_correct_witness :
  keyHashSlot (str "user{42}name") 12 = Some (crc16_ref (str "42") mod CLUSTER_SLOTS).
Proof.
  apply (proj1 (keyHashSlot_correct (str "user{42}name") ltac:(by repeat constructor)) (str "42")).
  exists (str "user"), (str "name"). split; [reflexivity|].
  split_and!; [apply (bool_decide_unpack _); reflexivity | apply (bool_decide_unpack _); reflexivity | discriminate].
Defined.

End ClusterSafety.
