(* ===== verification/Keyspace.v ===== *)
(** The keyspace of the server: databases, lookups with expiration on access,
    the commands on keys (db.c, expire.c), the commands on strings (t_string.c)
    and transactions (multi.c).

    A database has the dictionaries [dict] and [expires] as finite maps, which is
    what [Dict] shows the hash table to be. Reference counts and encodings of
    objects, statistics, notifications, client tracking, blocked clients and the
    propagation to replicas are left out; cluster mode is off. *)

From stdpp Require Import gmap.
From S2P Require Import Prelude Util.

Module Keyspace.
Import Util.

(** ** State *)

Inductive obj_type := OBJ_LIST | OBJ_SET | OBJ_ZSET | OBJ_HASH | OBJ_STREAM.
(** A string is its bytes, whatever its encoding; other values are opaque. *)
Inductive robj := OBJ_STRING (s : bytes) | OBJ_OTHER (t : obj_type) (v : Z).

Record redisDb := RedisDb {
  dict : gmap bytes robj;
  expires : gmap bytes Z;
  watched_keys : gmap bytes (list nat) }.

(** A command with its arguments *)
Inductive cmd :=
  | SET (key val : bytes) (opts : list bytes)
  | SETNX (key val : bytes)
  | SETEX (key seconds val : bytes)
  | PSETEX (key millis val : bytes)
  | GET (key : bytes)
  | GETEX (key : bytes) (opts : list bytes)
  | GETDEL (key : bytes)
  | GETSET (key val : bytes)
  | SETRANGE (key offset val : bytes)
  | GETRANGE (key start stop : bytes)
  | MGET (keys : list bytes)
  | MSET (kvs : list (bytes * bytes)) (nx : bool)
  | INCR (key : bytes)
  | DECR (key : bytes)
  | INCRBY (key incr : bytes)
  | DECRBY (key incr : bytes)
  | APPEND (key val : bytes)
  | STRLEN (key : bytes)
  | DEL (keys : list bytes)
  | EXISTS (keys : list bytes)
  | TOUCH (keys : list bytes)
  | SELECT (id : bytes)
  | DBSIZE
  | TYPE (key : bytes)
  | RENAME (key newkey : bytes) (nx : bool)
  | MOVE (key id : bytes)
  | COPY (key newkey : bytes) (opts : list bytes)
  | SWAPDB (id1 id2 : bytes)
  | FLUSHDB (opts : list bytes)
  | FLUSHALL (opts : list bytes)
  | EXPIRE (key time : bytes) (absolute ms : bool)
  | TTL (key : bytes) (ms : bool)
  | PERSIST (key : bytes)
  | MULTI
  | EXEC
  | DISCARD
  | WATCH (keys : list bytes)
  | UNWATCH
  | UNKNOWN.

Record client := Client {
  c_db : nat;
  c_multi : bool;
  c_dirty_cas : bool;
  c_dirty_exec : bool;
  c_watched : list (nat * bytes);
  c_queue : list cmd }.

Record server := Server { db : list redisDb; clients : gmap nat client }.

(** What a command sees of the rest of the server: the cached time, fixed while
    it runs, the clock, the configuration, and the largest allocation that
    succeeds. *)
Record env := Env {
  now : Z;
  mstime : Z;
  masterhost : bool;
  loading : bool;
  paused : bool;
  from_master : bool;
  proto_max_bulk_len : Z;
  max_alloc : Z }.

Inductive error :=
  | err_syntax | err_wrongtype | err_not_integer | err_out_of_range | err_expire | err_nokey | err_sameobject
  | err_overflow | err_db_index | err_invalid_db | err_string_size | err_offset
  | err_nested | err_without_multi | err_execabort | err_watch_in_multi | err_unknown.
Inductive reply :=
  | RInt (n : Z) | RBulk (s : bytes) | RNull | ROk | RQueued | RNullArray | RArray (rs : list reply)
  | RStatus (s : string) | RError (x : error).

(** ** Access to the parts *)

Definition set_db (s : server) (id : nat) (d : redisDb) : server := Server (<[id := d]> (db s)) (clients s).
Definition set_client (s : server) (c : nat) (x : client) : server := Server (db s) (<[c := x]> (clients s)).
Definition with_data (d : redisDb) (m : gmap bytes robj) (x : gmap bytes Z) : redisDb := RedisDb m x (watched_keys d).

(** ** multi.c: signalling *)

Definition mark_cas (x : client) : client :=
  Client (c_db x) (c_multi x) true (c_dirty_exec x) (c_watched x) (c_queue x).

Fixpoint mark_all (cs : list nat) (m : gmap nat client) : option (gmap nat client) :=
  match cs with
  | [] => Some m
  | c :: cs => x ← m !! c; mark_all cs (<[c := mark_cas x]> m)
  end.

Definition touchWatchedKey (s : server) (id : nat) (key : bytes) : option server :=
  d ← db s !! id;
  match watched_keys d !! key with
  | None => Some s
  | Some cs => m ← mark_all cs (clients s); Some (Server (db s) m)
  end.

(** The clients of the watched keys that are in [emptied] or in [replaced] *)
Fixpoint touch_keys (emptied replaced : gmap bytes robj) (ws : list (bytes * list nat)) (m : gmap nat client)
    : option (gmap nat client) :=
  match ws with
  | [] => Some m
  | (key, cs) :: ws =>
      m ← (if bool_decide (is_Some (emptied !! key)) || bool_decide (is_Some (replaced !! key))
           then mark_all cs m else Some m);
      touch_keys emptied replaced ws m
  end.
Definition touchAllWatchedKeysInDb (s : server) (id : nat) (replaced_with : option nat) : option server :=
  d ← db s !! id;
  r ← match replaced_with with Some id' => d' ← db s !! id'; Some (dict d') | None => Some ∅ end;
  m ← touch_keys (dict d) r (map_to_list (watched_keys d)) (clients s);
  Some (Server (db s) m).

Definition signalModifiedKey : server -> nat -> bytes -> option server := touchWatchedKey.

(** ** db.c: expiration and lookups *)

Definition getExpire (d : redisDb) (key : bytes) : option Z :=
  match expires d !! key with
  | None => Some (-1)
  | Some w => assert! bool_decide (is_Some (dict d !! key)); Some w
  end.

Definition keyIsExpired (e : env) (d : redisDb) (key : bytes) : option bool :=
  w ← getExpire d key;
  Some (if w <? 0 then false else if loading e then false else now e >? w).

(** [dbAsyncDelete] removes the same entries. *)
Definition dbSyncDelete (s : server) (id : nat) (key : bytes) : option (server * bool) :=
  d ← db s !! id;
  Some (set_db s id (with_data d (delete key (dict d)) (delete key (expires d))),
        bool_decide (is_Some (dict d !! key))).
Definition dbDelete := dbSyncDelete.

Definition expireIfNeeded (e : env) (s : server) (id : nat) (key : bytes) : option (server * bool) :=
  d ← db s !! id;
  x ← keyIsExpired e d key;
  if negb x then Some (s, false)
  else if masterhost e then Some (s, true)
  else if paused e then Some (s, true)
  else
    '(s, _) ← dbSyncDelete s id key;
    s ← signalModifiedKey s id key;
    Some (s, true).

Definition lookupKey (s : server) (id : nat) (key : bytes) : option (option robj) :=
  d ← db s !! id; Some (dict d !! key).

(** [ro] tells that the command of the client is flagged as read only. *)
Definition lookupKeyRead (e : env) (ro : bool) (s : server) (id : nat) (key : bytes) : option (server * option robj) :=
  '(s, expired) ← expireIfNeeded e s id key;
  if (expired : bool) && (negb (masterhost e) || negb (from_master e) && ro) then Some (s, None)
  else v ← lookupKey s id key; Some (s, v).
Definition lookupKeyWrite (e : env) (s : server) (id : nat) (key : bytes) : option (server * option robj) :=
  '(s, _) ← expireIfNeeded e s id key;
  v ← lookupKey s id key; Some (s, v).

(** ** db.c: changes *)

Definition dbAdd (s : server) (id : nat) (key : bytes) (val : robj) : option server :=
  d ← db s !! id;
  assert! negb (bool_decide (is_Some (dict d !! key)));
  Some (set_db s id (with_data d (<[key := val]> (dict d)) (expires d))).
Definition dbOverwrite (s : server) (id : nat) (key : bytes) (val : robj) : option server :=
  d ← db s !! id;
  assert! bool_decide (is_Some (dict d !! key));
  Some (set_db s id (with_data d (<[key := val]> (dict d)) (expires d))).

Definition removeExpire (s : server) (id : nat) (key : bytes) : option (server * bool) :=
  d ← db s !! id;
  assert! bool_decide (is_Some (dict d !! key));
  Some (set_db s id (with_data d (dict d) (delete key (expires d))), bool_decide (is_Some (expires d !! key))).
Definition setExpire (s : server) (id : nat) (key : bytes) (when : Z) : option server :=
  d ← db s !! id;
  assert! bool_decide (is_Some (dict d !! key));
  Some (set_db s id (with_data d (dict d) (<[key := when]> (expires d)))).
Definition getExpireIn (s : server) (id : nat) (key : bytes) : option Z := d ← db s !! id; getExpire d key.

Definition genericSetKey (e : env) (s : server) (id : nat) (key : bytes) (val : robj) (keepttl signal : bool)
    : option server :=
  '(s, old) ← lookupKeyWrite e s id key;
  s ← match old with None => dbAdd s id key val | Some _ => dbOverwrite s id key val end;
  s ← (if keepttl then Some s else '(s, _) ← removeExpire s id key; Some s);
  if signal then signalModifiedKey s id key else Some s.
Definition setKey (e : env) (s : server) (id : nat) (key : bytes) (val : robj) : option server :=
  genericSetKey e s id key val false true.

(** ** object.c: integers in arguments *)

Definition getLongLong (b : bytes) : option (option Z) := string2ll b (blen b).
Definition INT_MAX : Z := 2 ^ 31 - 1.
Definition INT_MIN : Z := - 2 ^ 31.
Definition getInt (b : bytes) : option (Z + error) :=
  v ← getLongLong b;
  Some (match v with
        | None => inr err_not_integer
        | Some v => if (v <? INT_MIN) || (v >? INT_MAX) then inr err_out_of_range else inl v
        end).

(** ** t_string.c *)

Definition OBJ_SET_NX : Z := Z.shiftl 1 0.
Definition OBJ_SET_XX : Z := Z.shiftl 1 1.
Definition OBJ_EX : Z := Z.shiftl 1 2.
Definition OBJ_PX : Z := Z.shiftl 1 3.
Definition OBJ_KEEPTTL : Z := Z.shiftl 1 4.
Definition OBJ_SET_GET : Z := Z.shiftl 1 5.
Definition OBJ_EXAT : Z := Z.shiftl 1 6.
Definition OBJ_PXAT : Z := Z.shiftl 1 7.
Definition OBJ_PERSIST : Z := Z.shiftl 1 8.

Definition flag (flags f : Z) : bool := negb (Z.land flags f =? 0).
(** None of the flags is set. *)
Definition clear (flags : Z) (fs : list Z) : bool := forallb (fun f => negb (flag flags f)) fs.

Definition lower (c : Z) : Z := if (65 <=? c) && (c <=? 90) then c + 32 else c.
(** [!strcasecmp(opt, name)] and the comparisons by character, with a name in
    lower case. An argument with a zero byte ends there. *)
Fixpoint c_str (b : bytes) : bytes :=
  match b with [] => [] | c :: b => if c =? 0 then [] else c :: c_str b end.
Definition is_opt (opt : bytes) (name : string) : bool := bool_decide (lower <$> c_str opt = str name).

(** The options of SET ([get = false]) and GETEX ([get = true]): flags, whether
    the unit is milliseconds, and the argument of the expire. *)
Fixpoint parseExtended (get : bool) (opts : list bytes) (flags : Z) (ms : bool) (expire : option bytes)
    : option (Z * bool * option bytes) :=
  match opts with
  | [] => Some (flags, ms, expire)
  | opt :: rest =>
      if is_opt opt "nx" && clear flags [OBJ_SET_XX; OBJ_SET_GET] && negb get
      then parseExtended get rest (Z.lor flags OBJ_SET_NX) ms expire
      else if is_opt opt "xx" && clear flags [OBJ_SET_NX] && negb get
      then parseExtended get rest (Z.lor flags OBJ_SET_XX) ms expire
      else if is_opt opt "get" && clear flags [OBJ_SET_NX] && negb get
      then parseExtended get rest (Z.lor flags OBJ_SET_GET) ms expire
      else if is_opt opt "keepttl" && clear flags [OBJ_PERSIST; OBJ_EX; OBJ_EXAT; OBJ_PX; OBJ_PXAT] && negb get
      then parseExtended get rest (Z.lor flags OBJ_KEEPTTL) ms expire
      else if is_opt opt "persist" && get && clear flags [OBJ_EX; OBJ_EXAT; OBJ_PX; OBJ_PXAT; OBJ_KEEPTTL]
      then parseExtended get rest (Z.lor flags OBJ_PERSIST) ms expire
      else
        match rest with
        | [] => None
        | next :: rest =>
            if is_opt opt "ex" && clear flags [OBJ_KEEPTTL; OBJ_PERSIST; OBJ_EXAT; OBJ_PX; OBJ_PXAT]
            then parseExtended get rest (Z.lor flags OBJ_EX) ms (Some next)
            else if is_opt opt "px" && clear flags [OBJ_KEEPTTL; OBJ_PERSIST; OBJ_EX; OBJ_EXAT; OBJ_PXAT]
            then parseExtended get rest (Z.lor flags OBJ_PX) true (Some next)
            else if is_opt opt "exat" && clear flags [OBJ_KEEPTTL; OBJ_PERSIST; OBJ_EX; OBJ_PX; OBJ_PXAT]
            then parseExtended get rest (Z.lor flags OBJ_EXAT) ms (Some next)
            else if is_opt opt "pxat" && clear flags [OBJ_KEEPTTL; OBJ_PERSIST; OBJ_EX; OBJ_EXAT; OBJ_PX]
            then parseExtended get rest (Z.lor flags OBJ_PXAT) true (Some next)
            else None
        end
  end.

(** The validation of an expire time: the argument in milliseconds and the time
    it stands for. *)
Definition expire_time (e : env) (flags : Z) (ms : bool) (expire : bytes) : option (Z * Z + error) :=
  v ← getLongLong expire;
  Some (match v with
        | None => inr err_not_integer
        | Some v =>
            if (v <=? 0) || (negb ms && (v >? LLONG_MAX / 1000)) then inr err_expire
            else
              let milliseconds := if ms then v else v * 1000 in
              let when := if flag flags OBJ_PX || flag flags OBJ_EX then sint 64 (milliseconds + mstime e)
                          else milliseconds in
              if when <=? 0 then inr err_expire else inl (milliseconds, when)
        end).

Definition wrong_type (o : option robj) : bool :=
  match o with Some (OBJ_OTHER _ _) => true | _ => false end.

(** [inl] is a reply for [C_OK], [inr] one for [C_ERR]. *)
Definition getGenericCommand (e : env) (ro : bool) (s : server) (id : nat) (key : bytes)
    : option (server * (reply + reply)) :=
  '(s, o) ← lookupKeyRead e ro s id key;
  Some (s, match o with
           | None => inl RNull
           | Some (OBJ_STRING v) => inl (RBulk v)
           | Some (OBJ_OTHER _ _) => inr (RError err_wrongtype)
           end).

Definition setGenericCommand (e : env) (s : server) (id : nat) (flags : Z) (key val : bytes) (expire : option bytes)
    (ms : bool) (ok_reply abort_reply : reply) : option (server * reply) :=
  w ← match expire with
      | None => Some (inl None)
      | Some x => r ← expire_time e flags ms x; Some (match r with inl (_, w) => inl (Some w) | inr x => inr x end)
      end;
  match w with
  | inr x => Some (s, RError x)
  | inl when =>
      '(s, abort) ← (if flag flags OBJ_SET_NX then '(s, o) ← lookupKeyWrite e s id key; Some (s, bool_decide (is_Some o))
                     else Some (s, false));
      '(s, abort) ← (if abort : bool then Some (s, true)
                     else if flag flags OBJ_SET_XX
                     then '(s, o) ← lookupKeyWrite e s id key; Some (s, negb (bool_decide (is_Some o)))
                     else Some (s, false));
      if abort : bool then Some (s, abort_reply)
      else
        '(s, got) ← (if flag flags OBJ_SET_GET then getGenericCommand e false s id key else Some (s, inl ok_reply));
        match got with
        | inr r => Some (s, r)
        | inl r =>
            s ← genericSetKey e s id key (OBJ_STRING val) (flag flags OBJ_KEEPTTL) true;
            s ← match when with Some w => setExpire s id key w | None => Some s end;
            Some (s, r)
        end
  end.

Definition setCommand (e : env) (s : server) (id : nat) (key val : bytes) (opts : list bytes) : option (server * reply) :=
  match parseExtended false opts 0 false None with
  | None => Some (s, RError err_syntax)
  | Some (flags, ms, expire) => setGenericCommand e s id flags key val expire ms ROk RNull
  end.

(** [when <= mstime() && !server.loading && !server.masterhost] *)
Definition checkAlreadyExpired (e : env) (when : Z) : bool :=
  (when <=? mstime e) && negb (loading e) && negb (masterhost e).

Definition getexCommand (e : env) (s : server) (id : nat) (key : bytes) (opts : list bytes) : option (server * reply) :=
  match parseExtended true opts 0 false None with
  | None => Some (s, RError err_syntax)
  | Some (flags, ms, expire) =>
      '(s, o) ← lookupKeyRead e false s id key;
      match o with
      | None => Some (s, RNull)
      | Some (OBJ_OTHER _ _) => Some (s, RError err_wrongtype)
      | Some (OBJ_STRING v) =>
          w ← match expire with
              | None => Some (inl None)
              | Some x => r ← expire_time e flags ms x; Some (match r with inl p => inl (Some p) | inr x => inr x end)
              end;
          match w with
          | inr x => Some (s, RError x)
          | inl w =>
              let milliseconds := match w with Some (m, _) => m | None => 0 end in
              if (flag flags OBJ_PXAT || flag flags OBJ_EXAT) && checkAlreadyExpired e milliseconds then
                '(s, deleted) ← dbSyncDelete s id key;
                assert! (deleted : bool);
                s ← signalModifiedKey s id key;
                Some (s, RBulk v)
              else
                match w with
                | Some (_, when) =>
                    s ← setExpire s id key when;
                    s ← signalModifiedKey s id key;
                    Some (s, RBulk v)
                | None =>
                    if flag flags OBJ_PERSIST then
                      '(s, removed) ← removeExpire s id key;
                      s ← (if removed : bool then signalModifiedKey s id key else Some s);
                      Some (s, RBulk v)
                    else Some (s, RBulk v)
                end
          end
      end
  end.

Definition getdelCommand (e : env) (s : server) (id : nat) (key : bytes) : option (server * reply) :=
  '(s, r) ← getGenericCommand e false s id key;
  match r with
  | inr r => Some (s, r)
  | inl r =>
      '(s, deleted) ← dbSyncDelete s id key;
      s ← (if deleted : bool then signalModifiedKey s id key else Some s);
      Some (s, r)
  end.

Definition getsetCommand (e : env) (s : server) (id : nat) (key val : bytes) : option (server * reply) :=
  '(s, r) ← getGenericCommand e false s id key;
  match r with
  | inr r => Some (s, r)
  | inl r => s ← setKey e s id key (OBJ_STRING val); Some (s, r)
  end.

(** The check is on the size as a signed number. *)
Definition checkStringLength (e : env) (size : Z) : bool := from_master e || (sint 64 size <=? proto_max_bulk_len e).

(** [sdsgrowzero] and the copy; the size is that of [size_t], and an allocation
    that fails ends the server. *)
Definition write_range (e : env) (v : bytes) (offset : Z) (value : bytes) : option bytes :=
  let len := uint 64 (offset + blen value) in
  assert! len <=? max_alloc e;
  let v := v ++ replicate (Z.to_nat (len - blen v)) 0 in
  Some (take (Z.to_nat offset) v ++ value ++ drop (Z.to_nat offset + length value) v).

Definition setrangeCommand (e : env) (s : server) (id : nat) (key offset value : bytes) : option (server * reply) :=
  o ← getLongLong offset;
  match o with
  | None => Some (s, RError err_not_integer)
  | Some offset =>
      if offset <? 0 then Some (s, RError err_offset)
      else
        '(s, o) ← lookupKeyWrite e s id key;
        match o with
        | None =>
            if blen value =? 0 then Some (s, RInt 0)
            else if negb (checkStringLength e (offset + blen value)) then Some (s, RError err_string_size)
            else
              v ← write_range e [] offset value;
              s ← dbAdd s id key (OBJ_STRING v);
              s ← signalModifiedKey s id key;
              Some (s, RInt (blen v))
        | Some (OBJ_OTHER _ _) => Some (s, RError err_wrongtype)
        | Some (OBJ_STRING old) =>
            if blen value =? 0 then Some (s, RInt (blen old))
            else if negb (checkStringLength e (offset + blen value)) then Some (s, RError err_string_size)
            else
              v ← write_range e old offset value;
              s ← dbOverwrite s id key (OBJ_STRING v);
              s ← signalModifiedKey s id key;
              Some (s, RInt (blen v))
        end
  end.

Definition getrangeCommand (e : env) (s : server) (id : nat) (key start stop : bytes) : option (server * reply) :=
  a ← getLongLong start;
  match a with
  | None => Some (s, RError err_not_integer)
  | Some start =>
      b ← getLongLong stop;
      match b with
      | None => Some (s, RError err_not_integer)
      | Some stop =>
          '(s, o) ← lookupKeyRead e true s id key;
          match o with
          | None => Some (s, RBulk [])
          | Some (OBJ_OTHER _ _) => Some (s, RError err_wrongtype)
          | Some (OBJ_STRING v) =>
              let len := blen v in
              if (start <? 0) && (stop <? 0) && (start >? stop) then Some (s, RBulk [])
              else
                let start := if start <? 0 then sint 64 (len + start) else start in
                let stop := if stop <? 0 then sint 64 (len + stop) else stop in
                let start := if start <? 0 then 0 else start in
                let stop := if stop <? 0 then 0 else stop in
                let stop := if uint 64 stop >=? len then sint 64 (len - 1) else stop in
                if (start >? stop) || (len =? 0) then Some (s, RBulk [])
                else r ← bread v start (stop - start + 1); Some (s, RBulk r)
          end
      end
  end.

Fixpoint mgetCommand (e : env) (s : server) (id : nat) (keys : list bytes) : option (server * list reply) :=
  match keys with
  | [] => Some (s, [])
  | key :: keys =>
      '(s, o) ← lookupKeyRead e true s id key;
      '(s, rs) ← mgetCommand e s id keys;
      Some (s, match o with Some (OBJ_STRING v) => RBulk v | _ => RNull end :: rs)
  end.

(** Whether one of the keys exists *)
Fixpoint any_exists (e : env) (s : server) (id : nat) (keys : list bytes) : option (server * bool) :=
  match keys with
  | [] => Some (s, false)
  | key :: keys =>
      '(s, o) ← lookupKeyWrite e s id key;
      match o with Some _ => Some (s, true) | None => any_exists e s id keys end
  end.
Fixpoint set_all (e : env) (s : server) (id : nat) (kvs : list (bytes * bytes)) : option server :=
  match kvs with
  | [] => Some s
  | (key, val) :: kvs => s ← setKey e s id key (OBJ_STRING val); set_all e s id kvs
  end.
Definition msetGenericCommand (e : env) (s : server) (id : nat) (kvs : list (bytes * bytes)) (nx : bool)
    : option (server * reply) :=
  '(s, found) ← (if nx then any_exists e s id kvs.*1 else Some (s, false));
  if found : bool then Some (s, RInt 0)
  else s ← set_all e s id kvs; Some (s, if nx then RInt 1 else ROk).

(** [createStringObjectFromLongLongForValue]: the digits *)
Definition ll_bytes (v : Z) : option bytes :=
  '(b, n) ← ll2string (replicate 21 0) 21 v; Some (take (Z.to_nat n) b).

Definition incrDecrCommand (e : env) (s : server) (id : nat) (key : bytes) (incr : Z) : option (server * reply) :=
  '(s, o) ← lookupKeyWrite e s id key;
  if wrong_type o then Some (s, RError err_wrongtype)
  else
    v ← match o with Some (OBJ_STRING v) => getLongLong v | _ => Some (Some 0) end;
    match v with
    | None => Some (s, RError err_not_integer)
    | Some oldvalue =>
        if ((incr <? 0) && (oldvalue <? 0) && (incr <? LLONG_MIN - oldvalue))
           || ((incr >? 0) && (oldvalue >? 0) && (incr >? LLONG_MAX - oldvalue))
        then Some (s, RError err_overflow)
        else
          let value := oldvalue + incr in
          b ← ll_bytes value;
          s ← match o with
              | Some _ => dbOverwrite s id key (OBJ_STRING b)
              | None => dbAdd s id key (OBJ_STRING b)
              end;
          s ← signalModifiedKey s id key;
          Some (s, RInt value)
    end.
Definition incrbyCommand (e : env) (s : server) (id : nat) (key incr : bytes) : option (server * reply) :=
  i ← getLongLong incr;
  match i with None => Some (s, RError err_not_integer) | Some i => incrDecrCommand e s id key i end.
(** The negation of the smallest number is that number. *)
Definition decrbyCommand (e : env) (s : server) (id : nat) (key incr : bytes) : option (server * reply) :=
  i ← getLongLong incr;
  match i with None => Some (s, RError err_not_integer) | Some i => incrDecrCommand e s id key (sint 64 (- i)) end.

Definition appendCommand (e : env) (s : server) (id : nat) (key val : bytes) : option (server * reply) :=
  '(s, o) ← lookupKeyWrite e s id key;
  match o with
  | None =>
      s ← dbAdd s id key (OBJ_STRING val);
      s ← signalModifiedKey s id key;
      Some (s, RInt (blen val))
  | Some (OBJ_OTHER _ _) => Some (s, RError err_wrongtype)
  | Some (OBJ_STRING v) =>
      if negb (checkStringLength e (blen v + blen val)) then Some (s, RError err_string_size)
      else
        s ← dbOverwrite s id key (OBJ_STRING (v ++ val));
        s ← signalModifiedKey s id key;
        Some (s, RInt (blen (v ++ val)))
  end.

Definition strlenCommand (e : env) (s : server) (id : nat) (key : bytes) : option (server * reply) :=
  '(s, o) ← lookupKeyRead e true s id key;
  Some (s, match o with
           | None => RInt 0
           | Some (OBJ_STRING v) => RInt (blen v)
           | Some (OBJ_OTHER _ _) => RError err_wrongtype
           end).

(** ** db.c: commands on keys *)

Fixpoint delGenericCommand (e : env) (s : server) (id : nat) (keys : list bytes) (numdel : Z) : option (server * reply) :=
  match keys with
  | [] => Some (s, RInt numdel)
  | key :: keys =>
      '(s, _) ← expireIfNeeded e s id key;
      '(s, deleted) ← dbSyncDelete s id key;
      if deleted : bool then s ← signalModifiedKey s id key; delGenericCommand e s id keys (numdel + 1)
      else delGenericCommand e s id keys numdel
  end.

(** EXISTS and TOUCH *)
Fixpoint existsCommand (e : env) (s : server) (id : nat) (keys : list bytes) (count : Z) : option (server * reply) :=
  match keys with
  | [] => Some (s, RInt count)
  | key :: keys =>
      '(s, o) ← lookupKeyRead e true s id key;
      existsCommand e s id keys (match o with Some _ => count + 1 | None => count end)
  end.

Definition dbnum (s : server) : Z := Z.of_nat (length (db s)).
Definition valid_db (s : server) (id : Z) : bool := (0 <=? id) && (id <? dbnum s).

Definition set_c_db (x : client) (id : nat) : client :=
  Client id (c_multi x) (c_dirty_cas x) (c_dirty_exec x) (c_watched x) (c_queue x).
Definition selectCommand (s : server) (c : nat) (arg : bytes) : option (server * reply) :=
  i ← getInt arg;
  match i with
  | inr x => Some (s, RError x)
  | inl id =>
      if negb (valid_db s id) then Some (s, RError err_db_index)
      else x ← clients s !! c; Some (set_client s c (set_c_db x (Z.to_nat id)), ROk)
  end.

Definition dbsizeCommand (s : server) (id : nat) : option (server * reply) :=
  d ← db s !! id; Some (s, RInt (Z.of_nat (size (dict d)))).

Definition getObjectTypeName (o : option robj) : string :=
  match o with
  | None => "none"
  | Some (OBJ_STRING _) => "string"
  | Some (OBJ_OTHER OBJ_LIST _) => "list"
  | Some (OBJ_OTHER OBJ_SET _) => "set"
  | Some (OBJ_OTHER OBJ_ZSET _) => "zset"
  | Some (OBJ_OTHER OBJ_HASH _) => "hash"
  | Some (OBJ_OTHER OBJ_STREAM _) => "stream"
  end.
Definition typeCommand (e : env) (s : server) (id : nat) (key : bytes) : option (server * reply) :=
  '(s, o) ← lookupKeyRead e true s id key; Some (s, RStatus (getObjectTypeName o)).

Definition renameGenericCommand (e : env) (s : server) (id : nat) (key newkey : bytes) (nx : bool)
    : option (server * reply) :=
  '(s, o) ← lookupKeyWrite e s id key;
  match o with
  | None => Some (s, RError err_nokey)
  | Some o =>
      if bool_decide (key = newkey) then Some (s, if nx then RInt 0 else ROk)
      else
        expire ← getExpireIn s id key;
        '(s, old) ← lookupKeyWrite e s id newkey;
        if bool_decide (is_Some old) && nx then Some (s, RInt 0)
        else
          s ← match old with Some _ => '(s, _) ← dbDelete s id newkey; Some s | None => Some s end;
          s ← dbAdd s id newkey o;
          s ← (if negb (expire =? -1) then setExpire s id newkey expire else Some s);
          '(s, _) ← dbDelete s id key;
          s ← signalModifiedKey s id key;
          s ← signalModifiedKey s id newkey;
          Some (s, if nx then RInt 1 else ROk)
  end.

Definition moveCommand (e : env) (s : server) (src : nat) (key arg : bytes) : option (server * reply) :=
  i ← getInt arg;
  match i with
  | inr x => Some (s, RError x)
  | inl id =>
      if negb (valid_db s id) then Some (s, RError err_db_index)
      else
        let dst := Z.to_nat id in
        if bool_decide (src = dst) then Some (s, RError err_sameobject)
        else
          '(s, o) ← lookupKeyWrite e s src key;
          match o with
          | None => Some (s, RInt 0)
          | Some o =>
              expire ← getExpireIn s src key;
              '(s, old) ← lookupKeyWrite e s dst key;
              if bool_decide (is_Some old) then Some (s, RInt 0)
              else
                s ← dbAdd s dst key o;
                s ← (if negb (expire =? -1) then setExpire s dst key expire else Some s);
                '(s, _) ← dbDelete s src key;
                s ← signalModifiedKey s src key;
                s ← signalModifiedKey s dst key;
                Some (s, RInt 1)
          end
  end.

(** The options of COPY: the target database and whether to replace *)
Fixpoint copy_options (s : server) (opts : list bytes) (dst : nat) (replace : bool) : option (nat * bool + error) :=
  match opts with
  | [] => Some (inl (dst, replace))
  | opt :: rest =>
      if is_opt opt "replace" then copy_options s rest dst true
      else if is_opt opt "db" then
        match rest with
        | [] => Some (inr err_syntax)
        | arg :: rest =>
            i ← getInt arg;
            match i with
            | inr x => Some (inr x)
            | inl id => if negb (valid_db s id) then Some (inr err_db_index)
                        else copy_options s rest (Z.to_nat id) replace
            end
        end
      else Some (inr err_syntax)
  end.

Definition copyCommand (e : env) (s : server) (src : nat) (key newkey : bytes) (opts : list bytes)
    : option (server * reply) :=
  o ← copy_options s opts src false;
  match o with
  | inr x => Some (s, RError x)
  | inl (dst, replace) =>
      if bool_decide (src = dst) && bool_decide (key = newkey) then Some (s, RError err_sameobject)
      else
        '(s, o) ← lookupKeyWrite e s src key;
        match o with
        | None => Some (s, RInt 0)
        | Some o =>
            expire ← getExpireIn s src key;
            '(s, old) ← lookupKeyWrite e s dst newkey;
            if bool_decide (is_Some old) && negb replace then Some (s, RInt 0)
            else
              s ← match old with Some _ => '(s, _) ← dbDelete s dst newkey; Some s | None => Some s end;
              s ← dbAdd s dst newkey o;
              s ← (if negb (expire =? -1) then setExpire s dst newkey expire else Some s);
              s ← signalModifiedKey s dst newkey;
              Some (s, RInt 1)
        end
  end.

Definition dbSwapDatabases (s : server) (id1 id2 : Z) : option (option server) :=
  if negb (valid_db s id1 && valid_db s id2) then Some None
  else if id1 =? id2 then Some (Some s)
  else
    let i := Z.to_nat id1 in
    let j := Z.to_nat id2 in
    d1 ← db s !! i;
    d2 ← db s !! j;
    let s := set_db (set_db s i (with_data d1 (dict d2) (expires d2))) j (with_data d2 (dict d1) (expires d1)) in
    s ← touchAllWatchedKeysInDb s i (Some j);
    s ← touchAllWatchedKeysInDb s j (Some i);
    Some (Some s).
Definition swapdbCommand (s : server) (a b : bytes) : option (server * reply) :=
  i ← getInt a;
  match i with
  | inr _ => Some (s, RError err_invalid_db)
  | inl id1 =>
      j ← getInt b;
      match j with
      | inr _ => Some (s, RError err_invalid_db)
      | inl id2 =>
          r ← dbSwapDatabases s id1 id2;
          Some (match r with None => (s, RError err_db_index) | Some s' => (s', ROk) end)
      end
  end.

(** [emptyDb] of the databases listed: the watched keys are touched while the
    keys are there. *)
Fixpoint signalFlushedDb (s : server) (ids : list nat) : option server :=
  match ids with
  | [] => Some s
  | id :: ids => s ← touchAllWatchedKeysInDb s id None; signalFlushedDb s ids
  end.
Fixpoint emptyDbStructure (s : server) (ids : list nat) : option server :=
  match ids with
  | [] => Some s
  | id :: ids => d ← db s !! id; emptyDbStructure (set_db s id (with_data d ∅ ∅)) ids
  end.
Definition emptyDb (s : server) (ids : list nat) : option server :=
  s ← signalFlushedDb s ids; emptyDbStructure s ids.
Definition flush_flags (opts : list bytes) : bool :=
  match opts with [] => true | [o] => is_opt o "sync" || is_opt o "async" | _ => false end.
Definition flushdbCommand (s : server) (id : nat) (opts : list bytes) : option (server * reply) :=
  if negb (flush_flags opts) then Some (s, RError err_syntax)
  else s ← emptyDb s [id]; Some (s, ROk).
Definition flushallCommand (s : server) (opts : list bytes) : option (server * reply) :=
  if negb (flush_flags opts) then Some (s, RError err_syntax)
  else s ← emptyDb s (seq 0 (length (db s))); Some (s, ROk).

(** ** expire.c *)

(** The arithmetic of [expireGenericCommand] *)
Definition expire_when (v basetime : Z) (ms : bool) : option Z :=
  let negative_when := v <? 0 in
  let when := if ms then v else sint 64 (v * 1000) in
  let when := sint 64 (when + basetime) in
  if ((when <? 0) && negb negative_when) || ((sint 64 (when - basetime) >? 0) && negative_when)
  then None else Some when.

Definition expireGenericCommand (e : env) (s : server) (id : nat) (key param : bytes) (basetime : Z) (ms : bool)
    : option (server * reply) :=
  v ← getLongLong param;
  match v with
  | None => Some (s, RError err_not_integer)
  | Some v =>
      match expire_when v basetime ms with
      | None => Some (s, RError err_expire)
      | Some when =>
          '(s, o) ← lookupKeyWrite e s id key;
          match o with
          | None => Some (s, RInt 0)
          | Some _ =>
              if checkAlreadyExpired e when then
                '(s, deleted) ← dbSyncDelete s id key;
                assert! (deleted : bool);
                s ← signalModifiedKey s id key;
                Some (s, RInt 1)
              else
                s ← setExpire s id key when;
                s ← signalModifiedKey s id key;
                Some (s, RInt 1)
          end
      end
  end.

Definition ttlGenericCommand (e : env) (s : server) (id : nat) (key : bytes) (output_ms : bool) : option (server * reply) :=
  '(s, o) ← lookupKeyRead e true s id key;
  match o with
  | None => Some (s, RInt (-2))
  | Some _ =>
      expire ← getExpireIn s id key;
      let ttl := if negb (expire =? -1)
                 then let ttl := sint 64 (expire - mstime e) in if ttl <? 0 then 0 else ttl
                 else -1 in
      Some (s, RInt (if ttl =? -1 then -1 else if output_ms then ttl else Z.quot (sint 64 (ttl + 500)) 1000))
  end.

Definition persistCommand (e : env) (s : server) (id : nat) (key : bytes) : option (server * reply) :=
  '(s, o) ← lookupKeyWrite e s id key;
  match o with
  | None => Some (s, RInt 0)
  | Some _ =>
      '(s, removed) ← removeExpire s id key;
      if removed : bool then s ← signalModifiedKey s id key; Some (s, RInt 1)
      else Some (s, RInt 0)
  end.

(** The active cycle on one entry of [expires] *)
Definition activeExpireCycleTryExpire (e : env) (s : server) (id : nat) (key : bytes) : option (server * bool) :=
  d ← db s !! id;
  t ← expires d !! key;
  if mstime e >? t then
    '(s, _) ← dbSyncDelete s id key;
    s ← signalModifiedKey s id key;
    Some (s, true)
  else Some (s, false).

(** ** multi.c: transactions *)

Definition set_watched (x : client) (ws : list (nat * bytes)) : client :=
  Client (c_db x) (c_multi x) (c_dirty_cas x) (c_dirty_exec x) ws (c_queue x).
Definition with_watched (d : redisDb) (w : gmap bytes (list nat)) : redisDb := RedisDb (dict d) (expires d) w.

Definition watchForKey (s : server) (c : nat) (key : bytes) : option server :=
  x ← clients s !! c;
  let id := c_db x in
  if bool_decide ((id, key) ∈ c_watched x) then Some s
  else
    d ← db s !! id;
    let cs := default [] (watched_keys d !! key) in
    let s := set_db s id (with_watched d (<[key := cs ++ [c]]> (watched_keys d))) in
    Some (set_client s c (set_watched x (c_watched x ++ [(id, key)]))).
Fixpoint watch_keys (s : server) (c : nat) (keys : list bytes) : option server :=
  match keys with [] => Some s | key :: keys => s ← watchForKey s c key; watch_keys s c keys end.

(** [listDelNode(clients, listSearchKey(clients, c))] *)
Fixpoint del_first (c : nat) (cs : list nat) : list nat :=
  match cs with [] => [] | x :: cs => if Nat.eqb x c then cs else x :: del_first c cs end.

Fixpoint unwatch_loop (s : server) (c : nat) (ws : list (nat * bytes)) : option server :=
  match ws with
  | [] => Some s
  | (id, key) :: ws =>
      d ← db s !! id;
      cs ← watched_keys d !! key;
      let w := match del_first c cs with [] => delete key (watched_keys d) | cs => <[key := cs]> (watched_keys d) end in
      unwatch_loop (set_db s id (with_watched d w)) c ws
  end.
Definition unwatchAllKeys (s : server) (c : nat) : option server :=
  x ← clients s !! c;
  s ← unwatch_loop s c (c_watched x);
  Some (set_client s c (set_watched x [])).

Definition discardTransaction (s : server) (c : nat) : option server :=
  x ← clients s !! c;
  unwatchAllKeys (set_client s c (Client (c_db x) false false false (c_watched x) [])) c.

Definition flagTransaction (s : server) (c : nat) : option server :=
  x ← clients s !! c;
  Some (if c_multi x then set_client s c (Client (c_db x) true (c_dirty_cas x) true (c_watched x) (c_queue x)) else s).

Definition queueMultiCommand (s : server) (c : nat) (k : cmd) : option server :=
  x ← clients s !! c;
  if c_dirty_exec x then Some s
  else Some (set_client s c (Client (c_db x) (c_multi x) (c_dirty_cas x) (c_dirty_exec x) (c_watched x) (c_queue x ++ [k]))).

Definition multiCommand (s : server) (c : nat) : option (server * reply) :=
  x ← clients s !! c;
  if c_multi x then Some (s, RError err_nested)
  else Some (set_client s c (Client (c_db x) true (c_dirty_cas x) (c_dirty_exec x) (c_watched x) (c_queue x)), ROk).

Definition discardCommand (s : server) (c : nat) : option (server * reply) :=
  x ← clients s !! c;
  if negb (c_multi x) then Some (s, RError err_without_multi)
  else s ← discardTransaction s c; Some (s, ROk).

Definition watchCommand (s : server) (c : nat) (keys : list bytes) : option (server * reply) :=
  x ← clients s !! c;
  if c_multi x then Some (s, RError err_watch_in_multi)
  else s ← watch_keys s c keys; Some (s, ROk).

Definition unwatchCommand (s : server) (c : nat) : option (server * reply) :=
  s ← unwatchAllKeys s c;
  x ← clients s !! c;
  Some (set_client s c (Client (c_db x) (c_multi x) false (c_dirty_exec x) (c_watched x) (c_queue x)), ROk).

(** A command on the data of the database [id] *)
Definition data_command (e : env) (s : server) (id : nat) (k : cmd) : option (server * reply) :=
  match k with
  | SET key val opts => setCommand e s id key val opts
  | SETNX key val => setGenericCommand e s id OBJ_SET_NX key val None false (RInt 1) (RInt 0)
  | SETEX key secs val => setGenericCommand e s id OBJ_EX key val (Some secs) false ROk RNull
  | PSETEX key millis val => setGenericCommand e s id OBJ_PX key val (Some millis) true ROk RNull
  | GET key => '(s, r) ← getGenericCommand e true s id key; Some (s, match r with inl r | inr r => r end)
  | GETEX key opts => getexCommand e s id key opts
  | GETDEL key => getdelCommand e s id key
  | GETSET key val => getsetCommand e s id key val
  | SETRANGE key off val => setrangeCommand e s id key off val
  | GETRANGE key a b => getrangeCommand e s id key a b
  | MGET keys => '(s, rs) ← mgetCommand e s id keys; Some (s, RArray rs)
  | MSET kvs nx => msetGenericCommand e s id kvs nx
  | INCR key => incrDecrCommand e s id key 1
  | DECR key => incrDecrCommand e s id key (-1)
  | INCRBY key incr => incrbyCommand e s id key incr
  | DECRBY key incr => decrbyCommand e s id key incr
  | APPEND key val => appendCommand e s id key val
  | STRLEN key => strlenCommand e s id key
  | DEL keys => delGenericCommand e s id keys 0
  | EXISTS keys | TOUCH keys => existsCommand e s id keys 0
  | DBSIZE => dbsizeCommand s id
  | TYPE key => typeCommand e s id key
  | RENAME key newkey nx => renameGenericCommand e s id key newkey nx
  | MOVE key arg => moveCommand e s id key arg
  | COPY key newkey opts => copyCommand e s id key newkey opts
  | SWAPDB a b => swapdbCommand s a b
  | FLUSHDB opts => flushdbCommand s id opts
  | FLUSHALL opts => flushallCommand s opts
  | EXPIRE key time abs ms => expireGenericCommand e s id key time (if abs then 0 else mstime e) ms
  | TTL key ms => ttlGenericCommand e s id key ms
  | PERSIST key => persistCommand e s id key
  | _ => None
  end.

(** Every command but EXEC *)
Definition run (e : env) (s : server) (c : nat) (k : cmd) : option (server * reply) :=
  x ← clients s !! c;
  match k with
  | SELECT arg => selectCommand s c arg
  | MULTI => multiCommand s c
  | DISCARD => discardCommand s c
  | WATCH keys => watchCommand s c keys
  | UNWATCH => unwatchCommand s c
  | _ => data_command e s (c_db x) k
  end.

(** The queued commands; [clk] is what each of them sees. *)
Fixpoint exec_loop (clk : nat -> env) (s : server) (c : nat) (j : nat) (ks : list cmd) : option (server * list reply) :=
  match ks with
  | [] => Some (s, [])
  | k :: ks =>
      '(s, r) ← run (clk j) s c k;
      '(s, rs) ← exec_loop clk s c (S j) ks;
      Some (s, r :: rs)
  end.
Definition execCommand (clk : nat -> env) (s : server) (c : nat) : option (server * reply) :=
  x ← clients s !! c;
  if negb (c_multi x) then Some (s, RError err_without_multi)
  else if c_dirty_cas x || c_dirty_exec x then
    s ← discardTransaction s c;
    Some (s, if c_dirty_exec x then RError err_execabort else RNullArray)
  else
    s ← unwatchAllKeys s c;
    '(s, rs) ← exec_loop clk s c 1 (c_queue x);
    s ← discardTransaction s c;
    Some (s, RArray rs).

(** The commands that are not queued inside MULTI *)
Definition immediate (k : cmd) : bool :=
  match k with EXEC | DISCARD | MULTI | WATCH _ => true | _ => false end.

Definition processCommand (clk : nat -> env) (s : server) (c : nat) (k : cmd) : option (server * reply) :=
  x ← clients s !! c;
  match k with
  | UNKNOWN => s ← flagTransaction s c; Some (s, RError err_unknown)
  | _ =>
      if c_multi x && negb (immediate k) then s ← queueMultiCommand s c k; Some (s, RQueued)
      else match k with EXEC => execCommand clk s c | _ => run (clk 0%nat) s c k end
  end.

(** ** The server: clients come and go, commands and the active cycle run *)

Definition createClient (s : server) (c : nat) : option server :=
  match clients s !! c with
  | Some _ => None
  | None => Some (set_client s c (Client 0 false false false [] []))
  end.
Definition freeClient (s : server) (c : nat) : option server :=
  s ← unwatchAllKeys s c; Some (Server (db s) (delete c (clients s))).

Inductive event :=
  | Connect (c : nat)
  | Disconnect (c : nat)
  | Command (c : nat) (k : cmd) (clk : nat -> env)
  | Cycle (e : env) (id : nat) (key : bytes).

Definition step (s : server) (ev : event) : option (server * option reply) :=
  match ev with
  | Connect c => s ← createClient s c; Some (s, None)
  | Disconnect c => s ← freeClient s c; Some (s, None)
  | Command c k clk => '(s, r) ← processCommand clk s c k; Some (s, Some r)
  | Cycle e id key => '(s, _) ← activeExpireCycleTryExpire e s id key; Some (s, None)
  end.

Definition initServer (n : nat) : server := Server (replicate n (RedisDb ∅ ∅ ∅)) ∅.

End Keyspace.
