(* ===== verification/KeyspaceInv.v ===== *)
(** The invariant of the keyspace, operation by operation.

    The databases are seen through [entry], a value with its deadline under a
    database and a key. Each primitive edits one entry; a command leaves no entry
    changed without having told the clients that watch it. *)

From stdpp Require Import gmap.
From S2P Require Import Prelude Util Keyspace.

Module KeyspaceInv.
Import Util Keyspace.

(** ** Entries *)

Definition entry (s : server) (id : nat) (key : bytes) : option (robj * option Z) :=
  d ← db s !! id; o ← dict d !! key; Some (o, expires d !! key).

(** A deadline is the deadline of a key. *)
Definition db_ok (d : redisDb) : Prop := forall key, is_Some (expires d !! key) -> is_Some (dict d !! key).
Definition data_ok (s : server) : Prop := forall id d, db s !! id = Some d -> db_ok d.

(** [s'] is [s] with the entry under [id] and [key] replaced. *)
Record edit (s : server) (id : nat) (key : bytes) (v : option (robj * option Z)) (s' : server) : Prop := {
  ed_clients : clients s' = clients s;
  ed_watched : watched_keys <$> db s' = watched_keys <$> db s;
  ed_ok : data_ok s';
  ed_entry id' key' : entry s' id' key' = if decide (id' = id /\ key' = key) then v else entry s id' key';
}.

Lemma set_db_edit s id d m x key v :
  data_ok s -> db s !! id = Some d -> db_ok (with_data d m x) ->
  (forall k, k <> key -> m !! k = dict d !! k /\ x !! k = expires d !! k) ->
  (o ← m !! key; Some (o, x !! key)) = v ->
  edit s id key v (set_db s id (with_data d m x)).
Proof.
  intros Hok Hd Hok' Hk Hv. pose proof (lookup_lt_Some _ _ _ Hd) as Hlt. split; [done| | |].
  - cbn. rewrite list_fmap_insert. apply list_insert_id. by rewrite list_lookup_fmap, Hd.
  - intros i d'. cbn. destruct (decide (i = id)) as [->|Hne].
    + rewrite list_lookup_insert_eq by done. by intros [= <-].
    + rewrite list_lookup_insert_ne by done. apply Hok.
  - intros i k. unfold entry. cbn. destruct (decide (i = id)) as [->|Hne].
    + rewrite list_lookup_insert_eq, Hd by done. cbn. case_decide as Hc.
      * destruct Hc as [_ ->]. exact Hv.
      * destruct (Hk k) as [-> ->]; [tauto|done].
    + rewrite list_lookup_insert_ne by done. case_decide; [tauto|done].
Qed.

Lemma entry_db s id d key : db s !! id = Some d -> entry s id key = (o ← dict d !! key; Some (o, expires d !! key)).
Proof. unfold entry. by intros ->. Qed.
Lemma entry_None_dict s id d key : data_ok s -> db s !! id = Some d -> entry s id key = None ->
  dict d !! key = None /\ expires d !! key = None.
Proof.
  intros Hok Hd. rewrite (entry_db s id d) by done. destruct (dict d !! key) eqn:E; [done|]. intros _. split; [done|].
  destruct (expires d !! key) eqn:Ex; [|done]. destruct (Hok id d Hd key); [eauto|congruence].
Qed.
Lemma entry_Some_dict s id d key o x : db s !! id = Some d -> entry s id key = Some (o, x) ->
  dict d !! key = Some o /\ expires d !! key = x.
Proof. intros Hd. rewrite (entry_db s id d) by done. destruct (dict d !! key); [|done]. by intros [= -> ->]. Qed.

Lemma is_Some_true {A} (x : A) : bool_decide (is_Some (Some x)) = true.
Proof. done. Qed.

(** ** The primitives *)

Section Prims.
Context (s : server) (id : nat) (d : redisDb) (key : bytes).
Context (Hok : data_ok s) (Hd : db s !! id = Some d).

Lemma db_ok_self : db_ok d.
Proof. by apply (Hok id). Qed.

Lemma dbSyncDelete_edit : exists s', dbSyncDelete s id key = Some (s', bool_decide (is_Some (entry s id key))) /\
  edit s id key None s'.
Proof.
  unfold dbSyncDelete. rewrite Hd. cbn. eexists. split.
  - do 2 f_equal. rewrite (entry_db s id d) by done. by destruct (dict d !! key).
  - apply set_db_edit; [done..| | |].
    + intros k. cbn. destruct (decide (k = key)) as [->|]; [rewrite !lookup_delete_eq; by intros []|].
      rewrite !lookup_delete_ne by done. apply db_ok_self.
    + intros k Hne. by rewrite !lookup_delete_ne.
    + by rewrite !lookup_delete_eq.
Qed.

Lemma dbAdd_edit val : entry s id key = None -> exists s', dbAdd s id key val = Some s' /\ edit s id key (Some (val, None)) s'.
Proof.
  intros He. destruct (entry_None_dict s id d key Hok Hd He) as [E1 E2]. unfold dbAdd. rewrite Hd. cbn. rewrite E1. cbn.
  eexists. split; [done|]. apply set_db_edit; [done..| | |].
  - intros k Hk. cbn in *. destruct (decide (k = key)) as [->|]; [by rewrite lookup_insert_eq|].
    rewrite lookup_insert_ne by done. by apply db_ok_self.
  - intros k Hne. by rewrite lookup_insert_ne.
  - rewrite lookup_insert_eq, E2. done.
Qed.

Section Present.
Context (o : robj) (x : option Z) (He : entry s id key = Some (o, x)).

Lemma dbOverwrite_edit val : exists s', dbOverwrite s id key val = Some s' /\ edit s id key (Some (val, x)) s'.
Proof.
  destruct (entry_Some_dict s id d key o x Hd He) as [E1 E2]. unfold dbOverwrite. rewrite Hd. cbn. rewrite E1. cbn.
  eexists. split; [done|]. apply set_db_edit; [done..| | |].
  - intros k Hk. cbn in *. destruct (decide (k = key)) as [->|]; [by rewrite lookup_insert_eq|].
    rewrite lookup_insert_ne by done. by apply db_ok_self.
  - intros k Hne. by rewrite lookup_insert_ne.
  - rewrite lookup_insert_eq, E2. done.
Qed.
Lemma setExpire_edit w : exists s', setExpire s id key w = Some s' /\ edit s id key (Some (o, Some w)) s'.
Proof.
  destruct (entry_Some_dict s id d key o x Hd He) as [E1 E2]. unfold setExpire. rewrite Hd. cbn. rewrite E1. cbn.
  eexists. split; [done|]. apply set_db_edit; [done..| | |].
  - intros k Hk. cbn in *. destruct (decide (k = key)) as [->|]; [by rewrite E1|].
    rewrite lookup_insert_ne in Hk by done. by apply db_ok_self.
  - intros k Hne. by rewrite lookup_insert_ne.
  - by rewrite lookup_insert_eq, E1.
Qed.
Lemma removeExpire_edit : exists s', removeExpire s id key = Some (s', bool_decide (is_Some x)) /\ edit s id key (Some (o, None)) s'.
Proof.
  destruct (entry_Some_dict s id d key o x Hd He) as [E1 E2]. unfold removeExpire. rewrite Hd. cbn. rewrite E1, E2. cbn.
  eexists. split; [done|]. apply set_db_edit; [done..| | |].
  - intros k Hk. cbn in *. destruct (decide (k = key)) as [->|]; [by rewrite E1|].
    rewrite lookup_delete_ne in Hk by done. by apply db_ok_self.
  - intros k Hne. by rewrite lookup_delete_ne.
  - by rewrite lookup_delete_eq, E1.
Qed.
Lemma getExpire_entry : getExpireIn s id key = Some (default (-1) x).
Proof.
  destruct (entry_Some_dict s id d key o x Hd He) as [E1 E2]. unfold getExpireIn, getExpire. rewrite Hd. cbn. rewrite E2.
  by destruct x; [rewrite E1|].
Qed.
End Present.

(** The entry is past its deadline. *)
Definition dead_at (e : env) (v : option (robj * option Z)) : bool :=
  match v with Some (_, Some w) => negb (w <? 0) && negb (loading e) && (now e >? w) | _ => false end.

Lemma keyIsExpired_entry e : keyIsExpired e d key = Some (dead_at e (entry s id key)).
Proof.
  unfold keyIsExpired, getExpire. destruct (entry s id key) as [[o x]|] eqn:E.
  - destruct (entry_Some_dict s id d key o x Hd E) as [-> ->]. destruct x as [w|]; [|done]. cbn.
    by destruct (w <? 0), (loading e).
  - by destruct (entry_None_dict s id d key Hok Hd E) as [_ ->].
Qed.
End Prims.

(** ** Watched keys *)

(** The clients listed under a key are those that have it in their list. *)
Record watch_ok (s : server) : Prop := {
  wk_listed id d key cs c : db s !! id = Some d -> watched_keys d !! key = Some cs -> c ∈ cs ->
    exists x, clients s !! c = Some x /\ (id, key) ∈ c_watched x;
  wk_client c x id key : clients s !! c = Some x -> (id, key) ∈ c_watched x ->
    exists d cs, db s !! id = Some d /\ watched_keys d !! key = Some cs /\ c ∈ cs;
  wk_lists id d key cs : db s !! id = Some d -> watched_keys d !! key = Some cs -> cs <> [] /\ NoDup cs;
  wk_nodup c x : clients s !! c = Some x -> NoDup (c_watched x);
}.

Lemma mark_cas_idem x : mark_cas (mark_cas x) = mark_cas x.
Proof. done. Qed.

Lemma mark_all_ok cs m : (forall c, c ∈ cs -> is_Some (m !! c)) ->
  exists m', mark_all cs m = Some m' /\
    forall c, m' !! c = if decide (c ∈ cs) then mark_cas <$> m !! c else m !! c.
Proof.
  revert m. induction cs as [|c cs IH]; cbn; intros m Hm.
  { exists m. split; [done|]. intros c. case_decide as Hc; [by apply elem_of_nil in Hc|done]. }
  destruct (Hm c ltac:(left)) as [x Ex]. rewrite Ex. cbn.
  destruct (IH (<[c := mark_cas x]> m)) as (m' & -> & Hm').
  { intros c' Hc'. rewrite lookup_insert. case_decide; [eauto|]. apply Hm. by right. }
  exists m'. split; [done|]. intros c'. rewrite Hm', lookup_insert.
  destruct (decide (c = c')) as [<-|Hne].
  - rewrite Ex. cbn. rewrite (decide_True (P := c ∈ c :: cs)) by left. by case_decide.
  - destruct (decide (c' ∈ cs)) as [Hin|Hin]; [by rewrite decide_True by (by right)|].
    rewrite decide_False; [done|]. by intros [->|]%elem_of_cons.
Qed.

(** ** The state while a command runs *)

Section Running.
Context (s0 : server) (Hw0 : watch_ok s0).

Definition all_dirty (s : server) (id : nat) (key : bytes) : Prop :=
  forall c x, clients s !! c = Some x -> (id, key) ∈ c_watched x -> c_dirty_cas x = true.

(** From [s0] the entries have changed only under the keys of [pend] and under
    keys whose watchers have been told. *)
Record running (pend : list (nat * bytes)) (s : server) : Prop := {
  rn_ok : data_ok s;
  rn_watched : watched_keys <$> db s = watched_keys <$> db s0;
  rn_clients c : clients s !! c = clients s0 !! c \/
    exists x, clients s0 !! c = Some x /\ c_watched x <> [] /\ clients s !! c = Some (mark_cas x);
  rn_entry id key : (id, key) ∉ pend -> entry s id key = entry s0 id key \/ all_dirty s id key;
}.

Lemma running_refl : data_ok s0 -> running [] s0.
Proof. intros Hok. split; [done..|by left|by left]. Qed.
Lemma running_weaken pend pend' s : pend ⊆ pend' -> running pend s -> running pend' s.
Proof. intros Hp [H1 H2 H3 H4]. split; auto. Qed.

Lemma running_db pend s id : running pend s -> (id < length (db s0))%nat -> exists d, db s !! id = Some d.
Proof.
  intros Hr Hlt. apply lookup_lt_is_Some. rewrite <- (length_fmap watched_keys), (rn_watched _ _ Hr), length_fmap. done.
Qed.
Lemma running_length pend s : running pend s -> length (db s) = length (db s0).
Proof. intros Hr. by rewrite <- (length_fmap watched_keys (db s)), (rn_watched _ _ Hr), length_fmap. Qed.

Lemma running_edit pend s id key v s' : running pend s -> edit s id key v s' -> running ((id, key) :: pend) s'.
Proof.
  intros [H1 H2 H3 H4] [E1 E2 E3 E4]. split; [done|congruence|by rewrite E1|].
  intros i k [Hne Hn]%not_elem_of_cons. rewrite E4, decide_False by (intros [-> ->]; done).
  unfold all_dirty. rewrite E1. by apply H4.
Qed.
Lemma running_edit_same pend s id key s' : running pend s -> edit s id key (entry s id key) s' -> running pend s'.
Proof.
  intros [H1 H2 H3 H4] [E1 E2 E3 E4]. split; [done|congruence|by rewrite E1|]. intros i k Hn.
  assert (entry s' i k = entry s i k) as -> by (rewrite E4; case_decide as Hc; [by destruct Hc as [-> ->]|done]).
  unfold all_dirty. rewrite E1. by apply H4.
Qed.

Lemma watched_of pend s id d : running pend s -> db s !! id = Some d ->
  exists d0, db s0 !! id = Some d0 /\ watched_keys d = watched_keys d0.
Proof.
  intros Hr Hd. pose proof (f_equal (lookup id) (rn_watched _ _ Hr)) as E. rewrite !list_lookup_fmap, Hd in E.
  destruct (db s0 !! id) as [d0|]; [|done]. injection E as E. eauto.
Qed.
Lemma client_of pend s c x : running pend s -> clients s !! c = Some x ->
  exists x0, clients s0 !! c = Some x0 /\ c_watched x = c_watched x0.
Proof.
  intros Hr Hx. destruct (rn_clients _ _ Hr c) as [E|(x0 & Hx0 & _ & E)]; rewrite Hx in E; [eauto|].
  injection E as ->. eauto.
Qed.

(** Telling the clients that watch a key *)
Lemma signal_running pend pend' s id key : running pend s -> (id < length (db s0))%nat ->
  (forall p, p ∈ pend -> p = (id, key) \/ p ∈ pend') ->
  exists s', signalModifiedKey s id key = Some s' /\ db s' = db s /\ all_dirty s' id key /\ running pend' s'.
Proof.
  intros Hr Hid Hp. destruct (running_db pend s id Hr Hid) as [d Hd].
  unfold signalModifiedKey, touchWatchedKey. rewrite Hd. cbn.
  destruct (watched_of pend s id d Hr Hd) as (d0 & Hd0 & Ew).
  assert (Hwatch : forall c x, clients s !! c = Some x -> (id, key) ∈ c_watched x ->
    exists cs, watched_keys d !! key = Some cs /\ c ∈ cs).
  { intros c x Hx Hin. destruct (client_of pend s c x Hr Hx) as (x0 & Hx0 & Ex). rewrite Ex in Hin.
    destruct (wk_client _ Hw0 c x0 id key Hx0 Hin) as (d1 & cs & Hd1 & Hcs & Hc). rewrite Ew. simplify_eq. eauto. }
  destruct (watched_keys d !! key) as [cs|] eqn:Ecs.
  - destruct (mark_all_ok cs (clients s)) as (m & -> & Hm).
    { intros c Hc. rewrite Ew in Ecs. destruct (wk_listed _ Hw0 _ _ _ _ _ Hd0 Ecs Hc) as (x & Hx & _).
      destruct (rn_clients _ _ Hr c) as [E|(? & _ & _ & E)]; rewrite E; eauto. }
    cbn. assert (Hdirty : all_dirty (Server (db s) m) id key).
    { intros c x Hx Hin. cbn in Hx. rewrite Hm in Hx. case_decide as Hc.
      - destruct (clients s !! c) as [y|]; [|done]. by injection Hx as <-.
      - destruct (Hwatch c x Hx Hin) as (cs' & [= <-] & ?). done. }
    eexists. split_and!; [done..|]. destruct Hr as [R1 R2 R3 R4]. split; [done..| |].
    + intros c. cbn. rewrite Hm. case_decide as Hc; [|done]. right. rewrite Ew in Ecs.
      destruct (wk_listed _ Hw0 _ _ _ _ _ Hd0 Ecs Hc) as (x & Hx & Hin). exists x. split_and!; [done|by destruct (c_watched x); [apply elem_of_nil in Hin|]|].
      destruct (R3 c) as [E|(x' & Hx' & _ & E)]; rewrite E; by simplify_eq/=; rewrite ?Hx.
    + intros i k Hn. destruct (decide ((i, k) = (id, key))) as [[= -> ->]|Hne]; [by right|].
      destruct (R4 i k) as [E|E]; [intros [|]%Hp; done|by left|right].
      intros c x Hx Hin. cbn in Hx. rewrite Hm in Hx. case_decide as Hc; [|by apply (E c)].
      destruct (clients s !! c) as [y|]; [|done]. by injection Hx as <-.
  - assert (Hdirty : all_dirty s id key) by (intros c x Hx Hin; by destruct (Hwatch c x Hx Hin) as (cs & ? & ?)).
    exists s. split_and!; [done..|]. destruct Hr as [R1 R2 R3 R4]. split; [done..|].
    intros i k Hn. destruct (decide ((i, k) = (id, key))) as [[= -> ->]|Hne]; [by right|].
    apply R4. intros [|]%Hp; done.
Qed.

(** A key whose watchers have been told may change again. *)
Lemma running_edit_dirty pend s id key v s' : running pend s -> all_dirty s id key -> edit s id key v s' -> running pend s'.
Proof.
  intros [H1 H2 H3 H4] Hd [E1 E2 E3 E4]. split; [done|congruence|by rewrite E1|].
  intros i k Hn. unfold all_dirty. rewrite E1. rewrite E4. case_decide as Hc; [|by apply H4].
  destruct Hc as [-> ->]. by right.
Qed.

End Running.

End KeyspaceInv.
