(* ===== verification/KeyspaceSpec.v ===== *)
(** What the commands on the keyspace mean: functions on the map of the entries
    that are alive, with no expiration on access, no watched keys and no
    failures. *)

From stdpp Require Import gmap.
From S2P Require Import Prelude Util Keyspace KeyspaceInv.

Module KeyspaceSpec.
Import Util Keyspace KeyspaceInv.

(** Values with their deadlines, by database and key *)
Definition smap : Type := nat -> bytes -> option (robj * option Z).

Definition supd (M : smap) (id : nat) (key : bytes) (v : option (robj * option Z)) : smap :=
  fun i k => if decide (i = id /\ k = key) then v else M i k.

(** An entry past its deadline is none. *)
Definition live (e : env) (v : option (robj * option Z)) : option (robj * option Z) :=
  if dead_at e v then None else v.

Section Spec.
Context (e : env).

Definition put (M : smap) (id : nat) (key : bytes) (o : robj) (x : option Z) : smap :=
  supd M id key (live e (Some (o, x))).

(** Numbers in arguments *)
Definition num (b : bytes) : option Z := default None (getLongLong b).
Definition int_arg (b : bytes) : Z + error := default (inr err_not_integer) (getInt b).
Definition time_arg (flags : Z) (ms : bool) (b : bytes) : Z * Z + error :=
  default (inr err_not_integer) (expire_time e flags ms b).

Definition deadline (M : smap) (id : nat) (key : bytes) : option Z :=
  match M id key with Some (_, x) => x | None => None end.
(** A deadline as [getExpire] gives it and [setExpire] takes it: -1 is none. *)
Definition carried (x : option Z) : option Z := if default (-1) x =? -1 then None else x.

Definition s_get (M : smap) (id : nat) (key : bytes) : reply + reply :=
  match M id key with
  | None => inl RNull
  | Some (OBJ_STRING v, _) => inl (RBulk v)
  | Some (OBJ_OTHER _ _, _) => inr (RError err_wrongtype)
  end.

Definition exists_in (M : smap) (id : nat) (key : bytes) : bool := bool_decide (is_Some (M id key)).

Definition s_set (M : smap) (id : nat) (flags : Z) (key val : bytes) (expire : option bytes) (ms : bool)
    (ok_reply abort_reply : reply) : smap * reply :=
  match match expire with
        | None => inl None
        | Some x => match time_arg flags ms x with inl (_, w) => inl (Some w) | inr x => inr x end
        end with
  | inr x => (M, RError x)
  | inl when =>
      if (flag flags OBJ_SET_NX && exists_in M id key) || (flag flags OBJ_SET_XX && negb (exists_in M id key))
      then (M, abort_reply)
      else
        match (if flag flags OBJ_SET_GET then s_get M id key else inl ok_reply) with
        | inr r => (M, r)
        | inl r =>
            (put M id key (OBJ_STRING val)
               (match when with Some w => Some w | None => if flag flags OBJ_KEEPTTL then deadline M id key else None end), r)
        end
  end.

Definition s_set_command (M : smap) (id : nat) (key val : bytes) (opts : list bytes) : smap * reply :=
  match parseExtended false opts 0 false None with
  | None => (M, RError err_syntax)
  | Some (flags, ms, expire) => s_set M id flags key val expire ms ROk RNull
  end.

Definition s_getex (M : smap) (id : nat) (key : bytes) (opts : list bytes) : smap * reply :=
  match parseExtended true opts 0 false None with
  | None => (M, RError err_syntax)
  | Some (flags, ms, expire) =>
      match M id key with
      | None => (M, RNull)
      | Some (OBJ_OTHER _ _, _) => (M, RError err_wrongtype)
      | Some (OBJ_STRING v, x) =>
          match expire with
          | None => (if flag flags OBJ_PERSIST then supd M id key (Some (OBJ_STRING v, None)) else M, RBulk v)
          | Some b =>
              match time_arg flags ms b with
              | inr x => (M, RError x)
              | inl (m, w) =>
                  (if (flag flags OBJ_PXAT || flag flags OBJ_EXAT) && (m <=? mstime e) then supd M id key None
                   else put M id key (OBJ_STRING v) (Some w), RBulk v)
              end
          end
      end
  end.

Definition s_getdel (M : smap) (id : nat) (key : bytes) : smap * reply :=
  match s_get M id key with inr r => (M, r) | inl r => (supd M id key None, r) end.
Definition s_getset (M : smap) (id : nat) (key val : bytes) : smap * reply :=
  match s_get M id key with inr r => (M, r) | inl r => (supd M id key (Some (OBJ_STRING val, None)), r) end.

Definition s_setrange (M : smap) (id : nat) (key offset value : bytes) : smap * reply :=
  match num offset with
  | None => (M, RError err_not_integer)
  | Some offset =>
      if offset <? 0 then (M, RError err_offset)
      else
        match match M id key with
              | None => inl ([], None) | Some (OBJ_STRING v, x) => inl (v, x) | Some (OBJ_OTHER _ _, _) => inr err_wrongtype
              end with
        | inr x => (M, RError x)
        | inl (old, x) =>
            if blen value =? 0 then (M, RInt (blen old))
            else if negb (checkStringLength e (offset + blen value)) then (M, RError err_string_size)
            else let v := default [] (write_range e old offset value) in
                 (supd M id key (Some (OBJ_STRING v, x)), RInt (blen v))
        end
  end.

(** GETRANGE on a string *)
Definition substring (v : bytes) (start stop : Z) : bytes :=
  let len := blen v in
  if (start <? 0) && (stop <? 0) && (start >? stop) then []
  else
    let start := Z.max 0 (if start <? 0 then sint 64 (len + start) else start) in
    let stop := Z.max 0 (if stop <? 0 then sint 64 (len + stop) else stop) in
    let stop := if stop >=? len then sint 64 (len - 1) else stop in
    if (start >? stop) || (len =? 0) then []
    else take (Z.to_nat (stop - start + 1)) (drop (Z.to_nat start) v).
Definition s_getrange (M : smap) (id : nat) (key start stop : bytes) : reply :=
  match num start, num stop with
  | Some a, Some b =>
      match M id key with
      | None => RBulk []
      | Some (OBJ_OTHER _ _, _) => RError err_wrongtype
      | Some (OBJ_STRING v, _) => RBulk (substring v a b)
      end
  | _, _ => RError err_not_integer
  end.

Definition s_mget (M : smap) (id : nat) (keys : list bytes) : list reply :=
  (fun key => match M id key with Some (OBJ_STRING v, _) => RBulk v | _ => RNull end) <$> keys.

Definition s_mset (M : smap) (id : nat) (kvs : list (bytes * bytes)) (nx : bool) : smap * reply :=
  if nx && existsb (exists_in M id) kvs.*1 then (M, RInt 0)
  else (foldl (fun M '(k, v) => supd M id k (Some (OBJ_STRING v, None))) M kvs, if nx then RInt 1 else ROk).

Definition s_incr (M : smap) (id : nat) (key : bytes) (incr : Z) : smap * reply :=
  match match M id key with
        | None => inl (Some 0, None) | Some (OBJ_STRING v, x) => inl (num v, x) | Some (OBJ_OTHER _ _, _) => inr err_wrongtype
        end with
  | inr x => (M, RError x)
  | inl (None, _) => (M, RError err_not_integer)
  | inl (Some v, x) =>
      if (LLONG_MIN <=? v + incr) && (v + incr <=? LLONG_MAX)
      then (supd M id key (Some (OBJ_STRING (default [] (ll_bytes (v + incr))), x)), RInt (v + incr))
      else (M, RError err_overflow)
  end.

Definition s_append (M : smap) (id : nat) (key val : bytes) : smap * reply :=
  match M id key with
  | None => (supd M id key (Some (OBJ_STRING val, None)), RInt (blen val))
  | Some (OBJ_OTHER _ _, _) => (M, RError err_wrongtype)
  | Some (OBJ_STRING v, x) =>
      if negb (checkStringLength e (blen v + blen val)) then (M, RError err_string_size)
      else (supd M id key (Some (OBJ_STRING (v ++ val), x)), RInt (blen (v ++ val)))
  end.

Definition s_strlen (M : smap) (id : nat) (key : bytes) : reply :=
  match M id key with
  | None => RInt 0 | Some (OBJ_STRING v, _) => RInt (blen v) | Some (OBJ_OTHER _ _, _) => RError err_wrongtype
  end.

(** DEL counts the keys it removes. *)
Fixpoint s_del (M : smap) (id : nat) (keys : list bytes) (n : Z) : smap * reply :=
  match keys with
  | [] => (M, RInt n)
  | key :: keys => s_del (supd M id key None) id keys (if exists_in M id key then n + 1 else n)
  end.
Definition s_exists (M : smap) (id : nat) (keys : list bytes) : reply :=
  RInt (Z.of_nat (length (filter (fun key => exists_in M id key = true) keys))).

Definition s_rename (M : smap) (id : nat) (key newkey : bytes) (nx : bool) : smap * reply :=
  match M id key with
  | None => (M, RError err_nokey)
  | Some (o, x) =>
      if bool_decide (key = newkey) then (M, if nx then RInt 0 else ROk)
      else if exists_in M id newkey && nx then (M, RInt 0)
      else (supd (supd M id newkey (Some (o, carried x))) id key None, if nx then RInt 1 else ROk)
  end.

(** MOVE and COPY, with the target database checked against their number [n] *)
Definition s_move (n : Z) (M : smap) (src : nat) (key arg : bytes) : smap * reply :=
  match int_arg arg with
  | inr x => (M, RError x)
  | inl i =>
      if negb ((0 <=? i) && (i <? n)) then (M, RError err_db_index)
      else
        let dst := Z.to_nat i in
        if bool_decide (src = dst) then (M, RError err_sameobject)
        else
          match M src key with
          | None => (M, RInt 0)
          | Some (o, x) =>
              if exists_in M dst key then (M, RInt 0)
              else (supd (supd M dst key (Some (o, carried x))) src key None, RInt 1)
          end
  end.
Fixpoint s_copy_options (n : Z) (opts : list bytes) (dst : nat) (replace : bool) : nat * bool + error :=
  match opts with
  | [] => inl (dst, replace)
  | opt :: rest =>
      if is_opt opt "replace" then s_copy_options n rest dst true
      else if is_opt opt "db" then
        match rest with
        | [] => inr err_syntax
        | arg :: rest =>
            match int_arg arg with
            | inr x => inr x
            | inl i => if negb ((0 <=? i) && (i <? n)) then inr err_db_index else s_copy_options n rest (Z.to_nat i) replace
            end
        end
      else inr err_syntax
  end.
Definition s_copy (n : Z) (M : smap) (src : nat) (key newkey : bytes) (opts : list bytes) : smap * reply :=
  match s_copy_options n opts src false with
  | inr x => (M, RError x)
  | inl (dst, replace) =>
      if bool_decide (src = dst) && bool_decide (key = newkey) then (M, RError err_sameobject)
      else
        match M src key with
        | None => (M, RInt 0)
        | Some (o, x) =>
            if exists_in M dst newkey && negb replace then (M, RInt 0)
            else (supd M dst newkey (Some (o, carried x)), RInt 1)
        end
  end.

Definition s_swapdb (n : Z) (M : smap) (a b : bytes) : smap * reply :=
  match int_arg a, int_arg b with
  | inl i, inl j =>
      if ((0 <=? i) && (i <? n)) && ((0 <=? j) && (j <? n))
      then (fun id => M (if decide (id = Z.to_nat i) then Z.to_nat j
                         else if decide (id = Z.to_nat j) then Z.to_nat i else id), ROk)
      else (M, RError err_db_index)
  | _, _ => (M, RError err_invalid_db)
  end.

Definition s_flush (M : smap) (dbs : nat -> bool) (opts : list bytes) : smap * reply :=
  if flush_flags opts then (fun i k => if dbs i then None else M i k, ROk) else (M, RError err_syntax).

Definition s_expire (M : smap) (id : nat) (key param : bytes) (basetime : Z) (ms : bool) : smap * reply :=
  match num param with
  | None => (M, RError err_not_integer)
  | Some v =>
      match expire_when v basetime ms with
      | None => (M, RError err_expire)
      | Some w =>
          match M id key with
          | None => (M, RInt 0)
          | Some (o, _) => (supd M id key (if w <=? mstime e then None else Some (o, Some w)), RInt 1)
          end
      end
  end.

Definition s_ttl (M : smap) (id : nat) (key : bytes) (ms : bool) : reply :=
  RInt match M id key with
       | None => -2
       | Some (_, x) =>
           match carried x with
           | None => -1
           | Some w =>
               let ttl := Z.max 0 (sint 64 (w - mstime e)) in
               if ms then ttl else Z.quot (sint 64 (ttl + 500)) 1000
           end
       end.

Definition s_persist (M : smap) (id : nat) (key : bytes) : smap * reply :=
  match M id key with
  | Some (o, Some _) => (supd M id key (Some (o, None)), RInt 1)
  | _ => (M, RInt 0)
  end.

(** A command on the database [id] of [n] *)
Definition spec (n : nat) (M : smap) (id : nat) (k : cmd) : smap * reply :=
  let N := Z.of_nat n in
  match k with
  | SET key val opts => s_set_command M id key val opts
  | SETNX key val => s_set M id OBJ_SET_NX key val None false (RInt 1) (RInt 0)
  | SETEX key secs val => s_set M id OBJ_EX key val (Some secs) false ROk RNull
  | PSETEX key millis val => s_set M id OBJ_PX key val (Some millis) true ROk RNull
  | GET key => (M, match s_get M id key with inl r | inr r => r end)
  | GETEX key opts => s_getex M id key opts
  | GETDEL key => s_getdel M id key
  | GETSET key val => s_getset M id key val
  | SETRANGE key off val => s_setrange M id key off val
  | GETRANGE key a b => (M, s_getrange M id key a b)
  | MGET keys => (M, RArray (s_mget M id keys))
  | MSET kvs nx => s_mset M id kvs nx
  | INCR key => s_incr M id key 1
  | DECR key => s_incr M id key (-1)
  | INCRBY key incr => match num incr with None => (M, RError err_not_integer) | Some i => s_incr M id key i end
  | DECRBY key incr => match num incr with None => (M, RError err_not_integer) | Some i => s_incr M id key (sint 64 (- i)) end
  | APPEND key val => s_append M id key val
  | STRLEN key => (M, s_strlen M id key)
  | DEL keys => s_del M id keys 0
  | EXISTS keys | TOUCH keys => (M, s_exists M id keys)
  | TYPE key => (M, RStatus (getObjectTypeName (fst <$> M id key)))
  | RENAME key newkey nx => s_rename M id key newkey nx
  | MOVE key arg => s_move N M id key arg
  | COPY key newkey opts => s_copy N M id key newkey opts
  | SWAPDB a b => s_swapdb N M a b
  | FLUSHDB opts => s_flush M (Nat.eqb id) opts
  | FLUSHALL opts => s_flush M (fun i => Nat.ltb i n) opts
  | EXPIRE key time abs ms => s_expire M id key time (if abs then 0 else mstime e) ms
  | TTL key ms => (M, s_ttl M id key ms)
  | PERSIST key => s_persist M id key
  | _ => (M, RError err_unknown)
  end.

End Spec.

End KeyspaceSpec.
