(* ===== verification/KeyspaceCmds.v ===== *)
(** The commands on the keyspace against their meaning.

    One proof for each command shows that no assertion fails, that the invariant
    is kept and the watchers of what has changed are told, whatever the role of
    the server, and that on a master the command is its specification. *)

From stdpp Require Import gmap.
From S2P Require Import Prelude Util Keyspace KeyspaceInv KeyspaceSpec.

Module KeyspaceCmds.
Import Util Keyspace KeyspaceInv KeyspaceSpec.

(** ** Numbers in arguments *)

Lemma getLongLong_num b : getLongLong b = Some (num b) /\ forall v, num b = Some v -> in_sint 64 v.
Proof.
  unfold num, getLongLong. destruct (string2ll_spec b) as (r & -> & Hr). split; [done|].
  intros v Hv. cbn in Hv. by apply Hr in Hv as [? _].
Qed.
Lemma getInt_arg b : getInt b = Some (int_arg b).
Proof. unfold int_arg, getInt. by rewrite (proj1 (getLongLong_num b)). Qed.
Lemma expire_time_arg e flags ms b : expire_time e flags ms b = Some (time_arg e flags ms b).
Proof. unfold time_arg, expire_time. by rewrite (proj1 (getLongLong_num b)). Qed.

Section Cmd.
Context (s0 : server) (Hw0 : watch_ok s0) (e : env).

(** A master that is neither loading nor paused *)
Definition active : Prop := masterhost e = false /\ loading e = false /\ paused e = false /\ now e <= mstime e.

#[global] Instance active_dec : Decision active.
Proof. unfold active. apply _. Defined.

(** The state while a command runs; [M] are the entries that are alive. *)
Record at_map (pend : list (nat * bytes)) (M : smap) (s : server) : Prop := {
  am_running : running s0 pend s;
  am_live : active -> forall i k, live e (entry s i k) = M i k;
}.

(** A command and its specification *)
Definition meets (m : option (server * reply)) (sp : smap * reply) : Prop :=
  exists s r, m = Some (s, r) /\ running s0 [] s /\
    (active -> r = sp.2 /\ forall i k, live e (entry s i k) = sp.1 i k).

Lemma meets_ret M s r r' : at_map [] M s -> (active -> r = r') -> meets (Some (s, r)) (M, r').
Proof. intros [Hr Hl] E. exists s, r. split_and!; [done..|]. intros Ha. split; [by apply E|]. by apply Hl. Qed.
Lemma meets_switch sp' sp m : (active -> sp = sp') -> meets m sp' -> meets m sp.
Proof. intros E (s & r & -> & Hr & Hs). exists s, r. split_and!; [done..|]. intros Ha. rewrite (E Ha). auto. Qed.

Lemma am_db pend M s id : at_map pend M s -> (id < length (db s0))%nat -> exists d, db s !! id = Some d.
Proof. intros [Hr _]. by apply running_db with pend. Qed.
Lemma am_ok pend M s : at_map pend M s -> data_ok s.
Proof. intros [Hr _]. apply Hr. Qed.

Lemma at_edit pend M s id key v s' : at_map pend M s -> edit s id key v s' ->
  at_map ((id, key) :: pend) (supd M id key (live e v)) s'.
Proof.
  intros [Hr Hl] He. split; [by eapply running_edit|]. intros Ha i k. rewrite (ed_entry _ _ _ _ _ He). unfold supd.
  case_decide; [done|]. by apply Hl.
Qed.

Lemma signal_at pend pend' M s id key : at_map pend M s -> (id < length (db s0))%nat ->
  (forall p, p ∈ pend -> p = (id, key) \/ p ∈ pend') ->
  exists s', signalModifiedKey s id key = Some s' /\ db s' = db s /\ all_dirty s' id key /\ at_map pend' M s'.
Proof.
  intros [Hr Hl] Hid Hp. destruct (signal_running s0 Hw0 pend pend' s id key Hr Hid Hp) as (s' & E & Ed & Hdt & Hr').
  exists s'. split_and!; [done..|]. split; [done|]. intros Ha i k. rewrite <- (Hl Ha). unfold entry. by rewrite Ed.
Qed.

Lemma entry_same s s' id key : db s' = db s -> entry s' id key = entry s id key.
Proof. unfold entry. by intros ->. Qed.

(** ** Expiration on access *)

Lemma expire_at pend M s id key : at_map pend M s -> (id < length (db s0))%nat ->
  exists s', expireIfNeeded e s id key = Some (s', dead_at e (entry s id key)) /\ at_map pend M s' /\
    (active -> entry s' id key = M id key) /\
    (entry s' id key = entry s id key \/ entry s' id key = None) /\
    (forall i k, (i, k) <> (id, key) -> entry s' i k = entry s i k).
Proof.
  intros Hat Hid. destruct (am_db _ _ _ _ Hat Hid) as [d Hd]. pose proof (am_ok _ _ _ Hat) as Hok.
  unfold expireIfNeeded. rewrite Hd. cbn. rewrite (keyIsExpired_entry s id d key Hok Hd). cbn.
  destruct (dead_at e (entry s id key)) eqn:Edead; cbn.
  2: { exists s. split_and!; try done; [|by left]. intros Ha. rewrite <- (am_live _ _ _ Hat Ha). unfold live. by rewrite Edead. }
  destruct (masterhost e) eqn:Em; [exists s; split_and!; try done; [|by left]; intros Ha; by destruct Ha as [? _]; congruence|].
  destruct (paused e) eqn:Ep; [exists s; split_and!; try done; [|by left]; intros Ha; destruct Ha as (_ & _ & ? & _); congruence|].
  destruct (dbSyncDelete_edit s id d key Hok Hd) as (s1 & -> & Hed). cbn.
  destruct (signal_at ((id, key) :: pend) pend _ s1 id key (at_edit _ _ _ _ _ _ _ Hat Hed) Hid) as (s2 & -> & Edb & _ & Hat2).
  { intros p [->|]%elem_of_cons; auto. }
  cbn. exists s2. assert (Hn : entry s2 id key = None)
    by (rewrite (entry_same s1) by done; rewrite (ed_entry _ _ _ _ _ Hed); by rewrite decide_True).
  assert (HM : active -> M id key = None) by (intros Ha; rewrite <- (am_live _ _ _ Hat Ha); unfold live; by rewrite Edead).
  split_and!; [done| |intros Ha; by rewrite HM|by right|].
  - split; [apply Hat2|]. intros Ha i k. rewrite (am_live _ _ _ Hat2 Ha). unfold supd, live. cbn.
    case_decide as Hc; [|done]. destruct Hc as [-> ->]. by rewrite HM.
  - intros i k Hne. rewrite (entry_same s1) by done. rewrite (ed_entry _ _ _ _ _ Hed). by rewrite decide_False by (intros [-> ->]; done).
Qed.

(** A lookup: the map can be taken to have the entry that is found. *)
Definition found (M M' : smap) (s s' : server) (id : nat) (key : bytes) : Prop :=
  M' id key = entry s' id key /\ (active -> M' = M) /\
  (forall i k, (i, k) <> (id, key) -> M' i k = M i k) /\
  (forall i k, (i, k) <> (id, key) -> entry s' i k = entry s i k).

Lemma lookupKey_entry s id d key : db s !! id = Some d -> lookupKey s id key = Some (fst <$> entry s id key).
Proof. intros Hd. unfold lookupKey, entry. rewrite Hd. cbn. by destruct (dict d !! key). Qed.

Lemma at_found pend M s s' id key : at_map pend M s' -> (active -> entry s' id key = M id key) ->
  (forall i k, (i, k) <> (id, key) -> entry s' i k = entry s i k) ->
  exists M', at_map pend M' s' /\ found M M' s s' id key.
Proof.
  intros Hat HM Hf. destruct (decide active) as [Ha|Ha].
  - exists M. split; [done|]. split_and!; try done. by rewrite HM.
  - exists (supd M id key (entry s' id key)). split; [split; [apply Hat|done]|]. split_and!; try done.
    + unfold supd. by rewrite decide_True.
    + intros i k Hne. unfold supd. rewrite decide_False; [done|]. intros [-> ->]. done.
Qed.

Lemma lookupWrite_at pend M s id key : at_map pend M s -> (id < length (db s0))%nat ->
  exists s' M', lookupKeyWrite e s id key = Some (s', fst <$> M' id key) /\ at_map pend M' s' /\ found M M' s s' id key.
Proof.
  intros Hat Hid. destruct (expire_at pend M s id key Hat Hid) as (s' & E & Hat' & HM & _ & Hf).
  destruct (am_db _ _ _ _ Hat' Hid) as [d Hd].
  destruct (at_found pend M s s' id key Hat' HM Hf) as (M' & Hat2 & Hfound). exists s', M'. split; [|done].
  unfold lookupKeyWrite. rewrite E. cbn. rewrite (lookupKey_entry s' id d key Hd). cbn. by destruct Hfound as [-> _].
Qed.

(** A lookup for reading; a replica, or a server that is paused, may hide an
    entry that is there. *)
Definition seen (M M' : smap) (s s' : server) (id : nat) (key : bytes) : Prop :=
  (forall v, M' id key = Some v -> entry s' id key = Some v) /\ (active -> M' = M) /\
  (forall i k, (i, k) <> (id, key) -> M' i k = M i k) /\
  (forall i k, (i, k) <> (id, key) -> entry s' i k = entry s i k).

Lemma lookupRead_at pend M ro s id key : at_map pend M s -> (id < length (db s0))%nat ->
  exists s' M', lookupKeyRead e ro s id key = Some (s', fst <$> M' id key) /\ at_map pend M' s' /\ seen M M' s s' id key.
Proof.
  intros Hat Hid. destruct (expire_at pend M s id key Hat Hid) as (s' & E & Hat' & HM & _ & Hf).
  destruct (am_db _ _ _ _ Hat' Hid) as [d Hd]. unfold lookupKeyRead. rewrite E. cbn.
  destruct (_ && _) eqn:Eh.
  - destruct (decide active) as [Ha|Ha].
    + exists s', M. assert (M id key = None) as En.
      { rewrite <- (am_live _ _ _ Hat Ha). apply andb_true_iff in Eh as [Eh _]. unfold live. by rewrite Eh. }
      rewrite En. split_and!; [done..|]. split_and!; [|done..]. intros v. by rewrite En.
    + exists s', (supd M id key None). unfold supd at 1. rewrite decide_True by done.
      split_and!; [done|split; [apply Hat'|done]|]. split_and!; [|done| |done].
      * intros v. unfold supd. by rewrite decide_True.
      * intros i k Hne. unfold supd. rewrite decide_False; [done|]. intros [-> ->]. done.
  - destruct (at_found pend M s s' id key Hat' HM Hf) as (M' & Hat2 & Hm & Hx & Ho & Hf2). exists s', M'.
    rewrite (lookupKey_entry s' id d key Hd). cbn. rewrite Hm. split_and!; [done..|]. split_and!; try done.
    intros v. by rewrite Hm.
Qed.

(** ** The primitives *)

Lemma supd_eq M id key v : supd M id key v id key = v.
Proof. unfold supd. by rewrite decide_True. Qed.
Lemma supd_ne M id key v i k : (i, k) <> (id, key) -> supd M id key v i k = M i k.
Proof. intros Hne. unfold supd. rewrite decide_False; [done|]. intros [-> ->]. done. Qed.
Lemma edit_eq s id key v s' : edit s id key v s' -> entry s' id key = v.
Proof. intros He. rewrite (ed_entry _ _ _ _ _ He). by rewrite decide_True. Qed.
Lemma edit_ne s id key v s' i k : edit s id key v s' -> (i, k) <> (id, key) -> entry s' i k = entry s i k.
Proof. intros He Hne. rewrite (ed_entry _ _ _ _ _ He), decide_False; [done|]. intros [-> ->]. done. Qed.

Section Ops.
Context (pend : list (nat * bytes)) (M : smap) (s : server) (id : nat) (key : bytes).
Context (Hat : at_map pend M s) (Hid : (id < length (db s0))%nat).

Lemma delete_at : exists s', dbSyncDelete s id key = Some (s', bool_decide (is_Some (entry s id key))) /\
  edit s id key None s' /\ at_map ((id, key) :: pend) (supd M id key None) s' /\
  (entry s id key = None -> at_map pend (supd M id key None) s').
Proof.
  destruct (am_db _ _ _ _ Hat Hid) as [d Hd]. destruct (dbSyncDelete_edit s id d key (am_ok _ _ _ Hat) Hd) as (s' & E & He).
  pose proof (at_edit _ _ _ _ _ _ _ Hat He) as Ha. exists s'. split_and!; [done..|].
  intros En. split; [|apply Ha]. apply (running_edit_same s0 pend s id key); [apply Hat|]. by rewrite En.
Qed.
Lemma add_at val : entry s id key = None ->
  exists s', dbAdd s id key val = Some s' /\ edit s id key (Some (val, None)) s' /\
    at_map ((id, key) :: pend) (supd M id key (Some (val, None))) s'.
Proof.
  intros En. destruct (am_db _ _ _ _ Hat Hid) as [d Hd].
  destruct (dbAdd_edit s id d key (am_ok _ _ _ Hat) Hd val En) as (s' & E & He). exists s'. split_and!; [done..|].
  apply (at_edit _ _ _ _ _ _ _ Hat He).
Qed.
Lemma overwrite_at val o x : entry s id key = Some (o, x) ->
  exists s', dbOverwrite s id key val = Some s' /\ edit s id key (Some (val, x)) s' /\
    at_map ((id, key) :: pend) (supd M id key (live e (Some (val, x)))) s'.
Proof.
  intros En. destruct (am_db _ _ _ _ Hat Hid) as [d Hd].
  destruct (dbOverwrite_edit s id d key (am_ok _ _ _ Hat) Hd o x En val) as (s' & E & He). exists s'. split_and!; [done..|].
  apply (at_edit _ _ _ _ _ _ _ Hat He).
Qed.
Lemma setExpire_at w o x : entry s id key = Some (o, x) ->
  exists s', setExpire s id key w = Some s' /\ edit s id key (Some (o, Some w)) s' /\
    at_map ((id, key) :: pend) (supd M id key (live e (Some (o, Some w)))) s'.
Proof.
  intros En. destruct (am_db _ _ _ _ Hat Hid) as [d Hd].
  destruct (setExpire_edit s id d key (am_ok _ _ _ Hat) Hd o x En w) as (s' & E & He). exists s'. split_and!; [done..|].
  apply (at_edit _ _ _ _ _ _ _ Hat He).
Qed.
Lemma removeExpire_at o x : entry s id key = Some (o, x) ->
  exists s', removeExpire s id key = Some (s', bool_decide (is_Some x)) /\ edit s id key (Some (o, None)) s' /\
    at_map ((id, key) :: pend) (supd M id key (Some (o, None))) s' /\
    (x = None -> at_map pend (supd M id key (Some (o, None))) s').
Proof.
  intros En. destruct (am_db _ _ _ _ Hat Hid) as [d Hd].
  destruct (removeExpire_edit s id d key (am_ok _ _ _ Hat) Hd o x En) as (s' & E & He).
  pose proof (at_edit _ _ _ _ _ _ _ Hat He) as Ha. exists s'. split_and!; [done..|].
  intros ->. split; [|apply Ha]. apply (running_edit_same s0 pend s id key); [apply Hat|]. by rewrite En.
Qed.
Lemma getExpire_at o x : entry s id key = Some (o, x) -> getExpireIn s id key = Some (default (-1) x).
Proof. intros En. destruct (am_db _ _ _ _ Hat Hid) as [d Hd]. by apply (getExpire_entry s id d key Hd o). Qed.
End Ops.

(** Maps that agree *)
Lemma at_ext pend M M' s : (active -> forall i k, M i k = M' i k) -> at_map pend M s -> at_map pend M' s.
Proof. intros E [Hr Hl]. split; [done|]. intros Ha i k. by rewrite <- E, Hl. Qed.

(** An entry found on a master is alive. *)
Lemma live_found M s id key v x : at_map [] M s -> active -> M id key = Some (v, x) -> forall o, live e (Some (o, x)) = Some (o, x).
Proof.
  intros Hat Ha HM o. rewrite <- (am_live _ _ _ Hat Ha) in HM. unfold live in HM. destruct (dead_at e _) eqn:E; [done|].
  rewrite HM in E. unfold live, dead_at in *. destruct x; [|done]. by rewrite E.
Qed.

(** ** Steps of a command *)

Lemma meets_write M s id key K (sp : smap -> smap * reply) : at_map [] M s -> (id < length (db s0))%nat ->
  (forall s' M', at_map [] M' s' -> found M M' s s' id key -> meets (K s' (fst <$> M' id key)) (sp M')) ->
  meets ('(s', o) ← lookupKeyWrite e s id key; K s' o) (sp M).
Proof.
  intros Hat Hid HK. destruct (lookupWrite_at [] M s id key Hat Hid) as (s' & M' & -> & Hat' & Hf). cbn.
  apply (meets_switch (sp M')); [|by apply HK]. destruct Hf as (_ & HM & _). intros Ha. by rewrite HM.
Qed.
Lemma meets_read M ro s id key K (sp : smap -> smap * reply) : at_map [] M s -> (id < length (db s0))%nat ->
  (forall s' M', at_map [] M' s' -> seen M M' s s' id key -> meets (K s' (fst <$> M' id key)) (sp M')) ->
  meets ('(s', o) ← lookupKeyRead e ro s id key; K s' o) (sp M).
Proof.
  intros Hat Hid HK. destruct (lookupRead_at [] M ro s id key Hat Hid) as (s' & M' & -> & Hat' & Hf). cbn.
  apply (meets_switch (sp M')); [|by apply HK]. destruct Hf as (_ & HM & _). intros Ha. by rewrite HM.
Qed.
Lemma meets_signal pend pend' M s id key (K : server -> option (server * reply)) sp : at_map pend M s -> (id < length (db s0))%nat ->
  (forall p, p ∈ pend -> p = (id, key) \/ p ∈ pend') ->
  (forall s', db s' = db s -> at_map pend' M s' -> meets (K s') sp) ->
  meets (s' ← signalModifiedKey s id key; K s') sp.
Proof.
  intros Hat Hid Hp HK. destruct (signal_at pend pend' M s id key Hat Hid Hp) as (s' & -> & Ed & _ & Hat'). cbn. by apply HK.
Qed.

(** The end of a command that has changed one entry *)
Lemma meets_signal_ret M M' s id key r : at_map [(id, key)] M s -> (id < length (db s0))%nat ->
  (active -> forall i k, M i k = M' i k) ->
  meets (s' ← signalModifiedKey s id key; Some (s', r)) (M', r).
Proof.
  intros Hat Hid E. apply (meets_signal [(id, key)] [] M); [done..| |]; [intros p ->%list_elem_of_singleton; by left|].
  intros s' _ Hat'. apply meets_ret; [|done]. by apply (at_ext [] M).
Qed.

(** ** t_string.c *)

Lemma genericSetKey_at M s id key val keepttl : at_map [] M s -> (id < length (db s0))%nat ->
  exists s' x, genericSetKey e s id key val keepttl true = Some s' /\ entry s' id key = Some (val, x) /\ all_dirty s' id key /\
    at_map [] (put e M id key val (if keepttl then deadline M id key else None)) s'.
Proof.
  intros Hat Hid. unfold genericSetKey.
  destruct (lookupWrite_at [] M s id key Hat Hid) as (s1 & M1 & -> & Hat1 & Hm & HM & _ & _). cbn.
  assert (exists s2 x, match fst <$> M1 id key with None => dbAdd s1 id key val | Some _ => dbOverwrite s1 id key val end = Some s2 /\
    entry s2 id key = Some (val, x) /\ x = deadline M1 id key /\
    at_map [(id, key)] (put e M1 id key val (deadline M1 id key)) s2) as (s2 & x & -> & He2 & Ex & Hat2).
  { unfold deadline. destruct (M1 id key) as [[o x]|] eqn:E; cbn.
    - destruct (overwrite_at [] M1 s1 id key Hat1 Hid val o x) as (s2 & E2 & Hed & Hat2); [congruence|].
      exists s2, x. split_and!; [done|by apply edit_eq in Hed|done..].
    - destruct (add_at [] M1 s1 id key Hat1 Hid val) as (s2 & E2 & Hed & Hat2); [congruence|].
      exists s2, None. split_and!; [done|by apply edit_eq in Hed|done..]. }
  cbn. assert (exists s3 x, (if keepttl then Some s2 else '(s, _) ← removeExpire s2 id key; Some s) = Some s3 /\
    entry s3 id key = Some (val, x) /\
    at_map [(id, key)] (put e M id key val (if keepttl then deadline M id key else None)) s3) as (s3 & x' & -> & He3 & Hat3).
  { destruct keepttl.
    - exists s2, x. split_and!; [done..|]. apply (at_ext _ _ _ s2) with (2 := Hat2). intros Ha. by rewrite (HM Ha).
    - destruct (removeExpire_at _ _ s2 id key Hat2 Hid val x He2) as (s3 & -> & Hed & [Hr Hl] & _). cbn.
      exists s3, None. split_and!; [done|by apply edit_eq in Hed|]. split.
      + eapply running_weaken; [|done]. set_solver.
      + intros Ha i k. rewrite (Hl Ha), (HM Ha). unfold put, supd. by case_decide. }
  cbn. destruct (signal_at [(id, key)] [] _ s3 id key Hat3 Hid) as (s4 & -> & Ed & Hdt & Hat4).
  { intros p ->%list_elem_of_singleton. by left. }
  exists s4, x'. split_and!; [done| |done..]. by rewrite (entry_same s3).
Qed.

Lemma put_put M id key o x o' x' i k : put e (put e M id key o x) id key o' x' i k = put e M id key o' x' i k.
Proof. unfold put, supd. by case_decide. Qed.

Lemma getGeneric_meets M ro s id key K (sp : smap -> smap * reply) : at_map [] M s -> (id < length (db s0))%nat ->
  (forall s' M', at_map [] M' s' -> seen M M' s s' id key -> meets (K s' (s_get M' id key)) (sp M')) ->
  meets ('(s', r) ← getGenericCommand e ro s id key; K s' r) (sp M).
Proof.
  intros Hat Hid HK. unfold getGenericCommand.
  destruct (lookupRead_at [] M ro s id key Hat Hid) as (s' & M' & -> & Hat' & Hf). cbn.
  apply (meets_switch (sp M')); [destruct Hf as (_ & HM & _); intros Ha; by rewrite HM|].
  replace (match fst <$> M' id key with Some (OBJ_STRING v) => _ | Some (OBJ_OTHER _ _) => _ | None => _ end)
    with (s_get M' id key) by (unfold s_get; by destruct (M' id key) as [[[] ?]|]).
  by apply HK.
Qed.

Lemma set_tail M s id key val flags when r : at_map [] M s -> (id < length (db s0))%nat ->
  meets (s ← genericSetKey e s id key (OBJ_STRING val) (flag flags OBJ_KEEPTTL) true;
         s ← match when with Some w => setExpire s id key w | None => Some s end; Some (s, r))
    (put e M id key (OBJ_STRING val)
       (match when with Some w => Some w | None => if flag flags OBJ_KEEPTTL then deadline M id key else None end), r).
Proof.
  intros Hat Hid. destruct (genericSetKey_at M s id key (OBJ_STRING val) (flag flags OBJ_KEEPTTL) Hat Hid)
    as (s1 & x & -> & He & Hdt & Hat1). cbn. destruct when as [w|]; cbn; [|by apply meets_ret].
  destruct (setExpire_at [] _ s1 id key Hat1 Hid w _ _ He) as (s2 & -> & Hed & Hat2). cbn. apply meets_ret; [|done].
  split; [eapply running_edit_dirty; [apply Hat1|done..]|]. intros Ha i k. rewrite (am_live _ _ _ Hat2 Ha). apply put_put.
Qed.

Lemma test_at (c : bool) M s id key : at_map [] M s -> (id < length (db s0))%nat ->
  exists s' M', (if c then '(s, o) ← lookupKeyWrite e s id key; Some (s, bool_decide (is_Some o)) else Some (s, false)) =
    Some (s', c && exists_in M' id key) /\ at_map [] M' s' /\ (active -> M' = M).
Proof.
  intros Hat Hid. destruct c; [|by exists s, M].
  destruct (lookupWrite_at [] M s id key Hat Hid) as (s' & M' & -> & Hat' & _ & HM & _). exists s', M'. cbn.
  split_and!; [|done..]. unfold exists_in. by destruct (M' id key).
Qed.

Lemma setGeneric_meets M s id flags key val expire ms ok ab : at_map [] M s -> (id < length (db s0))%nat ->
  meets (setGenericCommand e s id flags key val expire ms ok ab) (s_set e M id flags key val expire ms ok ab).
Proof.
  intros Hat Hid. unfold setGenericCommand, s_set.
  replace (match expire with Some x => r ← expire_time e flags ms x; Some (match r with inl (_, w) => inl (Some w) | inr x => inr x end)
           | None => Some (inl None) end)
    with (Some (match expire with None => inl None
                | Some x => match time_arg e flags ms x with inl (_, w) => inl (Some w) | inr x => inr x end end : option Z + error))
    by (destruct expire; [by rewrite expire_time_arg|done]).
  cbn. destruct (match expire with Some x => _ | None => _ end) as [when|x]; [|by apply meets_ret].
  destruct (test_at (flag flags OBJ_SET_NX) M s id key Hat Hid) as (s1 & M1 & -> & Hat1 & HM1). cbn.
  set (b1 := flag flags OBJ_SET_NX && exists_in M1 id key).
  assert (exists s2 M2 b, (if b1 then Some (s1, true) else if flag flags OBJ_SET_XX
      then '(s, o) ← lookupKeyWrite e s1 id key; Some (s, negb (bool_decide (is_Some o))) else Some (s1, false)) = Some (s2, b) /\
    at_map [] M2 s2 /\ (active -> M2 = M /\
      b = (flag flags OBJ_SET_NX && exists_in M id key) || (flag flags OBJ_SET_XX && negb (exists_in M id key))))
    as (s2 & M2 & b & -> & Hat2 & HM2).
  { destruct b1 eqn:Eb1; [exists s1, M1, true; split_and!; [done..|]; intros Ha; rewrite <- (HM1 Ha); fold b1; by rewrite Eb1|].
    destruct (flag flags OBJ_SET_XX).
    - destruct (lookupWrite_at [] M1 s1 id key Hat1 Hid) as (s2 & M2 & -> & Hat2 & _ & HM & _). cbn. exists s2, M2.
      eexists. split_and!; [done..|]. intros Ha. rewrite (HM Ha), <- (HM1 Ha). split; [done|]. fold b1. rewrite Eb1. cbn.
      unfold exists_in. by destruct (M1 id key).
    - exists s1, M1, false. split_and!; [done..|]. intros Ha. split; [by apply HM1|]. rewrite <- (HM1 Ha). fold b1. by rewrite Eb1. }
  cbn. destruct b.
  - apply (meets_switch (M2, ab)); [|by apply meets_ret]. intros Ha. destruct (HM2 Ha) as [-> <-]. done.
  - apply (meets_switch (match (if flag flags OBJ_SET_GET then s_get M2 id key else inl ok) with
      | inr r => (M2, r)
      | inl r => (put e M2 id key (OBJ_STRING val)
          (match when with Some w => Some w | None => if flag flags OBJ_KEEPTTL then deadline M2 id key else None end), r) end)).
    { intros Ha. destruct (HM2 Ha) as [-> <-]. done. }
    destruct (flag flags OBJ_SET_GET); [|cbn; by apply set_tail].
    apply (getGeneric_meets M2 false s2 id key _ (fun M2 => match s_get M2 id key with
      | inr r => (M2, r)
      | inl r => (put e M2 id key (OBJ_STRING val)
          (match when with Some w => Some w | None => if flag flags OBJ_KEEPTTL then deadline M2 id key else None end), r) end)); [done..|].
    intros s3 M3 Hat3 _. destruct (s_get M3 id key); [by apply set_tail|by apply meets_ret].
Qed.

Lemma set_meets M s id key val opts : at_map [] M s -> (id < length (db s0))%nat ->
  meets (setCommand e s id key val opts) (s_set_command e M id key val opts).
Proof.
  intros Hat Hid. unfold setCommand, s_set_command. destruct (parseExtended _ _ _ _ _) as [[[flags ms] expire]|].
  - by apply setGeneric_meets.
  - by apply meets_ret.
Qed.

Lemma get_meets M s id key : at_map [] M s -> (id < length (db s0))%nat ->
  meets ('(s, r) ← getGenericCommand e true s id key; Some (s, match r with inl r | inr r => r end))
    (M, match s_get M id key with inl r | inr r => r end).
Proof.
  intros Hat Hid. apply (getGeneric_meets M true s id key _ (fun M => (M, match s_get M id key with inl r | inr r => r end))); [done..|].
  intros s' M' Hat' _. by apply meets_ret.
Qed.

Lemma getdel_meets M s id key : at_map [] M s -> (id < length (db s0))%nat ->
  meets (getdelCommand e s id key) (s_getdel M id key).
Proof.
  intros Hat Hid. unfold getdelCommand.
  apply (getGeneric_meets M false s id key _ (fun M => s_getdel M id key)); [done..|]. intros s1 M1 Hat1 _. unfold s_getdel.
  destruct (s_get M1 id key) as [r|r]; [|by apply meets_ret].
  destruct (delete_at [] M1 s1 id key Hat1 Hid) as (s2 & -> & Hed & Hat2 & Hnone). cbn.
  case_bool_decide as Hs; cbn; [by apply (meets_signal_ret (supd M1 id key None))|].
  apply meets_ret; [|done]. apply Hnone. destruct (entry s1 id key); [|done]. exfalso. eauto.
Qed.

Lemma getset_meets M s id key val : at_map [] M s -> (id < length (db s0))%nat ->
  meets (getsetCommand e s id key val) (s_getset M id key val).
Proof.
  intros Hat Hid. unfold getsetCommand.
  apply (getGeneric_meets M false s id key _ (fun M => s_getset M id key val)); [done..|]. intros s1 M1 Hat1 _. unfold s_getset.
  destruct (s_get M1 id key) as [r|r]; [|by apply meets_ret]. unfold setKey.
  destruct (genericSetKey_at M1 s1 id key (OBJ_STRING val) false Hat1 Hid) as (s2 & x & -> & _ & _ & Hat2). by apply meets_ret.
Qed.

(** An entry that is changed in place keeps its deadline and stays alive. *)
Lemma put_found M s id key v x o : at_map [] M s -> M id key = Some (v, x) ->
  active -> forall i k, put e M id key o x i k = supd M id key (Some (o, x)) i k.
Proof. intros Hat HM Ha i k. unfold put. by rewrite (live_found M s id key v x Hat Ha HM). Qed.

Lemma flag_lor flags f g : Z.land f g = 0 -> flag (Z.lor flags f) g = flag flags g.
Proof. intros E. unfold flag. by rewrite Z.land_lor_distr_l, E, Z.lor_0_r. Qed.

(** The flags of an absolute time come with the time. *)
Lemma parseExtended_at get opts flags ms expire flags' ms' :
  (flag flags OBJ_PXAT || flag flags OBJ_EXAT = true -> is_Some expire) ->
  parseExtended get opts flags ms expire = Some (flags', ms', None) ->
  flag flags' OBJ_PXAT || flag flags' OBJ_EXAT = false.
Proof.
  remember (length opts) as n eqn:En. assert (Hn : (length opts <= n)%nat) by lia. clear En.
  revert opts Hn flags ms expire. induction n as [|n IH]; intros [|opt opts] Hn flags ms expire Hf; cbn in Hn; try lia; cbn [parseExtended].
  1,2: intros [= <- <- ->]; destruct (_ || _); [by destruct (Hf eq_refl)|done].
  assert (Hkeep : forall f, Z.land f OBJ_PXAT = 0 -> Z.land f OBJ_EXAT = 0 ->
    flag (Z.lor flags f) OBJ_PXAT || flag (Z.lor flags f) OBJ_EXAT = true -> is_Some expire)
    by (intros f E1 E2; by rewrite !flag_lor).
  repeat match goal with
  | |- (if ?b then _ else _) = _ -> _ => destruct b; [apply IH; [lia|apply Hkeep; reflexivity]|]
  end.
  destruct opts as [|next opts]; [discriminate|]. cbn [length] in Hn.
  repeat match goal with
  | |- (if ?b then _ else _) = _ -> _ => destruct b; [apply IH; [lia|intros _; by eexists]|]
  end.
  discriminate.
Qed.

Lemma expire_edit M s id key o x w r : at_map [] M s -> (id < length (db s0))%nat -> entry s id key = Some (o, x) ->
  meets (s ← setExpire s id key w; s ← signalModifiedKey s id key; Some (s, r)) (put e M id key o (Some w), r).
Proof.
  intros Hat Hid He. destruct (setExpire_at [] M s id key Hat Hid w o x He) as (s1 & -> & _ & Hat1). cbn.
  by apply (meets_signal_ret (put e M id key o (Some w))).
Qed.
Lemma delete_edit M s id key v r : at_map [] M s -> (id < length (db s0))%nat -> entry s id key = Some v ->
  meets ('(s, deleted) ← dbSyncDelete s id key; assert! (deleted : bool); s ← signalModifiedKey s id key; Some (s, r))
    (supd M id key None, r).
Proof.
  intros Hat Hid He. destruct (delete_at [] M s id key Hat Hid) as (s1 & -> & _ & Hat1 & _). rewrite He. cbn.
  by apply (meets_signal_ret (supd M id key None)).
Qed.

Lemma getex_meets M s id key opts : at_map [] M s -> (id < length (db s0))%nat ->
  meets (getexCommand e s id key opts) (s_getex e M id key opts).
Proof.
  intros Hat Hid. unfold getexCommand, s_getex.
  destruct (parseExtended _ _ _ _ _) as [[[flags ms] expire]|] eqn:Ep; [|by apply meets_ret].
  eapply (meets_read M false s id key _ (fun M => match M id key with Some (OBJ_STRING v, x) => _ | Some (OBJ_OTHER _ _, _) => _ | None => _ end));
    [done..|]. intros s1 M1 Hat1 (Hseen & _).
  destruct (M1 id key) as [[[v|] x]|] eqn:Em; cbn; [|by apply meets_ret..]. specialize (Hseen _ eq_refl).
  destruct expire as [b|].
  - rewrite expire_time_arg. cbn. destruct (time_arg e flags ms b) as [[m w]|err]; [|by apply meets_ret].
    destruct (flag flags OBJ_PXAT || flag flags OBJ_EXAT); cbn; [|by apply (expire_edit M1 s1 id key _ x)].
    destruct (checkAlreadyExpired e m) eqn:Ec.
    + apply (meets_switch (supd M1 id key None, RBulk v)); [|by eapply delete_edit]. intros _.
      unfold checkAlreadyExpired in Ec. destruct (m <=? mstime e); [done|discriminate].
    + apply (meets_switch (put e M1 id key (OBJ_STRING v) (Some w), RBulk v)); [|by eapply expire_edit].
      intros (Hm & Hl & _ & _). unfold checkAlreadyExpired in Ec. rewrite Hm, Hl in Ec. cbn in Ec. rewrite !andb_true_r in Ec. by rewrite Ec.
  - cbn. rewrite (parseExtended_at true opts 0 false None flags ms) by done. cbn.
    destruct (flag flags OBJ_PERSIST); [|by apply meets_ret].
    destruct (removeExpire_at [] M1 s1 id key Hat1 Hid _ _ Hseen) as (s2 & -> & _ & Hat2 & Hnone). cbn.
    destruct x as [w|]; cbn; [by apply (meets_signal_ret (supd M1 id key (Some (OBJ_STRING v, None))))|].
    apply meets_ret; [|done]. by apply Hnone.
Qed.

(** The size of a string is limited to what can be allocated. *)
Definition env_ok : Prop := from_master e = false /\ proto_max_bulk_len e <= max_alloc e.
(** The end of the range of SETRANGE is a [long long]. *)
Definition cmd_ok (k : cmd) : Prop :=
  match k with SETRANGE _ off val => forall o, num off = Some o -> o + blen val < 2 ^ 63 | _ => True end.

Lemma write_range_Some v o val : env_ok -> 0 <= o -> o + blen val < 2 ^ 63 -> checkStringLength e (o + blen val) = true ->
  exists b, write_range e v o val = Some b.
Proof.
  intros [Hm Hl] Ho Hlt Hc. unfold checkStringLength in Hc. rewrite Hm in Hc. cbn in Hc.
  assert (0 <= blen val) by (unfold blen; lia).
  rewrite sint_small in Hc by (try done; unfold in_sint; lia). unfold write_range.
  rewrite uint_small by (unfold in_uint; lia). destruct (Z.leb_spec (o + blen val) (max_alloc e)); [eauto|]. lia.
Qed.

Lemma setrange_meets M s id key off val : at_map [] M s -> (id < length (db s0))%nat -> env_ok -> cmd_ok (SETRANGE key off val) ->
  meets (setrangeCommand e s id key off val) (s_setrange e M id key off val).
Proof.
  intros Hat Hid He Hk. unfold setrangeCommand, s_setrange. destruct (getLongLong_num off) as [-> _]. cbn.
  destruct (num off) as [o|] eqn:Eo; [|by apply meets_ret]. specialize (Hk o Eo).
  destruct (Z.ltb_spec o 0); [by apply meets_ret|].
  eapply (meets_write M s id key _ (fun M => match match M id key with Some (OBJ_STRING v, x) => _ | Some (OBJ_OTHER _ _, _) => _ | None => _ end with inl p => _ | inr err => _ end));
    [done..|]. intros s1 M1 Hat1 (HM1 & _).
  destruct (M1 id key) as [[[v|] x]|] eqn:Em; cbn; [|by apply meets_ret|].
  all: (bcase; [by apply meets_ret|]); destruct (checkStringLength e _) eqn:Ec; cbn; [|by apply meets_ret];
    match goal with |- context [write_range e ?v _ _] => destruct (write_range_Some v o val) as [b Eb]; [done..|] end; rewrite Eb; cbn.
  - destruct (overwrite_at [] M1 s1 id key Hat1 Hid (OBJ_STRING b) _ _ (eq_sym HM1)) as (s2 & -> & _ & Hat2). cbn.
    apply (meets_signal_ret (put e M1 id key (OBJ_STRING b) x)); [done..|]. by eapply put_found.
  - destruct (add_at [] M1 s1 id key Hat1 Hid (OBJ_STRING b) (eq_sym HM1)) as (s2 & -> & _ & Hat2). cbn.
    by apply (meets_signal_ret (supd M1 id key (Some (OBJ_STRING b, None)))).
Qed.

Lemma sint_le v : 0 <= v -> sint 64 v <= v.
Proof. intros Hv. unfold sint. pose proof (Z.mod_le v (2 ^ 64) Hv ltac:(lia)). bcase; lia. Qed.

Lemma getrange_value v a b : in_sint 64 a -> in_sint 64 b ->
  (let len := blen v in
   if (a <? 0) && (b <? 0) && (a >? b) then Some (RBulk [])
   else
     let start := if a <? 0 then sint 64 (len + a) else a in
     let stop := if b <? 0 then sint 64 (len + b) else b in
     let start := if start <? 0 then 0 else start in
     let stop := if stop <? 0 then 0 else stop in
     let stop := if uint 64 stop >=? len then sint 64 (len - 1) else stop in
     if (start >? stop) || (len =? 0) then Some (RBulk [])
     else r ← bread v start (stop - start + 1); Some (RBulk r)) = Some (RBulk (substring v a b)).
Proof.
  intros Ha Hb. unfold substring. cbv zeta. destruct (_ && _); [done|].
  set (start := if a <? 0 then _ else _). set (stop := if b <? 0 then _ else _).
  assert (Hs : in_sint 64 stop) by (subst stop; bcase; [apply sint_range; lia|done]).
  replace (if start <? 0 then 0 else start) with (Z.max 0 start) by (bcase; lia).
  replace (if stop <? 0 then 0 else stop) with (Z.max 0 stop) by (bcase; lia).
  rewrite uint_small by (unfold in_sint, in_uint in *; lia).
  assert (0 <= blen v) by (unfold blen; lia).
  destruct (_ || _) eqn:Ec; [done|]. rewrite orb_false_iff, Z.eqb_neq, Z.gtb_ltb, Z.ltb_ge in Ec.
  assert (Hb2 : (if Z.max 0 stop >=? blen v then sint 64 (blen v - 1) else Z.max 0 stop) <= blen v - 1).
  { bcase; [apply sint_le; lia|lia]. }
  unfold bread, inside. bdec. done.
Qed.

Lemma getrange_meets M s id key a b : at_map [] M s -> (id < length (db s0))%nat ->
  meets (getrangeCommand e s id key a b) (M, s_getrange M id key a b).
Proof.
  intros Hat Hid. unfold getrangeCommand, s_getrange. destruct (getLongLong_num a) as [-> Ha], (getLongLong_num b) as [-> Hb]. cbn.
  destruct (num a) as [x|]; [|by apply meets_ret]. destruct (num b) as [y|]; [|by apply meets_ret].
  eapply (meets_read M true s id key _ (fun M => (M, match M id key with Some (OBJ_STRING v, x) => _ | Some (OBJ_OTHER _ _, _) => _ | None => _ end)));
    [done..|]. intros s1 M1 Hat1 _. destruct (M1 id key) as [[[v|] w]|]; cbn; [|by apply meets_ret..].
  pose proof (getrange_value v x y (Ha x eq_refl) (Hb y eq_refl)) as E. cbv zeta in E.
  destruct (_ && _); [injection E as <-; by apply meets_ret|].
  destruct (_ || _); [injection E as <-; by apply meets_ret|].
  destruct (bread _ _ _); [|done]. cbn in E |- *. injection E as <-. by apply meets_ret.
Qed.

Lemma strlen_meets M s id key : at_map [] M s -> (id < length (db s0))%nat ->
  meets (strlenCommand e s id key) (M, s_strlen M id key).
Proof.
  intros Hat Hid. unfold strlenCommand.
  apply (meets_read M true s id key _ (fun M => (M, s_strlen M id key))); [done..|].
  intros s1 M1 Hat1 _. apply meets_ret; [done|]. intros _. unfold s_strlen. by destruct (M1 id key) as [[[] ?]|].
Qed.

Lemma append_meets M s id key val : at_map [] M s -> (id < length (db s0))%nat ->
  meets (appendCommand e s id key val) (s_append e M id key val).
Proof.
  intros Hat Hid. unfold appendCommand.
  apply (meets_write M s id key _ (fun M => s_append e M id key val)); [done..|]. intros s1 M1 Hat1 (HM1 & _).
  unfold s_append. destruct (M1 id key) as [[[v|] x]|] eqn:Em; cbn; [|by apply meets_ret|].
  - destruct (checkStringLength e _); cbn; [|by apply meets_ret].
    destruct (overwrite_at [] M1 s1 id key Hat1 Hid (OBJ_STRING (v ++ val)) _ _ (eq_sym HM1)) as (s2 & -> & _ & Hat2). cbn.
    apply (meets_signal_ret (put e M1 id key (OBJ_STRING (v ++ val)) x)); [done..|]. by eapply put_found.
  - destruct (add_at [] M1 s1 id key Hat1 Hid (OBJ_STRING val) (eq_sym HM1)) as (s2 & -> & _ & Hat2). cbn.
    by apply (meets_signal_ret (supd M1 id key (Some (OBJ_STRING val, None)))).
Qed.

Lemma ll_bytes_Some v : in_sint 64 v -> exists b, ll_bytes v = Some b.
Proof.
  intros Hv. unfold ll_bytes. destruct (ll2string_spec (replicate 21 0) 21 v Hv) as (b & _ & _ & ->); [done|].
  destruct (blen b <? 21); cbn; eauto.
Qed.

(** The test before the addition is the test on the sum. *)
Lemma incr_overflow v i : in_sint 64 v -> in_sint 64 i ->
  ((i <? 0) && (v <? 0) && (i <? LLONG_MIN - v)) || ((i >? 0) && (v >? 0) && (i >? LLONG_MAX - v)) =
  negb ((LLONG_MIN <=? v + i) && (v + i <=? LLONG_MAX)).
Proof. unfold in_sint, LLONG_MIN, LLONG_MAX. lia. Qed.

Lemma incr_meets M s id key i : at_map [] M s -> (id < length (db s0))%nat -> in_sint 64 i ->
  meets (incrDecrCommand e s id key i) (s_incr M id key i).
Proof.
  intros Hat Hid Hi. unfold incrDecrCommand.
  apply (meets_write M s id key _ (fun M => s_incr M id key i)); [done..|]. intros s1 M1 Hat1 (HM1 & _).
  unfold s_incr. destruct (M1 id key) as [[[b|] x]|] eqn:Em; cbn [fmap option_fmap option_map fst wrong_type mbind option_bind];
    [|by apply meets_ret|].
  - destruct (getLongLong_num b) as [-> Hb]. cbn. destruct (num b) as [v|]; [|by apply meets_ret].
    specialize (Hb v eq_refl). rewrite incr_overflow by done.
    destruct ((LLONG_MIN <=? v + i) && _) eqn:Er; cbn; [|by apply meets_ret].
    destruct (ll_bytes_Some (v + i)) as [n En]; [unfold in_sint, LLONG_MIN, LLONG_MAX in *; lia|]. rewrite En. cbn.
    destruct (overwrite_at [] M1 s1 id key Hat1 Hid (OBJ_STRING n) _ _ (eq_sym HM1)) as (s2 & -> & _ & Hat2). cbn.
    apply (meets_signal_ret (put e M1 id key (OBJ_STRING n) x)); [done..|]. by eapply put_found.
  - rewrite incr_overflow by done.
    destruct ((LLONG_MIN <=? 0 + i) && _) eqn:Er; cbn [negb]; [|by apply meets_ret].
    destruct (ll_bytes_Some (0 + i)) as [n En]; [unfold in_sint, LLONG_MIN, LLONG_MAX in *; lia|]. rewrite En. cbn [mbind option_bind from_option].
    destruct (add_at [] M1 s1 id key Hat1 Hid (OBJ_STRING n) (eq_sym HM1)) as (s2 & -> & _ & Hat2). cbn [mbind option_bind].
    by apply (meets_signal_ret (supd M1 id key (Some (OBJ_STRING n, None)))).
Qed.

Lemma mget_meets keys M s id : at_map [] M s -> (id < length (db s0))%nat ->
  exists s' M' rs, mgetCommand e s id keys = Some (s', rs) /\ at_map [] M' s' /\ (active -> M' = M /\ rs = s_mget M id keys).
Proof.
  intros Hat Hid. revert M s Hat. induction keys as [|key keys IH]; cbn; intros M s Hat; [by exists s, M, []|].
  destruct (lookupRead_at [] M true s id key Hat Hid) as (s1 & M1 & -> & Hat1 & _ & HM1 & _). cbn.
  destruct (IH M1 s1 Hat1) as (s2 & M2 & rs & -> & Hat2 & H2). cbn. eexists s2, M2, _. split_and!; [done..|].
  intros Ha. destruct (H2 Ha) as [E2 Ers]. specialize (HM1 Ha). subst M2 M1. split; [done|]. f_equal; [|done].
  by destruct (M id key) as [[[] ?]|].
Qed.

Lemma any_exists_at keys M s id : at_map [] M s -> (id < length (db s0))%nat ->
  exists s' M' b, any_exists e s id keys = Some (s', b) /\ at_map [] M' s' /\ (active -> M' = M /\ b = existsb (exists_in M id) keys).
Proof.
  intros Hat Hid. revert M s Hat. induction keys as [|key keys IH]; cbn; intros M s Hat; [by exists s, M, false|].
  destruct (lookupWrite_at [] M s id key Hat Hid) as (s1 & M1 & -> & Hat1 & _ & HM1 & _). cbn.
  destruct (M1 id key) as [v|] eqn:Em; cbn.
  - exists s1, M1, true. split_and!; [done..|]. intros Ha. specialize (HM1 Ha). subst M1. split; [done|].
    unfold exists_in at 1. by rewrite Em.
  - destruct (IH M1 s1 Hat1) as (s2 & M2 & b & -> & Hat2 & H2). exists s2, M2, b. split_and!; [done..|].
    intros Ha. destruct (H2 Ha) as [-> ->]. specialize (HM1 Ha). subst M1. split; [done|]. unfold exists_in at 2. by rewrite Em.
Qed.

Lemma set_all_at kvs M s id : at_map [] M s -> (id < length (db s0))%nat ->
  exists s', set_all e s id kvs = Some s' /\
    at_map [] (foldl (fun M '(k, v) => supd M id k (Some (OBJ_STRING v, None))) M kvs) s'.
Proof.
  intros Hat Hid. revert M s Hat. induction kvs as [|[key val] kvs IH]; cbn; intros M s Hat; [by exists s|].
  unfold setKey. destruct (genericSetKey_at M s id key (OBJ_STRING val) false Hat Hid) as (s1 & x & -> & _ & _ & Hat1). cbn.
  by apply IH.
Qed.

Lemma mset_meets M s id kvs nx : at_map [] M s -> (id < length (db s0))%nat ->
  meets (msetGenericCommand e s id kvs nx) (s_mset M id kvs nx).
Proof.
  intros Hat Hid. unfold msetGenericCommand, s_mset.
  assert (exists s1 M1 b, (if nx then any_exists e s id kvs.*1 else Some (s, false)) = Some (s1, b) /\ at_map [] M1 s1 /\
    (active -> M1 = M /\ b = nx && existsb (exists_in M id) kvs.*1)) as (s1 & M1 & b & -> & Hat1 & H1).
  { destruct nx; [|by exists s, M, false]. by apply any_exists_at. }
  cbn. destruct b.
  - apply (meets_switch (M1, RInt 0)); [|by apply meets_ret]. intros Ha. destruct (H1 Ha) as [-> <-]. done.
  - destruct (set_all_at kvs M1 s1 id Hat1 Hid) as (s2 & -> & Hat2). cbn.
    apply (meets_switch (foldl (fun M '(k, v) => supd M id k (Some (OBJ_STRING v, None))) M1 kvs, if nx then RInt 1 else ROk));
      [|by apply meets_ret]. intros Ha. destruct (H1 Ha) as [-> <-]. done.
Qed.

(** ** db.c *)

Lemma del_meets keys n M s id : at_map [] M s -> (id < length (db s0))%nat ->
  meets (delGenericCommand e s id keys n) (s_del M id keys n).
Proof.
  intros Hat Hid. revert n M s Hat. induction keys as [|key keys IH]; cbn; intros n M s Hat; [by apply meets_ret|].
  destruct (expire_at [] M s id key Hat Hid) as (s1 & -> & Hat1 & HM & _ & _). cbn.
  destruct (delete_at [] M s1 id key Hat1 Hid) as (s2 & -> & _ & Hat2 & Hnone). cbn.
  destruct (entry s1 id key) as [v|] eqn:Ev; cbn.
  - apply (meets_signal [(id, key)] [] (supd M id key None)); [done..|intros p ->%list_elem_of_singleton; by left|].
    intros s3 _ Hat3. apply (meets_switch (s_del (supd M id key None) id keys (n + 1))); [|by apply IH].
    intros Ha. unfold exists_in. by rewrite <- (HM Ha).
  - apply (meets_switch (s_del (supd M id key None) id keys n)); [|apply IH; by apply Hnone].
    intros Ha. unfold exists_in. by rewrite <- (HM Ha).
Qed.

Lemma exists_meets keys n M s id : at_map [] M s -> (id < length (db s0))%nat ->
  meets (existsCommand e s id keys n) (M, RInt (n + Z.of_nat (length (filter (fun key => exists_in M id key = true) keys)))).
Proof.
  intros Hat Hid. revert n M s Hat. induction keys as [|key keys IH]; cbn [existsCommand]; intros n M s Hat.
  { apply meets_ret; [done|]. intros _. cbn. by rewrite Z.add_0_r. }
  apply (meets_read M true s id key _ (fun M => (M, RInt (n + Z.of_nat (length (filter (fun key => exists_in M id key = true) (key :: keys)))))));
    [done..|]. intros s1 M1 Hat1 _.
  replace (match fst <$> M1 id key with Some _ => n + 1 | None => n end) with (if exists_in M1 id key then n + 1 else n)
    by (unfold exists_in; by destruct (M1 id key)).
  eapply meets_switch; [|by apply IH]. intros _. do 2 f_equal. rewrite filter_cons.
  destruct (exists_in M1 id key); [rewrite decide_True by done; cbn [length]; lia|by rewrite decide_False].
Qed.

Lemma type_meets M s id key : at_map [] M s -> (id < length (db s0))%nat ->
  meets (typeCommand e s id key) (M, RStatus (getObjectTypeName (fst <$> M id key))).
Proof.
  intros Hat Hid. apply (meets_read M true s id key _ (fun M => (M, RStatus (getObjectTypeName (fst <$> M id key))))); [done..|].
  intros s1 M1 Hat1 _. by apply meets_ret.
Qed.

(** A value with a deadline put under a key, in the place of what is there *)
Lemma place_at M s id key o x (old : option robj) : at_map [] M s -> (id < length (db s0))%nat ->
  (old = None -> entry s id key = None) ->
  exists s1 s2 s3,
    match old with Some _ => '(s, _) ← dbDelete s id key; Some s | None => Some s end = Some s1 /\
    dbAdd s1 id key o = Some s2 /\
    (if negb (default (-1) x =? -1) then setExpire s2 id key (default (-1) x) else Some s2) = Some s3 /\
    at_map [(id, key)] (put e M id key o (carried x)) s3 /\
    (forall i k, (i, k) <> (id, key) -> entry s3 i k = entry s i k).
Proof.
  intros Hat Hid Hold.
  assert (exists s1, match old with Some _ => '(s, _) ← dbDelete s id key; Some s | None => Some s end = Some s1 /\
    entry s1 id key = None /\ at_map [(id, key)] (supd M id key None) s1 /\
    (forall i k, (i, k) <> (id, key) -> entry s1 i k = entry s i k)) as (s1 & E1 & En & Hat1 & Hf1).
  { destruct old as [v|].
    - destruct (delete_at [] M s id key Hat Hid) as (s1 & E & Hed & Hat1 & _). unfold dbDelete. rewrite E. exists s1. cbn.
      split_and!; [done|by apply edit_eq in Hed|done|]. intros i k. by apply edit_ne with None.
    - exists s. split_and!; [done|auto| |done]. split; [eapply running_weaken; [|apply Hat]; set_solver|].
      intros Ha i k. rewrite (am_live _ _ _ Hat Ha). unfold supd. case_decide as Hc; [|done]. destruct Hc as [-> ->].
      rewrite <- (am_live _ _ _ Hat Ha), Hold by done. done. }
  destruct (add_at _ _ s1 id key Hat1 Hid o En) as (s2 & E2 & Hed2 & Hat2).
  assert (exists s3, (if negb (default (-1) x =? -1) then setExpire s2 id key (default (-1) x) else Some s2) = Some s3 /\
    at_map [(id, key)] (put e M id key o (carried x)) s3 /\
    (forall i k, (i, k) <> (id, key) -> entry s3 i k = entry s2 i k)) as (s3 & E3 & Hat3 & Hf3).
  { unfold carried. destruct (default (-1) x =? -1) eqn:Ex; cbn [negb].
    - exists s2. split_and!; [done| |done]. split; [eapply running_weaken; [|apply Hat2]; set_solver|].
      intros Ha i k. rewrite (am_live _ _ _ Hat2 Ha). unfold put, supd. by case_decide.
    - destruct x as [w|]; [|discriminate]. cbn [default from_option].
      destruct (setExpire_at _ _ s2 id key Hat2 Hid w o None (edit_eq _ _ _ _ _ Hed2)) as (s3 & E & Hed & Hat3).
      exists s3. split_and!; [done| |intros i k; by apply edit_ne with (Some (o, Some w))].
      split; [eapply running_weaken; [|apply Hat3]; set_solver|].
      intros Ha i k. rewrite (am_live _ _ _ Hat3 Ha). unfold put, supd. by case_decide. }
  exists s1, s2, s3. split_and!; [done..|]. intros i k Hne. rewrite Hf3, (edit_ne _ _ _ _ _ i k Hed2), Hf1 by done. done.
Qed.

Lemma live_carried M s id key o x : at_map [] M s -> active -> M id key = Some (o, x) -> live e (Some (o, carried x)) = Some (o, carried x).
Proof. intros Hat Ha HM. unfold carried. destruct (_ =? _); [done|]. by eapply live_found. Qed.

Lemma rename_meets M s id key newkey nx : at_map [] M s -> (id < length (db s0))%nat ->
  meets (renameGenericCommand e s id key newkey nx) (s_rename M id key newkey nx).
Proof.
  intros Hat Hid. unfold renameGenericCommand.
  apply (meets_write M s id key _ (fun M => s_rename M id key newkey nx)); [done..|]. intros s1 M1 Hat1 (HM1 & _).
  unfold s_rename. destruct (M1 id key) as [[o x]|] eqn:Em; cbn; [|by apply meets_ret].
  case_bool_decide as Hk; [by apply meets_ret|]. assert (Hne : (id, key) <> (id, newkey)) by congruence.
  rewrite (getExpire_at [] M1 s1 id key Hat1 Hid o x) by done. cbn.
  destruct (lookupWrite_at [] M1 s1 id newkey Hat1 Hid) as (s2 & M2 & -> & Hat2 & HM2 & HA2 & HF2 & He2). cbn.
  rewrite <- (HF2 id key Hne) in Em.
  assert (Hex : bool_decide (is_Some (fst <$> M2 id newkey)) = exists_in M2 id newkey) by (unfold exists_in; by destruct (M2 id newkey)).
  rewrite Hex. apply (meets_switch (if exists_in M2 id newkey && nx then (M2, RInt 0)
    else (supd (supd M2 id newkey (Some (o, carried x))) id key None, if nx then RInt 1 else ROk))).
  { intros Ha. by rewrite (HA2 Ha). }
  destruct (_ && nx); [by apply meets_ret|].
  destruct (place_at M2 s2 id newkey o x (fst <$> M2 id newkey) Hat2 Hid) as (s3 & s4 & s5 & -> & E4 & E5 & Hat5 & Hf5).
  { rewrite <- HM2. by destruct (M2 id newkey). }
  cbn. rewrite E4. cbn. rewrite E5. cbn. unfold dbDelete.
  destruct (delete_at _ _ s5 id key Hat5 Hid) as (s6 & -> & _ & Hat6 & _). cbn.
  apply (meets_signal [(id, key); (id, newkey)] [(id, newkey)] (supd (put e M2 id newkey o (carried x)) id key None)); [done..|set_solver|].
  intros s7 _ Hat7. apply (meets_signal_ret _ _ _ _ _ _ Hat7 Hid).
  intros Ha i k. unfold put. by rewrite (live_carried M2 s2 id key o x).
Qed.

Lemma move_meets M s src key arg : at_map [] M s -> (src < length (db s0))%nat ->
  meets (moveCommand e s src key arg) (s_move (Z.of_nat (length (db s0))) M src key arg).
Proof.
  intros Hat Hid. unfold moveCommand, s_move. rewrite getInt_arg. cbn. destruct (int_arg arg) as [i|x]; [|by apply meets_ret].
  unfold valid_db, dbnum. rewrite (running_length s0 [] s) by apply Hat.
  destruct (_ && _) eqn:Ei; cbn; [|by apply meets_ret]. case_bool_decide as Hsd; [by apply meets_ret|].
  assert (Hdst : (Z.to_nat i < length (db s0))%nat) by lia. assert (Hne : (src, key) <> (Z.to_nat i, key)) by congruence.
  eapply (meets_write M s src key _ (fun M => match M src key with Some (o, x) => _ | None => _ end)); [done..|].
  intros s1 M1 Hat1 (HM1 & _). destruct (M1 src key) as [[o x]|] eqn:Em; cbn; [|by apply meets_ret].
  rewrite (getExpire_at [] M1 s1 src key Hat1 Hid o x) by done. cbn.
  destruct (lookupWrite_at [] M1 s1 (Z.to_nat i) key Hat1 Hdst) as (s2 & M2 & -> & Hat2 & HM2 & HA2 & HF2 & He2). cbn.
  rewrite <- (HF2 src key Hne) in Em.
  assert (Hex : bool_decide (is_Some (fst <$> M2 (Z.to_nat i) key)) = exists_in M2 (Z.to_nat i) key)
    by (unfold exists_in; by destruct (M2 (Z.to_nat i) key)).
  rewrite Hex. apply (meets_switch (if exists_in M2 (Z.to_nat i) key then (M2, RInt 0)
    else (supd (supd M2 (Z.to_nat i) key (Some (o, carried x))) src key None, RInt 1))).
  { intros Ha. by rewrite (HA2 Ha). }
  destruct (exists_in M2 _ key) eqn:Eex; [by apply meets_ret|].
  destruct (place_at M2 s2 (Z.to_nat i) key o x None Hat2 Hdst) as (s3 & s4 & s5 & E3 & E4 & E5 & Hat5 & Hf5).
  { intros _. rewrite <- HM2. unfold exists_in in Eex. by destruct (M2 (Z.to_nat i) key). }
  injection E3 as <-. rewrite E4. cbn. rewrite E5. cbn. unfold dbDelete.
  destruct (delete_at _ _ s5 src key Hat5 Hid) as (s6 & -> & _ & Hat6 & _). cbn.
  apply (meets_signal [(src, key); (Z.to_nat i, key)] [(Z.to_nat i, key)] (supd (put e M2 (Z.to_nat i) key o (carried x)) src key None));
    [done..|set_solver|].
  intros s7 _ Hat7. apply (meets_signal_ret _ _ _ _ _ _ Hat7 Hdst).
  intros Ha j k. unfold put. by rewrite (live_carried M2 s2 src key o x).
Qed.

Lemma copy_options_ok s opts dst replace : length (db s) = length (db s0) ->
  copy_options s opts dst replace = Some (s_copy_options (Z.of_nat (length (db s0))) opts dst replace).
Proof.
  intros Hl. remember (length opts) as n eqn:En. assert (Hn : (length opts <= n)%nat) by lia. clear En.
  revert opts Hn dst replace. induction n as [|n IH]; intros [|opt opts] Hn dst replace; cbn [length] in Hn; try lia;
    cbn [copy_options s_copy_options]; [done..|].
  destruct (is_opt opt "replace"); [apply IH; lia|]. destruct (is_opt opt "db"); [|done].
  destruct opts as [|arg opts]; [done|]. cbn [length] in Hn. rewrite getInt_arg. cbn [mbind option_bind].
  destruct (int_arg arg); [|done]. unfold valid_db, dbnum. rewrite Hl. destruct (_ && _); cbn [negb]; [apply IH; lia|done].
Qed.
Lemma copy_options_valid n opts dst replace dst' replace' : (Z.of_nat dst < n) ->
  s_copy_options n opts dst replace = inl (dst', replace') -> Z.of_nat dst' < n.
Proof.
  remember (length opts) as m eqn:Em. assert (Hm : (length opts <= m)%nat) by lia. clear Em.
  revert opts Hm dst replace. induction m as [|m IH]; intros [|opt opts] Hm dst replace Hd; cbn [length] in Hm; try lia;
    cbn [s_copy_options]; [by intros [= <- <-]..|].
  destruct (is_opt opt "replace"); [apply IH; [lia|done]|]. destruct (is_opt opt "db"); [|done].
  destruct opts as [|arg opts]; [done|]. cbn [length] in Hm. destruct (int_arg arg); [|done].
  destruct (_ && _) eqn:Ei; cbn [negb]; [|done]. apply IH; lia.
Qed.

Lemma copy_meets M s src key newkey opts : at_map [] M s -> (src < length (db s0))%nat ->
  meets (copyCommand e s src key newkey opts) (s_copy (Z.of_nat (length (db s0))) M src key newkey opts).
Proof.
  intros Hat Hid. unfold copyCommand, s_copy. rewrite copy_options_ok by (eapply running_length; apply Hat). cbn.
  destruct (s_copy_options _ _ _ _) as [[dst replace]|x] eqn:Eo; [|by apply meets_ret].
  apply copy_options_valid in Eo; [|lia]. assert (Hdst : (dst < length (db s0))%nat) by lia. clear Eo.
  destruct (bool_decide (src = dst) && bool_decide (key = newkey)) eqn:Es; [by apply meets_ret|].
  assert (Hne : (src, key) <> (dst, newkey)) by (intros [= -> ->]; by rewrite !bool_decide_true in Es).
  clear Es.
  eapply (meets_write M s src key _ (fun M => match M src key with Some (o, x) => _ | None => _ end)); [done..|].
  intros s1 M1 Hat1 (HM1 & _). destruct (M1 src key) as [[o x]|] eqn:Em; cbn; [|by apply meets_ret].
  rewrite (getExpire_at [] M1 s1 src key Hat1 Hid o x) by done. cbn.
  destruct (lookupWrite_at [] M1 s1 dst newkey Hat1 Hdst) as (s2 & M2 & -> & Hat2 & HM2 & HA2 & HF2 & He2). cbn.
  rewrite <- (HF2 src key Hne) in Em.
  assert (Hex : bool_decide (is_Some (fst <$> M2 dst newkey)) = exists_in M2 dst newkey) by (unfold exists_in; by destruct (M2 dst newkey)).
  rewrite Hex. apply (meets_switch (if exists_in M2 dst newkey && negb replace then (M2, RInt 0)
    else (supd M2 dst newkey (Some (o, carried x)), RInt 1))).
  { intros Ha. by rewrite (HA2 Ha). }
  destruct (exists_in M2 dst newkey && negb replace); [by apply meets_ret|].
  destruct (place_at M2 s2 dst newkey o x (fst <$> M2 dst newkey) Hat2 Hdst) as (s3 & s4 & s5 & -> & E4 & E5 & Hat5 & Hf5).
  { rewrite <- HM2. by destruct (M2 dst newkey). }
  cbn. rewrite E4. cbn. rewrite E5. cbn. apply (meets_signal_ret _ _ _ _ _ _ Hat5 Hdst).
  intros Ha i k. unfold put. by rewrite (live_carried M2 s2 src key o x).
Qed.

Lemma dbsize_ok s id : running s0 [] s -> (id < length (db s0))%nat -> exists s' r, dbsizeCommand s id = Some (s', r) /\ running s0 [] s'.
Proof. intros Hr Hid. destruct (running_db s0 [] s id Hr Hid) as [d Hd]. unfold dbsizeCommand. rewrite Hd. cbn. eauto. Qed.

(** ** expire.c *)

Lemma expire_meets M s id key param basetime ms : at_map [] M s -> (id < length (db s0))%nat ->
  meets (expireGenericCommand e s id key param basetime ms) (s_expire e M id key param basetime ms).
Proof.
  intros Hat Hid. unfold expireGenericCommand, s_expire. destruct (getLongLong_num param) as [-> _]. cbn.
  destruct (num param) as [v|]; [|by apply meets_ret].
  destruct (expire_when v basetime ms) as [w|]; [|by apply meets_ret].
  eapply (meets_write M s id key _ (fun M => match M id key with Some (o, x) => _ | None => _ end)); [done..|].
  intros s1 M1 Hat1 (HM1 & _). destruct (M1 id key) as [[o x]|] eqn:Em; cbn; [|by apply meets_ret].
  destruct (checkAlreadyExpired e w) eqn:Ec; unfold checkAlreadyExpired in Ec.
  - apply (meets_switch (supd M1 id key None, RInt 1)); [|by eapply delete_edit].
    intros _. destruct (w <=? mstime e); [done|discriminate].
  - apply (meets_switch (put e M1 id key o (Some w), RInt 1)); [|by eapply expire_edit].
    intros (Hm & Hl & _ & Hn). rewrite Hm, Hl in Ec. cbn in Ec. rewrite !andb_true_r in Ec. rewrite Ec.
    unfold put, live, dead_at. rewrite Hl. apply Z.leb_gt in Ec. bdestr (now e >? w); [lia|]. by rewrite andb_false_r.
Qed.

Lemma ttl_meets M s id key ms : at_map [] M s -> (id < length (db s0))%nat ->
  meets (ttlGenericCommand e s id key ms) (M, s_ttl e M id key ms).
Proof.
  intros Hat Hid. unfold ttlGenericCommand.
  apply (meets_read M true s id key _ (fun M => (M, s_ttl e M id key ms))); [done..|].
  intros s1 M1 Hat1 (Hseen & _). unfold s_ttl. destruct (M1 id key) as [[o x]|] eqn:Em; cbn; [|by apply meets_ret].
  rewrite (getExpire_at [] M1 s1 id key Hat1 Hid o x) by auto. cbn. apply meets_ret; [done|]. intros _. f_equal.
  unfold carried. destruct (default (-1) x =? -1) eqn:Ex; cbn [negb]; [done|].
  destruct x as [w|]; [|discriminate]. cbn [default from_option Datatypes.id].
  replace (if sint 64 (w - mstime e) <? 0 then 0 else sint 64 (w - mstime e)) with (Z.max 0 (sint 64 (w - mstime e))) by (bcase; lia).
  by destruct (Z.eqb_spec (Z.max 0 (sint 64 (w - mstime e))) (-1)); [lia|].
Qed.

Lemma persist_meets M s id key : at_map [] M s -> (id < length (db s0))%nat ->
  meets (persistCommand e s id key) (s_persist M id key).
Proof.
  intros Hat Hid. unfold persistCommand.
  apply (meets_write M s id key _ (fun M => s_persist M id key)); [done..|]. intros s1 M1 Hat1 (HM1 & _).
  unfold s_persist. destruct (M1 id key) as [[o x]|] eqn:Em; cbn; [|by apply meets_ret].
  destruct (removeExpire_at [] M1 s1 id key Hat1 Hid o x) as (s2 & -> & _ & Hat2 & Hnone); [done|]. cbn.
  destruct x as [w|]; cbn; [by apply (meets_signal_ret (supd M1 id key (Some (o, None))))|].
  apply meets_ret; [|done]. apply (at_ext [] (supd M1 id key (Some (o, None)))); [|by apply Hnone].
  intros _ i k. unfold supd. case_decide as Hc; [|done]. by destruct Hc as [-> ->].
Qed.

End Cmd.
End KeyspaceCmds.
