(* ===== verification/KeyspaceFlush.v ===== *)
(** The commands on whole databases, SWAPDB, FLUSHDB and FLUSHALL, and every
    command on data together. *)

From stdpp Require Import gmap.
From S2P Require Import Prelude Util Keyspace KeyspaceInv KeyspaceSpec KeyspaceCmds.

Module KeyspaceFlush.
Import Util Keyspace KeyspaceInv KeyspaceSpec KeyspaceCmds.

(** ** Telling the clients that watch keys of a database *)

Lemma touch_keys_ok A B ws m :
  (forall key cs c, (key, cs) ∈ ws -> c ∈ cs -> is_Some (m !! c)) ->
  exists m', touch_keys A B ws m = Some m' /\
    (forall c, m' !! c = m !! c \/ m' !! c = mark_cas <$> m !! c /\ exists key cs, (key, cs) ∈ ws /\ c ∈ cs) /\
    (forall key cs c, (key, cs) ∈ ws -> is_Some (A !! key) \/ is_Some (B !! key) -> c ∈ cs -> m' !! c = mark_cas <$> m !! c).
Proof.
  revert m. induction ws as [|[key cs] ws IH]; cbn; intros m Hm.
  { exists m. split_and!; [done|by left|]. by intros key cs c ?%elem_of_nil. }
  assert (exists m1, (if bool_decide (is_Some (A !! key)) || bool_decide (is_Some (B !! key)) then mark_all cs m else Some m) = Some m1 /\
    (forall c, m1 !! c = m !! c \/ m1 !! c = mark_cas <$> m !! c /\ c ∈ cs) /\
    (is_Some (A !! key) \/ is_Some (B !! key) -> forall c, c ∈ cs -> m1 !! c = mark_cas <$> m !! c)) as (m1 & -> & H1 & H2).
  { destruct (_ || _) eqn:E.
    - destruct (mark_all_ok cs m) as (m1 & -> & Hm1); [intros c Hc; eapply Hm; [left|done]|]. exists m1. split_and!; [done| |].
      + intros c. rewrite Hm1. case_decide; auto.
      + intros _ c Hc. by rewrite Hm1, decide_True.
    - exists m. split_and!; [done|by left|]. rewrite orb_false_iff, !bool_decide_eq_false in E. tauto. }
  cbn. destruct (IH m1) as (m' & -> & H3 & H4).
  { intros k' cs' c Hin Hc. destruct (Hm k' cs' c) as [x Hx]; [by right|done|].
    destruct (H1 c) as [-> | [-> _]]; rewrite Hx; eauto. }
  assert (Hmm : forall c, mark_cas <$> m1 !! c = mark_cas <$> m !! c)
    by (intros c; destruct (H1 c) as [-> | [-> _]]; [done|]; by destruct (m !! c)).
  exists m'. split_and!; [done| |].
  - intros c. destruct (H3 c) as [-> | (-> & k' & cs' & ? & ?)].
    + destruct (H1 c) as [-> | [-> ?]]; [by left|]. right. split; [done|]. exists key, cs. split; [left|done].
    + right. split; [apply Hmm|]. exists k', cs'. split; [by right|done].
  - intros k' cs' c [[= -> ->]|Hin]%elem_of_cons Hab Hc.
    + destruct (H3 c) as [-> | [-> _]]; [by apply H2|apply Hmm].
    + rewrite (H4 k' cs' c) by done. apply Hmm.
Qed.

Section Flush.
Context (s0 : server) (Hw0 : watch_ok s0).

Lemma all_dirty_mark s s' id key : all_dirty s id key ->
  (forall c, clients s' !! c = clients s !! c \/ clients s' !! c = mark_cas <$> clients s !! c) -> all_dirty s' id key.
Proof.
  intros Hd Hc c x Hx Hin. destruct (Hc c) as [E|E]; rewrite Hx in E; [by apply (Hd c)|].
  destruct (clients s !! c) as [y|]; [|done]. by injection E as ->.
Qed.

Lemma touchAll_running pend s id d rep B : running s0 pend s -> db s !! id = Some d ->
  match rep with Some j => exists d', db s !! j = Some d' /\ dict d' = B | None => B = ∅ end ->
  exists s', touchAllWatchedKeysInDb s id rep = Some s' /\ db s' = db s /\ running s0 pend s' /\
    (forall key, is_Some (dict d !! key) \/ is_Some (B !! key) -> all_dirty s' id key) /\
    (forall i k, all_dirty s i k -> all_dirty s' i k).
Proof.
  intros Hr Hd HB. unfold touchAllWatchedKeysInDb. rewrite Hd. cbn.
  assert ((match rep with Some id' => d' ← db s !! id'; Some (dict d') | None => Some ∅ end) = Some B) as ->
    by (destruct rep; [by destruct HB as (d' & -> & <-)|by rewrite HB]).
  cbn. destruct (watched_of s0 pend s id d Hr Hd) as (d0 & Hd0 & Ew).
  assert (Hex : forall key cs c, (key, cs) ∈ map_to_list (watched_keys d) -> c ∈ cs -> is_Some (clients s !! c)).
  { intros key cs c Hin%elem_of_map_to_list Hc. rewrite Ew in Hin.
    destruct (wk_listed _ Hw0 _ _ _ _ _ Hd0 Hin Hc) as (x & Hx & _).
    destruct (rn_clients _ _ _ Hr c) as [E|(? & _ & _ & E)]; rewrite E; eauto. }
  destruct (touch_keys_ok (dict d) B _ (clients s) Hex) as (m & -> & H1 & H2). cbn.
  assert (Hkeep : forall i k, all_dirty s i k -> all_dirty (Server (db s) m) i k)
    by (intros i k Ha; apply (all_dirty_mark s); [done|]; intros c; destruct (H1 c) as [|[? _]]; auto).
  eexists. split_and!; [done|done| | |done].
  - destruct Hr as [R1 R2 R3 R4]. split; [done..| |].
    + intros c. cbn. destruct (H1 c) as [-> | (-> & key & cs & Hin%elem_of_map_to_list & Hc)]; [done|]. right. rewrite Ew in Hin.
      destruct (wk_listed _ Hw0 _ _ _ _ _ Hd0 Hin Hc) as (x & Hx & Hw). exists x.
      split_and!; [done|by destruct (c_watched x); [apply elem_of_nil in Hw|]|].
      destruct (R3 c) as [E|(x' & Hx' & _ & E)]; rewrite E; by simplify_eq/=; rewrite ?Hx.
    + intros i k Hn. destruct (R4 i k Hn) as [E|E]; [by left|right; auto].
  - intros key Hk c x Hx Hin. cbn in Hx. 
    assert (exists x0, clients s !! c = Some x0 /\ c_watched x0 = c_watched x) as (x0 & Hx0 & Ew0).
    { destruct (H1 c) as [E|[E _]]; rewrite Hx in E; [eauto|]. destruct (clients s !! c) as [y|]; [|done]. injection E as ->. eauto. }
    rewrite <- Ew0 in Hin. destruct (client_of s0 pend s c x0 Hr Hx0) as (x1 & Hx1 & Ew1). rewrite Ew1 in Hin.
    destruct (wk_client _ Hw0 c x1 id key Hx1 Hin) as (d1 & cs & Hd1 & Hcs & Hc). simplify_eq. rewrite <- Ew in Hcs.
    assert (m !! c = mark_cas <$> clients s !! c) as E by (apply (H2 key cs); [by apply elem_of_map_to_list|done..]).
    rewrite Hx0, Hx in E. by injection E as ->.
Qed.

(** Keys whose watchers have all been told need not be pending. *)
Lemma running_discharge pend s : running s0 pend s -> (forall i k, (i, k) ∈ pend -> all_dirty s i k) -> running s0 [] s.
Proof.
  intros [R1 R2 R3 R4] Hp. split; [done..|]. intros i k _. destruct (decide ((i, k) ∈ pend)) as [Hin|Hin]; [right; auto|by apply R4].
Qed.

(** ** FLUSHDB and FLUSHALL *)

Lemma signalFlushed_running ids s : running s0 [] s -> (forall id, id ∈ ids -> (id < length (db s0))%nat) ->
  exists s', signalFlushedDb s ids = Some s' /\ db s' = db s /\ running s0 [] s' /\
    (forall id key, id ∈ ids -> is_Some (entry s id key) -> all_dirty s' id key) /\
    (forall i k, all_dirty s i k -> all_dirty s' i k).
Proof.
  revert s. induction ids as [|id ids IH]; cbn; intros s Hr Hids.
  { exists s. split_and!; try done. by intros id key ?%elem_of_nil. }
  destruct (running_db s0 [] s id Hr) as [d Hd]; [apply Hids; left|].
  destruct (touchAll_running [] s id d None ∅ Hr Hd eq_refl) as (s1 & -> & E1 & Hr1 & H1 & K1). cbn.
  destruct (IH s1 Hr1) as (s2 & -> & E2 & Hr2 & H2 & K2); [intros i Hi; apply Hids; by right|].
  exists s2. split_and!; [done|congruence|done| |auto].
  intros i key [->|Hin]%elem_of_cons Hs.
  - apply K2, H1. left. rewrite (entry_db s id d) in Hs by done. by destruct (dict d !! key); [|destruct Hs].
  - apply H2; [done|]. unfold entry in *. by rewrite E1.
Qed.

Lemma empty_db_running s id d : running s0 [] s -> db s !! id = Some d ->
  (forall key, is_Some (entry s id key) -> all_dirty s id key) ->
  let s' := set_db s id (with_data d ∅ ∅) in
  running s0 [] s' /\ clients s' = clients s /\
  forall i k, entry s' i k = if decide (i = id) then None else entry s i k.
Proof.
  intros [R1 R2 R3 R4] Hd Hdirty s'. pose proof (lookup_lt_Some _ _ _ Hd) as Hlt.
  assert (He : forall i k, entry s' i k = if decide (i = id) then None else entry s i k).
  { intros i k. unfold entry, s'. cbn. case_decide as Hi.
    - subst i. rewrite list_lookup_insert_eq by done. cbn. by rewrite lookup_empty.
    - by rewrite list_lookup_insert_ne. }
  split_and!; [|done..]. split; [| |done|].
  - intros i d'. cbn. destruct (decide (i = id)) as [->|Hne].
    + rewrite list_lookup_insert_eq by done. intros [= <-] key. cbn. rewrite !lookup_empty. by intros [].
    + rewrite list_lookup_insert_ne by done. apply R1.
  - cbn. rewrite list_fmap_insert, <- R2. apply list_insert_id. by rewrite list_lookup_fmap, Hd.
  - intros i k Hn. rewrite He. case_decide as Hi; [|by apply R4]. subst i.
    destruct (entry s id k) as [v|] eqn:E; [right; apply Hdirty; rewrite E; eauto|]. destruct (R4 id k Hn) as [E'|]; [|by right].
    left. congruence.
Qed.

Lemma emptyStructure_running ids s : running s0 [] s -> (forall id, id ∈ ids -> (id < length (db s0))%nat) ->
  (forall id key, id ∈ ids -> is_Some (entry s id key) -> all_dirty s id key) ->
  exists s', emptyDbStructure s ids = Some s' /\ running s0 [] s' /\
    forall i k, entry s' i k = if decide (i ∈ ids) then None else entry s i k.
Proof.
  revert s. induction ids as [|id ids IH]; cbn; intros s Hr Hids Hdirty.
  { exists s. split_and!; [done..|]. intros i k. case_decide as Hc; [by apply elem_of_nil in Hc|done]. }
  destruct (running_db s0 [] s id Hr) as [d Hd]; [apply Hids; left|]. rewrite Hd. cbn.
  destruct (empty_db_running s id d Hr Hd) as (Hr1 & Ec & He); [intros key; apply Hdirty; left|]. cbv zeta in *.
  destruct (IH _ Hr1) as (s' & E & Hr' & He').
  - intros i Hi. apply Hids. by right.
  - intros i key Hi. rewrite He. case_decide; [by intros []|]. intros Hs. unfold all_dirty. rewrite Ec. apply Hdirty; [by right|done].
  - exists s'. split_and!; [done..|]. intros i k. rewrite He', He.
    destruct (decide (i = id)) as [->|Hne]; [rewrite (decide_True (P := id ∈ id :: ids)) by left; by case_decide|].
    destruct (decide (i ∈ ids)); [by rewrite decide_True by (by right)|]. rewrite decide_False; [done|]. by intros [|]%elem_of_cons.
Qed.

Lemma emptyDb_running ids s : running s0 [] s -> (forall id, id ∈ ids -> (id < length (db s0))%nat) ->
  exists s', emptyDb s ids = Some s' /\ running s0 [] s' /\
    forall i k, entry s' i k = if decide (i ∈ ids) then None else entry s i k.
Proof.
  intros Hr Hids. unfold emptyDb. destruct (signalFlushed_running ids s Hr Hids) as (s1 & -> & Ed & Hr1 & H1 & _). cbn.
  destruct (emptyStructure_running ids s1 Hr1 Hids) as (s2 & -> & Hr2 & He).
  - intros id key Hin Hs. apply H1; [done|]. unfold entry in *. by rewrite <- Ed.
  - exists s2. split_and!; [done..|]. intros i k. rewrite He. unfold entry. by rewrite Ed.
Qed.

(** ** SWAPDB *)

Definition swap (i j id : nat) : nat := if decide (id = i) then j else if decide (id = j) then i else id.

Lemma swap_entries s i j d1 d2 : i <> j -> db s !! i = Some d1 -> db s !! j = Some d2 ->
  let s' := set_db (set_db s i (with_data d1 (dict d2) (expires d2))) j (with_data d2 (dict d1) (expires d1)) in
  forall id k, entry s' id k = entry s (swap i j id) k.
Proof.
  intros Hij H1 H2 s' id k. pose proof (lookup_lt_Some _ _ _ H1). pose proof (lookup_lt_Some _ _ _ H2).
  unfold swap, entry, s'. cbn. destruct (decide (id = i)) as [->|Hi].
  - rewrite list_lookup_insert_ne, list_lookup_insert_eq, H2 by done. done.
  - destruct (decide (id = j)) as [->|Hj].
    + rewrite list_lookup_insert_eq by (by rewrite length_insert). by rewrite H1.
    + by rewrite !list_lookup_insert_ne by done.
Qed.

Lemma swap_running s i j d1 d2 : running s0 [] s -> i <> j -> db s !! i = Some d1 -> db s !! j = Some d2 ->
  let s' := set_db (set_db s i (with_data d1 (dict d2) (expires d2))) j (with_data d2 (dict d1) (expires d1)) in
  let ks := (map_to_list (dict d1)).*1 ++ (map_to_list (dict d2)).*1 in
  running s0 (((fun k => (i, k)) <$> ks) ++ ((fun k => (j, k)) <$> ks)) s'.
Proof.
  intros [R1 R2 R3 R4] Hij H1 H2 s' ks. pose proof (swap_entries s i j d1 d2 Hij H1 H2) as He. cbv zeta in He. fold s' in He.
  pose proof (lookup_lt_Some _ _ _ H1) as L1. pose proof (lookup_lt_Some _ _ _ H2) as L2.
  assert (Hks : forall id k, id = i \/ id = j -> is_Some (entry s id k) -> k ∈ ks).
  { intros id k Hid [v Hv]. unfold ks. rewrite elem_of_app, !list_elem_of_fmap.
    destruct Hid as [-> | ->]; [left|right]; unfold entry in Hv; rewrite ?H1, ?H2 in Hv; cbn in Hv.
    - destruct (dict d1 !! k) as [o|] eqn:E; [|done]. exists (k, o). split; [done|]. by apply elem_of_map_to_list.
    - destruct (dict d2 !! k) as [o|] eqn:E; [|done]. exists (k, o). split; [done|]. by apply elem_of_map_to_list. }
  split; [| |done|].
  - intros id d'. unfold s'. cbn. destruct (decide (id = j)) as [->|Hj].
    + rewrite list_lookup_insert_eq by (by rewrite length_insert). intros [= <-]. exact (R1 i d1 H1).
    + rewrite list_lookup_insert_ne by done. destruct (decide (id = i)) as [->|Hi].
      * rewrite list_lookup_insert_eq by done. intros [= <-]. exact (R1 j d2 H2).
      * rewrite list_lookup_insert_ne by done. apply R1.
  - unfold s'. cbn. rewrite !list_fmap_insert, <- R2. rewrite (list_insert_id (watched_keys <$> db s)) by (by rewrite list_lookup_fmap, H1).
    apply list_insert_id. by rewrite list_lookup_fmap, H2.
  - intros id k Hn. rewrite He. rewrite elem_of_app, !list_elem_of_fmap in Hn.
    unfold swap. destruct (decide (id = i)) as [->|Hi]; [|destruct (decide (id = j)) as [->|Hj]; [|apply R4, not_elem_of_nil]].
    + assert (Hk : k ∉ ks) by (intros ?; apply Hn; left; eauto).
      destruct (entry s j k) eqn:Ej; [destruct Hk; apply (Hks j); eauto|].
      destruct (entry s i k) eqn:Ei; [destruct Hk; apply (Hks i); eauto|]. rewrite <- Ei. apply R4. apply not_elem_of_nil.
    + assert (Hk : k ∉ ks) by (intros ?; apply Hn; right; eauto).
      destruct (entry s i k) eqn:Ei; [destruct Hk; apply (Hks i); eauto|].
      destruct (entry s j k) eqn:Ej; [destruct Hk; apply (Hks j); eauto|]. rewrite <- Ej. apply R4. apply not_elem_of_nil.
Qed.

Lemma swapdb_running s i j : running s0 [] s -> i <> j -> (i < length (db s0))%nat -> (j < length (db s0))%nat ->
  exists d1 d2 s2 s3, db s !! i = Some d1 /\ db s !! j = Some d2 /\
    touchAllWatchedKeysInDb (set_db (set_db s i (with_data d1 (dict d2) (expires d2))) j (with_data d2 (dict d1) (expires d1))) i (Some j) = Some s2 /\
    touchAllWatchedKeysInDb s2 j (Some i) = Some s3 /\ running s0 [] s3 /\ forall id k, entry s3 id k = entry s (swap i j id) k.
Proof.
  intros Hr Hij Hi Hj. destruct (running_db s0 [] s i Hr Hi) as [d1 H1], (running_db s0 [] s j Hr Hj) as [d2 H2]. exists d1, d2.
  pose proof (swap_running s i j d1 d2 Hr Hij H1 H2) as Hr1. pose proof (swap_entries s i j d1 d2 Hij H1 H2) as He. cbv zeta in *.
  set (s1 := set_db _ j _) in *. pose proof (lookup_lt_Some _ _ _ H1) as L1. pose proof (lookup_lt_Some _ _ _ H2) as L2.
  assert (D1 : db s1 !! i = Some (with_data d1 (dict d2) (expires d2)))
    by (unfold s1; cbn; by rewrite list_lookup_insert_ne, list_lookup_insert_eq by done).
  assert (D2 : db s1 !! j = Some (with_data d2 (dict d1) (expires d1)))
    by (unfold s1; cbn; by rewrite list_lookup_insert_eq by (by rewrite length_insert)).
  destruct (touchAll_running _ s1 i _ (Some j) (dict d1) Hr1 D1) as (s2 & E2 & Edb2 & Hr2 & T2 & K2); [by eexists|].
  destruct (touchAll_running _ s2 j _ (Some i) (dict d2) Hr2 ltac:(rewrite Edb2; exact D2)) as (s3 & E3 & Edb3 & Hr3 & T3 & K3);
    [eexists; rewrite Edb2; split; [exact D1|done]|].
  exists s2, s3. split_and!; [done..| |].
  - apply (running_discharge _ s3 Hr3). intros a k. rewrite elem_of_app, !list_elem_of_fmap.
    assert (Hin : forall k, k ∈ (map_to_list (dict d1)).*1 ++ (map_to_list (dict d2)).*1 -> is_Some (dict d1 !! k) \/ is_Some (dict d2 !! k)).
    { intros k'. rewrite elem_of_app, !list_elem_of_fmap.
      intros [([k1 o] & -> & Ho%elem_of_map_to_list)|([k1 o] & -> & Ho%elem_of_map_to_list)]; cbn; rewrite Ho; eauto. }
    intros [(k' & [= -> ->] & Hk%Hin)|(k' & [= -> ->] & Hk%Hin)].
    + apply K3, T2. cbn. tauto.
    + apply T3. cbn. tauto.
  - intros id k. rewrite <- He. unfold entry. by rewrite Edb3, Edb2.
Qed.

(** ** Every command on data *)

Context (e : env).
Notation at_map := (at_map s0 e).
Notation meets := (meets s0 e).

Lemma swapdb_meets M s a b : at_map [] M s -> meets (swapdbCommand s a b) (s_swapdb (Z.of_nat (length (db s0))) M a b).
Proof.
  intros Hat. pose proof (am_running _ _ _ _ _ Hat) as Hr. unfold swapdbCommand, s_swapdb. rewrite (getInt_arg a). cbn.
  destruct (int_arg a) as [i|x]; [|by apply meets_ret]. rewrite (getInt_arg b). cbn.
  destruct (int_arg b) as [j|x]; [|by apply meets_ret]. unfold dbSwapDatabases, valid_db, dbnum.
  rewrite (running_length s0 [] s Hr). destruct (_ && _) eqn:Eij; cbn; [|by apply meets_ret].
  destruct (Z.eqb_spec i j) as [->|Hij].
  { cbn. apply meets_ret; [|done]. apply (at_ext _ _ [] M); [|done]. intros _ id k. by repeat case_decide; subst. }
  destruct (swapdb_running s (Z.to_nat i) (Z.to_nat j) Hr) as (d1 & d2 & s2 & s3 & H1 & H2 & E2 & E3 & Hr3 & He); [lia..|].
  rewrite H1, H2. cbn. rewrite E2. cbn. rewrite E3. cbn. apply meets_ret; [|done]. split; [done|].
  intros Ha id k. rewrite He. apply (am_live _ _ _ _ _ Hat Ha).
Qed.

Lemma flush_meets M s ids dbs opts : at_map [] M s -> (forall id, id ∈ ids -> (id < length (db s0))%nat) ->
  (forall id, dbs id = bool_decide (id ∈ ids)) ->
  meets (if negb (flush_flags opts) then Some (s, RError err_syntax) else s ← emptyDb s ids; Some (s, ROk)) (s_flush M dbs opts).
Proof.
  intros Hat Hids Hdbs. unfold s_flush. destruct (flush_flags opts); cbn; [|by apply meets_ret].
  destruct (emptyDb_running ids s (am_running _ _ _ _ _ Hat) Hids) as (s' & -> & Hr & He). cbn.
  apply meets_ret; [|done]. split; [done|]. intros Ha i k. rewrite He, Hdbs. case_decide as Hc.
  - by rewrite bool_decide_true.
  - rewrite bool_decide_false by done. apply (am_live _ _ _ _ _ Hat Ha).
Qed.

(** The commands the specification is for *)
Definition specified (k : cmd) : bool :=
  match k with DBSIZE | SELECT _ | MULTI | EXEC | DISCARD | WATCH _ | UNWATCH | UNKNOWN => false | _ => true end.

Lemma data_meets M s id k : at_map [] M s -> (id < length (db s0))%nat -> env_ok e -> cmd_ok k -> specified k = true ->
  meets (data_command e s id k) (spec e (length (db s0)) M id k).
Proof.
  intros Hat Hid He Hk Hsp. destruct k; try discriminate; cbn [data_command spec].
  - by apply set_meets.
  - by apply setGeneric_meets.
  - by apply setGeneric_meets.
  - by apply setGeneric_meets.
  - by apply get_meets.
  - by apply getex_meets.
  - by apply getdel_meets.
  - by apply getset_meets.
  - by apply setrange_meets.
  - by apply getrange_meets.
  - destruct (mget_meets s0 Hw0 e keys M s id Hat Hid) as (s' & M' & rs & -> & Hat' & Hm). cbn.
    apply (meets_switch s0 e (M', RArray rs)); [|by apply meets_ret]. intros Ha. by destruct (Hm Ha) as [-> ->].
  - by apply mset_meets.
  - by apply incr_meets.
  - by apply incr_meets.
  - unfold incrbyCommand. destruct (getLongLong_num incr) as [-> Hn]. cbn. destruct (num incr); [|by apply meets_ret].
    apply incr_meets; auto.
  - unfold decrbyCommand. destruct (getLongLong_num incr) as [-> Hn]. cbn. destruct (num incr); [|by apply meets_ret].
    apply incr_meets; [done..|]. apply sint_range. lia.
  - by apply append_meets.
  - by apply strlen_meets.
  - by apply del_meets.
  - by apply exists_meets.
  - by apply exists_meets.
  - by apply type_meets.
  - by apply rename_meets.
  - by apply move_meets.
  - by apply copy_meets.
  - by apply swapdb_meets.
  - apply flush_meets; [done|by intros i ->%list_elem_of_singleton|]. intros i. destruct (Nat.eqb_spec id i) as [->|Hne].
    + rewrite bool_decide_true; [done|]. by apply list_elem_of_singleton.
    + rewrite bool_decide_false; [done|]. by intros ->%list_elem_of_singleton.
  - unfold flushallCommand. rewrite (running_length s0 [] s (am_running _ _ _ _ _ Hat)).
    apply flush_meets; [done|intros i; rewrite elem_of_seq; lia|]. intros i. destruct (Nat.ltb_spec i (length (db s0))).
    + rewrite bool_decide_true; [done|]. apply elem_of_seq. lia.
    + rewrite bool_decide_false; [done|]. rewrite elem_of_seq. lia.
  - by apply expire_meets.
  - by apply ttl_meets.
  - by apply persist_meets.
Qed.

End Flush.
End KeyspaceFlush.
