(* ===== verification/KeyspaceWatch.v ===== *)
(** The watched keys of the clients: WATCH, UNWATCH, and what a command on data
    leaves of them. *)

From stdpp Require Import gmap.
From S2P Require Import Prelude Util Keyspace KeyspaceInv.

Module KeyspaceWatch.
Import Util Keyspace KeyspaceInv.

(** The client [c] is in the list of [key], and [key] in the list of [c]. *)
Definition listed (s : server) (c id : nat) (key : bytes) : Prop :=
  exists d cs, db s !! id = Some d /\ watched_keys d !! key = Some cs /\ c ∈ cs.
Definition claimed (s : server) (c id : nat) (key : bytes) : Prop :=
  exists x, clients s !! c = Some x /\ (id, key) ∈ c_watched x.

Lemma watch_ok_intro s : (forall c id key, listed s c id key <-> claimed s c id key) ->
  (forall id d key cs, db s !! id = Some d -> watched_keys d !! key = Some cs -> cs <> [] /\ NoDup cs) ->
  (forall c x, clients s !! c = Some x -> NoDup (c_watched x)) -> watch_ok s.
Proof.
  intros H1 H2 H3. split; [| |done..].
  - intros id d key cs c Hd Hcs Hc. apply H1. by exists d, cs.
  - intros c x id key Hx Hin. apply H1. by exists x.
Qed.
Lemma watch_ok_iff s : watch_ok s -> forall c id key, listed s c id key <-> claimed s c id key.
Proof.
  intros [W1 W2 _ _] c id key. split.
  - intros (d & cs & Hd & Hcs & Hc). by apply (W1 id d key cs c).
  - intros (x & Hx & Hin). by apply (W2 c x id key).
Qed.

(** ** Commands on data *)

Lemma running_watch_ok s0 pend s : watch_ok s0 -> running s0 pend s -> watch_ok s.
Proof.
  intros Hw Hr. pose proof (watch_ok_iff _ Hw) as Hiff.
  assert (Hl : forall c id key, listed s c id key <-> listed s0 c id key).
  { intros c id key. split; intros (d & cs & Hd & Hcs & Hc).
    - destruct (watched_of _ _ _ _ _ Hr Hd) as (d0 & Hd0 & E). exists d0, cs. by rewrite <- E.
    - destruct (running_db _ _ _ id Hr (lookup_lt_Some _ _ _ Hd)) as [d1 Hd1].
      destruct (watched_of _ _ _ _ _ Hr Hd1) as (d0 & Hd0 & E). simplify_eq. exists d1, cs. by rewrite E. }
  assert (Hc : forall c id key, claimed s c id key <-> claimed s0 c id key).
  { intros c id key. split; intros (x & Hx & Hin).
    - destruct (client_of _ _ _ _ _ Hr Hx) as (x0 & Hx0 & E). exists x0. by rewrite <- E.
    - destruct (rn_clients _ _ _ Hr c) as [E|(y & Hy & _ & E)]; simplify_eq; rewrite ?Hx in E; eexists; by split. }
  apply watch_ok_intro.
  - intros c id key. by rewrite Hl, Hc.
  - intros id d key cs Hd Hcs. destruct (watched_of _ _ _ _ _ Hr Hd) as (d0 & Hd0 & E). rewrite E in Hcs.
    by apply (wk_lists _ Hw id d0 key).
  - intros c x Hx. destruct (client_of _ _ _ _ _ Hr Hx) as (x0 & Hx0 & E). rewrite E. by apply (wk_nodup _ Hw c).
Qed.

(** Changes of a client that leave its watched keys *)
Lemma set_client_watch_ok s c x y : watch_ok s -> clients s !! c = Some x -> c_watched y = c_watched x ->
  watch_ok (set_client s c y).
Proof.
  intros Hw Hx E. pose proof (watch_ok_iff _ Hw) as Hiff. apply watch_ok_intro; [| |].
  - intros c' id key. transitivity (listed s c' id key); [done|]. rewrite Hiff. unfold claimed. cbn.
    destruct (decide (c' = c)) as [->|Hne].
    + rewrite lookup_insert_eq, Hx. split; intros (z & [= <-] & ?); eexists; (split; [done|]); congruence.
    + by rewrite lookup_insert_ne by done.
  - apply (wk_lists _ Hw).
  - intros c' z. cbn. rewrite lookup_insert. case_decide as Hc; [|apply (wk_nodup _ Hw)].
    intros [= <-]. rewrite E. by apply (wk_nodup _ Hw c).
Qed.

(** ** WATCH *)

(** [s'] has the data of [s]. *)
Record same_data (s s' : server) : Prop := {
  sd_entry id key : entry s' id key = entry s id key;
  sd_length : length (db s') = length (db s);
  sd_ok : data_ok s -> data_ok s';
}.

Lemma same_data_refl s s' : db s' = db s -> same_data s s'.
Proof. intros E. split; [intros id key; unfold entry| |unfold data_ok]; by rewrite E. Qed.
Lemma same_data_trans s1 s2 s3 : same_data s1 s2 -> same_data s2 s3 -> same_data s1 s3.
Proof. intros [E1 L1 K1] [E2 L2 K2]. split; [intros id key; by rewrite E2|by rewrite L2|auto]. Qed.
Lemma same_data_watched s id d w : db s !! id = Some d -> same_data s (set_db s id (with_watched d w)).
Proof.
  intros Hd. split.
  - intros i k. unfold entry. cbn. destruct (decide (i = id)) as [->|Hne]; [|by rewrite list_lookup_insert_ne].
    rewrite list_lookup_insert_eq by (by eapply lookup_lt_Some). by rewrite Hd.
  - cbn. apply length_insert.
  - intros Hok i d'. cbn. destruct (decide (i = id)) as [->|Hne]; [|rewrite list_lookup_insert_ne by done; apply Hok].
    rewrite list_lookup_insert_eq by (by eapply lookup_lt_Some). intros [= <-]. exact (Hok id d Hd).
Qed.

Lemma listed_watched s id d w c' i k : db s !! id = Some d ->
  listed (set_db s id (with_watched d w)) c' i k <->
  if decide (i = id) then exists cs, w !! k = Some cs /\ c' ∈ cs else listed s c' i k.
Proof.
  intros Hd. unfold listed. cbn. destruct (decide (i = id)) as [->|Hne]; [|by rewrite list_lookup_insert_ne by done].
  rewrite list_lookup_insert_eq by (by eapply lookup_lt_Some). split.
  - intros (d' & cs & [= <-] & Hcs & Hc). cbn in Hcs. eauto.
  - intros (cs & Hcs & Hc). by exists (with_watched d w), cs.
Qed.
Lemma lists_watched s id d w : watch_ok s -> db s !! id = Some d ->
  (forall k cs, w !! k = Some cs -> watched_keys d !! k = Some cs \/ cs <> [] /\ NoDup cs) ->
  forall i d' k cs, db (set_db s id (with_watched d w)) !! i = Some d' -> watched_keys d' !! k = Some cs -> cs <> [] /\ NoDup cs.
Proof.
  intros Hw Hd HH i d' k cs. cbn. destruct (decide (i = id)) as [->|Hne].
  - rewrite list_lookup_insert_eq by (by eapply lookup_lt_Some). intros [= <-] [Hcs|]%HH; [|done]. by apply (wk_lists _ Hw id d k).
  - rewrite list_lookup_insert_ne by done. apply (wk_lists _ Hw).
Qed.

(** The client [c] begins or ends to watch [key] of the database [id]. *)
Lemma rewatch_ok s c x id d key w ws (b : Prop) : watch_ok s -> clients s !! c = Some x -> db s !! id = Some d ->
  (forall k c', (exists cs, w !! k = Some cs /\ c' ∈ cs) <-> if decide (c' = c /\ k = key) then b else listed s c' id k) ->
  (forall k cs, w !! k = Some cs -> watched_keys d !! k = Some cs \/ cs <> [] /\ NoDup cs) ->
  (forall i k, (i, k) ∈ ws <-> if decide (i = id /\ k = key) then b else (i, k) ∈ c_watched x) -> NoDup ws ->
  watch_ok (set_client (set_db s id (with_watched d w)) c (set_watched x ws)).
Proof.
  intros Hw Hx Hd Hl Hcs Hws Hnd. pose proof (watch_ok_iff _ Hw) as Hiff. apply watch_ok_intro.
  - intros c' i k. transitivity (listed (set_db s id (with_watched d w)) c' i k); [done|].
    rewrite listed_watched by done. unfold claimed. cbn. destruct (decide (c' = c)) as [->|Hc].
    + rewrite lookup_insert_eq. transitivity ((i, k) ∈ ws); [|split; [by eexists|by intros (? & [= <-] & ?)]].
      rewrite Hws. case_decide as Hi; [subst i|].
      * rewrite Hl. repeat case_decide; try tauto. rewrite Hiff. split; [intros (? & ? & ?); by simplify_eq|by exists x].
      * rewrite Hiff, decide_False by tauto. split; [intros (? & ? & ?); by simplify_eq|by exists x].
    + rewrite lookup_insert_ne by done. fold (claimed s c' i k). rewrite <- Hiff. case_decide as Hi; [subst i|done]. by rewrite Hl, decide_False by tauto.
  - by apply (lists_watched s id d w).
  - intros c' z. cbn. rewrite lookup_insert. case_decide as Hc; [|apply (wk_nodup _ Hw)]. by intros [= <-].
Qed.

Lemma watchForKey_ok s c x key : watch_ok s -> clients s !! c = Some x -> (c_db x < length (db s))%nat ->
  let ws := if bool_decide ((c_db x, key) ∈ c_watched x) then c_watched x else c_watched x ++ [(c_db x, key)] in
  exists s', watchForKey s c key = Some s' /\ watch_ok s' /\ same_data s s' /\
    clients s' = <[c := set_watched x ws]> (clients s).
Proof.
  intros Hw Hx Hdb. unfold watchForKey. rewrite Hx. cbn. case_bool_decide as Hin.
  { exists s. split_and!; [done..|by apply same_data_refl|]. symmetry. apply insert_id. rewrite Hx. by destruct x. }
  apply lookup_lt_is_Some in Hdb as [d Hd]. rewrite Hd. cbn. pose proof (watch_ok_iff _ Hw) as Hiff.
  assert (Hnl : ~ listed s c (c_db x) key) by (rewrite Hiff; intros (x' & Hx' & ?); by simplify_eq).
  eexists. split_and!; [done| | |done].
  - apply (rewatch_ok s c x (c_db x) d key _ _ True); [done..| | | |].
    + intros k c'. unfold listed. destruct (decide (k = key)) as [->|Hk].
      * rewrite lookup_insert_eq. case_decide as Hc.
        { split; [done|]. intros _. eexists. split; [done|]. set_solver. }
        split.
        -- intros (cs & [= <-] & Hcs). exists d. destruct (watched_keys d !! key) as [cs|]; cbn in Hcs; [|set_solver].
           exists cs. set_solver.
        -- intros (d' & cs & Hd' & Hcs & Hc'). simplify_eq. rewrite Hcs. eexists. split; [done|]. set_solver.
      * rewrite lookup_insert_ne, decide_False by naive_solver. split; [naive_solver|]. intros (d' & cs & ? & ? & ?). naive_solver.
    + intros k cs. rewrite lookup_insert. case_decide as Hk; [|by left]. intros [= <-]. right. subst k. split; [by destruct (default _ _)|].
      apply NoDup_app. split_and!; [| |apply NoDup_singleton].
      * destruct (watched_keys d !! key) as [cs|] eqn:E; [by apply (wk_lists _ Hw _ _ _ _ Hd E)|apply NoDup_nil_2].
      * intros c' Hc' ->%list_elem_of_singleton. apply Hnl. destruct (watched_keys d !! key) as [cs|] eqn:E; [by exists d, cs|set_solver].
    + intros i k. rewrite elem_of_app, list_elem_of_singleton. case_decide as Hi; [naive_solver|]. split; [|tauto]. naive_solver.
    + apply NoDup_app. split_and!; [by apply (wk_nodup _ Hw c)| |apply NoDup_singleton]. by intros p Hp ->%list_elem_of_singleton.
  - apply (same_data_trans _ (set_db s (c_db x) (with_watched d (<[key := default [] (watched_keys d !! key) ++ [c]]> (watched_keys d)))));
      [by apply same_data_watched|by apply same_data_refl].
Qed.

(** ** UNWATCH *)

Lemma del_first_in c cs c' : NoDup cs -> c' ∈ del_first c cs <-> c' ∈ cs /\ c' <> c.
Proof.
  induction 1 as [|y cs Hn Hnd IH]; cbn; [set_solver|]. destruct (Nat.eqb_spec y c) as [->|Hne]; [set_solver|].
  rewrite !elem_of_cons, IH. set_solver.
Qed.
Lemma del_first_nodup c cs : NoDup cs -> NoDup (del_first c cs).
Proof.
  induction 1 as [|y cs Hn Hnd IH]; cbn; [apply NoDup_nil_2|]. destruct (Nat.eqb_spec y c) as [->|Hne]; [done|].
  apply NoDup_cons. split; [|done]. rewrite del_first_in by done. tauto.
Qed.

Lemma unwatch_one s c x id key ws : watch_ok (set_client s c (set_watched x ((id, key) :: ws))) ->
  exists d cs, db s !! id = Some d /\ watched_keys d !! key = Some cs /\
    let w := match del_first c cs with [] => delete key (watched_keys d) | cs => <[key := cs]> (watched_keys d) end in
    watch_ok (set_client (set_db s id (with_watched d w)) c (set_watched x ws)).
Proof.
  intros Hw. set (s1 := set_client s c _) in *. set (x1 := set_watched x ((id, key) :: ws)) in *.
  assert (Hx : clients s1 !! c = Some x1) by (unfold s1; cbn; by rewrite lookup_insert_eq).
  destruct (wk_client _ Hw c x1 id key Hx ltac:(left)) as (d & cs & Hd & Hcs & Hc). exists d, cs.
  split_and!; [done..|]. cbv zeta. pose proof (wk_nodup _ Hw c x1 Hx) as Hnd. cbn in Hnd. apply NoDup_cons in Hnd as [Hn Hnd].
  destruct (wk_lists _ Hw id d key cs Hd Hcs) as [_ Hnc].
  assert (Ew : forall k, match del_first c cs with [] => delete key (watched_keys d) | cs => <[key := cs]> (watched_keys d) end !! k =
    if decide (k = key) then match del_first c cs with [] => None | cs => Some cs end else watched_keys d !! k).
  { intros k. destruct (decide (k = key)) as [->|Hk]; destruct (del_first c cs); by simplify_map_eq. }
  set (w := match del_first c cs with [] => _ | _ => _ end) in *.
  replace (set_client (set_db s id (with_watched d w)) c (set_watched x ws))
    with (set_client (set_db s1 id (with_watched d w)) c (set_watched x1 ws)) by (unfold set_client; cbn; by rewrite insert_insert_eq).
  apply (rewatch_ok s1 c x1 id d key _ _ False); [done..| | | |done].
  - intros k c'. rewrite Ew. unfold listed. destruct (decide (k = key)) as [->|Hk].
    + pose proof (del_first_in c cs c' Hnc) as Hdf. case_decide as Hcc.
      * destruct Hcc as [-> _]. split; [|done]. intros (cs' & E & ?). destruct (del_first c cs); simplify_eq. tauto.
      * split.
        -- intros (cs' & E & ?). exists d, cs. split_and!; [done..|]. destruct (del_first c cs); simplify_eq. tauto.
        -- intros (d' & cs' & ? & ? & ?). simplify_eq. destruct (del_first c cs) eqn:E; [set_solver|]. eexists. split; [done|]. rewrite Hdf. tauto.
    + rewrite decide_False by naive_solver. split; [intros (cs' & ? & ?); by exists d, cs'|]. intros (d' & cs' & ? & ? & ?). simplify_eq. eauto.
  - intros k cs'. rewrite Ew. case_decide as Hk; [|by left]. intros E. right. pose proof (del_first_nodup c cs Hnc).
    destruct (del_first c cs); by simplify_eq.
  - intros i k. unfold x1. cbn. case_decide as Hi; [destruct Hi as [-> ->]; tauto|]. rewrite elem_of_cons. naive_solver.
Qed.

Lemma unwatch_loop_ok c x ws : forall s, watch_ok (set_client s c (set_watched x ws)) ->
  exists s', unwatch_loop s c ws = Some s' /\ watch_ok (set_client s' c (set_watched x [])) /\ same_data s s' /\ clients s' = clients s.
Proof.
  induction ws as [|[id key] ws IH]; cbn; intros s Hw.
  { exists s. split_and!; [done..|by apply same_data_refl|done]. }
  destruct (unwatch_one _ _ _ _ _ _ Hw) as (d & cs & Hd & Hcs & Hw'). rewrite Hd. cbn. rewrite Hcs. cbn.
  destruct (IH _ Hw') as (s' & -> & Hs' & Hsd & Hcl). exists s'. split_and!; [done..| |done].
  eapply same_data_trans; [|done]. by apply same_data_watched.
Qed.

Lemma unwatchAllKeys_ok s c x : watch_ok s -> clients s !! c = Some x ->
  exists s', unwatchAllKeys s c = Some s' /\ watch_ok s' /\ same_data s s' /\ clients s' = <[c := set_watched x []]> (clients s).
Proof.
  intros Hw Hx. unfold unwatchAllKeys. rewrite Hx. cbn.
  destruct (unwatch_loop_ok c x (c_watched x) s) as (s1 & -> & Hw1 & Hsd & Hcl).
  { replace (set_client _ _ _) with s; [done|]. unfold set_client. rewrite insert_id; [by destruct s|]. rewrite Hx. by destruct x. }
  cbn. eexists. split_and!; [done..| |].
  - eapply same_data_trans; [done|]. by apply same_data_refl.
  - cbn. by rewrite Hcl.
Qed.

End KeyspaceWatch.
