(* ===== verification/KeyspaceAbs.v ===== *)
(** The server that clients see, as a machine without watched-key lists and
    without deletion of expired keys: a map of values and deadlines and, for
    every client, its database, its transaction and the keys it watches. *)

From stdpp Require Import gmap.
From S2P Require Import Prelude Util Keyspace KeyspaceInv KeyspaceSpec KeyspaceCmds KeyspaceFlush.

Module KeyspaceAbs.
Import Util Keyspace KeyspaceInv KeyspaceSpec KeyspaceCmds KeyspaceFlush.

Record astate := AState { a_map : smap; a_clients : gmap nat client }.

Definition a_set (A : astate) (c : nat) (x : client) : astate := AState (a_map A) (<[c := x]> (a_clients A)).

(** A client without the flag that a watched key was touched *)
Definition strip (x : client) : client :=
  Client (c_db x) (c_multi x) false (c_dirty_exec x) (c_watched x) (c_queue x).
Definition ended (x : client) : client := Client (c_db x) false false false [] [].

(** The commands on the state of the client alone *)
Definition session_cmd (k : cmd) : bool :=
  match k with SELECT _ | MULTI | DISCARD | WATCH _ | UNWATCH => true | _ => false end.
Definition add_watch (id : nat) (ws : list (nat * bytes)) (key : bytes) : list (nat * bytes) :=
  if bool_decide ((id, key) ∈ ws) then ws else ws ++ [(id, key)].
Definition s_session (n : nat) (x : client) (k : cmd) : client * reply :=
  match k with
  | SELECT arg =>
      match int_arg arg with
      | inr err => (x, RError err)
      | inl i => if (0 <=? i) && (i <? Z.of_nat n) then (set_c_db x (Z.to_nat i), ROk) else (x, RError err_db_index)
      end
  | MULTI => if c_multi x then (x, RError err_nested)
             else (Client (c_db x) true (c_dirty_cas x) (c_dirty_exec x) (c_watched x) (c_queue x), ROk)
  | DISCARD => if c_multi x then (ended x, ROk) else (x, RError err_without_multi)
  | WATCH keys => if c_multi x then (x, RError err_watch_in_multi)
                  else (set_watched x (foldl (add_watch (c_db x)) (c_watched x) keys), ROk)
  | UNWATCH => (set_watched x [], ROk)
  | _ => (x, RError err_unknown)
  end.

Section Machine.
Context (n : nat).

(** The entries alive for a command *)
Definition view (e : env) (A : astate) : smap := fun i k => live e (a_map A i k).

Inductive arun (e : env) (A : astate) (c : nat) : cmd -> reply -> astate -> Prop :=
  | arun_data x k : a_clients A !! c = Some x -> specified k = true ->
      arun e A c k (spec e n (view e A) (c_db x) k).2 (AState (spec e n (view e A) (c_db x) k).1 (a_clients A))
  | arun_session x k : a_clients A !! c = Some x -> session_cmd k = true ->
      arun e A c k (s_session n x k).2 (a_set A c (s_session n x k).1)
  | arun_dbsize m : arun e A c DBSIZE (RInt m) A.

Inductive arun_queue (clk : nat -> env) (c : nat) : nat -> list cmd -> astate -> list reply -> astate -> Prop :=
  | aq_nil j A : arun_queue clk c j [] A [] A
  | aq_cons j k ks A r A1 rs A2 : arun (clk j) A c k r A1 -> arun_queue clk c (S j) ks A1 rs A2 ->
      arun_queue clk c j (k :: ks) A (r :: rs) A2.

(** A transaction is aborted when a command was refused, may fail when the
    client watches keys, and else its commands run with nothing in between. *)
Inductive aprocess (clk : nat -> env) (A : astate) (c : nat) (x : client) : cmd -> reply -> astate -> Prop :=
  | ap_unknown : aprocess clk A c x UNKNOWN (RError err_unknown)
      (a_set A c (Client (c_db x) (c_multi x) (c_dirty_cas x) (c_multi x || c_dirty_exec x) (c_watched x) (c_queue x)))
  | ap_queue k : k <> UNKNOWN -> c_multi x = true -> immediate k = false ->
      aprocess clk A c x k RQueued
        (a_set A c (Client (c_db x) (c_multi x) (c_dirty_cas x) (c_dirty_exec x) (c_watched x)
                      (if c_dirty_exec x then c_queue x else c_queue x ++ [k])))
  | ap_run k r A' : k <> UNKNOWN -> k <> EXEC -> c_multi x && negb (immediate k) = false ->
      arun (clk 0%nat) A c k r A' -> aprocess clk A c x k r A'
  | ap_without : c_multi x = false -> aprocess clk A c x EXEC (RError err_without_multi) A
  | ap_abort : c_multi x = true -> c_dirty_exec x = true -> aprocess clk A c x EXEC (RError err_execabort) (a_set A c (ended x))
  | ap_fail : c_multi x = true -> c_dirty_exec x = false -> c_watched x <> [] ->
      aprocess clk A c x EXEC RNullArray (a_set A c (ended x))
  | ap_exec rs A1 x1 : c_multi x = true -> c_dirty_exec x = false ->
      arun_queue clk c 1 (c_queue x) (a_set A c (set_watched x [])) rs A1 -> a_clients A1 !! c = Some x1 ->
      aprocess clk A c x EXEC (RArray rs) (a_set A1 c (ended x1)).

Inductive astep (A : astate) : event -> option reply -> astate -> Prop :=
  | as_connect c : a_clients A !! c = None -> astep A (Connect c) None (a_set A c (Client 0 false false false [] []))
  | as_disconnect c : astep A (Disconnect c) None (AState (a_map A) (delete c (a_clients A)))
  | as_command c k clk x r A' : a_clients A !! c = Some x -> aprocess clk A c x k r A' -> astep A (Command c k clk) (Some r) A'
  | as_cycle e id key : astep A (Cycle e id key) None A.

Inductive asteps : list (event * option reply) -> astate -> Prop :=
  | at_start : asteps [] (AState (fun _ _ => None) ∅)
  | at_step h A ev r A' : asteps h A -> astep A ev r A' -> asteps (h ++ [(ev, r)]) A'.

End Machine.

(** ** Deadlines are never negative *)

Definition pos (M : smap) : Prop := forall i k o w, M i k = Some (o, Some w) -> 0 <= w.
Definition pos_val (v : option (robj * option Z)) : Prop := forall o w, v = Some (o, Some w) -> 0 <= w.

Lemma pos_supd M id key v : pos M -> pos_val v -> pos (supd M id key v).
Proof. intros HM Hv i k o w. unfold supd. case_decide; [apply Hv|apply HM]. Qed.
Lemma pos_none : pos_val None.
Proof. done. Qed.
Lemma pos_forever o : pos_val (Some (o, None)).
Proof. done. Qed.
Lemma pos_at o w : 0 <= w -> pos_val (Some (o, Some w)).
Proof. by intros ? ? ? [= <- <-]. Qed.
Lemma pos_of M i k o o' x : pos M -> M i k = Some (o, x) -> pos_val (Some (o', x)).
Proof. intros HM E ? ? [= <- ->]. eapply HM, E. Qed.
Lemma pos_carried o x : pos_val (Some (o, x)) -> pos_val (Some (o, carried x)).
Proof. unfold carried. case_match; [done|]. intros Hp ? ? [= <- ->]. by eapply Hp. Qed.
Lemma pos_live e v : pos_val v -> pos_val (live e v).
Proof. unfold live. by destruct (dead_at e v). Qed.

Create HintDb keyspace.
#[export] Hint Resolve pos_supd pos_none pos_forever pos_at pos_of pos_carried pos_live : keyspace.

Section Pos.
Context (e : env) (He : 0 <= mstime e).

Lemma time_arg_pos flags ms b m w : time_arg e flags ms b = inl (m, w) -> 0 <= w.
Proof.
  unfold time_arg, expire_time. destruct (getLongLong b) as [[v|]|]; cbn; [|done..].
  destruct (_ || _); [done|]. match goal with |- (if ?b then _ else _) = _ -> _ => destruct b eqn:E end; [done|].
  intros [= <- <-]. lia.
Qed.

Lemma s_set_pos M id flags key val x ms r1 r2 : pos M -> pos (s_set e M id flags key val x ms r1 r2).1.
Proof.
  intros HM. unfold s_set. destruct (match x with None => _ | Some _ => _ end) as [when|err] eqn:Ew; [|done].
  destruct (_ || _); [done|]. destruct (if flag flags OBJ_SET_GET then _ else _); [|done]. cbn.
  apply pos_supd; [done|]. apply pos_live. destruct when as [w|].
  - apply pos_at. destruct x as [b|]; [|done]. destruct (time_arg e flags ms b) as [[m w']|] eqn:E; [|done].
    injection Ew as ->. by eapply time_arg_pos.
  - destruct (flag flags OBJ_KEEPTTL); [|done]. unfold deadline. destruct (M id key) as [[o y]|] eqn:E; [|done].
    by eapply pos_of.
Qed.

Lemma s_getex_pos M id key opts : pos M -> pos (s_getex e M id key opts).1.
Proof.
  intros HM. unfold s_getex. destruct (parseExtended _ _ _ _ _) as [[[flags ms] x]|]; [|done].
  destruct (M id key) as [[[v|] y]|] eqn:E; [|done..]. destruct x as [b|].
  - destruct (time_arg e flags ms b) as [[m w]|] eqn:Et; [|done]. cbn. destruct (_ && _); [auto with keyspace|].
    unfold put. apply pos_supd, pos_live, pos_at; [done|]. by eapply time_arg_pos.
  - cbn. destruct (flag flags OBJ_PERSIST); auto with keyspace.
Qed.

Lemma s_mset_pos M id kvs nx : pos M -> pos (s_mset M id kvs nx).1.
Proof.
  unfold s_mset. destruct (_ && _); [done|]. cbn. revert M. induction kvs as [|[k v] kvs IH]; cbn; auto with keyspace.
Qed.
Lemma s_del_pos id keys : forall M i, pos M -> pos (s_del M id keys i).1.
Proof. induction keys; cbn; auto with keyspace. Qed.

Lemma s_incr_pos M id key i : pos M -> pos (s_incr M id key i).1.
Proof.
  intros HM. unfold s_incr. destruct (M id key) as [[[v|] x]|] eqn:E; [|done|].
  - destruct (num v); [|done]. destruct (_ && _); cbn; eauto with keyspace.
  - destruct (_ && _); cbn; auto with keyspace.
Qed.

Lemma spec_pos n M id k : pos M -> pos (spec e n M id k).1.
Proof.
  intros HM. destruct k; cbn [spec]; try done; try (by apply s_set_pos); try (by apply s_incr_pos).
  - unfold s_set_command. destruct (parseExtended _ _ _ _ _) as [[[flags ms] x]|]; [by apply s_set_pos|done].
  - by apply s_getex_pos.
  - unfold s_getdel. destruct (s_get M id key); cbn; auto with keyspace.
  - unfold s_getset. destruct (s_get M id key); cbn; auto with keyspace.
  - unfold s_setrange. destruct (num offset); [|done]. destruct (_ <? _); [done|].
    destruct (M id key) as [[[v|] x]|] eqn:E; cbn; [|done|]; (destruct (_ =? _); [done|]); destruct (negb _); cbn; eauto with keyspace.
  - by apply s_mset_pos.
  - destruct (num incr); [by apply s_incr_pos|done].
  - destruct (num incr); [by apply s_incr_pos|done].
  - unfold s_append. destruct (M id key) as [[[v|] x]|] eqn:E; cbn; [|done|auto with keyspace]. destruct (negb _); cbn; eauto with keyspace.
  - by apply s_del_pos.
  - unfold s_rename. destruct (M id key) as [[o x]|] eqn:E; [|done]. case_bool_decide; [done|]. destruct (_ && _); cbn; eauto 6 with keyspace.
  - unfold s_move. destruct (int_arg id0); [|done]. destruct (negb _); [done|]. case_bool_decide; [done|].
    destruct (M id key) as [[o x]|] eqn:E; [|done]. destruct (exists_in _ _ _); cbn; eauto 6 with keyspace.
  - unfold s_copy. destruct (s_copy_options _ _ _ _) as [[dst rep]|]; [|done]. destruct (_ && _); [done|].
    destruct (M id key) as [[o x]|] eqn:E; [|done]. destruct (_ && _); cbn; eauto with keyspace.
  - unfold s_swapdb. destruct (int_arg id1), (int_arg id2); try done. destruct (_ && _); [|done]. cbn. intros i k. apply HM.
  - unfold s_flush. destruct (flush_flags opts); [|done]. cbn. intros i k o w. destruct (id =? i)%nat; [done|]. apply HM.
  - unfold s_flush. destruct (flush_flags opts); [|done]. cbn [fst]. intros i k o w. destruct (i <? n)%nat; [done|]. apply HM.
  - unfold s_expire. destruct (num time); [|done]. destruct (expire_when _ _ _) as [w|]; [|done].
    destruct (M id key) as [[o x]|] eqn:E; [|done]. cbn. apply pos_supd; [done|].
    destruct (Z.leb_spec w (mstime e)); [done|]. apply pos_at. lia.
  - unfold s_persist. destruct (M id key) as [[o [x|]]|] eqn:E; cbn; auto with keyspace.
Qed.
End Pos.

End KeyspaceAbs.
