(* ===== verification/KeyspaceServer.v ===== *)
(** The server as a whole: the invariant of its state, and for every event that
    it is handled, keeps the invariant, marks the clients whose watched keys it
    changes, and is a step of the machine of [KeyspaceAbs]. *)

From stdpp Require Import gmap.
From S2P Require Import Prelude Util Keyspace KeyspaceInv KeyspaceSpec KeyspaceCmds KeyspaceFlush KeyspaceWatch KeyspaceAbs.

Module KeyspaceServer.
Import Util Keyspace KeyspaceInv KeyspaceSpec KeyspaceCmds KeyspaceFlush KeyspaceWatch KeyspaceAbs.

#[global] Instance cmd_eq_dec : EqDecision cmd.
Proof. solve_decision. Defined.

(** ** The invariant *)

Definition queueable (k : cmd) : bool := negb (immediate k) && match k with UNKNOWN => false | _ => true end.

Record client_ok (n : nat) (x : client) : Prop := {
  ck_db : (c_db x < n)%nat;
  ck_queue : Forall (fun k => queueable k = true /\ cmd_ok k) (c_queue x);
  ck_plain : c_multi x = false -> c_queue x = [] /\ c_dirty_exec x = false;
  ck_dirty : c_dirty_cas x = true -> c_watched x <> [];
}.
Record server_ok (s : server) : Prop := {
  so_data : data_ok s;
  so_watch : watch_ok s;
  so_client c x : clients s !! c = Some x -> client_ok (length (db s)) x;
}.

Lemma init_ok n : server_ok (initServer n).
Proof.
  assert (Hd : forall id d, db (initServer n) !! id = Some d -> d = RedisDb ∅ ∅ ∅)
    by (intros id d Hd; cbn in Hd; by apply lookup_replicate in Hd as [-> _]).
  split.
  - intros id d ->%Hd key. cbn. by rewrite lookup_empty.
  - split; cbn.
    + intros id d key cs c ->%Hd. cbn. by rewrite lookup_empty.
    + intros c x id key. by rewrite lookup_empty.
    + intros id d key cs ->%Hd. cbn. by rewrite lookup_empty.
    + intros c x. by rewrite lookup_empty.
  - intros c x. cbn. by rewrite lookup_empty.
Qed.

(** ** What a client that watches keys can rely on *)

Definition keeps (c : nat) (s s' : server) : Prop := forall x, clients s !! c = Some x ->
  exists x', clients s' !! c = Some x' /\ c_watched x ⊆ c_watched x' /\ (c_dirty_cas x = true -> c_dirty_cas x' = true) /\
    forall id key, (id, key) ∈ c_watched x -> entry s' id key = entry s id key \/ c_dirty_cas x' = true.

Lemma keeps_compose c s1 s2 s3 : keeps c s1 s2 -> keeps c s2 s3 -> keeps c s1 s3.
Proof.
  intros H1 H2 x Hx. destruct (H1 x Hx) as (x2 & Hx2 & W2 & D2 & E2). destruct (H2 x2 Hx2) as (x3 & Hx3 & W3 & D3 & E3).
  exists x3. split_and!; [done|set_solver|auto|]. intros id key Hin. destruct (E2 id key Hin) as [Ea|]; [|auto].
  destruct (E3 id key (W2 _ Hin)) as [Eb|]; [|auto]. left. congruence.
Qed.
Lemma keeps_same c s s' : same_data s s' -> clients s' !! c = clients s !! c -> keeps c s s'.
Proof. intros [E _ _] Ec x Hx. exists x. rewrite Ec. split_and!; auto. Qed.
Lemma keeps_client c s s' y : same_data s s' -> clients s' = <[c := y]> (clients s) ->
  (forall x, clients s !! c = Some x -> c_watched x ⊆ c_watched y /\ c_dirty_cas y = c_dirty_cas x) -> keeps c s s'.
Proof.
  intros [E _ _] Ec Hy x Hx. destruct (Hy x Hx) as [H1 H2]. exists y. rewrite Ec, lookup_insert_eq, H2. split_and!; auto.
Qed.

(** From [s] to [s'] the clients of [P] are kept. *)
Record moved (P : nat -> Prop) (s s' : server) : Prop := {
  mv_ok : server_ok s';
  mv_length : length (db s') = length (db s);
  mv_clients c : is_Some (clients s !! c) -> is_Some (clients s' !! c);
  mv_keeps c : P c -> keeps c s s';
}.
Lemma moved_trans (P Q R : nat -> Prop) s1 s2 s3 : (forall c, R c -> P c /\ Q c) ->
  moved P s1 s2 -> moved Q s2 s3 -> moved R s1 s3.
Proof.
  intros HR [O1 L1 C1 K1] [O2 L2 C2 K2]. split; [done|congruence|auto|].
  intros c [HP HQ]%HR. by eapply keeps_compose; [apply K1|apply K2].
Qed.
Lemma moved_weaken (P Q : nat -> Prop) s s' : (forall c, Q c -> P c) -> moved P s s' -> moved Q s s'.
Proof. intros HPQ [M1 M2 M3 M4]. split; auto. Qed.
Lemma moved_refl P s : server_ok s -> moved P s s.
Proof. intros Hs. split; auto. intros c _. by apply keeps_same; [apply same_data_refl|]. Qed.

Lemma moved_running P s s' : server_ok s -> running s [] s' -> moved P s s'.
Proof.
  intros [S1 S2 S3] Hr. pose proof (running_length _ _ _ Hr) as El. split; [split|done| |].
  - apply Hr.
  - by eapply running_watch_ok.
  - intros c x Hx. rewrite El. destruct (rn_clients _ _ _ Hr c) as [E|(y & Hy & Hn & E)]; rewrite Hx in E; [by eapply S3|].
    injection E as ->. destruct (S3 c y Hy) as [K1 K2 K3 K4]. by split.
  - intros c [x Hx]. destruct (rn_clients _ _ _ Hr c) as [E|(y & Hy & Hn & E)]; rewrite E; eauto.
  - intros c _ x Hx. assert (exists x', clients s' !! c = Some x' /\ c_watched x' = c_watched x /\ (c_dirty_cas x = true -> c_dirty_cas x' = true))
      as (x' & Hx' & Ew & Hd).
    { destruct (rn_clients _ _ _ Hr c) as [E|(y & Hy & Hn & E)]; rewrite E; [eauto|]. simplify_eq. eauto. }
    exists x'. rewrite Ew. split_and!; [done..|]. intros id key Hin.
    destruct (rn_entry _ _ _ Hr id key (not_elem_of_nil _)) as [|Hall]; [by left|right]. apply (Hall c x'); [done|]. by rewrite Ew.
Qed.

(** A change of one client and of the lists of watched keys *)
Lemma moved_client (P : nat -> Prop) s s' c x y : server_ok s -> clients s !! c = Some x -> same_data s s' -> watch_ok s' ->
  clients s' = <[c := y]> (clients s) -> client_ok (length (db s)) y ->
  (P c -> c_watched x ⊆ c_watched y /\ c_dirty_cas y = c_dirty_cas x) -> moved P s s'.
Proof.
  intros [S1 S2 S3] Hx Hsd Hw Ec Hy HP. split; [split|apply Hsd| |].
  - by apply Hsd.
  - done.
  - rewrite (sd_length _ _ Hsd), Ec. intros c' z. rewrite lookup_insert. case_decide; [by intros [= <-]|apply S3].
  - intros c' Hc'. rewrite Ec, lookup_insert. case_decide; eauto.
  - intros c' Hc'. destruct (decide (c' = c)) as [->|Hne].
    + eapply keeps_client; [done..|]. intros x' Hx'. simplify_eq. auto.
    + apply keeps_same; [done|]. by rewrite Ec, lookup_insert_ne.
Qed.

(** ** The view of the clients *)

Definition now_ok (t : Z) (e : env) : Prop := active e /\ t <= now e.

Record abs (n : nat) (s : server) (A : astate) (t : Z) : Prop := {
  ab_time : 0 <= t;
  ab_length : length (db s) = n;
  ab_clients c : strip <$> clients s !! c = a_clients A !! c;
  ab_pos : pos (a_map A);
  ab_live e i k : now_ok t e -> live e (entry s i k) = live e (a_map A i k);
}.

Lemma abs_later n s A t t' : t <= t' -> abs n s A t -> abs n s A t'.
Proof. intros Ht [A0 A1 A2 A3 A4]. split; [lia|done..|]. intros e i k [Ha Hn]. apply A4. split; [done|lia]. Qed.

Lemma live_later e e' v : active e -> active e' -> now e <= now e' -> live e' (live e v) = live e' v.
Proof.
  intros (_ & L1 & _) (_ & L2 & _) Hn. unfold live at 2. destruct (dead_at e v) eqn:E; [|done].
  unfold live. destruct v as [[o [w|]]|]; [|done..]. cbn in *. rewrite L1 in E. rewrite L2.
  destruct (w <? 0); [done|]. cbn in *. destruct (Z.gtb_spec (now e') w); [done|]. destruct (Z.gtb_spec (now e) w); [lia|done].
Qed.

Lemma abs_running n s s' A t e M : abs n s A t -> running s [] s' -> now_ok t e -> pos M ->
  (forall i k, live e (entry s' i k) = M i k) -> abs n s' (AState M (a_clients A)) (now e).
Proof.
  intros [A0 A1 A2 A3 A4] Hr [Ha Ht] HM Hl. split; [lia|by rewrite (running_length _ _ _ Hr)| |done|].
  - intros c. cbn. rewrite <- A2. destruct (rn_clients _ _ _ Hr c) as [-> | (x & -> & _ & ->)]; done.
  - intros e' i k [Ha' Ht']. cbn. rewrite <- Hl. by rewrite live_later.
Qed.
Lemma abs_client n s s' A t c y : abs n s A t -> same_data s s' -> clients s' = <[c := y]> (clients s) ->
  abs n s' (a_set A c (strip y)) t.
Proof.
  intros [A0 A1 A2 A3 A4] [E1 E2 _] Ec. split; [done|by rewrite E2| |done|].
  - intros c'. cbn. rewrite Ec, !lookup_insert. by case_decide.
  - intros e i k Ht. rewrite E1. by apply A4.
Qed.

(** ** Commands on the state of a client *)

Definition releases (k : cmd) : bool := match k with DISCARD | UNWATCH | EXEC => true | _ => false end.

Lemma watch_keys_ok keys : forall s c x, server_ok s -> clients s !! c = Some x ->
  exists s', watch_keys s c keys = Some s' /\ watch_ok s' /\ same_data s s' /\
    clients s' = <[c := set_watched x (foldl (add_watch (c_db x)) (c_watched x) keys)]> (clients s).
Proof.
  induction keys as [|key keys IH]; cbn; intros s c x Hs Hx.
  { exists s. split_and!; [done|apply Hs|by apply same_data_refl|]. symmetry. apply insert_id. rewrite Hx. by destruct x. }
  pose proof (so_client _ Hs c x Hx) as [K1 K2 K3 K4].
  destruct (watchForKey_ok s c x key (so_watch _ Hs) Hx K1) as (s1 & -> & Hw1 & Hsd1 & Hc1). cbn. fold (add_watch (c_db x) (c_watched x) key) in Hc1.
  set (x1 := set_watched x (add_watch (c_db x) (c_watched x) key)) in *.
  assert (Hsub : c_watched x ⊆ c_watched x1) by (unfold x1, add_watch; cbn; case_bool_decide; set_solver).
  assert (Hs1 : server_ok s1).
  { apply (moved_client (fun _ => False) s s1 c x x1); try done. split; [done..|]. cbn.
    intros Hd Hnil. apply (K4 Hd). destruct (c_watched x) as [|p ws]; [done|]. unfold x1, add_watch in Hnil. cbn in Hnil. by case_bool_decide. }
  destruct (IH s1 c x1 Hs1) as (s' & -> & Hw' & Hsd' & Hc'); [by rewrite Hc1, lookup_insert_eq|].
  exists s'. split_and!; [done..|by eapply same_data_trans|]. by rewrite Hc', Hc1, insert_insert_eq.
Qed.
Lemma add_watch_sub id keys : forall ws, ws ⊆ foldl (add_watch id) ws keys.
Proof.
  induction keys as [|key keys IH]; cbn; intros ws; [done|]. etransitivity; [|apply IH].
  unfold add_watch. case_bool_decide; set_solver.
Qed.
Lemma add_watch_in id keys key : key ∈ keys -> forall ws, (id, key) ∈ foldl (add_watch id) ws keys.
Proof.
  induction 1 as [key keys|key key' keys Hin IH]; cbn; intros ws; [|apply IH]. apply add_watch_sub.
  unfold add_watch. case_bool_decide; set_solver.
Qed.

Lemma discard_ok s c x : server_ok s -> clients s !! c = Some x ->
  exists s', discardTransaction s c = Some s' /\ watch_ok s' /\ same_data s s' /\ clients s' = <[c := ended x]> (clients s).
Proof.
  intros Hs Hx. unfold discardTransaction. rewrite Hx. cbn. set (y := Client _ _ _ _ _ _).
  destruct (unwatchAllKeys_ok (set_client s c y) c y) as (s' & -> & Hw & Hsd & Hc).
  { by apply (set_client_watch_ok s c x y (so_watch _ Hs) Hx). }
  { cbn. by rewrite lookup_insert_eq. }
  exists s'. split_and!; [done..| |].
  - eapply same_data_trans; [|done]. by apply same_data_refl.
  - rewrite Hc. cbn. by rewrite insert_insert_eq.
Qed.
Lemma ended_ok n x : client_ok n x -> client_ok n (ended x).
Proof. intros [K1 _ _ _]. by split. Qed.

(** What a command on the state of a client does *)
Definition session_done (s : server) (c : nat) (x : client) (k : cmd) (m : option (server * reply)) : Prop :=
  exists s' y r, m = Some (s', r) /\ watch_ok s' /\ same_data s s' /\ clients s' = <[c := y]> (clients s) /\
    client_ok (length (db s)) y /\ (strip y, r) = s_session (length (db s)) (strip x) k /\
    (releases k = false -> c_watched x ⊆ c_watched y /\ c_dirty_cas y = c_dirty_cas x).

Lemma session_set s c x k y r : server_ok s -> clients s !! c = Some x -> c_watched y = c_watched x -> c_dirty_cas y = c_dirty_cas x ->
  client_ok (length (db s)) y -> (strip y, r) = s_session (length (db s)) (strip x) k ->
  session_done s c x k (Some (set_client s c y, r)).
Proof.
  intros Hs Hx Ew Ed Hy E. exists (set_client s c y), y, r.
  split_and!; [done|by apply (set_client_watch_ok s c x); [apply Hs|..]|by apply same_data_refl|done..|]. by rewrite Ew.
Qed.
Lemma session_same s c x k r : server_ok s -> clients s !! c = Some x ->
  (strip x, r) = s_session (length (db s)) (strip x) k -> session_done s c x k (Some (s, r)).
Proof.
  intros Hs Hx E. exists s, x, r.
  split_and!; [done|apply Hs|by apply same_data_refl|by rewrite insert_id|by apply (so_client _ Hs c)|done|done].
Qed.

Lemma session_ok e s c x k : server_ok s -> clients s !! c = Some x -> session_cmd k = true -> session_done s c x k (run e s c k).
Proof.
  intros Hs Hx Hk. pose proof (so_client _ Hs c x Hx) as Hok. pose proof Hok as [K1 K2 K3 K4].
  unfold run. rewrite Hx. cbn. destruct k; try done; cbn in *.
  - unfold selectCommand. rewrite getInt_arg. cbn. destruct (int_arg id) as [i|err] eqn:Ea; [|by apply session_same; [..|cbn; rewrite Ea]].
    unfold valid_db, dbnum. destruct (_ && _) eqn:Ei; cbn; [|by apply session_same; [..|cbn; rewrite Ea, Ei]]. rewrite Hx. cbn.
    apply session_set; [done..| |cbn; by rewrite Ea, Ei]. split; [cbn; lia|done..].
  - unfold multiCommand. rewrite Hx. cbn. destruct (c_multi x) eqn:Em; [by apply session_same; [..|cbn; rewrite Em]|].
    apply session_set; [done..| |cbn; by rewrite Em]. by split.
  - unfold discardCommand. rewrite Hx. cbn. destruct (c_multi x) eqn:Em; cbn; [|by apply session_same; [..|cbn; rewrite Em]].
    destruct (discard_ok s c x Hs Hx) as (s' & -> & Hw & Hsd & Hc). cbn. exists s', (ended x), ROk.
    split_and!; [done..|by apply ended_ok|cbn; by rewrite Em|done].
  - unfold watchCommand. rewrite Hx. cbn. destruct (c_multi x) eqn:Em; [by apply session_same; [..|cbn; rewrite Em]|].
    destruct (watch_keys_ok keys s c x Hs Hx) as (s' & -> & Hw & Hsd & Hc). cbn. eexists s', _, ROk.
    split_and!; [done..| |cbn; by rewrite Em|].
    + split; [done|done|by intros _; apply K3|]. cbn. intros Hd Hnil. apply (K4 Hd). pose proof (add_watch_sub (c_db x) keys (c_watched x)) as Hsub.
      rewrite Hnil in Hsub. destruct (c_watched x) as [|p ws]; [done|]. set_solver.
    + intros _. split; [apply add_watch_sub|done].
  - unfold unwatchCommand. destruct (unwatchAllKeys_ok s c x (so_watch _ Hs) Hx) as (s' & -> & Hw & Hsd & Hc). cbn.
    rewrite Hc, lookup_insert_eq. cbn. eexists _, (Client (c_db x) (c_multi x) false (c_dirty_exec x) [] (c_queue x)), ROk. split_and!; [done| | | | |done|done].
    + eapply set_client_watch_ok; [done|by rewrite Hc, lookup_insert_eq|done].
    + eapply same_data_trans; [done|]. by apply same_data_refl.
    + cbn. by rewrite Hc, insert_insert_eq.
    + by split.
Qed.

(** ** Every command but EXEC *)

Definition runnable (k : cmd) : bool := specified k || session_cmd k || match k with DBSIZE => true | _ => false end.

(** [T] tells that the state is the one the clients see. *)
Lemma run_ok (T : bool) n e s c x k A t : server_ok s -> clients s !! c = Some x -> env_ok e -> cmd_ok k -> runnable k = true ->
  (T = true -> now_ok t e /\ abs n s A t) ->
  exists s' r, run e s c k = Some (s', r) /\ moved (fun c' => c' <> c \/ releases k = false) s s' /\
    (T = true -> exists A', arun n e A c k r A' /\ abs n s' A' (now e)).
Proof.
  intros Hs Hx He Hk Hrun HT. pose proof (so_client _ Hs c x Hx) as Hok. destruct (session_cmd k) eqn:Ek.
  { destruct (session_ok e s c x k Hs Hx Ek) as (s' & y & r & -> & Hw & Hsd & Hc & Hy & Hsp & Hrel).
    exists s', r. split_and!; [done| |].
    - apply (moved_client _ s s' c x y); try done. intros [|]; [done|auto].
    - intros Ht. destruct (HT Ht) as [[Ha Hn] Hab]. rewrite (ab_length _ _ _ _ Hab) in Hsp.
      assert (HA : a_clients A !! c = Some (strip x)) by (by rewrite <- (ab_clients _ _ _ _ Hab), Hx).
      eexists. replace r with (s_session n (strip x) k).2 by (by rewrite <- Hsp).
      split; [by apply arun_session|]. rewrite <- Hsp. cbn. eapply abs_later; [done|]. by apply (abs_client n s). }
  pose proof (running_refl s (so_data _ Hs)) as Hr0.
  assert (run e s c k = data_command e s (c_db x) k) as -> by (unfold run; rewrite Hx; cbn; by destruct k).
  destruct (specified k) eqn:Esp.
  - set (M := if T then view e A else fun i k => live e (entry s i k)).
    destruct (data_meets s (so_watch _ Hs) e M s (c_db x) k) as (s' & r & -> & Hr & Hsp); [|apply Hok|done..|].
    { split; [done|]. intros Ha i k'. unfold M. destruct T; [|done]. destruct (HT eq_refl) as [? Hab]. by apply (ab_live _ _ _ _ Hab). }
    exists s', r. split_and!; [done|by apply moved_running|]. intros ->. destruct (HT eq_refl) as [[Ha Hn] Hab].
    destruct (Hsp Ha) as [-> Hl]. pose proof (ab_time _ _ _ _ Hab). rewrite (ab_length _ _ _ _ Hab) in *.
    eexists. split; [apply arun_data with (x := strip x); [by rewrite <- (ab_clients _ _ _ _ Hab), Hx|done]|].
    apply (abs_running n s s' A t e); [done..| |done]. apply spec_pos; [destruct Ha as (_ & _ & _ & ?); lia|].
    intros i k' o w. unfold M, view, live. destruct (dead_at _ _); [done|]. apply (ab_pos _ _ _ _ Hab).
  - destruct k; try done. cbn. destruct (dbsize_ok s s (c_db x) Hr0 (ck_db _ _ Hok)) as (s' & r & E & Hr). rewrite E.
    unfold dbsizeCommand in E. destruct (db s !! c_db x); [|done]. injection E as <- <-.
    eexists _, _. split_and!; [done|by apply moved_refl|]. intros Ht. destruct (HT Ht) as [[Ha Hn] Hab]. exists A.
    split; [constructor|]. by eapply abs_later.
Qed.

(** ** EXEC *)

(** The clock of a master from [t] to [t'] *)
Record clock_ok (t : Z) (clk : nat -> env) (t' : Z) : Prop := {
  cl_active j : active (clk j);
  cl_mono j : now (clk j) <= now (clk (S j));
  cl_start : t <= now (clk 0%nat);
  cl_end j : now (clk j) <= t';
}.

Lemma queueable_runnable k : queueable k = true -> runnable k = true.
Proof. by destruct k. Qed.

Lemma exec_loop_ok (T : bool) n clk c t' ks : (forall j, env_ok (clk j)) ->
  Forall (fun k => queueable k = true /\ cmd_ok k) ks -> forall j s A t, server_ok s -> is_Some (clients s !! c) ->
  (T = true -> (exists t0, clock_ok t0 clk t') /\ t <= now (clk j) /\ t <= t' /\ abs n s A t) ->
  exists s' rs, exec_loop clk s c j ks = Some (s', rs) /\ moved (fun c' => c' <> c) s s' /\
    (T = true -> exists A', arun_queue n clk c j ks A rs A' /\ abs n s' A' t').
Proof.
  intros He. induction 1 as [|k ks [Hq Hk] _ IH]; cbn; intros j s A t Hs [x Hx] HT.
  { exists s, []. split_and!; [done|by apply moved_refl|]. intros Ht. destruct (HT Ht) as (_ & _ & Hle & Hab).
    exists A. split; [constructor|by eapply abs_later]. }
  destruct (run_ok T n (clk j) s c x k A t Hs Hx (He j) Hk (queueable_runnable k Hq)) as (s1 & r & -> & Hm1 & HA1).
  { intros Ht. destruct (HT Ht) as ([t0 Hcl] & Hle & _ & Hab). split; [|done]. split; [apply Hcl|done]. }
  cbn. assert (exists A1, T = true -> arun n (clk j) A c k r A1 /\ abs n s1 A1 (now (clk j))) as [A1 HA].
  { destruct T; [destruct (HA1 eq_refl) as [A1 HA1']; by exists A1|by exists A]. }
  destruct (IH (S j) s1 A1 (now (clk j))) as (s2 & rs & -> & Hm2 & HA2); [apply Hm1|apply Hm1; eauto| |].
  { intros Ht. destruct (HT Ht) as ([t0 Hcl] & _). split_and!; [by exists t0|apply Hcl|apply Hcl|by apply HA]. }
  cbn. exists s2, (r :: rs). split_and!; [done| |].
  - eapply moved_trans; [|exact Hm1|exact Hm2]. cbn. auto.
  - intros Ht. destruct (HA2 Ht) as (A2 & Hq2 & Hab2). exists A2. split; [|done]. econstructor; [by apply HA|done].
Qed.

(** Ending a transaction *)
Lemma discard_moved n s c x A t (T : bool) : server_ok s -> clients s !! c = Some x -> (T = true -> abs n s A t) ->
  exists s', discardTransaction s c = Some s' /\ moved (fun c' => c' <> c) s s' /\ (T = true -> abs n s' (a_set A c (ended x)) t).
Proof.
  intros Hs Hx HT. destruct (discard_ok s c x Hs Hx) as (s' & E & Hw & Hsd & Hc). exists s'. split_and!; [done| |].
  - apply (moved_client _ s s' c x (ended x)); try done. by eapply ended_ok, so_client.
  - intros Ht. by apply (abs_client n s s' A t c (ended x)); [apply HT|..].
Qed.

Lemma execCommand_ok (T : bool) n clk s c x A t t' : server_ok s -> clients s !! c = Some x -> (forall j, env_ok (clk j)) ->
  (T = true -> clock_ok t clk t' /\ abs n s A t) ->
  exists s' r, execCommand clk s c = Some (s', r) /\ moved (fun c' => c' <> c) s s' /\
    (T = true -> exists A', aprocess n clk A c (strip x) EXEC r A' /\ abs n s' A' t').
Proof.
  intros Hs Hx He HT. pose proof (so_client _ Hs c x Hx) as Hok. unfold execCommand. rewrite Hx. cbn.
  assert (Htt : T = true -> t <= t') by (intros Ht; destruct (HT Ht) as [[_ _ H1 H2] _]; specialize (H2 0%nat); lia).
  assert (Hab : T = true -> abs n s A t') by (intros Ht; eapply abs_later; [by apply Htt|by apply HT]).
  destruct (c_multi x) eqn:Em; cbn.
  2: { exists s, (RError err_without_multi). split_and!; [done|by apply moved_refl|]. intros Ht. exists A. split; [by constructor|auto]. }
  destruct (c_dirty_cas x || c_dirty_exec x) eqn:Ed.
  { destruct (discard_moved n s c x A t' T Hs Hx Hab) as (s' & -> & Hm & HA). cbn. eexists _, _. split_and!; [done..|].
    intros Ht. exists (a_set A c (ended x)). split; [|auto]. change (ended x) with (ended (strip x)).
    destruct (c_dirty_exec x) eqn:Edx; [by constructor|]. constructor; [done..|]. apply (ck_dirty _ _ Hok). by rewrite orb_false_r in Ed. }
  apply orb_false_iff in Ed as [Edc Edx].
  destruct (unwatchAllKeys_ok s c x (so_watch _ Hs) Hx) as (s1 & -> & Hw1 & Hsd1 & Hc1). cbn.
  assert (Hm1 : moved (fun c' => c' <> c) s s1).
  { apply (moved_client _ s s1 c x (set_watched x [])); try done. destruct Hok as [K1 K2 K3 K4]. split; [done..|]. cbn. congruence. }
  destruct (exec_loop_ok T n clk c t' (c_queue x) He (ck_queue _ _ Hok) 1%nat s1 (a_set A c (set_watched (strip x) [])) t)
    as (s2 & rs & -> & Hm2 & HA2); [apply Hm1|rewrite Hc1, lookup_insert_eq; eauto| |].
  { intros Ht. destruct (HT Ht) as [Hcl Habs]. split_and!; [by exists t| |by apply Htt|].
    - transitivity (now (clk 0%nat)); apply Hcl.
    - change (set_watched (strip x) []) with (strip (set_watched x [])). by apply (abs_client n s). }
  cbn. destruct (mv_clients _ _ _ Hm2 c) as [x2 Hx2]; [rewrite Hc1, lookup_insert_eq; eauto|].
  assert (exists A2, T = true -> arun_queue n clk c 1 (c_queue x) (a_set A c (set_watched (strip x) [])) rs A2 /\ abs n s2 A2 t') as [A2 HA].
  { destruct T; [destruct (HA2 eq_refl) as [A2 HA2']; by exists A2|by exists A]. }
  destruct (discard_moved n s2 c x2 A2 t' T (mv_ok _ _ _ Hm2) Hx2 ltac:(apply HA)) as (s3 & -> & Hm3 & HA3). cbn.
  exists s3, (RArray rs). split_and!; [done| |].
  - apply (moved_trans (fun c' => c' <> c) (fun c' => c' <> c) _ s s1); [auto|done|].
    by apply (moved_trans (fun c' => c' <> c) (fun c' => c' <> c) _ s1 s2); [auto|..].
  - intros Ht. exists (a_set A2 c (ended (strip x2))). split; [|by apply HA3]. destruct (HA Ht) as [Hq Hab2].
    econstructor; [done..|]. by rewrite <- (ab_clients _ _ _ _ Hab2), Hx2.
Qed.

(** ** processCommand *)

(** A change of the flags and the queue of a client *)
Lemma client_moved (T : bool) n s c x y A t : server_ok s -> clients s !! c = Some x -> c_watched y = c_watched x ->
  c_dirty_cas y = c_dirty_cas x -> client_ok (length (db s)) y -> (T = true -> abs n s A t) ->
  forall P, moved P s (set_client s c y) /\ (T = true -> abs n (set_client s c y) (a_set A c (strip y)) t).
Proof.
  intros Hs Hx Ew Ed Hy HT P. split.
  - apply (moved_client P s _ c x y); try done; [by apply (set_client_watch_ok s c x); [apply Hs|..]|].
    by rewrite Ew, Ed.
  - intros Ht. by apply (abs_client n s); [apply HT|apply same_data_refl|].
Qed.

Lemma processCommand_ok (T : bool) n clk s c x k A t t' : server_ok s -> clients s !! c = Some x -> (forall j, env_ok (clk j)) ->
  cmd_ok k -> (T = true -> clock_ok t clk t' /\ abs n s A t) ->
  exists s' r, processCommand clk s c k = Some (s', r) /\ moved (fun c' => c' <> c \/ releases k = false) s s' /\
    (T = true -> exists A', aprocess n clk A c (strip x) k r A' /\ abs n s' A' t').
Proof.
  intros Hs Hx He Hk HT. pose proof (so_client _ Hs c x Hx) as Hok. pose proof Hok as [K1 K2 K3 K4].
  assert (Hab : T = true -> abs n s A t').
  { intros Ht. destruct (HT Ht) as [[_ _ H1 H2] Hab]. specialize (H2 0%nat). eapply abs_later; [|done]. lia. }
  unfold processCommand. rewrite Hx. cbn. destruct (decide (k = UNKNOWN)) as [->|Hu].
  { cbn. unfold flagTransaction. rewrite Hx. cbn.
    set (y := Client (c_db x) (c_multi x) (c_dirty_cas x) (c_multi x || c_dirty_exec x) (c_watched x) (c_queue x)).
    assert (Hy : client_ok (length (db s)) y) by (split; [done..| |done]; cbn; intros Em; rewrite Em; by apply K3).
    destruct (client_moved T n s c x y A t' Hs Hx eq_refl eq_refl Hy Hab (fun _ => True)) as [Hm HA].
    assert (Ey : (if c_multi x then set_client s c (Client (c_db x) true (c_dirty_cas x) true (c_watched x) (c_queue x)) else s) = set_client s c y).
    { unfold y. destruct (c_multi x) eqn:Em; [done|]. unfold set_client. rewrite insert_id; [by destruct s|]. rewrite Hx. destruct x. cbn in *. by subst. }
    rewrite Ey. cbn. eexists _, _. split_and!; [done| |].
    - by eapply moved_weaken, Hm.
    - intros Ht. eexists. split; [constructor|by apply HA]. }
  assert (Ek : forall (a b d : option (server * reply)), match k with UNKNOWN => a | _ => if c_multi x && negb (immediate k) then b else
      match k with EXEC => execCommand clk s c | _ => d end end =
      if c_multi x && negb (immediate k) then b else if decide (k = EXEC) then execCommand clk s c else d) by (by destruct k).
  rewrite Ek. clear Ek. destruct (c_multi x && negb (immediate k)) eqn:Eq.
  { apply andb_true_iff in Eq as [Em Ei]. unfold queueMultiCommand. rewrite Hx. cbn.
    set (y := Client (c_db x) (c_multi x) (c_dirty_cas x) (c_dirty_exec x) (c_watched x) (if c_dirty_exec x then c_queue x else c_queue x ++ [k])).
    assert (Hy : client_ok (length (db s)) y).
    { split; [done| |cbn; congruence|done]. cbn. destruct (c_dirty_exec x); [done|]. apply Forall_app. split; [done|].
      constructor; [|done]. split; [|done]. unfold queueable. rewrite Ei. by destruct k. }
    destruct (client_moved T n s c x y A t' Hs Hx eq_refl eq_refl Hy Hab (fun _ => True)) as [Hm HA].
    assert (Ey : (if c_dirty_exec x then Some s else Some (set_client s c (Client (c_db x) (c_multi x) (c_dirty_cas x) (c_dirty_exec x) (c_watched x) (c_queue x ++ [k])))) = Some (set_client s c y)).
    { unfold y. destruct (c_dirty_exec x) eqn:Edx; [|done]. unfold set_client. rewrite insert_id; [by destruct s|]. rewrite Hx. destruct x. cbn in *. by subst. }
    rewrite Ey. cbn. eexists _, _. split_and!; [done|by eapply moved_weaken, Hm|].
    intros Ht. eexists. split; [|by apply HA]. apply (ap_queue n clk A c (strip x) k); [done..|]. by apply negb_true_iff. }
  destruct (decide (k = EXEC)) as [->|Hne].
  { destruct (execCommand_ok T n clk s c x A t t' Hs Hx He HT) as (s' & r & -> & Hm & HA). eexists _, _. split_and!; [done| |done].
    eapply moved_weaken; [|done]. cbn. naive_solver. }
  destruct (run_ok T n (clk 0%nat) s c x k A t Hs Hx (He 0%nat) Hk) as (s' & r & -> & Hm & HA).
  - by destruct k.
  - intros Ht. destruct (HT Ht) as [Hcl Habs]. split; [split; apply Hcl|done].
  - eexists _, _. split_and!; [done..|]. intros Ht. destruct (HA Ht) as (A' & Hr & Habs). exists A'. split; [by apply ap_run|].
    eapply abs_later; [|done]. by apply (HT Ht).
Qed.

(** ** Events *)

Definition enabled (s : server) (ev : event) : bool :=
  match ev with
  | Connect c => negb (bool_decide (is_Some (clients s !! c)))
  | Disconnect c | Command c _ _ => bool_decide (is_Some (clients s !! c))
  | Cycle _ id key => bool_decide (is_Some (d ← db s !! id; expires d !! key))
  end.
Definition ev_ok (ev : event) : Prop :=
  match ev with Command _ k clk => cmd_ok k /\ forall j, env_ok (clk j) | _ => True end.
Definition ev_releases (c : nat) (ev : event) : bool :=
  match ev with
  | Disconnect c' => Nat.eqb c' c
  | Command c' k _ => Nat.eqb c' c && releases k
  | _ => false
  end.
(** On a master, between [t] and [t'] *)
Definition timed (t : Z) (ev : event) (t' : Z) : Prop :=
  match ev with
  | Command _ _ clk => clock_ok t clk t'
  | Cycle e _ _ => t <= mstime e <= t'
  | _ => t <= t'
  end.

Lemma createClient_ok s c : server_ok s -> (0 < length (db s))%nat -> clients s !! c = None ->
  exists s', createClient s c = Some s' /\ server_ok s' /\ same_data s s' /\
    clients s' = <[c := Client 0 false false false [] []]> (clients s).
Proof.
  intros [S1 S2 S3] Hn Hc. unfold createClient. rewrite Hc. eexists. split_and!; [done| |by apply same_data_refl|done].
  split; [done| |].
  - apply watch_ok_intro.
    + intros c' id key. transitivity (listed s c' id key); [done|]. rewrite (watch_ok_iff _ S2). unfold claimed. cbn.
      destruct (decide (c' = c)) as [->|Hne]; [|by rewrite lookup_insert_ne].
      rewrite lookup_insert_eq, Hc. split; [by intros (? & ? & _)|]. intros (? & [= <-] & Hin). by apply elem_of_nil in Hin.
    + apply (wk_lists _ S2).
    + intros c' x. cbn. rewrite lookup_insert. case_decide; [|apply (wk_nodup _ S2)]. intros [= <-]. apply NoDup_nil_2.
  - intros c' x. cbn. rewrite lookup_insert. case_decide; [|apply S3]. intros [= <-]. by split.
Qed.

Lemma freeClient_ok s c x : server_ok s -> clients s !! c = Some x ->
  exists s', freeClient s c = Some s' /\ server_ok s' /\ same_data s s' /\ clients s' = delete c (clients s).
Proof.
  intros [S1 S2 S3] Hx. unfold freeClient. destruct (unwatchAllKeys_ok s c x S2 Hx) as (s1 & -> & Hw & Hsd & Hc). cbn.
  assert (Hsd' : same_data s (Server (db s1) (delete c (clients s1)))) by (eapply same_data_trans; [done|by apply same_data_refl]).
  assert (Ec : delete c (clients s1) = delete c (clients s)) by (rewrite Hc; by rewrite delete_insert_eq).
  eexists. split_and!; [done| |done|done]. split; [by apply Hsd'| |].
  - apply watch_ok_intro.
    + intros c' id key. transitivity (listed s1 c' id key); [done|]. rewrite (watch_ok_iff _ Hw). unfold claimed. cbn.
      destruct (decide (c' = c)) as [->|Hne]; [|by rewrite lookup_delete_ne]. rewrite Hc, delete_insert_eq, lookup_delete_eq, lookup_insert_eq.
      split; [|by intros (? & ? & _)]. intros (? & [= <-] & Hin). by apply elem_of_nil in Hin.
    + apply (wk_lists _ Hw).
    + intros c' y. cbn. rewrite Ec, lookup_delete. case_decide; [done|]. intros Hy. by apply (wk_nodup _ S2 c').
  - cbn. rewrite Ec. intros c' y. rewrite lookup_delete. case_decide; [done|]. intros Hy. rewrite (sd_length _ _ Hsd). by apply (S3 c').
Qed.

Lemma cycle_ok e s id key : server_ok s -> is_Some (d ← db s !! id; expires d !! key) ->
  exists s' b, activeExpireCycleTryExpire e s id key = Some (s', b) /\ running s [] s' /\
    exists o w, entry s id key = Some (o, Some w) /\ 
      forall i k, entry s' i k = if decide (i = id /\ k = key /\ w < mstime e) then None else entry s i k.
Proof.
  intros Hs [w Hw]. destruct (db s !! id) as [d|] eqn:Hd; [|done]. cbn in Hw. pose proof (so_data _ Hs) as Hok.
  pose proof (running_refl s Hok) as Hr0.
  assert (exists o, entry s id key = Some (o, Some w)) as [o Ho].
  { destruct (Hok id d Hd key) as [o Ho]; [by rewrite Hw|]. exists o. unfold entry. rewrite Hd. cbn. rewrite Ho. cbn. by rewrite Hw. }
  unfold activeExpireCycleTryExpire. rewrite Hd. cbn. rewrite Hw. cbn. destruct (Z.gtb_spec (mstime e) w) as [Hlt|Hge].
  - destruct (dbSyncDelete_edit s id d key Hok Hd) as (s1 & -> & Hed). cbn.
    destruct (signal_running s (so_watch _ Hs) [(id, key)] [] s1 id key) as (s2 & -> & Edb & _ & Hr2);
      [by eapply running_edit|by eapply lookup_lt_Some|by intros p ->%list_elem_of_singleton; left|].
    cbn. eexists _, _. split_and!; [done..|]. exists o, w. split; [done|]. intros i k. rewrite (entry_same s1) by done.
    rewrite (ed_entry _ _ _ _ _ Hed). repeat case_decide; naive_solver.
  - eexists _, _. split_and!; [done..|]. exists o, w. split; [done|]. intros i k. rewrite decide_False; [done|]. lia.
Qed.

Lemma step_ok (T : bool) n s ev A t t' : server_ok s -> (0 < length (db s))%nat -> enabled s ev = true -> ev_ok ev ->
  (T = true -> timed t ev t' /\ abs n s A t) ->
  exists s' r, step s ev = Some (s', r) /\ server_ok s' /\ length (db s') = length (db s) /\
    (forall c, ev_releases c ev = false -> keeps c s s') /\
    (T = true -> exists A', astep n A ev r A' /\ abs n s' A' t').
Proof.
  intros Hs Hn Hen Hev HT. destruct ev as [c|c|c k clk|e id key]; cbn in *.
  - apply negb_true_iff, bool_decide_eq_false in Hen. apply eq_None_not_Some in Hen.
    destruct (createClient_ok s c Hs Hn Hen) as (s' & -> & Hs' & Hsd & Hc). cbn.
    eexists _, _. split_and!; [done..|apply Hsd| |].
    + intros c' _. destruct (decide (c' = c)) as [->|Hne]; [by intros x Hx; congruence|].
      apply keeps_same; [done|]. by rewrite Hc, lookup_insert_ne.
    + intros Ht. destruct (HT Ht) as [Htt Hab]. eexists. split; [constructor; by rewrite <- (ab_clients _ _ _ _ Hab), Hen|].
      eapply abs_later; [exact Htt|]. by apply (abs_client n s s' A t c (Client 0 false false false [] [])).
  - apply bool_decide_eq_true in Hen as [x Hx]. destruct (freeClient_ok s c x Hs Hx) as (s' & -> & Hs' & Hsd & Hc). cbn.
    eexists _, _. split_and!; [done..|apply Hsd| |].
    + intros c' Hne. apply keeps_same; [done|]. rewrite Hc, lookup_delete_ne; [done|]. by apply Nat.eqb_neq.
    + intros Ht. destruct (HT Ht) as [Htt [A0 A1 A2 A3 A4]]. eexists. split; [constructor|]. eapply abs_later; [exact Htt|].
      split; [done|by rewrite (sd_length _ _ Hsd)| |done|].
      * intros c'. cbn. rewrite Hc, !lookup_delete. by case_decide.
      * intros e i k Hok. rewrite (sd_entry _ _ Hsd). by apply A4.
  - apply bool_decide_eq_true in Hen as [x Hx]. destruct Hev as [Hk He].
    destruct (processCommand_ok T n clk s c x k A t t' Hs Hx He Hk HT) as (s' & r & -> & [M1 M2 M3 M4] & HA). cbn.
    eexists _, _. split_and!; [done..| |].
    + intros c' Hrel. apply M4. destruct (decide (c' = c)) as [->|]; [right|by left]. by rewrite Nat.eqb_refl in Hrel.
    + intros Ht. destruct (HA Ht) as (A' & Hp & Hab'). exists A'. split; [|done]. econstructor; [|done].
      destruct (HT Ht) as [_ Hab]. by rewrite <- (ab_clients _ _ _ _ Hab), Hx.
  - apply bool_decide_eq_true in Hen. destruct (cycle_ok e s id key Hs Hen) as (s' & b & -> & Hr & o & w & Ho & He). cbn.
    destruct (moved_running (fun _ => True) s s' Hs Hr) as [M1 M2 M3 M4]. eexists _, _. split_and!; [done..|auto|].
    intros Ht. destruct (HT Ht) as [Htt [A0 A1 A2 A3 A4]]. exists A. split; [constructor|].
    split; [lia|by rewrite (running_length _ _ _ Hr)| |done|].
    + intros c. rewrite <- A2. destruct (rn_clients _ _ _ Hr c) as [-> | (x & -> & _ & ->)]; done.
    + intros e' i k [Ha Hle]. rewrite <- (A4 e' i k) by (split; [done|lia]). rewrite He. destruct (decide (i = id /\ k = key /\ w < mstime e)) as [Hc|]; [|done].
      destruct Hc as (-> & -> & Hlt). assert (Hnow : now_ok t e') by (split; [done|lia]). specialize (A4 e' id key Hnow).
      destruct Ha as (_ & Hld & _). rewrite Ho in *. unfold live in A4 |- *. cbn in *. rewrite Hld in *.
      destruct (Z.ltb_spec w 0); cbn in *; [|by destruct (Z.gtb_spec (now e') w); [|lia]].
      destruct (dead_at e' (a_map A id key)); [done|]. specialize (A3 id key o w (eq_sym A4)). lia.
Qed.

End KeyspaceServer.
