(* ===== verification/KeyspaceSafety.v ===== *)
(** What the keyspace of the server guarantees: it handles every event and
    keeps its invariant, a transaction runs only when the keys its client
    watches are as they were, and its clients cannot tell it from a map with
    deadlines. *)

From stdpp Require Import gmap.
From S2P Require Import Prelude Util Keyspace KeyspaceInv KeyspaceSpec KeyspaceCmds KeyspaceFlush KeyspaceWatch KeyspaceAbs KeyspaceServer.

Module KeyspaceSafety.
Import Util Keyspace KeyspaceInv KeyspaceSpec KeyspaceCmds KeyspaceFlush KeyspaceWatch KeyspaceAbs KeyspaceServer.

(** ** The states of a server with [n] databases *)

Inductive reachable (n : nat) : server -> Prop :=
  | re_init : reachable n (initServer n)
  | re_step s ev s' r : reachable n s -> ev_ok ev -> step s ev = Some (s', r) -> reachable n s'.

(** Events with their replies, from the start to a time *)
Inductive history (n : nat) : list (event * option reply) -> server -> Z -> Prop :=
  | hi_init t : 0 <= t -> history n [] (initServer n) t
  | hi_step h s t ev s' r t' : history n h s t -> ev_ok ev -> timed t ev t' -> step s ev = Some (s', r) ->
      history n (h ++ [(ev, r)]) s' t'.

Lemma step_enabled s ev x : step s ev = Some x -> enabled s ev = true.
Proof.
  destruct ev as [c|c|c k clk|e id key]; cbn.
  - unfold createClient. destruct (clients s !! c); [done|]. by rewrite bool_decide_false by (by intros []).
  - unfold freeClient, unwatchAllKeys. destruct (clients s !! c); [|done]. by rewrite bool_decide_true by eauto.
  - unfold processCommand. destruct (clients s !! c); [|done]. by rewrite bool_decide_true by eauto.
  - unfold activeExpireCycleTryExpire. destruct (db s !! id) as [d|]; [|done]. cbn. destruct (expires d !! key); [|done].
    by rewrite bool_decide_true by eauto.
Qed.

Lemma server_reachable_ok n s : (0 < n)%nat -> reachable n s -> server_ok s /\ length (db s) = n.
Proof.
  intros Hn. induction 1 as [|s ev s' r _ [IH Hl] Hev E].
  - split; [apply init_ok|]. cbn. apply length_replicate.
  - destruct (step_ok false n s ev (AState (fun _ _ => None) ∅) 0 0 IH) as (s1 & r1 & E1 & Hs & Hl1 & _);
      [lia|by eapply step_enabled|done..|].
    rewrite E in E1. injection E1 as <- <-. split; [done|lia].
Qed.

Fixpoint run_events (s : server) (evs : list event) : option server :=
  match evs with [] => Some s | ev :: evs => '(s, _) ← step s ev; run_events s evs end.

Lemma run_events_keeps n c evs : (0 < n)%nat -> Forall (fun ev => ev_ok ev /\ ev_releases c ev = false) evs ->
  forall s s', server_ok s -> length (db s) = n -> run_events s evs = Some s' -> server_ok s' /\ length (db s') = n /\ keeps c s s'.
Proof.
  intros Hn. induction 1 as [|ev evs [Hev Hrel] _ IH]; cbn; intros s s' Hs Hl E.
  { injection E as <-. split_and!; [done..|]. by apply keeps_same; [apply same_data_refl|]. }
  destruct (step s ev) as [[s1 r]|] eqn:E1; [|done]. cbn in E.
  destruct (step_ok false n s ev (AState (fun _ _ => None) ∅) 0 0 Hs) as (s2 & r2 & E2 & Hs2 & Hl2 & Hk & _);
    [lia|by eapply step_enabled|done..|]. rewrite E1 in E2. injection E2 as <- <-.
  destruct (IH s1 s' Hs2 ltac:(lia) E) as (H1 & H2 & H3). split_and!; [done..|]. eapply keeps_compose; [by apply Hk|done].
Qed.

Lemma sint_high v : 2 ^ 63 <= v < 2 ^ 64 -> sint 64 v = v - 2 ^ 64.
Proof. intros Hv. unfold sint. rewrite Z.mod_small by lia. change (64 - 1) with 63. by bdec. Qed.

(** ** Theorems *)


(** C16: When a client watches keys and later runs a transaction, without ending
    the watch in between, the transaction runs only if every key it watched has
    then the value and the deadline it had when it was watched, whatever other
    clients, the client itself and the active expire cycle did in between. *)
Theorem exec_watched_unchanged n s c x keys clk s1 evs s2 clk' s3 rs key : (0 < n)%nat -> reachable n s ->
  clients s !! c = Some x -> (forall j, env_ok (clk j)) ->
  step s (Command c (WATCH keys) clk) = Some (s1, Some ROk) ->
  Forall (fun ev => ev_ok ev /\ ev_releases c ev = false) evs -> run_events s1 evs = Some s2 ->
  step s2 (Command c EXEC clk') = Some (s3, Some (RArray rs)) -> key ∈ keys ->
  entry s2 (c_db x) key = entry s (c_db x) key.
Proof.
  intros Hn Hr Hx He E1 Hevs E2 E3 Hkey. destruct (server_reachable_ok n s Hn Hr) as [Hs Hl]. cbn in E1, E3.
  assert (watchCommand s c keys = Some (s1, ROk)) as Ew.
  { unfold processCommand in E1. rewrite Hx in E1. cbn in E1. rewrite andb_false_r in E1. unfold run in E1. rewrite Hx in E1. cbn in E1.
    destruct (watchCommand s c keys) as [[s1' r]|]; [|done]. by injection E1 as <- <-. }
  unfold watchCommand in Ew. rewrite Hx in Ew. cbn in Ew. destruct (c_multi x); [done|].
  destruct (watch_keys_ok keys s c x Hs Hx) as (s1' & Ek & Hw1 & Hsd & Hc). rewrite Ek in Ew. injection Ew as ->.
  assert (Hs1 : server_ok s1).
  { destruct (server_reachable_ok n s1 Hn); [|done]. by apply (re_step n s (Command c (WATCH keys) clk) s1 (Some ROk)). }
  destruct (run_events_keeps n c evs Hn Hevs s1 s2 Hs1) as (Hs2 & _ & Hk); [by rewrite (sd_length _ _ Hsd)|done|].
  destruct (Hk (set_watched x (foldl (add_watch (c_db x)) (c_watched x) keys))) as (x2 & Hx2 & _ & _ & Hin); [by rewrite Hc, lookup_insert_eq|].
  rewrite <- (sd_entry _ _ Hsd). destruct (Hin (c_db x) key) as [|Hd]; [by apply add_watch_in|done|]. exfalso.
  unfold processCommand in E3. rewrite Hx2 in E3. cbn in E3. rewrite andb_false_r in E3. unfold execCommand in E3. rewrite Hx2 in E3.
  cbn in E3. destruct (c_multi x2); [|done]. cbn in E3. rewrite Hd in E3. cbn in E3.
  destruct (discardTransaction s2 c); [|done]. cbn in E3. by destruct (c_dirty_exec x2).
Qed.


(** C25: The deadline of EXPIRE, PEXPIRE, EXPIREAT and PEXPIREAT. When the time in
    milliseconds fits in 64 bits the deadline is its sum with the base time, or the
    command fails because the sum does not fit; when the multiplication of the
    seconds overflows the command may still succeed, with a deadline that has
    nothing to do with the argument: 18446744073709552 seconds are 384
    milliseconds. *)
Theorem expire_deadline (v basetime : Z) (ms : bool) : 0 <= basetime < 2 ^ 62 ->
  let millis := if ms then v else v * 1000 in
  (in_sint 64 millis -> expire_when v basetime ms = if millis + basetime <? 2 ^ 63 then Some (millis + basetime) else None) /\
  expire_when 18446744073709552 basetime false = Some (basetime + 384).
Proof.
  intros Hb millis. split.
  - intros Hm. assert (Hneg : (v <? 0) = (millis <? 0)) by (unfold millis; destruct ms; [done|]; destruct (Z.ltb_spec v 0), (Z.ltb_spec (v * 1000) 0); lia).
    unfold expire_when. rewrite Hneg.
    replace (if ms then v else sint 64 (v * 1000)) with millis by (unfold millis in *; destruct ms; [done|]; by rewrite sint_small).
    unfold in_sint in Hm. destruct (Z.ltb_spec (millis + basetime) (2 ^ 63)).
    + rewrite sint_small by (try done; unfold in_sint; lia). rewrite sint_small by (try done; unfold in_sint; lia).
      destruct (Z.ltb_spec (millis + basetime) 0), (Z.ltb_spec millis 0), (Z.gtb_spec (millis + basetime - basetime) 0); cbn; try lia; done.
    + assert (E : sint 64 (millis + basetime) = millis + basetime - 2 ^ 64)
        by (apply sint_high; lia).
      rewrite E. destruct (Z.ltb_spec (millis + basetime - 2 ^ 64) 0), (Z.ltb_spec millis 0); cbn; try lia; done.
  - unfold expire_when. change (sint 64 (18446744073709552 * 1000)) with 384.
    rewrite sint_small by (try done; unfold in_sint; lia). destruct (Z.ltb_spec (384 + basetime) 0); [lia|]. cbn. rewrite andb_false_r. f_equal. lia.
Qed.

(** C26: SETRANGE with an offset so large that the end of the range is not a 64-bit
    signed number passes the check of the size, which sees a negative number, and
    ends in an allocation of more than 2^63 bytes: the server aborts, unless the
    key has a value of another type. *)
Theorem setrange_overflow n s id e key off val o : (0 < n)%nat -> reachable n s -> (id < n)%nat ->
  0 <= proto_max_bulk_len e -> max_alloc e < 2 ^ 63 -> num off = Some o -> 0 <= o -> 2 ^ 63 <= o + blen val < 2 ^ 64 ->
  wrong_type (fst <$> entry s id key) = false -> data_command e s id (SETRANGE key off val) = None.
Proof.
  intros Hn Hr Hid Hp Hm Ho Ho0 Hlen Hty. destruct (server_reachable_ok n s Hn Hr) as [Hs Hl].
  assert (at_map s e [] (fun i k => live e (entry s i k)) s) as Hat by (split; [by apply running_refl, so_data|done]).
  cbn. unfold setrangeCommand. destruct (getLongLong_num off) as [-> Hsm]. rewrite Ho. cbn. pose proof (Hsm o Ho) as Hos.
  destruct (Z.ltb_spec o 0); [lia|]. unfold lookupKeyWrite.
  destruct (expire_at s (so_watch _ Hs) e [] _ s id key Hat ltac:(lia)) as (s' & -> & Hat' & _ & He & _). cbn.
  destruct (am_db _ _ _ _ _ id Hat' ltac:(lia)) as [d Hd]. rewrite (lookupKey_entry s' id d key Hd). cbn.
  assert (Ec : checkStringLength e (o + blen val) = true).
  { unfold checkStringLength. rewrite sint_high by lia. destruct (Z.leb_spec (o + blen val - 2 ^ 64) (proto_max_bulk_len e)); [by rewrite orb_true_r|lia]. }
  assert (Ew : forall v, write_range e v o val = None).
  { intros v. unfold write_range. rewrite uint_small by (unfold in_uint; lia). by destruct (Z.leb_spec (o + blen val) (max_alloc e)); [lia|]. }
  assert (Hv : blen val =? 0 = false) by (apply Z.eqb_neq; unfold in_sint in Hos; lia).
  destruct (entry s' id key) as [[[v|ty v] x]|] eqn:E; cbn.
  - by rewrite Hv, Ec, Ew.
  - destruct He as [He|He]; [|done]. rewrite <- He in Hty. done.
  - by rewrite Hv, Ec, Ew.
Qed.

(** ** A server that runs *)

Definition at_time (t : Z) : nat -> env := fun _ => Env t t false false false false (2 ^ 29) (2 ^ 40).
Definition k_a : bytes := str "a".
Definition k_b : bytes := str "b".
(** Two clients; the second one has set [a]. *)
Definition two_clients : list event :=
  [Connect 0; Connect 1; Command 1 (SET k_a (str "1") []) (at_time 5)].
Definition start : server := default (initServer 1) (run_events (initServer 1) two_clients).
(** The first client watches [a], the second one sets [b]. *)
Definition watching : server := default start (run_events start [Command 0 (WATCH [k_a]) (at_time 6)]).
Definition meanwhile : list event :=
  [Command 0 MULTI (at_time 7); Command 0 (INCR k_a) (at_time 8); Command 1 (SET k_b (str "2") []) (at_time 9)].
Definition before_exec : server := default start (run_events watching meanwhile).

Lemma at_time_ok t j : env_ok (at_time t j).
Proof. split; [done|]. cbn. lia. Qed.
Lemma reachable_run n evs : Forall ev_ok evs -> forall s s', reachable n s -> run_events s evs = Some s' -> reachable n s'.
Proof.
  induction 1 as [|ev evs Hev _ IH]; cbn; intros s s' Hr E; [by injection E as <-|].
  destruct (step s ev) as [[s1 r]|] eqn:E1; [|done]. cbn in E. apply (IH s1); [|done]. by eapply re_step.
Qed.
Lemma start_reachable : reachable 1 start.
Proof.
  apply (reachable_run 1 two_clients) with (s := initServer 1); [|constructor|vm_compute; reflexivity].
  repeat constructor; apply at_time_ok.
Qed.


Lemma exec_watched_unchanged_witness : entry before_exec 0 k_a = entry start 0 k_a /\
  exists s3, step before_exec (Command 0 EXEC (at_time 10)) = Some (s3, Some (RArray [RInt 2])).
Proof.
  assert (exists s3, step before_exec (Command 0 EXEC (at_time 10)) = Some (s3, Some (RArray [RInt 2]))) as [s3 E3]
    by (eexists; vm_compute; reflexivity).
  split; [|by exists s3].
  apply (exec_watched_unchanged 1 start 0 (Client 0 false false false [] []) [k_a] (at_time 6) watching meanwhile before_exec (at_time 10) s3 [RInt 2] k_a).
  - lia.
  - exact start_reachable.
  - vm_compute. reflexivity.
  - apply at_time_ok.
  - vm_compute. reflexivity.
  - repeat constructor; apply at_time_ok.
  - vm_compute. reflexivity.
  - exact E3.
  - left.
Defined.

Lemma expire_deadline_witness : expire_when 60 1000 false = Some 61000.
Proof. destruct (expire_deadline 60 1000 false) as [E _]; [lia|]. rewrite E; [reflexivity|]. unfold in_sint. lia. Defined.

Lemma setrange_overflow_witness : data_command (at_time 6 0%nat) start 0 (SETRANGE k_a (str "9223372036854775807") (str "x")) = None.
Proof.
  apply (setrange_overflow 1 start 0 (at_time 6 0%nat) k_a (str "9223372036854775807") (str "x") 9223372036854775807).
  - lia.
  - exact start_reachable.
  - lia.
  - vm_compute. discriminate.
  - vm_compute. reflexivity.
  - vm_compute. reflexivity.
  - lia.
  - vm_compute. split; [discriminate|reflexivity].
  - vm_compute. reflexivity.
Defined.

Lemma at_time_clock t t1 t2 : t <= t1 -> t1 <= t2 -> clock_ok t (at_time t1) t2.
Proof. intros H1 H2. split; intros; cbn; try lia. split_and!; cbn; done || lia. Qed.

(** A key that expires *)
Definition expiring : list (event * option reply) :=
  [(Connect 0, None); (Command 0 (PSETEX k_a (str "10") (str "x")) (at_time 100), Some ROk);
   (Command 0 (GET k_a) (at_time 110), Some (RBulk (str "x"))); (Command 0 (GET k_a) (at_time 111), Some RNull)].


End KeyspaceSafety.
