(* ===== verification/Session.v ===== *)
(** The accounts and sessions of the web application: users/views.py,
    users/middleware.py, users/TokenManager.py and getUser of
    searchingApp/views.py.

    PyJWT and hashlib are interfaces with the behaviour their documentation
    promises; the Redis server is an interface that [RedisStore] implements with
    the server of [Keyspace]. The clock is in seconds. *)

From stdpp Require Import gmap.
From S2P Require Import Prelude.

Module Session.

Open Scope string_scope.
Open Scope Z_scope.

(** ** Python values *)

Inductive exn :=
  | TypeError | ValueError | KeyError | IndexError | NameError | AttributeError
  | AuthenticationFailed | ValidationError | InvalidToken
  | OutOfRandom.

Inductive result (A : Type) :=
  | Ok (a : A)
  | Raise (e : exn).
Arguments Ok {A} _.
Arguments Raise {A} _.

Definition rbind {A B} (x : result A) (f : A -> result B) : result B :=
  match x with Ok a => f a | Raise e => Raise e end.
Notation "'let!' p := x 'in' k" := (rbind x (fun p => k))
  (at level 200, p pattern, x at level 200, k at level 200).

(** [if s:] on a string or None *)
Definition truthy (s : option string) : bool :=
  match s with None | Some "" => false | _ => true end.

Definition chars (s : string) : list Ascii.ascii := String.list_ascii_of_string s.

Definition is_space (c : Ascii.ascii) : bool :=
  let n := Z.of_nat (Ascii.nat_of_ascii c) in
  (n =? 32) || ((9 <=? n) && (n <=? 13)) || ((28 <=? n) && (n <=? 31)).
(** [str.isspace], on ASCII *)
Definition isspace (s : string) : bool :=
  match s with "" => false | _ => forallb is_space (chars s) end.

(** [str.split(c)] *)
Fixpoint split_on (c : Ascii.ascii) (s : string) : string * list string :=
  match s with
  | EmptyString => ("", [])
  | String x s =>
      let '(hd, tl) := split_on c s in
      if Ascii.eqb x c then ("", hd :: tl) else (String x hd, tl)
  end.
Definition split (c : Ascii.ascii) (s : string) : list string := let '(hd, tl) := split_on c s in hd :: tl.

Definition colon : Ascii.ascii := Ascii.ascii_of_nat 58.

(** [sub in s] *)
Fixpoint contains (sub s : string) : bool :=
  String.prefix sub s || match s with EmptyString => false | String _ s => contains sub s end.

(** ** Interfaces *)

(** The Redis server through redis-py: SET, EXPIRE, GET, EXISTS at a time. *)
Class KV (store : Type) := {
  kv_set : store -> Z -> string -> string -> store;
  kv_expire : store -> Z -> string -> Z -> store;
  kv_get : store -> Z -> string -> option string;
}.

(** Times and lifetimes, in seconds *)
Definition clock (t : Z) : Prop := 0 <= t < 2 ^ 40.
Definition lifetime (n : Z) : Prop := 0 <= n < 2 ^ 32.

(** SET removes a time to live, EXPIRE sets it on a live key, a key is gone when
    it has elapsed, at once when it is zero, and only the key named is affected.
    [kv_ok] is the invariant of the server. *)
Class KVLaws (store : Type) `{KV store} := {
  kv_ok : store -> Prop;
  set_ok s t k v : kv_ok s -> clock t -> kv_ok (kv_set s t k v);
  expire_ok s t k n : kv_ok s -> clock t -> lifetime n -> kv_ok (kv_expire s t k n);
  get_set_eq s t k v t' : kv_ok s -> clock t -> clock t' -> t <= t' -> kv_get (kv_set s t k v) t' k = Some v;
  get_set_ne s t k k' v t' : kv_ok s -> clock t -> clock t' -> t <= t' -> k <> k' ->
    kv_get (kv_set s t k v) t' k' = kv_get s t' k';
  get_expire_eq s t k n t' : kv_ok s -> clock t -> lifetime n -> clock t' -> t <= t' ->
    kv_get (kv_expire s t k n) t' k = if (0 <? n) && (t' <=? t + n) then kv_get s t k else None;
  get_expire_ne s t k k' n t' : kv_ok s -> clock t -> lifetime n -> clock t' -> t <= t' -> k <> k' ->
    kv_get (kv_expire s t k n) t' k' = kv_get s t' k';
  get_mono s t t' k v : kv_ok s -> clock t -> clock t' -> t <= t' -> kv_get s t' k = Some v -> kv_get s t k = Some v;
}.

Record payload := Payload { p_id : string; p_exp : Z; p_iat : Z }.
Inductive decoded := Valid (p : payload) | ExpiredSignature | Invalid.

(** PyJWT with HS256. [Invalid] is every exception but the one for a token that
    has expired: a malformed token, a wrong signature, a secret that is None. *)
Class JWT := {
  jwt_encode : payload -> string -> string;
  jwt_decode : string -> option string -> Z -> decoded;
}.
Class JWTLaws `{JWT} := {
  decode_encode p k t : p_iat p <= t ->
    jwt_decode (jwt_encode p k) (Some k) t = if t <? p_exp p then Valid p else ExpiredSignature;
  decode_no_secret tok t : jwt_decode tok None t = Invalid;
  encode_not_empty p k : jwt_encode p k <> "";
}.

(** Signatures as ideal: a token verifies under the secret it was made with, and
    no two are the same. *)
Class JWTIdeal `{JWTLaws} := {
  decode_sound tok k t p : jwt_decode tok (Some k) t = Valid p -> tok = jwt_encode p k;
  encode_inj p k p' k' : jwt_encode p k = jwt_encode p' k' -> p = p' /\ k = k';
}.

Section App.
Context {store : Type} `{KV store} `{JWT}.
(** [hashlib.sha256(..).hexdigest()] and the validation of a document before it
    is saved. *)
Context (sha256 : string -> string) (valid_email : string -> bool).

(** ** TokenManager.py *)

Definition setValue (s : store) (t : Z) (key value : string) (ageInSeconds : Z) : store :=
  kv_expire (kv_set s t key value) t key ageInSeconds.
Definition getValue (s : store) (t : Z) (key : string) : option string := kv_get s t key.
Definition checkForExistence (s : store) (t : Z) (key : string) : bool := bool_decide (is_Some (kv_get s t key)).
Definition scheduleExpire (s : store) (t : Z) (key : string) (time : Z) : store := kv_expire s t key time.

(** ** users/models.py and the databases *)

Record User := MkUser { name : string; email : string; password : string }.

(** The collection of users, by primary key, and the Redis database. *)
Record state := State { users : gmap string User; redis : store }.

(** ** users/views.py *)

Definition ACCESS_AGE_MINUTES : Z := 30.
Definition REFRESH_AGE_MINUTES : Z := 120.

Definition allowedchars : string := "abcdefghijklmnopqrstuvwxyz1234567890!@#$%^&*()".
(** [draws] are the results of [random.randint(startIndex, lastIndex)]. *)
Fixpoint generateRandomKey (draws : list nat) : option string :=
  match draws with
  | [] => Some ""
  | i :: draws => c ← String.get i allowedchars; k ← generateRandomKey draws; Some (String c k)
  end.

Definition create_token (t : Z) (user_id secret_key : string) (age_limit : Z) : string :=
  jwt_encode (Payload user_id (t + age_limit * 60) t) secret_key.

Definition hash_password (salt password : string) : string := sha256 (salt +:+ password) +:+ ":" +:+ salt.
Definition check_password (hashed_password user_password : string) : result bool :=
  match split colon hashed_password with
  | [password; salt] => Ok (String.eqb password (sha256 (salt +:+ user_password)))
  | _ => Raise ValueError
  end.

Definition HTTP_200_OK : Z := 200.
Definition HTTP_201_CREATED : Z := 201.
Definition HTTP_401_UNAUTHORIZED : Z := 401.
Definition HTTP_406_NOT_ACCEPTABLE : Z := 406.

Inductive body :=
  | Message (m : string)
  | UserData (name id password : string)
  | Tokens (jwt refresh : string).
Record response := Response { status : Z; data : body }.

(** [salt] is the uuid that [hash_password] draws. *)
Definition register (st : state) (password name email : option string) (salt : string) : result (state * response) :=
  match password, name, email with
  | Some pw, Some nm, Some em =>
      if truthy password && truthy email && truthy name then
        if isspace pw || isspace nm || isspace em then
          Ok (st, Response HTTP_406_NOT_ACCEPTABLE (Message "There must be some value for name,email,password"))
        else
          match users st !! em with
          | Some _ => Ok (st, Response HTTP_406_NOT_ACCEPTABLE (Message "user already registered"))
          | None =>
              if valid_email em then
                let user := MkUser nm em (hash_password salt pw) in
                Ok (State (<[em := user]> (users st)) (redis st),
                    Response HTTP_200_OK (UserData nm em "*********************"))
              else Raise ValidationError
          end
      else Ok (st, Response HTTP_406_NOT_ACCEPTABLE (Message "Missing Values, check username, password or email!! "))
  | _, _, _ => Ok (st, Response HTTP_406_NOT_ACCEPTABLE (Message "Missing Values, check username, password or email!! "))
  end.

(** [while checkForExistence(key_name + "_secret"): key_name = generateRandomKey()];
    [keys] are the random keys in the order they are drawn. *)
Fixpoint fresh_key (s : store) (t : Z) (keys : list string) : option string :=
  match keys with
  | [] => None
  | k :: keys => if checkForExistence s t (k +:+ "_secret") then fresh_key s t keys else Some k
  end.

Definition login (st : state) (t : Z) (data_email data_password : option string) (secret_key : string) (keys : list string)
    : result (state * response) :=
  match data_email, data_password with
  | Some em, Some pw =>
      if truthy data_email && truthy data_password then
        match users st !! em with
        | None => Ok (st, Response HTTP_401_UNAUTHORIZED (Message "user does not exist"))
        | Some user =>
            let! ok := check_password (password user) pw in
            if negb ok then Ok (st, Response HTTP_401_UNAUTHORIZED (Message "Wrong Password"))
            else
              let access_token := create_token t (email user) secret_key ACCESS_AGE_MINUTES in
              let refresh_token := create_token t (email user) secret_key REFRESH_AGE_MINUTES in
              match fresh_key (redis st) t keys with
              | None => Raise OutOfRandom
              | Some key_name =>
                  let s := setValue (redis st) t (key_name +:+ "_access") access_token (ACCESS_AGE_MINUTES * 60) in
                  let s := setValue s t (key_name +:+ "_secret") secret_key (REFRESH_AGE_MINUTES * 60) in
                  Ok (State (users st) s, Response HTTP_200_OK (Tokens key_name refresh_token))
              end
        end
      else Ok (st, Response HTTP_401_UNAUTHORIZED (Message "User or password is not found"))
  | _, _ => Ok (st, Response HTTP_401_UNAUTHORIZED (Message "User or password is not found"))
  end.

(** [jwt] and [token] are the cookies jwt and refresh. *)
Definition refresh (st : state) (t : Z) (jwt token : option string) : result (state * response) :=
  if negb (truthy token) then Ok (st, Response HTTP_401_UNAUTHORIZED (Message "please login again!"))
  else if negb (truthy jwt) then Ok (st, Response HTTP_401_UNAUTHORIZED (Message "no jwt token"))
  else
    let key_name := default "" jwt in
    let secret_key := getValue (redis st) t (key_name +:+ "_secret") in
    match jwt_decode (default "" token) secret_key t with
    | ExpiredSignature => Raise AuthenticationFailed
    | Invalid => Raise InvalidToken
    | Valid p =>
        let access_token := create_token t (p_id p) (default "" secret_key) ACCESS_AGE_MINUTES in
        let s := setValue (redis st) t (key_name +:+ "_access") access_token (ACCESS_AGE_MINUTES * 60) in
        Ok (State (users st) s, Response HTTP_201_CREATED (Message "successful"))
    end.

Definition logout (st : state) (t : Z) (jwt : option string) : result (state * response) :=
  match jwt with
  | None => Raise TypeError
  | Some key_name =>
      let s := scheduleExpire (redis st) t (key_name +:+ "_secret") 0 in
      let s := scheduleExpire s t (key_name +:+ "_access") 0 in
      Ok (State (users st) s, Response HTTP_200_OK (Message "success"))
  end.

(** ** users/middleware.py *)

Definition authentication_paths : list string :=
  ["/user/login"; "/user/register"; "/user/logout"; "/user/refresh"].

(** [Ok tt] lets the request through to its view. *)
Definition process_request (st : state) (t : Z) (path : string) (jwt : option string) : result unit :=
  if bool_decide (path ∈ authentication_paths) || contains "admin" path then Ok tt
  else
    match jwt with
    | None => Raise TypeError
    | Some key_name =>
        let secret_key := getValue (redis st) t (key_name +:+ "_secret") in
        let token := getValue (redis st) t (key_name +:+ "_access") in
        if negb (truthy token) then Raise AuthenticationFailed
        else
          match jwt_decode (default "" token) secret_key t with
          | ExpiredSignature => Raise AuthenticationFailed
          | Invalid => Raise InvalidToken
          | Valid _ => Ok tt
          end
    end.

(** ** getUser of searchingApp/views.py

    [AuthenticationFailed] is not imported there, so that raising it is a
    [NameError]. *)
Definition getUser (st : state) (t : Z) (jwt : option string) : result (option User) :=
  match jwt with
  | None => Raise TypeError
  | Some key_name =>
      let secret_key := getValue (redis st) t (key_name +:+ "_secret") in
      let token := getValue (redis st) t (key_name +:+ "_access") in
      if truthy secret_key && truthy token then
        match jwt_decode (default "" token) secret_key t with
        | ExpiredSignature => Raise NameError
        | Invalid => Raise InvalidToken
        | Valid p => Ok (users st !! p_id p)
        end
      else Ok None
  end.

(** ** The server: requests one after the other

    A view that raises has written nothing, and the state is what it was. *)
Inductive request :=
  | Register (password name email : option string) (salt : string)
  | Login (email password : option string) (secret_key : string) (keys : list string)
  | Refresh (jwt token : option string)
  | Logout (jwt : option string).

Definition serve (st : state) (t : Z) (r : request) : result (state * response) :=
  match r with
  | Register pw nm em salt => register st pw nm em salt
  | Login em pw k keys => login st t em pw k keys
  | Refresh jwt tok => refresh st t jwt tok
  | Logout jwt => logout st t jwt
  end.
Definition after (st : state) (t : Z) (r : request) : state :=
  match serve st t r with Ok (st', _) => st' | Raise _ => st end.
Definition serves (st : state) (rs : list (Z * request)) : state :=
  foldl (fun st '(t, r) => after st t r) st rs.

End App.

End Session.
