(* ===== verification/SessionSpec.v ===== *)
(** What the sessions of the web application promise: how long one lives, that
    requests with other cookies leave it alone, and that whoever passes the
    middleware is a registered user who has logged in. *)

From stdpp Require Import gmap.
From S2P Require Import Prelude Session.

Module SessionSpec.
Import Session.

Open Scope string_scope.
Open Scope Z_scope.

(** ** Strings *)

Definition no_colon (s : string) : Prop := ~ In colon (chars s).

Lemma append_nil b : "" +:+ b = b.
Proof. reflexivity. Qed.
Lemma append_cons x a b : String x a +:+ b = String x (a +:+ b).
Proof. reflexivity. Qed.

Lemma split_on_app c a b : ~ In c (chars a) -> split_on c (a +:+ String c b) = (a, split c b).
Proof.
  unfold split. induction a as [|x a IH]; rewrite ?append_nil, ?append_cons; cbn [split_on]; intros Hc.
  - rewrite Ascii.eqb_refl. by destruct (split_on c b).
  - cbn in Hc. rewrite IH by tauto. destruct (Ascii.eqb_spec x c) as [->|]; [tauto|]. by destruct (split_on c b).
Qed.
Lemma split_none c a : ~ In c (chars a) -> split c a = [a].
Proof.
  unfold split. induction a as [|x a IH]; cbn [split_on]; intros Hc; [done|]. cbn in Hc.
  specialize (IH ltac:(tauto)). destruct (split_on c a) as [hd tl]. injection IH as -> ->.
  destruct (Ascii.eqb_spec x c) as [->|]; [tauto|done].
Qed.

Lemma chars_app a b : chars (a +:+ b) = (chars a ++ chars b)%list.
Proof. induction a; rewrite ?append_nil, ?append_cons; cbn; unfold chars in *; congruence. Qed.
Lemma chars_inj a b : chars a = chars b -> a = b.
Proof.
  intros E. rewrite <- (String.string_of_list_ascii_of_string a), <- (String.string_of_list_ascii_of_string b).
  unfold chars in E. by rewrite E.
Qed.
Lemma append_inj_l a b s : a +:+ s = b +:+ s -> a = b.
Proof. intros E%(f_equal chars). rewrite !chars_app in E. apply chars_inj. by apply app_inv_tail in E. Qed.
Lemma access_secret a b : a +:+ "_access" <> b +:+ "_secret".
Proof.
  intros E%(f_equal (fun s => rev (chars s))). rewrite !chars_app, !rev_app_distr in E. discriminate E.
Qed.

Lemma truthy_Some s : s <> "" -> truthy (Some s) = true.
Proof. by destruct s. Qed.
#[global] Instance User_eq_dec : EqDecision User.
Proof. solve_decision. Defined.

Create HintDb session.
#[export] Hint Resolve access_secret not_eq_sym : session.

(** ** Passwords *)

Section Passwords.
Context (sha256 : string -> string) (sha256_hex : forall s, no_colon (sha256 s)).

Lemma check_hash salt pw pw' : no_colon salt ->
  check_password sha256 (hash_password sha256 salt pw) pw' =
    Ok (String.eqb (sha256 (salt +:+ pw)) (sha256 (salt +:+ pw'))).
Proof.
  intros Hs. unfold check_password, hash_password, split. rewrite append_cons, append_nil.
  rewrite (split_on_app colon) by apply sha256_hex. by rewrite split_none.
Qed.
End Passwords.

(** ** One session *)

Section Sessions.
Context {store : Type} `{KVLaws store} `{JWTIdeal}.
Context (sha256 : string -> string) (valid_email : string -> bool).
Implicit Types (st : @state store) (s : store) (t : Z).

Lemma setValue_ok s t k v n : kv_ok s -> clock t -> lifetime n -> kv_ok (setValue s t k v n).
Proof. intros. by apply expire_ok; [apply set_ok|..]. Qed.
Lemma setValue_eq s t k v n t' : kv_ok s -> clock t -> lifetime n -> clock t' -> t <= t' ->
  kv_get (setValue s t k v n) t' k = if (0 <? n) && (t' <=? t + n) then Some v else None.
Proof. intros. unfold setValue. by rewrite get_expire_eq, get_set_eq by auto using set_ok, Z.le_refl. Qed.
Lemma setValue_ne s t k k' v n t' : kv_ok s -> clock t -> lifetime n -> clock t' -> t <= t' -> k <> k' ->
  kv_get (setValue s t k v n) t' k' = kv_get s t' k'.
Proof. intros. unfold setValue. by rewrite get_expire_ne, get_set_ne by auto using set_ok. Qed.

Lemma access_age : lifetime (ACCESS_AGE_MINUTES * 60).
Proof. done. Qed.
Lemma refresh_age : lifetime (REFRESH_AGE_MINUTES * 60).
Proof. done. Qed.
Lemma no_age : lifetime 0.
Proof. done. Qed.
Hint Resolve setValue_ok expire_ok access_age refresh_age no_age : session.

(** From [t0] on, the secret of the session [kn] is there up to [ts] and its
    access token, for the user [uid], up to [ta]. *)
Definition session st (kn uid k : string) (t0 ta ts : Z) : Prop :=
  kv_ok (redis st) /\ exists iat, iat <= t0 /\
  forall t, clock t -> t0 <= t ->
    kv_get (redis st) t (kn +:+ "_secret") = (if t <=? ts then Some k else None) /\
    kv_get (redis st) t (kn +:+ "_access") = (if t <=? ta then Some (jwt_encode (Payload uid ta iat) k) else None).

Lemma session_gone st kn uid k t0 ta ts t : session st kn uid k t0 ta ts -> clock t -> t0 <= t -> ts < t ->
  kv_get (redis st) t (kn +:+ "_secret") = None.
Proof. intros (_ & iat & Hi & Hs) Hc Ht Hts. destruct (Hs t Hc Ht) as [-> _]. by bdec. Qed.
Lemma session_later st kn uid k t0 t1 ta ts : t0 <= t1 -> session st kn uid k t0 ta ts -> session st kn uid k t1 ta ts.
Proof. intros Ht (Hk & iat & Hi & Hs). split; [done|]. exists iat. split; [lia|]. intros t Hc Htt. apply Hs; [done|lia]. Qed.

Definition protected (path : string) : Prop := path ∉ authentication_paths /\ contains "admin" path = false.

(** At the last instant of the access token it is still there and has expired. *)
Lemma session_middleware st kn uid k t0 ta ts t path :
  session st kn uid k t0 ta ts -> protected path -> clock t -> t0 <= t ->
  process_request st t path (Some kn) =
    if t <=? ta then if t <=? ts then if t <? ta then Ok tt else Raise AuthenticationFailed else Raise InvalidToken
    else Raise AuthenticationFailed.
Proof.
  intros (_ & iat & Hi & Hs) [Hp Ha] Hc Ht. destruct (Hs t Hc Ht) as [E1 E2]. unfold process_request, getValue.
  rewrite bool_decide_false, Ha by done. cbn [orb]. rewrite E1, E2.
  destruct (t <=? ta) eqn:Eta; [|done]. rewrite truthy_Some by apply encode_not_empty. cbn [negb from_option id].
  destruct (t <=? ts); [|by rewrite decode_no_secret]. rewrite decode_encode by (cbn; lia). cbn. by destruct (t <? ta).
Qed.

Lemma session_getUser st kn uid k t0 ta ts t :
  session st kn uid k t0 ta ts -> k <> "" -> clock t -> t0 <= t -> t < ta ->
  getUser st t (Some kn) = Ok (if t <=? ts then users st !! uid else None).
Proof.
  intros (_ & iat & Hi & Hs) Hk Hc Ht Hta. destruct (Hs t Hc Ht) as [E1 E2]. unfold getUser, getValue. rewrite E1, E2.
  destruct (t <=? ts); [|done]. rewrite truthy_Some by done.
  destruct (Z.leb_spec t ta); [|lia]. rewrite truthy_Some by apply encode_not_empty. cbn [andb from_option id].
  rewrite decode_encode by (cbn; lia). cbn. by bdec.
Qed.

(** A registration answered with success has stored the account. *)
Lemma register_stores st pw nm em salt st1 d :
  register sha256 valid_email st pw nm em salt = Ok (st1, Response HTTP_200_OK d) ->
  exists p n e, pw = Some p /\ nm = Some n /\ em = Some e /\
    truthy (Some p) = true /\ truthy (Some e) = true /\ isspace e = false /\
    users st1 !! e = Some (MkUser n e (hash_password sha256 salt p)).
Proof.
  unfold register. destruct pw as [p|], nm as [n|], em as [e|]; try done.
  destruct (truthy (Some p)) eqn:Tp, (truthy (Some e)) eqn:Te, (truthy (Some n)); try done. cbn [andb].
  destruct (isspace p || isspace n || isspace e) eqn:Es; [done|]. rewrite !orb_false_iff in Es.
  destruct (users st !! e) eqn:Eu; [done|]. destruct (valid_email e); [|done]. intros [= <- _].
  exists p, n, e. cbn [users]. rewrite lookup_insert_eq. naive_solver.
Qed.

(** Logging in starts a session of thirty minutes that can be refreshed for two
    hours. *)
Lemma login_session st t em pw k keys st' kn rt : kv_ok (redis st) -> clock t ->
  login sha256 st t em pw k keys = Ok (st', Response HTTP_200_OK (Tokens kn rt)) ->
  exists e p u, em = Some e /\ pw = Some p /\ users st !! e = Some u /\
    check_password sha256 (password u) p = Ok true /\
    fresh_key (redis st) t keys = Some kn /\
    rt = jwt_encode (Payload (email u) (t + 7200) t) k /\
    users st' = users st /\ session st' kn (email u) k t (t + 1800) (t + 7200).
Proof.
  intros Hkv Hc. unfold login. destruct em as [e|], pw as [p|]; try done.
  destruct (truthy (Some e) && truthy (Some p)); [|done].
  destruct (users st !! e) as [u|] eqn:Eu; [|done].
  destruct (check_password sha256 (password u) p) as [[]|] eqn:Ec; cbn [rbind negb]; try done.
  destruct (fresh_key (redis st) t keys) as [kn0|] eqn:Ef; [|done]. intros [= <- -> <-].
  exists e, p, u. split_and!; try done. split; [cbn [redis]; auto with session|].
  exists t. split; [lia|]. intros t' Hc' Ht. cbn [redis]. split.
  - by rewrite setValue_eq by auto with session.
  - by rewrite setValue_ne, setValue_eq by auto with session.
Qed.

Lemma refresh_no_secret st t kn tok : kn <> "" -> tok <> "" -> kv_get (redis st) t (kn +:+ "_secret") = None ->
  refresh st t (Some kn) (Some tok) = Raise InvalidToken.
Proof.
  intros Hkn Htok E. unfold refresh, getValue. rewrite !truthy_Some by done. cbn [negb from_option id].
  by rewrite E, decode_no_secret.
Qed.

(** Refreshing renews the access token while the refresh token is valid. It
    expires at the last instant of the secret; later the secret is gone. *)
Lemma refresh_session st kn uid k t0 ta ts iat t : kn <> "" ->
  session st kn uid k t0 ta ts -> iat <= t0 -> clock t -> t0 <= t ->
  let r := refresh st t (Some kn) (Some (jwt_encode (Payload uid ts iat) k)) in
  if t <? ts then
    exists st', r = Ok (st', Response HTTP_201_CREATED (Message "successful")) /\
      users st' = users st /\ session st' kn uid k t (t + 1800) ts
  else r = Raise (if t =? ts then AuthenticationFailed else InvalidToken).
Proof.
  intros Hkn (Hkv & iat' & Hi' & Hs) Hi Hc Ht r. destruct (Hs t Hc Ht) as [E1 E2]. subst r. unfold refresh, getValue.
  rewrite !truthy_Some by auto using encode_not_empty. cbn [negb from_option id]. rewrite E1.
  destruct (Z.ltb_spec t ts) as [Hlt|Hge].
  2: { destruct (Z.eqb_spec t ts) as [->|Hne].
       - rewrite Z.leb_refl, decode_encode by (cbn; lia). cbn. by rewrite Z.ltb_irrefl.
       - destruct (Z.leb_spec t ts); [lia|]. by rewrite decode_no_secret. }
  destruct (Z.leb_spec t ts); [|lia]. rewrite decode_encode by (cbn; lia). cbn [p_exp]. destruct (Z.ltb_spec t ts); [|lia].
  eexists; split_and!; [done..|]. split; [cbn [redis]; auto with session|].
  exists t. split; [lia|]. intros t' Hc' Ht'. cbn [redis p_id from_option id].
  rewrite setValue_ne, setValue_eq by auto with session. split; [|done]. apply Hs; [done|lia].
Qed.

Lemma logout_session st kn uid k t0 ta ts t :
  session st kn uid k t0 ta ts -> clock t -> t0 <= t ->
  exists st', logout st t (Some kn) = Ok (st', Response HTTP_200_OK (Message "success")) /\
    users st' = users st /\ session st' kn uid k t (t - 1) (t - 1).
Proof.
  intros (Hkv & iat & Hi & Hs) Hc Ht. eexists; split_and!; [done..|]. unfold scheduleExpire.
  split; [cbn [redis]; auto with session|]. exists iat. split; [lia|].
  intros t' Hc' Ht'. cbn [redis].
  rewrite (get_expire_ne _ _ (kn +:+ "_access") (kn +:+ "_secret")), !get_expire_eq by auto with session.
  cbn [Z.ltb Z.compare andb]. by destruct (Z.leb_spec t' (t - 1)); [lia|].
Qed.

(** ** Other requests *)

Definition cookie (r : request) : option string :=
  match r with Refresh jwt _ | Logout jwt => jwt | _ => None end.
(** The session a request may start. *)
Definition new_key st t (r : request) : option string :=
  match r with Login _ _ _ keys => fresh_key (redis st) t keys | _ => None end.

Definition gets st (kn : string) (t : Z) : option string * option string :=
  (kv_get (redis st) t (kn +:+ "_secret"), kv_get (redis st) t (kn +:+ "_access")).

Notation after := (after sha256 valid_email).

Lemma after_frame st t r kn t' : kv_ok (redis st) -> clock t -> clock t' -> t <= t' ->
  cookie r <> Some kn -> new_key st t r <> Some kn -> gets (after st t r) kn t' = gets st kn t'.
Proof.
  intros Hkv Ht Ht' Hle Hc Hn. unfold Session.after.
  assert (Hne : forall kn' x, kn' <> kn -> kn' +:+ x <> kn +:+ x) by (by intros kn' x ? ?%append_inj_l).
  destruct r as [pw nm em salt|em pw k keys|jwt tok|jwt]; cbn [serve cookie new_key] in *.
  - unfold register. repeat case_match; simplify_eq; done.
  - unfold login. destruct em as [e|], pw as [p|]; try done. destruct (_ && _); [|done].
    destruct (users st !! e); [|done]. destruct (check_password _ _ _) as [[]|]; cbn [rbind negb]; try done.
    destruct (fresh_key _ _ _) as [kn'|]; [|done]. assert (kn' <> kn) by congruence.
    unfold gets. cbn [redis]. by rewrite !setValue_ne by auto with session.
  - unfold refresh. destruct tok as [tok|]; [|done]. destruct (negb (truthy (Some tok))); [done|].
    destruct jwt as [kn'|]; [|done]. destruct (negb (truthy (Some kn'))); [done|].
    assert (kn' <> kn) by congruence. destruct (jwt_decode _ _ _); try done.
    unfold gets. cbn [redis from_option id]. by rewrite !setValue_ne by auto with session.
  - unfold logout. destruct jwt as [kn'|]; [|done]. assert (kn' <> kn) by congruence.
    unfold gets, scheduleExpire. cbn [redis]. by rewrite !get_expire_ne by auto with session.
Qed.

Lemma fresh_key_fresh s t keys kn : fresh_key s t keys = Some kn -> kn ∈ keys /\ kv_get s t (kn +:+ "_secret") = None.
Proof.
  induction keys as [|k keys IH]; cbn; [done|]. unfold checkForExistence. case_bool_decide as E.
  - intros [? ?]%IH. split; [by right|done].
  - intros [= ->]. split; [by left|]. destruct (kv_get s t _); [|done]. exfalso. eauto.
Qed.

(** Every request keeps the invariant of the Redis server. *)
Lemma after_kv st t r : kv_ok (redis st) -> clock t -> kv_ok (redis (after st t r)).
Proof.
  intros Hkv Hc. unfold Session.after. destruct r as [pw nm em salt|em pw k keys|jwt tok|jwt]; cbn [serve].
  - unfold register. repeat case_match; simplify_eq; done.
  - unfold login. destruct em as [e|], pw as [p|]; try done. destruct (_ && _); [|done].
    destruct (users st !! e); [|done]. destruct (check_password _ _ _) as [[]|]; cbn [rbind negb]; try done.
    destruct (fresh_key _ _ _) as [kn'|]; [|done]. cbn [redis]. auto with session.
  - unfold refresh. destruct (negb (truthy tok)); [done|]. destruct (negb (truthy jwt)); [done|].
    destruct (jwt_decode _ _ _); try done. cbn [redis]. auto with session.
  - unfold logout. destruct jwt as [kn'|]; [|done]. unfold scheduleExpire. cbn [redis]. auto with session.
Qed.

Lemma session_other st kn uid k t0 ta ts t r :
  session st kn uid k t0 ta ts -> cookie r <> Some kn -> clock t -> t0 <= t < ts -> session (after st t r) kn uid k t ta ts.
Proof.
  intros (Hkv & iat & Hi & Hs) Hc Hct Ht. split; [by apply after_kv|]. exists iat. split; [lia|]. intros t' Hct' Ht'.
  assert (Hn : new_key st t r <> Some kn).
  { intros E. destruct (Hs t Hct ltac:(lia)) as [E1 _]. destruct r; try done. apply fresh_key_fresh in E as [_ E].
    rewrite E in E1. by destruct (Z.leb_spec t ts); [|lia]. }
  pose proof (after_frame st t r kn t' Hkv Hct Hct' Ht' Hc Hn) as E. injection E as -> ->. apply Hs; [done|lia].
Qed.

(** The collection of users changes by registration alone. *)
Lemma after_users st t r :
  users (after st t r) = users st \/
  exists pw nm em salt, r = Register (Some pw) (Some nm) (Some em) salt /\ users st !! em = None /\
    users (after st t r) = <[em := MkUser nm em (hash_password sha256 salt pw)]> (users st).
Proof.
  unfold Session.after. destruct r as [pw nm em salt|em pw k keys|jwt tok|jwt]; cbn [serve].
  - unfold register. destruct pw as [pw|], nm as [nm|], em as [em|]; auto.
    repeat case_match; simplify_eq; auto. right. eauto 10.
  - left. unfold login, rbind. repeat case_match; simplify_eq; done.
  - left. unfold refresh. repeat case_match; simplify_eq; done.
  - left. unfold logout. repeat case_match; simplify_eq; done.
Qed.
Lemma after_keeps st t r e u : users st !! e = Some u -> users (after st t r) !! e = Some u.
Proof.
  intros Hu. destruct (after_users st t r) as [->|(pw & nm & em & salt & -> & Hn & ->)]; [done|].
  rewrite lookup_insert_ne; [done|]. congruence.
Qed.

(** ** Runs *)

Notation serves := (serves sha256 valid_email).

(** Requests at times from [t0] to [t1], none with the cookie of the session. *)
Fixpoint quiet (kn : string) (t0 t1 : Z) (rs : list (Z * request)) : Prop :=
  match rs with
  | [] => t0 <= t1
  | (t, r) :: rs => t0 <= t /\ clock t /\ cookie r <> Some kn /\ quiet kn t t1 rs
  end.

Lemma quiet_le kn t0 t1 rs : quiet kn t0 t1 rs -> t0 <= t1.
Proof. revert t0. induction rs as [|[t r] rs IH]; cbn; [done|]. intros t0 (? & ? & ? & ?%IH). lia. Qed.

Lemma session_serves st kn uid k t0 t1 ta ts rs u :
  session st kn uid k t0 ta ts -> quiet kn t0 t1 rs -> t1 < ts -> users st !! uid = Some u ->
  session (serves st rs) kn uid k t1 ta ts /\ users (serves st rs) !! uid = Some u.
Proof.
  revert st t0. induction rs as [|[t r] rs IH]; cbn; intros st t0 Hs Hq Hlt Hu.
  - split; [|done]. by eapply session_later.
  - destruct Hq as (Ht & Hct & Hc & Hq). pose proof (quiet_le _ _ _ _ Hq).
    apply (IH _ t); [|done..|by apply after_keeps]. apply (session_other _ _ _ _ t0); [done..|lia].
Qed.

(** A user is stored under the address it has, with a hashed password. *)
Definition users_ok (us : gmap string User) : Prop :=
  forall e u, us !! e = Some u -> email u = e /\ exists salt pw, no_colon salt /\ password u = hash_password sha256 salt pw.

Definition salted (r : request) : Prop :=
  match r with Register _ _ _ salt => no_colon salt | _ => True end.

Lemma after_users_ok st t r : salted r -> users_ok (users st) -> users_ok (users (after st t r)).
Proof.
  intros Hr Hu. destruct (after_users st t r) as [->|(pw & nm & em & salt & -> & Hn & ->)]; [done|].
  intros e u. destruct (decide (em = e)) as [->|]; [|rewrite lookup_insert_ne by done; apply Hu].
  rewrite lookup_insert. case_decide; [|done]. intros [= <-]. cbn. eauto.
Qed.

(** ** Who passes the middleware *)

(** A login that has succeeded: the session it started and what it was given. *)
Record grant := Grant { g_key : string; g_secret : string; g_user : string; g_password : string }.

(** The server, with the logins and the tokens given to clients so far. *)
Record world := World { w_st : @state store; w_now : Z; w_grants : list grant; w_issued : list string }.

Definition advance (w : world) (t : Z) (r : request) : world :=
  let st' := after (w_st w) t r in
  match r, serve sha256 valid_email (w_st w) t r with
  | Login (Some em) (Some pw) k _, Ok (_, Response _ (Tokens kn rt)) =>
      World st' t (Grant kn k em pw :: w_grants w) (rt :: w_issued w)
  | _, _ => World st' t (w_grants w) (w_issued w)
  end.

(** The clock goes on, secrets are not drawn twice, and a client that does not
    know a secret can only present what it was given: a refresh token that
    verifies has been issued. *)
Definition plausible (w : world) (t : Z) (r : request) : Prop :=
  w_now w <= t /\ clock t /\ salted r /\
  match r with
  | Login _ _ k _ => k <> "" /\ forall g, g ∈ w_grants w -> g_secret g <> k
  | Refresh (Some kn) (Some tok) =>
      forall k p, kv_get (redis (w_st w)) t (kn +:+ "_secret") = Some k ->
        jwt_decode tok (Some k) t = Valid p -> tok ∈ w_issued w
  | _ => True
  end.

Inductive reachable (s : store) : world -> Prop :=
  | reachable_start t : kv_ok s -> (forall k t', kv_get s t' k = None) -> reachable s (World (State ∅ s) t [] [])
  | reachable_next w t r : reachable s w -> plausible w t r -> reachable s (advance w t r).

Record world_ok (w : world) : Prop := {
  wo_kv : kv_ok (redis (w_st w));
  wo_users : users_ok (users (w_st w));
  wo_grant g : g ∈ w_grants w -> g_secret g <> "" /\
    exists u, users (w_st w) !! g_user g = Some u /\ check_password sha256 (password u) (g_password g) = Ok true;
  wo_secret g g' : g ∈ w_grants w -> g' ∈ w_grants w -> g_secret g = g_secret g' -> g = g';
  wo_issued tok : tok ∈ w_issued w ->
    exists p g, g ∈ w_grants w /\ tok = jwt_encode p (g_secret g) /\ p_id p = g_user g;
  wo_session kn t k : clock t -> w_now w <= t -> kv_get (redis (w_st w)) t (kn +:+ "_secret") = Some k ->
    exists g, g ∈ w_grants w /\ g_key g = kn /\ g_secret g = k /\
      forall tok, kv_get (redis (w_st w)) t (kn +:+ "_access") = Some tok ->
        exists exp iat, tok = jwt_encode (Payload (g_user g) exp iat) k;
}.

(** A request that starts no session and renews none. *)
Lemma world_ok_frame w t r : world_ok w -> w_now w <= t -> clock t -> salted r ->
  (forall kn t', clock t' -> t <= t' -> gets (after (w_st w) t r) kn t' = gets (w_st w) kn t' \/
     kv_get (redis (after (w_st w) t r)) t' (kn +:+ "_secret") = None) ->
  world_ok (World (after (w_st w) t r) t (w_grants w) (w_issued w)).
Proof.
  intros [Hkv Hu Hg Hsec Hi Hs] Ht Hct Hr Hf. split; cbn; try done.
  - by apply after_kv.
  - by apply after_users_ok.
  - intros g Hin. destruct (Hg g Hin) as (? & u & ? & ?). split; [done|]. exists u. split; [by apply after_keeps|done].
  - intros kn t' k Hct' Ht' E. destruct (Hf kn t' Hct' Ht') as [F|F]; [|congruence].
    injection F as F1 F2. rewrite F1 in E. rewrite F2. apply Hs; [done|lia|done].
Qed.

Lemma login_cases st t em pw k keys :
  after st t (Login em pw k keys) = st /\
    (forall st' c kn rt, serve sha256 valid_email st t (Login em pw k keys) <> Ok (st', Response c (Tokens kn rt))) \/
  exists kn rt, login sha256 st t em pw k keys = Ok (after st t (Login em pw k keys), Response HTTP_200_OK (Tokens kn rt)).
Proof.
  unfold Session.after. cbn [serve]. unfold login. destruct em as [e|], pw as [p|]; try (left; split; [done|]; intros; discriminate).
  destruct (_ && _); [|left; split; [done|]; intros; discriminate].
  destruct (users st !! e); [|left; split; [done|]; intros; discriminate].
  destruct (check_password _ _ _) as [[]|]; cbn [rbind negb]; try (left; split; [done|]; intros; discriminate).
  destruct (fresh_key _ _ _); [right; eauto|left; split; [done|]; intros; discriminate].
Qed.

Lemma refresh_cases st t jwt tok :
  after st t (Refresh jwt tok) = st \/
  exists kn rt k p, jwt = Some kn /\ tok = Some rt /\ kv_get (redis st) t (kn +:+ "_secret") = Some k /\
    jwt_decode rt (Some k) t = Valid p /\
    after st t (Refresh jwt tok) = State (users st)
      (setValue (redis st) t (kn +:+ "_access") (create_token t (p_id p) k ACCESS_AGE_MINUTES) (ACCESS_AGE_MINUTES * 60)).
Proof.
  unfold Session.after. cbn [serve]. unfold refresh, getValue. destruct tok as [rt|]; [|by left].
  destruct (negb (truthy (Some rt))); [by left|]. destruct jwt as [kn|]; [|by left].
  destruct (negb (truthy (Some kn))); [by left|]. cbn [from_option id].
  destruct (kv_get (redis st) t _) as [k|] eqn:E; [|by rewrite decode_no_secret; left].
  destruct (jwt_decode rt (Some k) t) as [p| |] eqn:Ed; [|by left..]. right. exists kn, rt, k, p. done.
Qed.

Lemma login_ok w t em pw k keys : world_ok w -> plausible w t (Login em pw k keys) -> world_ok (advance w t (Login em pw k keys)).
Proof.
  intros Hw (Ht & Hct & _ & Hk & Hfr). destruct (login_cases (w_st w) t em pw k keys) as [[E En]|(kn & rt & E)].
  { replace (advance w t _) with (World (after (w_st w) t (Login em pw k keys)) t (w_grants w) (w_issued w)).
    - apply world_ok_frame; [done..|]. rewrite E. auto.
    - unfold advance. destruct em, pw; try done. destruct (serve _ _ _ _ _) as [[st' [c []]]|]; try done. by edestruct En. }
  pose proof (login_session _ _ _ _ _ _ _ _ _ (wo_kv _ Hw) Hct E) as (e & p & u & -> & -> & Eu & Ec & Ef & -> & Es & Hs).
  unfold advance. cbn [serve]. rewrite E. destruct Hw as [Hkv Hu Hg Hsec Hi Hse].
  destruct (Hu e u Eu) as [He _]. split; cbn.
  - apply Hs.
  - by rewrite Es.
  - intros g [->|Hin]%elem_of_cons; cbn; rewrite Es; eauto.
  - intros g g' [->|Hin]%elem_of_cons [->|Hin']%elem_of_cons; cbn; intros Eg;
      [done|by destruct (Hfr g')|by destruct (Hfr g)|by apply Hsec].
  - intros tok [->|Hin]%elem_of_cons.
    + exists (Payload (email u) (t + 7200) t), (Grant kn k e p). cbn. split_and!; [left|done..].
    + destruct (Hi tok Hin) as (q & g & ? & ?). exists q, g. split; [by right|done].
  - intros kn' t' k' Hct' Ht' E1. destruct (decide (kn' = kn)) as [->|Hne].
    + destruct Hs as (_ & iat & _ & Hs). destruct (Hs t' Hct' Ht') as [F1 F2]. exists (Grant kn k e p). cbn.
      rewrite F1 in E1. destruct (t' <=? _); [|done]. injection E1 as <-. split_and!; [left|done..|].
      intros tok. rewrite F2. destruct (t' <=? _); [|done]. intros [= <-]. rewrite He. eauto.
    + pose proof (after_frame (w_st w) t (Login (Some e) (Some p) k keys) kn' t' Hkv Hct Hct' Ht' ltac:(done) ltac:(cbn; congruence)) as F.
      injection F as F1 F2. rewrite F1 in E1. rewrite F2. destruct (Hse kn' t' k' Hct' ltac:(lia) E1) as (g & ? & ?).
      exists g. split; [by right|done].
Qed.

Lemma refresh_ok w t jwt tok : world_ok w -> plausible w t (Refresh jwt tok) -> world_ok (advance w t (Refresh jwt tok)).
Proof.
  intros Hw (Ht & Hct & _ & Hp). unfold advance.
  destruct (refresh_cases (w_st w) t jwt tok) as [E|(kn & rt & k & p & -> & -> & Ek & Ed & E)].
  { apply world_ok_frame; [done..|]. rewrite E. auto. }
  specialize (Hp k p Ek Ed). rewrite E. destruct Hw as [Hkv Hu Hg Hsec Hi Hse]. split; cbn; try done; [auto with session|].
  intros kn' t' k' Hct' Ht' E1. rewrite setValue_ne in E1 by auto with session.
  destruct (Hse kn' t' k' Hct' ltac:(lia) E1) as (g & Hin & Eg & Es & Ha).
  exists g. split_and!; [done..|]. intros tok. destruct (decide (kn' = kn)) as [->|Hne].
  - rewrite setValue_eq by auto with session. destruct (_ && _); [|done]. intros [= <-].
    assert (k' = k) as -> by (apply (get_mono _ t t') in E1; [congruence|done..]).
    destruct (Hi rt Hp) as (q & g' & Hin' & Eq & Eid). apply decode_sound in Ed. rewrite Ed in Eq.
    apply encode_inj in Eq as [<- Eq]. assert (g' = g) as -> by (apply Hsec; congruence).
    unfold create_token. rewrite Eid. eauto.
  - rewrite setValue_ne; [apply Ha|auto with session..]. by intros ?%append_inj_l.
Qed.

Lemma logout_ok w t jwt : world_ok w -> plausible w t (Logout jwt) -> world_ok (advance w t (Logout jwt)).
Proof.
  intros Hw (Ht & Hct & Hr & _). apply (world_ok_frame w t (Logout jwt)); [done..|]. intros kn t' Hct' Ht'.
  pose proof (wo_kv _ Hw). destruct (decide (jwt = Some kn)) as [->|]; [|left; by apply after_frame].
  right. unfold Session.after. cbn [serve logout redis]. unfold scheduleExpire.
  by rewrite get_expire_ne, get_expire_eq by auto with session.
Qed.

Lemma world_ok_start s t : kv_ok s -> (forall k t', kv_get s t' k = None) -> world_ok (World (State ∅ s) t [] []).
Proof. intros Hkv Hs. split; cbn; try (intros *; by intros ?%elem_of_nil); [done..|]. intros kn t' k _ _. by rewrite Hs. Qed.
Lemma world_advance_ok w t r : world_ok w -> plausible w t r -> world_ok (advance w t r).
Proof.
  intros Hw Hp.
  destruct r as [pw nm em salt|em pw k keys|jwt tok|jwt]; [|by apply login_ok|by apply refresh_ok|by apply logout_ok].
  destruct Hp as (Ht & Hct & Hr & _). apply (world_ok_frame w t (Register pw nm em salt)); [done..|].
  intros kn t' Hct' Ht'. left. by apply after_frame; [apply Hw|..].
Qed.
Lemma advance_grants w t r g : g ∈ w_grants w -> g ∈ w_grants (advance w t r).
Proof. intros Hg. unfold advance. repeat case_match; cbn; try done. by right. Qed.
Lemma reachable_ok s w : reachable s w -> world_ok w.
Proof. induction 1; [by apply world_ok_start|by apply world_advance_ok]. Qed.

Lemma process_request_user w t path jwt : world_ok w -> clock t -> w_now w <= t -> protected path ->
  process_request (w_st w) t path jwt = Ok tt ->
  exists g u, g ∈ w_grants w /\ jwt = Some (g_key g) /\ g_user g = email u /\
    getUser (w_st w) t jwt = Ok (Some u) /\
    users (w_st w) !! email u = Some u /\ check_password sha256 (password u) (g_password g) = Ok true.
Proof.
  intros [_ Hu Hg Hsec Hi Hse] Hct Ht [Hp Ha]. unfold process_request, getUser, getValue.
  rewrite bool_decide_false, Ha by done. cbn [orb]. destruct jwt as [kn|]; [|done].
  destruct (kv_get _ _ (kn +:+ "_access")) as [tok|] eqn:E2; [|done].
  destruct (truthy (Some tok)) eqn:Etok; [|done]. cbn [negb from_option id].
  destruct (kv_get _ _ (kn +:+ "_secret")) as [k|] eqn:E1; [|by rewrite decode_no_secret].
  destruct (Hse kn t k Hct Ht E1) as (g & Hin & <- & <- & Hs). destruct (Hg g Hin) as (Hk & u & Eu & Ec).
  destruct (Hs tok E2) as (ex & iat & ->). rewrite truthy_Some by done.
  destruct (jwt_decode _ _ t) as [p| |] eqn:Ed; [|done..]. intros _. cbn [andb].
  apply decode_sound, encode_inj in Ed as [Ed _]. subst p. cbn [p_id].
  destruct (Hu _ _ Eu) as [He _]. exists g, u. rewrite Eu. split_and!; try done; by rewrite ?He.
Qed.

End Sessions.
End SessionSpec.
