(* ===== verification/RedisStore.v ===== *)
(** The Redis server behind the sessions of the web application: SET, EXPIRE and
    GET of one connection to the server of [Keyspace] are the operations of the
    interface [KV], and satisfy its laws.

    The command GET deletes a key that has expired. That deletion is not kept in
    the state, and cannot be observed later. *)

From stdpp Require Import gmap strings.
From S2P Require Import Prelude Util Session Keyspace KeyspaceInv KeyspaceSpec KeyspaceCmds KeyspaceFlush KeyspaceAbs KeyspaceServer.

Module RedisStore.
Import Session Util Keyspace KeyspaceInv KeyspaceSpec KeyspaceCmds KeyspaceFlush KeyspaceAbs KeyspaceServer.

(** ** Strings and numbers on the wire *)

Fixpoint text (b : bytes) : string :=
  match b with [] => EmptyString | c :: b => String (Ascii.ascii_of_N (Z.to_N c)) (text b) end.
Lemma text_str s : text (str s) = s.
Proof. induction s as [|c s IH]; cbn; [done|]. by rewrite N2Z.id, Ascii.ascii_N_embedding, IH. Qed.
Lemma str_ne k k' : k <> k' -> str k <> str k'.
Proof. intros Hne E. apply Hne. by rewrite <- (text_str k), E, text_str. Qed.

Definition digits (n : Z) : bytes := default [] (ll_bytes n).
Lemma num_digits n : in_sint 64 n -> num (digits n) = Some n.
Proof.
  intros Hn. destruct (proj1 ll2string_string2ll_roundtrip n (replicate 21 0) Hn eq_refl) as (b & m & E & Hs).
  unfold digits, ll_bytes. rewrite E. cbn [mbind option_bind from_option id]. unfold num, getLongLong.
  destruct (ll2string_spec (replicate 21 0) 21 n Hn ltac:(done)) as (s & _ & _ & E'). rewrite E in E'.
  destruct (blen s <? 21); injection E' as -> ->; [|done].
  rewrite to_nat_blen, take_app_exact in Hs |- * by done. by rewrite Hs.
Qed.

(** ** The operations *)

(** A master with the limits of the default configuration *)
Definition master (t : Z) : env := Env (1000 * t) (1000 * t) false false false false (2 ^ 29) (2 ^ 40).
(** The connection of the application is client 0. *)
Definition send (s : server) (t : Z) (k : cmd) : option (server * reply) := processCommand (fun _ => master t) s 0 k.

#[global] Instance redis_kv : KV server := {
  kv_set s t k v := match send s t (SET (str k) (str v) []) with Some (s', _) => s' | None => s end;
  kv_expire s t k n := match send s t (EXPIRE (str k) (digits n) false false) with Some (s', _) => s' | None => s end;
  kv_get s t k := match send s t (GET (str k)) with Some (_, RBulk b) => Some (text b) | _ => None end }.

Definition redis_ok (s : server) : Prop :=
  server_ok s /\ exists x, clients s !! 0%nat = Some x /\ c_multi x = false.

Lemma master_ok t : env_ok (master t).
Proof. split; [done|]. cbn. lia. Qed.
Lemma master_active t : active (master t).
Proof. split_and!; done || (cbn; lia). Qed.

(** A command on data, on the entries alive *)
Lemma send_ok s t k x : server_ok s -> clients s !! 0%nat = Some x -> c_multi x = false -> cmd_ok k -> specified k = true ->
  exists s' x', send s t k = Some (s', (spec (master t) (length (db s)) (fun i k => live (master t) (entry s i k)) (c_db x) k).2) /\
    server_ok s' /\ clients s' !! 0%nat = Some x' /\ c_multi x' = false /\ c_db x' = c_db x /\
    forall t' i key, t <= t' -> live (master t') (entry s' i key) =
      live (master t') ((spec (master t) (length (db s)) (fun i k => live (master t) (entry s i k)) (c_db x) k).1 i key).
Proof.
  intros Hs Hx Hm Hk Hsp. set (M := fun i k => live (master t) (entry s i k)).
  pose proof (running_refl s (so_data _ Hs)) as Hr0.
  destruct (data_meets s (so_watch _ Hs) (master t) M s (c_db x) k) as (s' & r & E & Hr & Hl);
    [by split|by eapply so_client|apply master_ok|done..|]. destruct (Hl (master_active t)) as [-> He].
  assert (exists x', clients s' !! 0%nat = Some x' /\ c_multi x' = false /\ c_db x' = c_db x) as (x' & Hx' & Hm' & Hd').
  { destruct (rn_clients _ _ _ Hr 0%nat) as [Ec|(y & Hy & _ & Ec)]; rewrite Ec; [eauto|]. simplify_eq. eauto. }
  exists s', x'. split_and!; [|by apply (moved_running (fun _ => True) s s')|done..|].
  - unfold send, processCommand. rewrite Hx. cbn. rewrite Hm. unfold run. rewrite Hx. rewrite <- E. by destruct k.
  - intros t' i key Ht. rewrite <- He. symmetry. apply live_later; [apply master_active..|]. cbn. lia.
Qed.

(** What GET finds *)
Lemma get_live s t k x : server_ok s -> clients s !! 0%nat = Some x -> c_multi x = false ->
  kv_get s t k = match live (master t) (entry s (c_db x) (str k)) with Some (OBJ_STRING v, _) => Some (text v) | _ => None end.
Proof.
  intros Hs Hx Hm. destruct (send_ok s t (GET (str k)) x Hs Hx Hm I eq_refl) as (s' & x' & E & _).
  cbn [kv_get redis_kv]. rewrite E. cbn. unfold s_get. by destruct (live _ _) as [[[v|] d]|].
Qed.

(** ** The laws *)

Lemma get_changed s t k x cmd0 key t' : server_ok s -> clients s !! 0%nat = Some x -> c_multi x = false ->
  cmd_ok cmd0 -> specified cmd0 = true -> t <= t' ->
  let s' := match send s t cmd0 with Some (s', _) => s' | None => s end in
  redis_ok s' /\
  (k = key -> kv_get s' t' key =
    match live (master t') ((spec (master t) (length (db s)) (fun i k => live (master t) (entry s i k)) (c_db x) cmd0).1 (c_db x) (str k)) with
    Some (OBJ_STRING v, _) => Some (text v) | _ => None end).
Proof.
  intros Hs Hx Hm Hk Hsp Ht. destruct (send_ok s t cmd0 x Hs Hx Hm Hk Hsp) as (s' & x' & -> & Hs' & Hx' & Hm' & Hd' & Hl).
  cbv zeta. split; [by split; [|exists x']|]. intros <-. by rewrite (get_live s' t' k x'), Hd', Hl.
Qed.

Lemma live_twice t t' v : t <= t' -> live (master t') (live (master t) v) = live (master t') v.
Proof. intros Ht. apply live_later; [apply master_active..|]. cbn. lia. Qed.

Lemma supd_other M id key v key' : key' <> key -> supd M id key v id key' = M id key'.
Proof. intros Hne. apply supd_ne. naive_solver. Qed.

Lemma spec_set e n M id k v : spec e n M id (SET k v []) = (put e M id k (OBJ_STRING v) None, ROk).
Proof. done. Qed.
Lemma expire_when_small n t : clock t -> lifetime n -> expire_when n (1000 * t) false = Some (1000 * (t + n)).
Proof.
  unfold clock, lifetime. intros Ht Hn. unfold expire_when. cbn [negb].
  rewrite (sint_small 64 (n * 1000)) by (try done; unfold in_sint; lia).
  rewrite (sint_small 64 (n * 1000 + 1000 * t)) by (try done; unfold in_sint; lia).
  destruct (Z.ltb_spec n 0); [lia|]. destruct (Z.ltb_spec (n * 1000 + 1000 * t) 0); [lia|].
  cbn. rewrite andb_false_r. f_equal. lia.
Qed.

Lemma redis_set_ok s t k v : redis_ok s -> clock t -> redis_ok (kv_set s t k v).
Proof.
  intros (Hs & x & Hx & Hm) _. by apply (get_changed s t k x (SET (str k) (str v) []) k t).
Qed.
Lemma redis_expire_ok s t k n : redis_ok s -> clock t -> lifetime n -> redis_ok (kv_expire s t k n).
Proof.
  intros (Hs & x & Hx & Hm) _ _. by apply (get_changed s t k x (EXPIRE (str k) (digits n) false false) k t).
Qed.
Lemma redis_set_eq s t k v t' : redis_ok s -> clock t -> clock t' -> t <= t' -> kv_get (kv_set s t k v) t' k = Some v.
Proof.
  intros (Hs & x & Hx & Hm) _ _ Ht.
  destruct (get_changed s t k x (SET (str k) (str v) []) k t' Hs Hx Hm I eq_refl Ht) as [_ E]. cbn [kv_set redis_kv]. rewrite E by done.
  rewrite spec_set. unfold put. cbn [fst]. rewrite supd_eq. cbn. by rewrite text_str.
Qed.
Lemma redis_set_ne s t k k' v t' : redis_ok s -> clock t -> clock t' -> t <= t' -> k <> k' ->
  kv_get (kv_set s t k v) t' k' = kv_get s t' k'.
Proof.
  intros (Hs & x & Hx & Hm) _ _ Ht Hne.
  destruct (get_changed s t k' x (SET (str k) (str v) []) k' t' Hs Hx Hm I eq_refl Ht) as [_ E]. cbn [kv_set redis_kv]. rewrite E by done.
  rewrite spec_set. unfold put. cbn [fst]. rewrite supd_other by (by apply not_eq_sym, str_ne). by rewrite live_twice, (get_live s t' k' x).
Qed.
Lemma redis_expire_eq s t k n t' : redis_ok s -> clock t -> lifetime n -> clock t' -> t <= t' ->
  kv_get (kv_expire s t k n) t' k = if (0 <? n) && (t' <=? t + n) then kv_get s t k else None.
Proof.
  intros (Hs & x & Hx & Hm) Hc Hn Hc' Ht. rewrite (get_live s t k x) by done.
  destruct (get_changed s t k x (EXPIRE (str k) (digits n) false false) k t' Hs Hx Hm I eq_refl Ht) as [_ E].
  cbn [kv_expire redis_kv]. rewrite E by done. cbn [spec s_expire fst mstime master]. unfold s_expire.
  rewrite num_digits by (unfold lifetime in Hn; unfold in_sint; lia). cbn [mstime master].
  rewrite expire_when_small by done. cbv beta. destruct (live (master t) (entry s (c_db x) (str k))) as [[o d]|] eqn:El; cbn [fst].
  - rewrite supd_eq. unfold clock, lifetime in *. destruct (Z.ltb_spec 0 n), (Z.leb_spec (1000 * (t + n)) (1000 * t)); try lia; cbn [andb].
    + unfold live. cbn. destruct (Z.ltb_spec (1000 * (t + n)) 0); [lia|]. destruct (Z.gtb_spec (1000 * t') (1000 * (t + n))), (Z.leb_spec t' (t + n)); try lia; done.
    + done.
  - rewrite El. by destruct (_ && _).
Qed.
Lemma redis_expire_ne s t k k' n t' : redis_ok s -> clock t -> lifetime n -> clock t' -> t <= t' -> k <> k' ->
  kv_get (kv_expire s t k n) t' k' = kv_get s t' k'.
Proof.
  intros (Hs & x & Hx & Hm) Hc Hn Hc' Ht Hne.
  destruct (get_changed s t k' x (EXPIRE (str k) (digits n) false false) k' t' Hs Hx Hm I eq_refl Ht) as [_ E].
  cbn [kv_expire redis_kv]. rewrite E by done. cbn [spec]. unfold s_expire. rewrite num_digits by (unfold lifetime in Hn; unfold in_sint; lia).
  cbn [mstime master]. rewrite expire_when_small by done. rewrite (get_live s t' k' x) by done.
  destruct (live (master t) (entry s (c_db x) (str k))) as [[o d]|]; cbn [fst]; [rewrite supd_other by (by apply not_eq_sym, str_ne)|]; by rewrite live_twice.
Qed.
Lemma redis_mono s t t' k v : redis_ok s -> clock t -> clock t' -> t <= t' -> kv_get s t' k = Some v -> kv_get s t k = Some v.
Proof.
  intros (Hs & x & Hx & Hm) _ _ Ht. rewrite !(get_live s _ k x) by done. unfold live.
  destruct (entry s (c_db x) (str k)) as [[[b|] [w|]]|]; cbn; try done;
    (destruct (Z.ltb_spec w 0); cbn; [done|]); destruct (Z.gtb_spec (1000 * t') w), (Z.gtb_spec (1000 * t) w); try done; lia.
Qed.

#[global] Instance redis_laws : KVLaws server := {
  kv_ok := redis_ok; set_ok := redis_set_ok; expire_ok := redis_expire_ok; get_set_eq := redis_set_eq;
  get_set_ne := redis_set_ne; get_expire_eq := redis_expire_eq; get_expire_ne := redis_expire_ne; get_mono := redis_mono }.

(** A server that has started, with the connection of the application *)
Definition fresh : server := default (initServer 16) (createClient (initServer 16) 0).

Lemma fresh_ok : redis_ok fresh.
Proof.
  destruct (createClient_ok (initServer 16) 0) as (s & E & Hs & _ & Hc); [apply init_ok|cbn; lia|done|].
  assert (fresh = s) as -> by (unfold fresh; by rewrite E). split; [done|]. rewrite Hc. eexists. by rewrite lookup_insert_eq.
Qed.
Lemma fresh_get t k : kv_get fresh t k = None.
Proof.
  destruct fresh_ok as (Hs & x & Hx & Hm). rewrite (get_live fresh t k x) by done.
  assert (entry fresh (c_db x) (str k) = None) as ->; [|done]. unfold entry.
  change (db fresh) with (replicate 16 (RedisDb ∅ ∅ ∅)). destruct (replicate 16 _ !! c_db x) eqn:E; [|done].
  by apply lookup_replicate in E as [-> _].
Qed.

End RedisStore.
