(* ===== verification/SessionSafety.v ===== *)
(** The theorems on the sessions of the web application, with the Redis server of
    [RedisStore] and tokens that satisfy the interfaces they are proved against. *)

From stdpp Require Import gmap countable.
From S2P Require Import Prelude Keyspace RedisStore Session SessionSpec.

Module SessionSafety.
Import Session SessionSpec.

Open Scope string_scope.
Open Scope Z_scope.

(** ** Tokens: the payload and the secret, written out *)

Fixpoint bits (p : positive) : string :=
  match p with
  | xH => EmptyString
  | xO p => String (Ascii.ascii_of_nat 48) (bits p)
  | xI p => String (Ascii.ascii_of_nat 49) (bits p)
  end.
Fixpoint unbits (s : string) : positive :=
  match s with
  | EmptyString => xH
  | String c s => if Ascii.eqb c (Ascii.ascii_of_nat 48) then xO (unbits s) else xI (unbits s)
  end.
Lemma unbits_bits p : unbits (bits p) = p.
Proof.
  induction p as [p IH|p IH|]; [| |done].
  - change (xI (unbits (bits p)) = xI p). by rewrite IH.
  - change (xO (unbits (bits p)) = xO p). by rewrite IH.
Qed.

Definition seal (p : payload) (k : string) : string :=
  String (Ascii.ascii_of_nat 116) (bits (encode (p_id p, p_exp p, p_iat p, k))).
Definition unseal (tok : string) (k : option string) (t : Z) : decoded :=
  match tok, k with
  | String _ s, Some k =>
      match decode (unbits s) with
      | Some (i, e, a, k') =>
          let p := Payload i e a in
          if bool_decide (k' = k /\ seal p k = tok /\ a <= t) then if t <? e then Valid p else ExpiredSignature else Invalid
      | None => Invalid
      end
  | _, _ => Invalid
  end.

#[global] Instance seal_jwt : JWT := {| jwt_encode := seal; jwt_decode := unseal |}.
#[global] Instance seal_laws : JWTLaws.
Proof.
  split; cbn [jwt_encode jwt_decode seal_jwt].
  - intros p k t Ht. unfold unseal, seal at 1. rewrite unbits_bits, countable.decode_encode.
    rewrite bool_decide_true by (by destruct p). by destruct p.
  - by intros [|c tok] t.
  - done.
Qed.
#[global] Instance seal_ideal : JWTIdeal.
Proof.
  split; cbn [jwt_encode jwt_decode seal_jwt].
  - intros [|c tok] k t p; [done|]. cbn [unseal]. destruct (decode (unbits tok)) as [[[[i e] a] k']|]; [|done].
    case_bool_decide as E; [|done]. destruct E as (-> & <- & _). destruct (t <? e); [|done]. by intros [= <-].
  - intros [i e a] k [i' e' a'] k' E. unfold seal in E. injection E as E. apply (f_equal unbits) in E.
    rewrite !unbits_bits in E. apply (inj encode) in E. by injection E as -> -> -> ->.
Qed.

(** A digest without colons. *)
Definition digest (s : string) : string := bits (encode s).
Lemma digest_no_colon s : no_colon (digest s).
Proof. unfold no_colon, digest. generalize (encode s). induction p; cbn; intuition discriminate. Qed.

(** ** Theorems *)

(** A request without a session cookie is a [TypeError] on every protected path. *)
Lemma middleware_no_cookie {store} `{KV store} `{JWT} (st : @state store) t path :
  protected path -> process_request st t path None = Raise TypeError.
Proof. intros [Hp Ha]. unfold process_request. by rewrite bool_decide_false, Ha. Qed.


(** C15: the life of a session. A login at [t0] that succeeds gives a session key
    and a refresh token. As long as the session is not two hours old, and
    whatever requests with other cookies are served in between, the middleware
    lets the key through for thirty minutes and [getUser] is the user; the
    refresh token starts another thirty minutes, but none from two hours on, when
    it has expired and then the secret is gone; and after a logout neither the key
    nor the refresh token is accepted. *)
Theorem session_lifetime {store} `{KVLaws store} `{JWTIdeal} sha256 valid_email (st : @state store)
    t0 em pw k keys st1 kn rt rs t1 path :
  kv_ok (redis st) -> clock t0 ->
  login sha256 st t0 em pw k keys = Ok (st1, Response HTTP_200_OK (Tokens kn rt)) ->
  users_ok sha256 (users st) -> k <> "" -> "" ∉ keys ->
  quiet kn t0 t1 rs -> t1 < t0 + 7200 -> protected path ->
  let st2 := serves sha256 valid_email st1 rs in
  let accepts st t := process_request st t path (Some kn) in
  (forall t, clock t -> t1 <= t -> accepts st2 t = if t <? t0 + 1800 then Ok tt else Raise AuthenticationFailed) /\
  (exists u, em = Some (email u) /\ users st !! email u = Some u /\
     forall t, clock t -> t1 <= t < t0 + 1800 -> getUser st2 t (Some kn) = Ok (Some u)) /\
  (forall t, clock t -> t1 <= t < t0 + 7200 ->
     exists st3, refresh st2 t (Some kn) (Some rt) = Ok (st3, Response HTTP_201_CREATED (Message "successful")) /\
       forall t', clock t' -> t <= t' ->
         accepts st3 t' = if t' <=? t + 1800
                          then if t' <=? t0 + 7200 then if t' <? t + 1800 then Ok tt else Raise AuthenticationFailed
                               else Raise InvalidToken
                          else Raise AuthenticationFailed) /\
  (forall t, clock t -> t0 + 7200 <= t ->
     refresh st2 t (Some kn) (Some rt) = Raise (if t =? t0 + 7200 then AuthenticationFailed else InvalidToken)) /\
  (forall t, clock t -> t1 <= t ->
     exists st3, logout st2 t (Some kn) = Ok (st3, Response HTTP_200_OK (Message "success")) /\
       forall t', clock t' -> t <= t' -> accepts st3 t' = Raise AuthenticationFailed /\
         refresh st3 t' (Some kn) (Some rt) = Raise InvalidToken).
Proof.
  intros Hkv Hct0 Hl Hu Hk Hkeys Hq Ht1 Hp st2 accepts.
  pose proof (quiet_le _ _ _ _ Hq) as Hle.
  apply login_session in Hl as (e & p & u & -> & -> & Eu & Ec & Ef & -> & Es & Hs); [|done..].
  apply fresh_key_fresh in Ef as [Hin _].
  destruct (Hu e u Eu) as [<- _].
  assert (Hkn : kn <> "") by (by intros ->).
  assert (Hs2 : session st2 kn (email u) k t1 (t0 + 1800) (t0 + 7200) /\ users st2 !! email u = Some u)
    by (apply (session_serves _ _ _ _ _ _ t0); [done..|lia|by rewrite Es]).
  destruct Hs2 as [Hs2 Hu2].
  assert (Hacc : forall st uid ta ts t t', session st kn uid k t ta ts -> clock t' -> t <= t' -> accepts st t' =
    if t' <=? ta then if t' <=? ts then if t' <? ta then Ok tt else Raise AuthenticationFailed else Raise InvalidToken
    else Raise AuthenticationFailed) by eauto using session_middleware.
  split_and!.
  - intros t Hct Ht. rewrite (Hacc _ _ _ _ _ _ Hs2 Hct Ht). destruct (Z.leb_spec t (t0 + 1800)), (Z.ltb_spec t (t0 + 1800)); try lia; try done; by bdec.
  - exists u. split_and!; [done..|]. intros t Hct Ht. rewrite (session_getUser _ _ _ _ _ _ _ _ Hs2 Hk Hct) by lia.
    bdec. by rewrite Hu2.
  - intros t Hct Ht. pose proof (refresh_session _ _ _ _ _ _ _ t0 t Hkn Hs2 Hle Hct ltac:(lia)) as Hr.
    destruct (Z.ltb_spec t (t0 + 7200)); [|lia]. destruct Hr as (st3 & E & _ & Hs3). eauto.
  - intros t Hct Ht. pose proof (refresh_session _ _ _ _ _ _ _ t0 t Hkn Hs2 Hle Hct ltac:(lia)) as Hr.
    destruct (Z.ltb_spec t (t0 + 7200)); [lia|done].
  - intros t Hct Ht. destruct (logout_session _ _ _ _ _ _ _ t Hs2 Hct Ht) as (st3 & E & _ & Hs3). exists st3. split; [done|].
    intros t' Hct' Ht'. rewrite (Hacc _ _ _ _ _ _ Hs3 Hct' Ht'). bdec. split; [done|].
    apply refresh_no_secret; [done|apply encode_not_empty|]. apply (session_gone _ _ _ _ _ _ _ _ Hs3); [done|lia..].
Qed.

(** C31: registering an account and logging in. After a registration that is
    answered with success, logging in with the same address and password starts
    a session at the first random key that is free; with a password of another
    digest it is answered 401 and nothing changes; and registering the address
    again, with any name and password that are not blank, is refused with 406. *)
Theorem register_login_roundtrip {store} `{KVLaws store} `{JWT} sha256 valid_email (st : @state store)
    pw nm em salt st1 d :
  (forall x, no_colon (sha256 x)) -> no_colon salt ->
  register sha256 valid_email st pw nm em salt = Ok (st1, Response HTTP_200_OK d) ->
  exists p e, pw = Some p /\ em = Some e /\
  (forall t k keys kn, fresh_key (redis st1) t keys = Some kn ->
     exists st2, login sha256 st1 t em pw k keys =
       Ok (st2, Response HTTP_200_OK (Tokens kn (create_token t e k REFRESH_AGE_MINUTES)))) /\
  (forall t k keys p', p' <> "" -> sha256 (salt +:+ p') <> sha256 (salt +:+ p) ->
     login sha256 st1 t em (Some p') k keys = Ok (st1, Response HTTP_401_UNAUTHORIZED (Message "Wrong Password"))) /\
  (forall p' n' salt', truthy (Some p') = true -> truthy (Some n') = true -> isspace p' = false -> isspace n' = false ->
     register sha256 valid_email st1 (Some p') (Some n') em salt' =
       Ok (st1, Response HTTP_406_NOT_ACCEPTABLE (Message "user already registered"))).
Proof.
  intros Hsha Hsalt Hr. apply register_stores in Hr as (p & n & e & -> & -> & -> & Hp & He & Hsp & Hu).
  exists p, e. split_and!; [done..| | |].
  - intros t k keys kn Hf. unfold login. rewrite Hp, He, Hu. cbn [andb password email].
    rewrite check_hash, String.eqb_refl, Hf by done. cbn [rbind negb]. eauto.
  - intros t k keys p' Hp' Hne. unfold login. rewrite He, truthy_Some, Hu by done. cbn [andb password].
    rewrite check_hash by done. destruct (String.eqb_spec (sha256 (salt +:+ p)) (sha256 (salt +:+ p'))); [congruence|done].
  - intros p' n' salt' Tp Tn Sp Sn. unfold register. by rewrite Tp, Tn, He, Sp, Sn, Hsp, Hu.
Qed.

(** ** A run *)

Definition visitor : list (Z * request) :=
  [(0, Register (Some "pw") (Some "Ann") (Some "ann@x.org") "5a17");
   (5, Login (Some "ann@x.org") (Some "pw") "s3cret" ["key1"])].
Definition start : @state Keyspace.server := State ∅ RedisStore.fresh.
Definition signed_up : @state Keyspace.server := serves digest (fun _ => true) start (take 1 visitor).
Definition visited : world :=
  foldl (fun w '(t, r) => advance digest (fun _ => true) w t r) (World start 0 [] []) visitor.

Lemma visited_reachable : reachable digest (fun _ => true) RedisStore.fresh visited.
Proof.
  unfold visited, visitor. cbn [foldl]. apply reachable_next; [apply reachable_next; [apply reachable_start; [exact RedisStore.fresh_ok|intros; apply RedisStore.fresh_get]|]|].
  - split; [done|]. split; [done|]. split; [|done]. unfold salted, no_colon. vm_compute. intuition discriminate.
  - split; [done|]. split; [done|]. split; [done|]. split; [done|]. intros g Hg. by apply elem_of_nil in Hg.
Qed.

Lemma search_protected : protected "/search/".
Proof. split; [|done]. refine (bool_decide_unpack _ _). exact I. Qed.


Definition signed_in : @state Keyspace.server := serves digest (fun _ => true) start visitor.

Lemma session_lifetime_witness :
  process_request (serves digest (fun _ => true) signed_in [(7, Logout (Some "key2"))]) 1000 "/search/" (Some "key1") = Ok tt.
Proof.
  destruct (session_lifetime digest (fun _ => true) signed_up 5 (Some "ann@x.org") (Some "pw") "s3cret" ["key1"]
    signed_in "key1" (create_token 5 "ann@x.org" "s3cret" 120) [(7, Logout (Some "key2"))] 10 "/search/") as [Ha _].
  - exact RedisStore.fresh_ok.
  - done.
  - vm_compute. reflexivity.
  - apply (after_users_ok digest (fun _ => true) start 0); [|done]. unfold salted, no_colon. vm_compute. intuition discriminate.
  - done.
  - by intros Hin%list_elem_of_singleton.
  - by cbn.
  - done.
  - apply search_protected.
  - by apply (Ha 1000).
Defined.

Lemma register_login_roundtrip_witness :
  login digest signed_up 9 (Some "ann@x.org") (Some "PW") "k" ["key2"] =
    Ok (signed_up, Response HTTP_401_UNAUTHORIZED (Message "Wrong Password")).
Proof.
  destruct (register_login_roundtrip digest (fun _ => true) start (Some "pw") (Some "Ann") (Some "ann@x.org") "5a17"
    signed_up (UserData "Ann" "ann@x.org" "*********************")) as (p & e & Ep & Ee & _ & Hw & _).
  - apply digest_no_colon.
  - unfold no_colon. vm_compute. intuition discriminate.
  - reflexivity.
  - apply Hw; [done|]. injection Ep as <-. vm_compute. discriminate.
Defined.

End SessionSafety.
