(* ===== verification/Search.v ===== *)
(** The searches of the web application: searchingApp/views.py,
    searchingApp/tasks.py and searchingApp/models.py.

    The YouTube API, the Elasticsearch client and the validation and sorting done
    by the document database are parameters. A date is its proleptic Gregorian
    ordinal, as [date.toordinal] gives it. *)

From stdpp Require Import gmap.
From S2P Require Import Prelude Session.

Module Search.
Import Session.

Open Scope string_scope.
Open Scope list_scope.
Open Scope Z_scope.

(** ** int(), datetime() and strptime() *)

Definition digit (c : Ascii.ascii) : option Z :=
  let n := Z.of_nat (Ascii.nat_of_ascii c) in
  if (48 <=? n) && (n <=? 57) then Some (n - 48) else None.
Definition is_char (n : nat) (c : Ascii.ascii) : bool := Ascii.eqb c (Ascii.ascii_of_nat n).

(** Digits, with single underscores between them. *)
Fixpoint py_digits (acc : Z) (after_digit : bool) (l : list Ascii.ascii) : option Z :=
  match l with
  | [] => if after_digit then Some acc else None
  | c :: l =>
      if is_char 95 c then if after_digit then py_digits acc false l else None
      else match digit c with Some d => py_digits (acc * 10 + d) true l | None => None end
  end.
Fixpoint lstrip (l : list Ascii.ascii) : list Ascii.ascii :=
  match l with c :: l' => if is_space c then lstrip l' else l | [] => [] end.
(** [int(s)] of a string, in base ten and on ASCII *)
Definition py_int (s : string) : result Z :=
  let l := rev (lstrip (rev (lstrip (chars s)))) in
  let v := match l with
           | c :: l' => if is_char 45 c then Z.opp <$> py_digits 0 false l'
                        else if is_char 43 c then py_digits 0 false l'
                        else py_digits 0 false l
           | [] => None
           end in
  match v with Some v => Ok v | None => Raise ValueError end.

Definition date := Z.
Definition is_leap (year : Z) : bool := (year mod 4 =? 0) && (negb (year mod 100 =? 0) || (year mod 400 =? 0)).
Definition days_in_month (year month : Z) : Z :=
  if month =? 2 then if is_leap year then 29 else 28
  else if (month =? 4) || (month =? 6) || (month =? 9) || (month =? 11) then 30 else 31.
Fixpoint days_before_month (year : Z) (months : nat) : Z :=
  match months with
  | O => 0
  | S m => days_before_month year m + days_in_month year (Z.of_nat m + 1)
  end.
(** [datetime.datetime(year, month, day)] *)
Definition datetime (year month day : Z) : result date :=
  if (1 <=? year) && (year <=? 9999) && (1 <=? month) && (month <=? 12) && (1 <=? day) && (day <=? days_in_month year month)
  then let y := year - 1 in
       Ok (y * 365 + y / 4 - y / 100 + y / 400 + days_before_month year (Z.to_nat (month - 1)) + day)
  else Raise ValueError.

(** One or two digits in a range, with a zero in front or none *)
Definition field (lo hi : Z) (l : list Ascii.ascii) : option Z :=
  let v := match l with
           | [a] => digit a
           | [a; b] => x ← digit a; y ← digit b; Some (10 * x + y)
           | _ => None
           end in
  match v with Some v => if (lo <=? v) && (v <=? hi) then Some v else None | None => None end.
Definition dash : Ascii.ascii := Ascii.ascii_of_nat 45.
(** [datetime.datetime.strptime(s, '%Y-%m-%d').date()]; the day may also be a
    space and a digit. *)
Definition strptime (s : string) : result date :=
  match split dash s with
  | [y; m; d] =>
      let year := match chars y with
                  | [a; b; c; e] => a ← digit a; b ← digit b; c ← digit c; e ← digit e;
                                    Some (1000 * a + 100 * b + 10 * c + e)
                  | _ => None
                  end in
      let day := match chars d with
                 | [a; b] => if is_char 32 a then field 1 9 [b] else field 1 31 [a; b]
                 | l => field 1 31 l
                 end in
      match year, field 1 12 (chars m), day with
      | Some y, Some m, Some d => datetime y m d
      | _, _, _ => Raise ValueError
      end
  | _ => Raise ValueError
  end.

(** ** Documents *)

Record YoutubeData := MkVideo {
  video_id : string; published_date : date; title : string; description : string; actual_link : string }.
Record queryModel := MkQuery { q_user : string; q_query : string; q_videos : list YoutubeData; q_lasttime : Z }.
Record elastic_doc := MkElastic { e_title : string; e_RandomNumber : Z; e_published_date : date }.

(** A task handed to the Celery workers with [delay]. *)
Record task := MkTask { t_user : string; t_n : Z; t_query : string; t_force : bool }.

Record db := Db {
  videos : gmap string YoutubeData;
  queries : list queryModel;
  elastic : gmap string elastic_doc;
  tasks : list task }.

(** ** The dictionary of records, in insertion order *)

Record record := MkRecord { r_published_at : date; r_title : string; r_description : string; r_url : option string }.
Inductive entry := Rec (r : record) | Str (s : string).
Definition records := list (string * entry).

Fixpoint dget (k : string) (d : records) : option entry :=
  match d with [] => None | (k', e) :: d => if String.eqb k k' then Some e else dget k d end.
Fixpoint dset (k : string) (e : entry) (d : records) : records :=
  match d with
  | [] => [(k, e)]
  | (k', e') :: d => if String.eqb k k' then (k', e) :: d else (k', e') :: dset k e d
  end.
Fixpoint dpop (k : string) (d : records) : records :=
  match d with [] => [] | (k', e) :: d => if String.eqb k k' then d else (k', e) :: dpop k d end.

(** ** searchingApp/tasks.py *)

Record item := MkItem {
  i_videoId : string; i_publishedAt : string; i_title : option string; i_description : option string }.

Section Tasks.
(** The two requests to the YouTube API: the items of a search, None when the
    answer has none, and the pictures of videos; the check a document passes
    before it is saved; the number drawn for a document of the index. *)
Context (search_api : string -> Z -> result (option (list item)))
        (videos_api : list string -> result (list (string * option string)))
        (valid_video : YoutubeData -> bool) (rnd : string -> Z).

Definition insert_into_elastic (d : db) (video : record) (id : string) : db :=
  Db (videos d) (queries d)
     (<[id := MkElastic (r_title video) (rnd id) (r_published_at video)]> (elastic d)) (tasks d).

Definition or_default (s dflt : string) : string := match s with "" => dflt | _ => s end.
Definition NoUrl : string := "http://127.0.0.1:8000/NoUrlAvailable".

(** [YoutubeData(...)] from a record *)
Definition make_video (id : string) (e : entry) : result YoutubeData :=
  match e with
  | Str _ => Raise TypeError
  | Rec r =>
      match r_url r with
      | None => Raise KeyError
      | Some url => Ok (MkVideo id (r_published_at r) (or_default (r_title r) "no title")
                                (or_default (r_description r) "no description") (or_default url NoUrl))
      end
  end.

(** The loop of [insert_into_database]: the videos found and the new ones. *)
Fixpoint insert_videos (d : db) (rs : records) (found new : list YoutubeData)
    : db * result (list YoutubeData * list YoutubeData) :=
  match rs with
  | [] => (d, Ok (found, new))
  | (id, e) :: rs =>
      if String.eqb id "user" || String.eqb id "query" then insert_videos d rs found new
      else
        match videos d !! id with
        | Some v => insert_videos d rs (found ++ [v]) new
        | None =>
            match make_video id e with
            | Raise x => (d, Raise x)
            | Ok v =>
                if valid_video v then
                  let d := Db (<[id := v]> (videos d)) (queries d) (elastic d) (tasks d) in
                  let d := match e with Rec r => insert_into_elastic d r id | Str _ => d end in
                  insert_videos d rs found (new ++ [v])
                else (d, Raise ValidationError)
            end
        end
  end.

(** [query_object.videos = ...] of the first document of the query *)
Fixpoint update_query (query user : string) (vs : list YoutubeData) (qs : list queryModel) : option (list queryModel) :=
  match qs with
  | [] => None
  | q :: qs =>
      if String.eqb (q_query q) query && String.eqb (q_user q) user
      then Some (MkQuery (q_user q) (q_query q) vs (q_lasttime q) :: qs)
      else match update_query query user vs qs with Some qs => Some (q :: qs) | None => None end
  end.

(** Save the videos under the query, with a new document when there is none. *)
Definition save_query (query user : string) (vs : list YoutubeData) (now : Z) (qs : list queryModel) : list queryModel :=
  match update_query query user vs qs with
  | Some qs => qs
  | None => qs ++ [MkQuery user query vs now]
  end.

Definition insert_into_database (d : db) (now : Z) (rs : records) : db * result unit :=
  match insert_videos d rs [] [] with
  | (d, Raise x) => (d, Raise x)
  | (d, Ok (found, new)) =>
      let complete := found ++ new in
      match dget "query" rs, dget "user" rs with
      | Some (Str query), Some (Str user) =>
          (Db (videos d) (save_query query user complete now (queries d)) (elastic d) (tasks d), Ok tt)
      | _, _ => (d, Raise KeyError)
      end
  end.

(** The date of an item: [split('-')], three [int]s and [datetime] *)
Definition item_date (publishedAt : string) : result date :=
  match split dash publishedAt with
  | y :: m :: d :: _ =>
      let! y := py_int y in
      let! m := py_int m in
      let! d := py_int (String.substring 0 2 d) in
      datetime y m d
  | y :: rest =>
      let! _ := py_int y in
      match rest with
      | m :: _ => let! _ := py_int m in Raise IndexError
      | [] => Raise IndexError
      end
  | [] => Raise IndexError
  end.

Fixpoint add_items (query : string) (items : list item) (rs : records) : result records :=
  match items with
  | [] => Ok rs
  | i :: items =>
      let! day := item_date (i_publishedAt i) in
      add_items query items
        (dset (i_videoId i) (Rec (MkRecord day (default query (i_title i)) (default query (i_description i)) None)) rs)
  end.

Fixpoint add_urls (pics : list (string * option string)) (rs : records) : result records :=
  match pics with
  | [] => Ok rs
  | (id, url) :: pics =>
      match dget id rs with
      | Some (Rec r) =>
          add_urls pics (dset id (Rec (MkRecord (r_published_at r) (r_title r) (r_description r)
                                                (Some (default NoUrl url)))) rs)
      | Some (Str _) => Raise TypeError
      | None => Raise KeyError
      end
  end.

(** The work before the records are stored: both requests and the dictionary *)
Definition fetch_records (user_id query : string) (n : Z) : result (option records) :=
  let! items := search_api query n in
  match items with
  | None | Some [] => Ok None
  | Some items =>
      let! rs := add_items query items [] in
      let! pics := videos_api (i_videoId <$> items) in
      let! rs := add_urls pics rs in
      Ok (Some (dset "user" (Str user_id) (dset "query" (Str query) rs)))
  end.

Definition fetch_youtube_data (d : db) (now : Z) (user_id : string) (n : Z) (query : string) (force : bool)
    : db * result records :=
  match fetch_records user_id query n with
  | Raise x => (d, Raise x)
  | Ok None => (d, Ok [])
  | Ok (Some rs) =>
      match insert_into_database d now rs with
      | (d, Raise x) => (d, Raise x)
      | (d, Ok _) => (d, Ok (dpop "query" (dpop "user" rs)))
      end
  end.

End Tasks.

(** ** searchingApp/views.py *)

Definition HTTP_208_ALREADY_REPORTED : Z := 208.
Definition HTTP_400_BAD_REQUEST : Z := 400.
Definition HTTP_403_FORBIDDEN : Z := 403.

(** A video in an answer: a document of the database or a fetched record *)
Inductive shown := Stored (v : YoutubeData) | Fetched (e : entry).
Inductive link := NoMore | Next (offset limit : Z).
Inductive answer :=
  | Info (m : string)
  | QueryPage (next : link) (queries : list (string * list YoutubeData))
  | VideoPage (next : link) (videos : list shown)
  | RecordsPage (rs : records)
  | Hits (ids : list string).

Section Views.
Context {store : Type} `{KV store} `{JWT}.
Context (search_api : string -> Z -> result (option (list item)))
        (videos_api : list string -> result (list (string * option string)))
        (valid_video : YoutubeData -> bool) (rnd : string -> Z).
(** The $sort stages: newest first *)
Context (sort_queries : list queryModel -> list queryModel)
        (sort_videos : list YoutubeData -> list YoutubeData).
(** Searches of the index *)
Context (es_match : gmap string elastic_doc -> string -> list string)
        (es_range : gmap string elastic_doc -> date -> date -> list string).

Notation fetch := (fetch_youtube_data search_api videos_api valid_video rnd).

Record site := Site { accounts : @state store; data : db }.

Definition delay (d : db) (t : task) : db := Db (videos d) (queries d) (elastic d) (tasks d ++ [t]).

Definition topicRegistration_post (s : site) (t : Z) (jwt query : option string) (videos_n : option Z)
    : site * result (Z * answer) :=
  if negb (truthy query) || isspace (default "" query) then (s, Ok (HTTP_403_FORBIDDEN, Info "query not specified"))
  else
    let numberOfVideos := match videos_n with None | Some 0 => 10 | Some n => n end in
    match getUser (accounts s) t jwt with
    | Raise x => (s, Raise x)
    | Ok (Some u) =>
        (Site (accounts s) (delay (data s) (MkTask (email u) numberOfVideos (default "" query) false)),
         Ok (HTTP_201_CREATED, Info "done"))
    | Ok None => (s, Ok (HTTP_208_ALREADY_REPORTED, Info "Already Registered"))
    end.

(** $skip and $limit *)
Definition page {A} (offset limit : Z) (l : list A) : list A := take (Z.to_nat limit) (drop (Z.to_nat offset) l).

Definition saved_queries (d : db) (all_queries : list string) (user : string) : list queryModel :=
  sort_queries (filter (fun q => q_query q ∈ all_queries /\ q_user q = user) (queries d)).

Definition bulk_page (d : db) (all_queries : list string) (user : string) (offset limit : Z) : link * list queryModel :=
  let bulk_response := page offset (limit + 1) (saved_queries d all_queries user) in
  if Z.of_nat (length bulk_response) =? limit + 1
  then (Next (offset + limit) limit, take (Z.to_nat limit) bulk_response)
  else (NoMore, bulk_response).

Definition bulkRegistration_get (s : site) (t : Z) (jwt : option string) (queries : option (list string))
    (limit offset : string) : site * result (Z * answer) :=
  match py_int limit, py_int offset with
  | Ok limit, Ok offset =>
      if (limit <? 0) || (offset <? 0)
      then (s, Ok (HTTP_400_BAD_REQUEST, Info "Number of videos cann't be smaller than 0"))
      else
        match queries with
        | None | Some [] => (s, Ok (HTTP_400_BAD_REQUEST, Info "It must have queries"))
        | Some all_queries =>
            match getUser (accounts s) t jwt with
            | Raise x => (s, Raise x)
            | Ok None => (s, Raise AttributeError)
            | Ok (Some u) =>
                let '(next, docs) := bulk_page (data s) all_queries (email u) offset limit in
                let d := foldl (fun d q => if bool_decide (q ∈ q_query <$> docs) then d
                                           else delay d (MkTask (email u) 5 q true)) (data s) all_queries in
                (Site (accounts s) d,
                 Ok (HTTP_200_OK, QueryPage next ((fun q => (q_query q, q_videos q)) <$> docs)))
            end
        end
  | _, _ => (s, Raise ValueError)
  end.

Definition query_videos (d : db) (query user : string) : list YoutubeData :=
  sort_videos (concat (q_videos <$> filter (fun q => q_query q = query /\ q_user q = user) (queries d))).

Definition search_page (d : db) (t : Z) (user query : string) (offset limit : Z) : db * result (Z * answer) :=
  match page offset (limit + 1) (query_videos d query user) with
  | [] =>
      let '(d, r) := fetch d t user limit query false in
      (d, let! rs := r in Ok (HTTP_200_OK, RecordsPage rs))
  | queryset =>
      let available := Z.of_nat (length queryset) in
      let next_link := if available =? limit + 1 then Next (offset + limit) limit else NoMore in
      if limit >? available then
        let '(d, r) := fetch d t user limit query false in
        (d, let! rs := r in Ok (HTTP_200_OK, VideoPage next_link (Fetched ∘ snd <$> rs)))
      else (d, Ok (HTTP_200_OK, VideoPage next_link (Stored <$> take (Z.to_nat limit) queryset)))
  end.

Definition searchingView_get (s : site) (t : Z) (jwt query : option string) (offset limit : string)
    : site * result (Z * answer) :=
  match getUser (accounts s) t jwt with
  | Raise x => (s, Raise x)
  | Ok current_user =>
      match py_int offset, py_int limit with
      | Ok offset, Ok limit =>
          if (limit <? 0) || (offset <? 0)
          then (s, Ok (HTTP_400_BAD_REQUEST, Info "Number of videos cann't be smaller than 0"))
          else if truthy query then
            match current_user with
            | None => (s, Raise AttributeError)
            | Some u =>
                let '(d, r) := search_page (data s) t (email u) (default "" query) offset limit in
                (Site (accounts s) d, r)
            end
          else (s, Ok (HTTP_400_BAD_REQUEST, Info "query not specified"))
      | _, _ => (s, Raise ValueError)
      end
  end.

Definition textSearch_get (s : site) (keyword : option string) : Z * answer :=
  match keyword with
  | None | Some "" => (HTTP_400_BAD_REQUEST, Info "No keyword specified!!")
  | Some keyword => (HTTP_200_OK, Hits (es_match (elastic (data s)) keyword))
  end.

(** [today] is the day of [datetime.datetime.now()]. *)
Definition videosWithDateFilter_get (s : site) (today : date) (start_date final_date : option string) : Z * answer :=
  let parse d dflt := if truthy d then strptime (default "" d) else Ok dflt in
  match parse start_date (today - 70), parse final_date today with
  | Ok start_date, Ok final_date =>
      if final_date >=? start_date then (HTTP_200_OK, Hits (es_range (elastic (data s)) start_date final_date))
      else (HTTP_400_BAD_REQUEST, Info "final date cannt be greater than start date!!")
  | _, _ => (HTTP_400_BAD_REQUEST, Info "Date must be in yyyy-MM-dd format")
  end.

(** ** The middleware before every view of /search/ *)

Inductive view :=
  | VTopic (query : option string) (videos_n : option Z)
  | VBulk (queries : option (list string)) (limit offset : string)
  | VSearch (query : option string) (offset limit : string)
  | VText (keyword : option string)
  | VDates (today : date) (start_date final_date : option string).

Definition path_of (v : view) : string :=
  match v with
  | VSearch _ _ _ => "/search/"
  | VTopic _ _ => "/search/register"
  | VBulk _ _ _ => "/search/bulk_register"
  | VDates _ _ _ => "/search/_filter"
  | VText _ => "/search/_textsearch"
  end.

Definition dispatch (s : site) (t : Z) (jwt : option string) (v : view) : site * result (Z * answer) :=
  match process_request (accounts s) t (path_of v) jwt with
  | Raise x => (s, Raise x)
  | Ok _ =>
      match v with
      | VTopic q n => topicRegistration_post s t jwt q n
      | VBulk qs limit offset => bulkRegistration_get s t jwt qs limit offset
      | VSearch q offset limit => searchingView_get s t jwt q offset limit
      | VText k => (s, Ok (textSearch_get s k))
      | VDates today a b => (s, Ok (videosWithDateFilter_get s today a b))
      end
  end.

End Views.

End Search.
