(* ===== verification/SearchSpec.v ===== *)
(** What the searches of the web application promise: the invariant of the
    documents, what a fetch stores, and which videos the pages show. *)

From stdpp Require Import gmap.
From S2P Require Import Prelude Session SessionSpec Search.

Module SearchSpec.
Import Session SessionSpec Search.

Open Scope string_scope.
Open Scope list_scope.
Open Scope Z_scope.

(** ** The ordered dictionary *)

Definition keys (rs : records) : list string := rs.*1.

Lemma dget_dset k k' e rs : dget k' (dset k e rs) = if String.eqb k' k then Some e else dget k' rs.
Proof.
  induction rs as [|[k1 e1] rs IH]; cbn; [done|].
  destruct (String.eqb_spec k k1) as [->|]; cbn.
  - by destruct (String.eqb_spec k' k1).
  - rewrite IH. destruct (String.eqb_spec k' k1) as [->|]; [|done].
    by destruct (String.eqb_spec k1 k) as [->|].
Qed.
Lemma dget_in k rs : is_Some (dget k rs) <-> k ∈ keys rs.
Proof.
  induction rs as [|[k1 e1] rs IH]; cbn; [rewrite elem_of_nil; split; [by intros []|done]|].
  rewrite elem_of_cons, <- IH. destruct (String.eqb_spec k k1) as [->|]; [by split; eauto|]. naive_solver.
Qed.
Lemma dget_None k rs : k ∉ keys rs -> dget k rs = None.
Proof. rewrite <- dget_in. destruct (dget k rs); [|done]. intros []. eauto. Qed.
Lemma keys_dset k e rs : keys (dset k e rs) = if bool_decide (k ∈ keys rs) then keys rs else keys rs ++ [k].
Proof.
  induction rs as [|[k1 e1] rs IH]; cbn; [done|]. unfold keys in *.
  destruct (String.eqb_spec k k1) as [->|Hne]; cbn.
  - rewrite bool_decide_true; [done|]. left.
  - rewrite IH. rewrite (bool_decide_ext (k ∈ k1 :: rs.*1) (k ∈ rs.*1)).
    + by case_bool_decide.
    + rewrite elem_of_cons. tauto.
Qed.
Lemma NoDup_dset k e rs : NoDup (keys rs) -> NoDup (keys (dset k e rs)).
Proof.
  intros Hn. rewrite keys_dset. case_bool_decide; [done|]. apply NoDup_app. split_and!; [done| |apply NoDup_singleton].
  intros x Hx ->%list_elem_of_singleton. done.
Qed.
Lemma keys_dpop_last k e rs : k ∉ keys rs -> dpop k (rs ++ [(k, e)]) = rs.
Proof.
  induction rs as [|[k1 e1] rs IH]; cbn; [by rewrite String.eqb_refl|].
  intros [Hne Hin]%not_elem_of_cons. destruct (String.eqb_spec k k1); [done|]. by rewrite IH.
Qed.
Lemma dset_new k e rs : k ∉ keys rs -> dset k e rs = rs ++ [(k, e)].
Proof.
  induction rs as [|[k1 e1] rs IH]; cbn; [done|].
  intros [Hne Hin]%not_elem_of_cons. destruct (String.eqb_spec k k1); [done|]. by rewrite IH.
Qed.

(** ** The documents *)

Definition query_key (q : queryModel) : string * string := (q_user q, q_query q).

(** A video is stored under its id with no field left empty, and indexed; the
    videos of a query are stored ones; a user has one document for a query. *)
Record videos_ok (d : db) : Prop := {
  vok_video id v : videos d !! id = Some v ->
    video_id v = id /\ title v <> "" /\ description v <> "" /\ actual_link v <> "";
  vok_elastic id : is_Some (elastic d !! id) <-> is_Some (videos d !! id);
}.
Record db_ok (d : db) : Prop := {
  dok_videos : videos_ok d;
  dok_query q v : q ∈ queries d -> v ∈ q_videos q -> videos d !! video_id v = Some v;
  dok_unique : NoDup (query_key <$> queries d);
}.

Lemma db_ok_tasks d ts : db_ok d -> db_ok (Db (videos d) (queries d) (elastic d) ts).
Proof. intros [[Hv He] Hq Hu]. split; [by split|done..]. Qed.
Lemma db_ok_empty : db_ok (Db ∅ [] ∅ []).
Proof.
  split; [split; cbn|by intros q v ?%elem_of_nil|apply NoDup_nil_2].
  - intros id v. by rewrite lookup_empty.
  - intros id. by rewrite !lookup_empty.
Qed.

Definition keeps (d d' : db) : Prop := forall id v, videos d !! id = Some v -> videos d' !! id = Some v.

Lemma or_default_filled s dflt : dflt <> "" -> or_default s dflt <> "".
Proof. by destruct s. Qed.
Lemma make_video_filled id e v : make_video id e = Ok v ->
  video_id v = id /\ title v <> "" /\ description v <> "" /\ actual_link v <> "".
Proof.
  destruct e as [r|]; [|done]. cbn. destruct (r_url r) as [url|]; [|done]. intros [= <-]. cbn.
  split_and!; [done|by apply or_default_filled..].
Qed.

Lemma update_query_Some query user vs qs qs' : update_query query user vs qs = Some qs' ->
  query_key <$> qs' = query_key <$> qs /\
  (exists q, q ∈ qs /\ query_key q = (user, query) /\ MkQuery user query vs (q_lasttime q) ∈ qs') /\
  (forall q, q ∈ qs' -> q ∈ qs \/ query_key q = (user, query) /\ q_videos q = vs) /\
  forall q, query_key q <> (user, query) -> q ∈ qs' <-> q ∈ qs.
Proof.
  revert qs'. induction qs as [|q qs IH]; cbn; [done|]. intros qs'.
  destruct (String.eqb_spec (q_query q) query) as [<-|Hq], (String.eqb_spec (q_user q) user) as [<-|Hu]; cbn [andb].
  1: { intros [= <-]. split_and!; [done| | |].
       - exists q. split_and!; [left|done|left].
       - intros q' [->|?]%elem_of_cons; [by right|left; by right].
       - intros q' Hne. rewrite !elem_of_cons. split; intros [->|?]; auto; done. }
  all: destruct (update_query _ _ _ qs) as [qs1|] eqn:E; [|done]; intros [= <-];
    destruct (IH _ eq_refl) as (K & (q' & ? & ? & ?) & Hi & Ho); split_and!;
    [cbn; by rewrite K
    |exists q'; split_and!; [by right|done|by right]
    |intros q1 [->|Hq1]%elem_of_cons; [left; left|destruct (Hi _ Hq1); [left; by right|by right]]
    |intros q1 Hq1; rewrite !elem_of_cons, (Ho q1 Hq1); done].
Qed.
Lemma update_query_None query user vs qs : update_query query user vs qs = None -> (user, query) ∉ query_key <$> qs.
Proof.
  induction qs as [|q qs IH]; cbn; [intros _; apply not_elem_of_nil|].
  destruct (String.eqb_spec (q_query q) query) as [<-|Hq], (String.eqb_spec (q_user q) user) as [<-|Hu]; cbn [andb]; [done|..].
  all: destruct (update_query _ _ _ qs); [done|]; intros _; apply not_elem_of_cons; split; [|by apply IH];
    unfold query_key; congruence.
Qed.

Lemma save_query_spec query user vs now qs : let qs' := save_query query user vs now qs in
  (NoDup (query_key <$> qs) -> NoDup (query_key <$> qs')) /\
  (exists q, q ∈ qs' /\ query_key q = (user, query) /\ q_videos q = vs) /\
  (forall q, q ∈ qs' -> q ∈ qs \/ query_key q = (user, query) /\ q_videos q = vs) /\
  forall q, query_key q <> (user, query) -> q ∈ qs' <-> q ∈ qs.
Proof.
  unfold save_query. destruct (update_query query user vs qs) as [qs1|] eqn:E; cbv zeta.
  - apply update_query_Some in E as (-> & (q & _ & _ & Hq) & Hi & Ho). split_and!; [done|by eexists|done..].
  - apply update_query_None in E. split_and!.
    + intros Hnd. rewrite fmap_app. apply NoDup_app. split_and!; [done| |apply NoDup_singleton].
      intros x Hx ->%list_elem_of_singleton. done.
    + eexists. rewrite elem_of_app, list_elem_of_singleton. split; [by right|done].
    + intros q [| ->%list_elem_of_singleton]%elem_of_app; auto.
    + intros q Hne. rewrite elem_of_app, list_elem_of_singleton. split; [intros [| ->]; done|by left].
Qed.

Section Insert.
Context (valid_video : YoutubeData -> bool) (rnd : string -> Z).
Notation insert_videos := (insert_videos valid_video rnd).
Notation insert_into_database := (insert_into_database valid_video rnd).

Definition stored (d : db) (v : YoutubeData) : Prop := videos d !! video_id v = Some v.

Lemma keeps_refl d : keeps d d.
Proof. by intros id v. Qed.
Lemma keeps_trans d1 d2 d3 : keeps d1 d2 -> keeps d2 d3 -> keeps d1 d3.
Proof. unfold keeps. eauto. Qed.

(** One new video, saved and indexed *)
Definition put (d : db) (id : string) (v : YoutubeData) (e : entry) : db :=
  let d := Db (<[id := v]> (videos d)) (queries d) (elastic d) (tasks d) in
  match e with Rec r => insert_into_elastic rnd d r id | Str _ => d end.

Lemma put_ok d id e v : videos_ok d -> videos d !! id = None -> make_video id e = Ok v ->
  videos_ok (put d id v e) /\ keeps d (put d id v e) /\ stored (put d id v e) v.
Proof.
  intros [Hv He] Hn Hm. pose proof (make_video_filled _ _ _ Hm) as Hf. destruct e as [r|]; [|done].
  unfold put, insert_into_elastic, keeps, stored. cbn. split_and!.
  - split; cbn; intros id'; destruct (decide (id = id')) as [->|].
    + intros w. rewrite lookup_insert_eq. by intros [= <-].
    + intros w. rewrite lookup_insert_ne by done. apply Hv.
    + rewrite !lookup_insert_eq. split; eauto.
    + by rewrite !lookup_insert_ne.
  - intros id' w Hw. rewrite lookup_insert_ne; congruence.
  - destruct Hf as [-> _]. apply lookup_insert_eq.
Qed.

Lemma insert_videos_inv rs d F N d' r :
  videos_ok d -> Forall (stored d) (F ++ N) -> insert_videos d rs F N = (d', r) ->
  videos_ok d' /\ keeps d d' /\ queries d' = queries d /\ tasks d' = tasks d /\
  match r with Ok (F', N') => Forall (stored d') (F' ++ N') | Raise _ => True end.
Proof.
  revert d F N. induction rs as [|[id e] rs IH]; cbn; intros d F N Hok Hst.
  { intros [= <- <-]. auto using keeps_refl. }
  destruct (_ || _); [by apply IH|]. destruct (videos d !! id) as [v|] eqn:Ev.
  { apply IH; [done|]. apply Forall_app in Hst as [HF HN]. rewrite !Forall_app, Forall_singleton.
    split_and!; [done| |done]. unfold stored. by destruct (vok_video _ Hok _ _ Ev) as [-> _]. }
  destruct (make_video id e) as [v|x] eqn:Em; [|intros [= <- <-]; auto using keeps_refl].
  destruct (valid_video v); [|intros [= <- <-]; auto using keeps_refl].
  destruct (put_ok _ _ _ _ Hok Ev Em) as (Hok' & Hk & Hs). intros E.
  destruct (IH (put d id v e) F (N ++ [v]) Hok') as (? & Hk' & Hq & Ht & ?); [|exact E|].
  - rewrite app_assoc, Forall_app, Forall_singleton. split; [|done].
    eapply Forall_impl; [exact Hst|]. intros w. apply Hk.
  - split_and!; [done|by eapply keeps_trans|by rewrite Hq; destruct e|by rewrite Ht; destruct e|done].
Qed.

Lemma insert_into_database_inv d now rs d' r :
  db_ok d -> insert_into_database d now rs = (d', r) ->
  db_ok d' /\ keeps d d' /\ tasks d' = tasks d /\
  (forall q, q ∈ queries d' -> q ∈ queries d \/ exists user, dget "user" rs = Some (Str user) /\ q_user q = user) /\
  match r with Ok _ => True | Raise _ => queries d' = queries d end.
Proof.
  intros [Hv Hq Hu]. unfold Search.insert_into_database.
  destruct (insert_videos d rs [] []) as [d1 r1] eqn:E.
  apply insert_videos_inv in E as (Hv1 & Hk & Eq & Et & Hst); [|done|by constructor].
  assert (Hok1 : db_ok d1) by (split; [done|intros q v Hin Hv'; rewrite Eq in Hin; eauto|by rewrite Eq]).
  assert (Hsame : forall q, q ∈ queries d1 -> q ∈ queries d \/ exists user, dget "user" rs = Some (Str user) /\ q_user q = user)
    by (rewrite Eq; auto).
  destruct r1 as [[F N]|x]; [|by intros [= <- <-]].
  destruct (dget "query" rs) as [[|query]|]; [by intros [= <- <-]| |by intros [= <- <-]].
  destruct (dget "user" rs) as [[|user]|]; [by intros [= <- <-]| |by intros [= <- <-]].
  intros [= <- <-]. rewrite Forall_forall in Hst.
  destruct (save_query_spec query user (F ++ N) now (queries d1)) as (Hnd & _ & Hi & _).
  split_and!; [|done|done| |done]; cbn.
  - split; [by destruct Hv1; split| |apply Hnd, Hok1]. cbn. intros q v Hin Hv'.
    destruct (Hi q Hin) as [Hq'|[_ Hq']]; [by eapply (dok_query _ Hok1)|]. rewrite Hq' in Hv'. by apply Hst.
  - intros q [Hin|[[= <- _] _]]%Hi; [by apply Hsame|right; eauto].
Qed.

(** ** Records that can all be stored *)

Definition special (id : string) : bool := String.eqb id "user" || String.eqb id "query".
Definition made (id : string) (e : entry) : option YoutubeData :=
  match make_video id e with Ok v => if valid_video v then Some v else None | Raise _ => None end.
Definition ready (d : db) (rs : records) : Prop :=
  forall id e, (id, e) ∈ rs -> special id = true \/ is_Some (videos d !! id) \/ is_Some (made id e).

Definition found_of (d : db) (rs : records) : list YoutubeData :=
  omap (fun '(id, e) => if special id then None else videos d !! id) rs.
Definition new_of (d : db) (rs : records) : list YoutubeData :=
  omap (fun '(id, e) => if special id then None else match videos d !! id with Some _ => None | None => made id e end) rs.

Lemma found_new_ext d d' rs : (forall id, id ∈ keys rs -> videos d' !! id = videos d !! id) ->
  found_of d' rs = found_of d rs /\ new_of d' rs = new_of d rs.
Proof.
  induction rs as [|[id e] rs IH]; cbn; [done|]. intros Hx.
  rewrite (Hx id) by left. destruct IH as [E1 E2]; [intros i Hi; apply Hx; by right|].
  unfold found_of, new_of in E1, E2. rewrite E1, E2. done.
Qed.

Lemma put_lookup d id v e id' : videos (put d id v e) !! id' = if decide (id = id') then Some v else videos d !! id'.
Proof. destruct e; cbn; by rewrite lookup_insert. Qed.

Lemma insert_videos_exact rs d F N : NoDup (keys rs) -> ready d rs ->
  exists d', insert_videos d rs F N = (d', Ok (F ++ found_of d rs, N ++ new_of d rs)) /\
    forall id, videos d' !! id = match videos d !! id with
                                 | Some v => Some v
                                 | None => if special id then None else dget id rs ≫= made id
                                 end.
Proof.
  revert d F N. induction rs as [|[id e] rs IH]; cbn; intros d F N Hnd Hr.
  { exists d. rewrite !app_nil_r. split; [done|]. intros id. by destruct (videos d !! id), (special id). }
  apply NoDup_cons in Hnd as [Hid Hnd].
  assert (Hr' : ready d rs) by (intros i x Hi; apply (Hr i x); by right).
  specialize (Hr id e ltac:(left)). fold (special id). destruct (special id) eqn:Esp.
  { destruct (IH d F N Hnd Hr') as (d' & -> & Hv). exists d'. split; [done|]. intros i. rewrite Hv.
    destruct (videos d !! i); [done|]. destruct (String.eqb_spec i id) as [->|]; [by rewrite Esp|done]. }
  destruct (videos d !! id) as [v|] eqn:Ev.
  { destruct (IH d (F ++ [v]) N Hnd Hr') as (d' & -> & Hv). exists d'. rewrite <- app_assoc. split; [done|].
    intros i. rewrite Hv. destruct (String.eqb_spec i id) as [->|]; [by rewrite Ev|done]. }
  destruct Hr as [|[[]|[v Hm]]]; [done..|]. rewrite Hm. unfold made in Hm.
  destruct (make_video id e) as [v'|] eqn:Em; [|done]. destruct (valid_video v') eqn:Evv; [|done]. injection Hm as ->.
  destruct (IH (put d id v e) F (N ++ [v]) Hnd) as (d' & E & Hv).
  { intros i x Hi. destruct (Hr' i x Hi) as [|[|]]; auto. right; left. rewrite put_lookup. by case_decide; eauto. }
  destruct (found_new_ext d (put d id v e) rs) as [E1 E2].
  { intros i Hi. rewrite put_lookup. case_decide; [by subst|done]. }
  exists d'. rewrite E1, E2, <- app_assoc in E. split; [exact E|]. intros i. rewrite Hv, put_lookup.
  case_decide as Di; [subst i; rewrite Ev, Esp, String.eqb_refl; cbn; unfold made; by rewrite Em, Evv|].
  destruct (String.eqb_spec i id); [by subst|done].
Qed.

Definition ordinary (rs : records) : list string := filter (fun id => special id = false) (keys rs).

Lemma ordinary_cons id e rs : ordinary ((id, e) :: rs) = if special id then ordinary rs else id :: ordinary rs.
Proof.
  unfold ordinary. change (keys ((id, e) :: rs)) with (id :: keys rs). rewrite filter_cons.
  by destruct (special id).
Qed.

Lemma found_new_ids d rs : videos_ok d -> ready d rs ->
  video_id <$> found_of d rs ++ new_of d rs ≡ₚ ordinary rs.
Proof.
  intros Hok. rewrite fmap_app. induction rs as [|[id e] rs IH]; [done|]. intros Hr.
  specialize (IH ltac:(intros i x Hi; apply (Hr i x); by right)). specialize (Hr id e ltac:(left)).
  rewrite ordinary_cons. unfold found_of, new_of in *. cbn. destruct (special id) eqn:Esp; [exact IH|].
  destruct (videos d !! id) as [v|] eqn:Ev.
  - cbn. destruct (vok_video _ Hok _ _ Ev) as [-> _]. by constructor.
  - destruct Hr as [|[[]|[v Hm]]]; [done..|]. rewrite Hm. cbn. rewrite <- Permutation_middle.
    unfold made in Hm. destruct (make_video id e) eqn:Em; [|done]. destruct (valid_video _); [|done]. injection Hm as ->.
    apply make_video_filled in Em as [-> _]. by constructor.
Qed.

Lemma insert_into_database_exact d now rs query user :
  db_ok d -> NoDup (keys rs) -> ready d rs -> dget "query" rs = Some (Str query) -> dget "user" rs = Some (Str user) ->
  exists d', insert_into_database d now rs = (d', Ok tt) /\
    (forall id, videos d' !! id = match videos d !! id with
                                  | Some v => Some v
                                  | None => if special id then None else dget id rs ≫= made id
                                  end) /\
    (exists q, q ∈ queries d' /\ query_key q = (user, query) /\ video_id <$> q_videos q ≡ₚ ordinary rs) /\
    (forall q, query_key q <> (user, query) -> q ∈ queries d' <-> q ∈ queries d).
Proof.
  intros Hok Hnd Hr Hq Hu. destruct (insert_videos_exact rs d [] [] Hnd Hr) as (d1 & E & Hv).
  pose proof (found_new_ids d rs (dok_videos _ Hok) Hr) as Hp. unfold Search.insert_into_database.
  pose proof (insert_videos_inv rs d [] [] _ _ (dok_videos _ Hok) (Forall_nil_2 _) E) as (_ & _ & Eq & _). rewrite E, Hq, Hu.
  cbn [app] in *. eexists. split; [done|]. cbn [videos queries]. split; [done|]. rewrite Eq.
  destruct (save_query_spec query user (found_of d rs ++ new_of d rs) now (queries d)) as (_ & (q & Hin & Hk & Ev) & _ & Ho).
  split; [|done]. exists q. by rewrite Ev.
Qed.

End Insert.

(** ** Fetching *)

Lemma dget_NoDup rs id e : NoDup (keys rs) -> (id, e) ∈ rs -> dget id rs = Some e.
Proof.
  induction rs as [|[k x] rs IH]; cbn; [by intros _ ?%elem_of_nil|].
  intros [Hk Hnd]%NoDup_cons [[= -> ->]|Hin]%elem_of_cons; [by rewrite String.eqb_refl|].
  destruct (String.eqb_spec id k) as [->|]; [|by apply IH].
  destruct Hk. apply (list_elem_of_fmap_2 fst) in Hin. done.
Qed.

(** Every value is a record. *)
Definition all_rec (rs : records) : Prop := forall id e, dget id rs = Some e -> exists r, e = Rec r.

Lemma all_rec_dset k r rs : all_rec rs -> all_rec (dset k (Rec r) rs).
Proof. intros Ha id e. rewrite dget_dset. destruct (String.eqb id k); [|apply Ha]. intros [= <-]. eauto. Qed.

Lemma add_items_ok query items rs :
  (forall i, i ∈ items -> exists day, item_date (i_publishedAt i) = Ok day) ->
  NoDup (keys rs ++ (i_videoId <$> items)) -> all_rec rs ->
  exists rs', add_items query items rs = Ok rs' /\ keys rs' = keys rs ++ (i_videoId <$> items) /\ all_rec rs'.
Proof.
  revert rs. induction items as [|i items IH]; cbn; intros rs Hd Hnd Ha.
  { exists rs. by rewrite app_nil_r. }
  destruct (Hd i ltac:(left)) as [day ->]. cbn [rbind].
  assert (Hi : i_videoId i ∉ keys rs).
  { apply NoDup_app in Hnd as (_ & Hx & _). intros Hin. apply (Hx _ Hin). left. }
  destruct (IH (dset (i_videoId i) (Rec (MkRecord day (default query (i_title i)) (default query (i_description i)) None)) rs))
    as (rs' & -> & Ek & Ha').
  - intros j Hj. apply Hd. by right.
  - rewrite keys_dset, bool_decide_false, <- app_assoc by done. done.
  - by apply all_rec_dset.
  - exists rs'. split_and!; [done| |done]. rewrite Ek, keys_dset, bool_decide_false, <- app_assoc by done. done.
Qed.

(** The record of [id] has its picture. *)
Definition has_url (id : string) (rs : records) : Prop := exists r, dget id rs = Some (Rec r) /\ is_Some (r_url r).

Lemma add_urls_ok pics rs :
  (forall id, id ∈ pics.*1 -> id ∈ keys rs) -> all_rec rs ->
  exists rs', add_urls pics rs = Ok rs' /\ keys rs' = keys rs /\ all_rec rs' /\
    forall id, id ∈ pics.*1 \/ has_url id rs -> has_url id rs'.
Proof.
  revert rs. induction pics as [|[id url] pics IH]; cbn; intros rs Hp Ha.
  { exists rs. split_and!; [done..|]. intros id [?%elem_of_nil|]; done. }
  destruct (proj2 (dget_in id rs) (Hp id ltac:(left))) as [e Ed]. rewrite Ed. destruct (Ha id e Ed) as [r ->].
  set (r' := MkRecord _ _ _ _). destruct (IH (dset id (Rec r') rs)) as (rs' & -> & Ek & Ha' & Hu).
  - intros i Hi. rewrite keys_dset. rewrite bool_decide_true by (apply dget_in; eauto). apply Hp. by right.
  - by apply all_rec_dset.
  - exists rs'. rewrite Ek, keys_dset, bool_decide_true by (apply dget_in; eauto). split_and!; [done..|].
    intros i Hi. apply Hu. destruct (decide (i = id)) as [->|Hne].
    + right. exists r'. rewrite dget_dset, String.eqb_refl. split; [done|]. by eexists.
    + destruct Hi as [[->|Hi]%elem_of_cons|(r1 & Hr1 & Hs)]; [done|by left|right].
      exists r1. rewrite dget_dset. by destruct (String.eqb_spec i id).
Qed.

Section Fetch.
Context (search_api : string -> Z -> result (option (list item)))
        (videos_api : list string -> result (list (string * option string)))
        (valid_video : YoutubeData -> bool) (rnd : string -> Z).
Notation fetch_records := (fetch_records search_api videos_api).
Notation fetch := (fetch_youtube_data search_api videos_api valid_video rnd).

Lemma fetch_records_user user query n rs :
  fetch_records user query n = Ok (Some rs) -> dget "user" rs = Some (Str user) /\ dget "query" rs = Some (Str query).
Proof.
  unfold Search.fetch_records, rbind. intros E. repeat case_match; simplify_eq. rewrite !dget_dset. done.
Qed.

Lemma fetch_inv d now user n query force d' r :
  db_ok d -> fetch d now user n query force = (d', r) ->
  db_ok d' /\ keeps d d' /\ tasks d' = tasks d /\
  (forall q, q ∈ queries d' -> q ∈ queries d \/ q_user q = user).
Proof.
  intros Hok. unfold fetch_youtube_data. destruct (fetch_records user query n) as [[rs|]|x] eqn:E.
  2,3: intros [= <- <-]; split_and!; auto using keeps_refl.
  apply fetch_records_user in E as [Eu _]. destruct (insert_into_database _ _ _ _ _) as [d1 r1] eqn:Ei.
  apply insert_into_database_inv in Ei as (Hok1 & Hk & Et & Hq & _); [|done].
  intros Er. assert (d' = d1) as -> by (destruct r1; by injection Er). split_and!; try done.
  intros q [|(user' & Eu' & Eq)]%Hq; [by left|right]. congruence.
Qed.

(** Records with pictures, and the two entries for the query and the user *)
Definition tagged (query user : string) (rs : records) : records := (rs ++ [("query", Str query)]) ++ [("user", Str user)].

Lemma keys_tagged query user rs : keys (tagged query user rs) = keys rs ++ ["query"; "user"].
Proof. unfold keys, tagged. by rewrite !fmap_app, <- app_assoc. Qed.
Lemma ordinary_tagged query user rs : (forall id, id ∈ keys rs -> special id = false) -> ordinary (tagged query user rs) = keys rs.
Proof.
  unfold tagged. rewrite <- app_assoc. induction rs as [|[id e] rs IH]; intros Hsp; [done|].
  rewrite <- app_comm_cons, ordinary_cons, (Hsp id), IH by (try left; intros i Hi; apply Hsp; by right). done.
Qed.
Lemma dget_app id rs1 rs2 : dget id (rs1 ++ rs2) = match dget id rs1 with Some e => Some e | None => dget id rs2 end.
Proof. induction rs1 as [|[k e] rs1 IH]; cbn; [done|]. by destruct (String.eqb id k). Qed.

Lemma tagged_exact d now query user rs :
  db_ok d -> (forall v, valid_video v = true) -> NoDup (keys rs) -> (forall id, id ∈ keys rs -> special id = false) ->
  (forall id, id ∈ keys rs -> has_url id rs) ->
  exists d', insert_into_database valid_video rnd d now (tagged query user rs) = (d', Ok tt) /\
    (forall id, is_Some (videos d' !! id) <-> is_Some (videos d !! id) \/ id ∈ keys rs) /\
    (exists q, q ∈ queries d' /\ query_key q = (user, query) /\ video_id <$> q_videos q ≡ₚ keys rs) /\
    (forall q, query_key q <> (user, query) -> q ∈ queries d' <-> q ∈ queries d).
Proof.
  intros Hok Hvalid Hnd Hsp Hurl.
  assert (Hnd' : NoDup (keys (tagged query user rs))).
  { rewrite keys_tagged. apply NoDup_app. split_and!; [done| |].
    - intros id Hid%Hsp [->|[->|[]%elem_of_nil]%elem_of_cons]%elem_of_cons; done.
    - repeat constructor; set_solver. }
  assert (Hmade : forall id, id ∈ keys rs -> is_Some (dget id rs ≫= made valid_video id)).
  { intros id (r & -> & url & Er)%Hurl. cbn. unfold made, make_video. rewrite Er, Hvalid. eauto. }
  assert (Hget : forall id, id ∈ keys rs -> dget id (tagged query user rs) = dget id rs).
  { intros id [e He]%dget_in. unfold tagged. by rewrite !dget_app, He. }
  assert (Hmiss : forall id, id ∉ keys rs -> special id = false -> dget id (tagged query user rs) = None).
  { intros id Hid Hs. apply dget_None. rewrite keys_tagged. intros [|[->|[->|[]%elem_of_nil]%elem_of_cons]%elem_of_cons]%elem_of_app; done. }
  destruct (insert_into_database_exact valid_video rnd d now (tagged query user rs) query user) as (d' & E & Hv & Hq & Ho); try done.
  - intros id e Hin. destruct (special id) eqn:Es; [by left|right; right]. pose proof (dget_NoDup _ _ _ Hnd' Hin) as Hg.
    destruct (decide (id ∈ keys rs)) as [Hid|Hid]; [|by rewrite Hmiss in Hg].
    destruct (Hmade id Hid) as [v Hv]. rewrite <- (Hget id Hid), Hg in Hv. eauto.
  - unfold tagged. rewrite !dget_app, dget_None; [done|]. by intros ?%Hsp.
  - unfold tagged. rewrite !dget_app, dget_None; [done|]. by intros ?%Hsp.
  - exists d'. rewrite ordinary_tagged in Hq by done. split_and!; [done| |done..]. intros id. rewrite Hv.
    destruct (videos d !! id) as [v|]; [split; eauto|]. destruct (decide (id ∈ keys rs)) as [Hid|Hid].
    + rewrite (Hsp id Hid), (Hget id Hid). split; auto.
    + split; [|by intros [[]|]]. destruct (special id) eqn:Es; [by intros []|]. rewrite Hmiss by done. by intros [].
Qed.


End Fetch.

End SearchSpec.
