(* ===== verification/SearchSafety.v ===== *)
(** The theorems on the searches of the web application: what a fetch stores,
    the pages a client sees, and who can reach the views. *)

From stdpp Require Import gmap.
From S2P Require Import Prelude Keyspace RedisStore Session SessionSpec SessionSafety Search SearchSpec.

Module SearchSafety.
Import Session SessionSpec SessionSafety Search SearchSpec.

Open Scope string_scope.
Open Scope list_scope.
Open Scope Z_scope.

(** ** Pages *)

Lemma page_length {A} offset limit (l : list A) : 0 <= offset -> 0 <= limit ->
  Z.of_nat (length (page offset limit l)) = Z.max 0 (Z.min limit (Z.of_nat (length l) - offset)).
Proof. intros. unfold page. rewrite length_take, length_drop. lia. Qed.
Lemma page_take {A} offset limit (l : list A) : 0 <= limit ->
  take (Z.to_nat limit) (page offset (limit + 1) l) = page offset limit l.
Proof. intros. unfold page. rewrite take_take. f_equal. lia. Qed.
Lemma page_rest {A} offset limit (l : list A) : 0 <= offset -> 0 <= limit ->
  page offset limit l ++ drop (Z.to_nat (offset + limit)) l = drop (Z.to_nat offset) l.
Proof.
  intros. unfold page. rewrite Z2Nat.inj_add by done. rewrite <- drop_drop. apply take_drop.
Qed.
Lemma page_last {A} offset limit (l : list A) : 0 <= offset -> 0 <= limit -> Z.of_nat (length l) <= offset + limit ->
  page offset limit l = drop (Z.to_nat offset) l.
Proof. intros. unfold page. apply take_ge. rewrite length_drop. lia. Qed.

Section Bulk.
Context (sort_queries : list queryModel -> list queryModel).

(** A client that follows the links of the pages *)
Fixpoint bulk_crawl (fuel : nat) (d : db) (qs : list string) (user : string) (offset limit : Z) : option (list queryModel) :=
  match fuel with
  | O => None
  | S fuel =>
      let '(next, docs) := bulk_page sort_queries d qs user offset limit in
      match next with
      | NoMore => Some docs
      | Next offset limit => rest ← bulk_crawl fuel d qs user offset limit; Some (docs ++ rest)
      end
  end.

Lemma bulk_page_eq d qs user offset limit : 0 <= offset -> 0 <= limit ->
  let V := saved_queries sort_queries d qs user in
  bulk_page sort_queries d qs user offset limit =
    if offset + limit <? Z.of_nat (length V) then (Next (offset + limit) limit, page offset limit V)
    else (NoMore, drop (Z.to_nat offset) V).
Proof.
  intros Ho Hl V. unfold bulk_page. fold V. rewrite page_length by lia. rewrite page_take by done.
  bcase; bdec; [done|]. by rewrite page_last by lia.
Qed.

Lemma bulk_crawl_all fuel d qs user offset limit : 0 <= offset -> 0 < limit ->
  let V := saved_queries sort_queries d qs user in
  Z.of_nat (length V) - offset < Z.of_nat fuel -> 
  bulk_crawl (S fuel) d qs user offset limit = Some (drop (Z.to_nat offset) V).
Proof.
  intros Ho Hl V. revert offset Ho. induction fuel as [|fuel IH]; intros offset Ho Hf;
    cbn [bulk_crawl]; rewrite bulk_page_eq by lia; fold V; bcase; try done; [lia|].
  change (bulk_crawl (S fuel) d qs user (offset + limit) limit ≫= (fun rest => Some (page offset limit V ++ rest)) =
    Some (drop (Z.to_nat offset) V)).
  rewrite IH by lia. cbn [mbind option_bind]. by rewrite page_rest by lia.
Qed.
End Bulk.

Section Videos.
Context (search_api : string -> Z -> result (option (list item)))
        (videos_api : list string -> result (list (string * option string)))
        (valid_video : YoutubeData -> bool) (rnd : string -> Z)
        (sort_videos : list YoutubeData -> list YoutubeData).
Notation search_page := (search_page search_api videos_api valid_video rnd sort_videos).

Fixpoint search_crawl (fuel : nat) (d : db) (t : Z) (user query : string) (offset limit : Z) : option (list shown) :=
  match fuel with
  | O => None
  | S fuel =>
      match search_page d t user query offset limit with
      | (d, Ok (_, VideoPage NoMore vs)) => Some vs
      | (d, Ok (_, VideoPage (Next offset limit) vs)) =>
          rest ← search_crawl fuel d t user query offset limit; Some (vs ++ rest)
      | _ => None
      end
  end.

Lemma search_page_full d t user query offset limit : 
  let V := query_videos sort_videos d query user in
  0 <= offset -> 0 <= limit -> offset < Z.of_nat (length V) -> offset + limit <= Z.of_nat (length V) ->
  search_page d t user query offset limit =
    (d, Ok (HTTP_200_OK,
       VideoPage (if offset + limit <? Z.of_nat (length V) then Next (offset + limit) limit else NoMore)
                 (Stored <$> page offset limit V))).
Proof.
  intros V Ho Hl Hlt Hle. unfold Search.search_page. fold V.
  pose proof (page_length offset (limit + 1) V Ho ltac:(lia)) as Hlen.
  pose proof (page_take offset limit V Hl) as Htake.
  destruct (page offset (limit + 1) V) as [|v vs] eqn:E; [cbn in Hlen; lia|]. rewrite <- E, Hlen in *.
  rewrite Htake. rewrite Z.gtb_ltb. bcase; [lia|].
  do 4 f_equal. repeat bcase; try done; lia.
Qed.

Lemma search_crawl_all fuel d t user query offset limit :
  let V := query_videos sort_videos d query user in
  0 <= offset -> 0 < limit -> offset < Z.of_nat (length V) ->
  (limit | Z.of_nat (length V) - offset) -> Z.of_nat (length V) - offset <= Z.of_nat fuel ->
  search_crawl fuel d t user query offset limit = Some (Stored <$> drop (Z.to_nat offset) V).
Proof.
  intros V Ho Hl. revert offset Ho. induction fuel as [|fuel IH]; intros offset Ho Hlt [k Hk] Hf; [lia|].
  assert (0 < k) by (apply (Z.mul_pos_cancel_r k limit); lia).
  assert (offset + limit <= Z.of_nat (length V)) by nia.
  cbn [search_crawl]. rewrite search_page_full by (fold V; lia). fold V. bcase.
  - rewrite IH by (try lia; exists (k - 1); lia). cbn [mbind option_bind].
    by rewrite <- fmap_app, page_rest by lia.
  - by rewrite page_last by lia.
Qed.
End Videos.

(** ** The views behind the middleware *)

Section Views.
Context {store : Type} `{KVLaws store} `{JWTIdeal}.
Context (sha256 : string -> string) (valid_email : string -> bool).
Context (search_api : string -> Z -> result (option (list item)))
        (videos_api : list string -> result (list (string * option string)))
        (valid_video : YoutubeData -> bool) (rnd : string -> Z)
        (sort_queries : list queryModel -> list queryModel)
        (sort_videos : list YoutubeData -> list YoutubeData)
        (es_match : gmap string elastic_doc -> string -> list string)
        (es_range : gmap string elastic_doc -> date -> date -> list string).
Notation dispatch := (dispatch search_api videos_api valid_video rnd sort_queries sort_videos es_match es_range).

(** What a view may do to the documents on behalf of [user] *)
Record acts_for (user : string) (d d' : db) : Prop := {
  act_ok : db_ok d';
  act_keeps : keeps d d';
  act_tasks : exists ts, tasks d' = tasks d ++ ts /\ forall tk, tk ∈ ts -> t_user tk = user;
  act_queries q : q ∈ queries d' -> q ∈ queries d \/ q_user q = user;
}.

Lemma acts_refl user d : db_ok d -> acts_for user d d.
Proof. intros. split; auto using keeps_refl. exists []. rewrite app_nil_r. split; [done|]. by intros tk ?%elem_of_nil. Qed.
Lemma acts_delay user d d' tk : t_user tk = user -> acts_for user d d' -> acts_for user d (delay d' tk).
Proof.
  intros Htk [Hok Hk (ts & Et & Hts) Hqs]. split; [by apply db_ok_tasks|done| |done].
  exists (ts ++ [tk]). cbn. rewrite Et, app_assoc. split; [done|].
  intros x [?| ->%list_elem_of_singleton]%elem_of_app; auto.
Qed.
Lemma acts_delays user d d' n (keep : string -> bool) qs : acts_for user d d' ->
  acts_for user d (foldl (fun d q => if keep q then d else delay d (MkTask user n q true)) d' qs).
Proof.
  revert d'. induction qs as [|q qs IH]; cbn; [done|]. intros d' Hd'. apply IH.
  destruct (keep q); [done|]. by apply acts_delay.
Qed.
Lemma acts_fetch d now user n query force d' r : db_ok d ->
  fetch_youtube_data search_api videos_api valid_video rnd d now user n query force = (d', r) -> acts_for user d d'.
Proof.
  intros Hok E. apply fetch_inv in E as (? & ? & Et & ?); [|done]. split; [done..| |done].
  exists []. rewrite app_nil_r. split; [done|]. by intros tk ?%elem_of_nil.
Qed.
Lemma acts_search_page d t user query offset limit d' r : db_ok d ->
  search_page search_api videos_api valid_video rnd sort_videos d t user query offset limit = (d', r) ->
  acts_for user d d' /\ forall c a, r = Ok (c, a) -> c = HTTP_200_OK.
Proof.
  intros Hok. unfold search_page. destruct (page _ _ _) as [|v vs].
  2: destruct (limit >? _); [|intros [= <- <-]; split; [by apply acts_refl|congruence]].
  all: destruct (fetch_youtube_data _ _ _ _ _ _ _ _ _ _) as [d1 r1] eqn:E; apply acts_fetch in E; [|done];
    intros [= <- <-]; split; [done|]; intros c a; destruct r1; cbn; congruence.
Qed.

Lemma path_protected v : protected (path_of v).
Proof. by destruct v; (split; [refine (bool_decide_unpack _ _); exact I|]). Qed.

(** The status of an answer written out in the view is not 208. *)
Ltac by_code := cbn; intros ? ?; first [discriminate | intros [= <- _]; done].

(** A view that has found the user [u] *)
Definition behaves (u : User) (s : @site store) (p : @site store * result (Z * answer)) : Prop :=
  accounts p.1 = accounts s /\ acts_for (email u) (data s) (data p.1) /\
  forall c a, p.2 = Ok (c, a) -> c <> HTTP_208_ALREADY_REPORTED.

Lemma behaves_same u (s : @site store) r : db_ok (data s) -> (forall c a, r = Ok (c, a) -> c <> HTTP_208_ALREADY_REPORTED) -> behaves u s (s, r).
Proof. intros. split_and!; [done|by apply acts_refl|done]. Qed.

Lemma topic_behaves u (s : @site store) t jwt q n : db_ok (data s) -> getUser (accounts s) t jwt = Ok (Some u) ->
  behaves u s (topicRegistration_post s t jwt q n).
Proof.
  intros Hok Hu. unfold topicRegistration_post. destruct (_ || _); [apply behaves_same; [done|by_code]|].
  rewrite Hu. split_and!; [done| |by_code]. by apply acts_delay, acts_refl.
Qed.
Lemma bulk_behaves u (s : @site store) t jwt qs limit offset : db_ok (data s) -> getUser (accounts s) t jwt = Ok (Some u) ->
  behaves u s (bulkRegistration_get sort_queries s t jwt qs limit offset).
Proof.
  intros Hok Hu. unfold bulkRegistration_get.
  destruct (py_int limit), (py_int offset); try (apply behaves_same; [done|by_code]).
  destruct (_ || _); [apply behaves_same; [done|by_code]|].
  destruct qs as [[|q qs]|]; try (apply behaves_same; [done|by_code]). rewrite Hu.
  destruct (bulk_page _ _ _ _ _ _) as [next docs]. split_and!; [done| |by_code].
  apply (acts_delays _ _ _ 5 (fun q => bool_decide (q ∈ q_query <$> docs))). by apply acts_refl.
Qed.
Lemma search_behaves u (s : @site store) t jwt q offset limit : db_ok (data s) -> getUser (accounts s) t jwt = Ok (Some u) ->
  behaves u s (searchingView_get search_api videos_api valid_video rnd sort_videos s t jwt q offset limit).
Proof.
  intros Hok Hu. unfold searchingView_get. rewrite Hu.
  destruct (py_int offset), (py_int limit); try (apply behaves_same; [done|by_code]).
  destruct (_ || _); [apply behaves_same; [done|by_code]|].
  destruct (truthy q); [|apply behaves_same; [done|by_code]].
  destruct (search_page _ _ _ _ _ _ _ _ _ _ _) as [d r] eqn:E. apply acts_search_page in E as [Ha Hr]; [|done].
  split_and!; [done..|]. cbn. intros c x Ex. by rewrite (Hr _ _ Ex).
Qed.

Lemma dispatch_behaves w (s : @site store) t jwt v :
  world_ok sha256 w -> accounts s = w_st w -> clock t -> w_now w <= t -> db_ok (data s) ->
  (exists x, dispatch s t jwt v = (s, Raise x)) \/
  exists g u, g ∈ w_grants w /\ jwt = Some (g_key g) /\ g_user g = email u /\ behaves u s (dispatch s t jwt v).
Proof.
  intros Hw Ha Hct Ht Hok. unfold Search.dispatch. rewrite Ha.
  destruct (process_request (w_st w) t (path_of v) jwt) as [[]|x] eqn:Ep; [|left; eauto].
  destruct (process_request_user _ _ _ _ _ Hw Hct Ht (path_protected v) Ep) as (g & u & Hg & Hj & Eu & Egu & _).
  rewrite <- Ha in Egu. right. exists g, u. split_and!; [done..|].
  destruct v; [by apply topic_behaves|by apply bulk_behaves|by apply search_behaves|..]; (apply behaves_same; [done|]).
  - intros c a. unfold textSearch_get. repeat case_match; intros; simplify_eq; done.
  - intros c a. unfold videosWithDateFilter_get. repeat case_match; intros; simplify_eq; done.
Qed.

(** ** The whole application

    Requests to the accounts, requests to the views, and workers that take a task
    from the queue and run it, in any order. *)
Inductive app_reachable : world -> db -> Prop :=
  | app_start s t : kv_ok s -> (forall k t', kv_get s t' k = None) -> app_reachable (World (State ∅ s) t [] []) (Db ∅ [] ∅ [])
  | app_account w d t r : app_reachable w d -> plausible w t r -> app_reachable (advance sha256 valid_email w t r) d
  | app_view w d t jwt v s r : app_reachable w d -> clock t -> w_now w <= t -> dispatch (Site (w_st w) d) t jwt v = (s, r) ->
      app_reachable (World (accounts s) (w_now w) (w_grants w) (w_issued w)) (data s)
  | app_work w d l1 tk l2 t d' r : app_reachable w d -> tasks d = l1 ++ tk :: l2 ->
      fetch_youtube_data search_api videos_api valid_video rnd (Db (videos d) (queries d) (elastic d) (l1 ++ l2))
        t (t_user tk) (t_n tk) (t_query tk) (t_force tk) = (d', r) ->
      app_reachable w d'.

Definition logged_in (w : @world store) (user : string) : Prop := exists g, g ∈ w_grants w /\ g_user g = user.
(** Every document and every task is one of a user who has logged in. *)
Definition owned (w : @world store) (d : db) : Prop :=
  (forall q, q ∈ queries d -> logged_in w (q_user q)) /\ (forall tk, tk ∈ tasks d -> logged_in w (t_user tk)).

Lemma owned_acts w user d d' : logged_in w user -> owned w d -> acts_for user d d' -> owned w d'.
Proof.
  intros Hu [Hq Ht] [_ _ (ts & Et & Hts) Hqs]. split.
  - intros q [|<-]%Hqs; auto.
  - rewrite Et. intros tk [|Htk%Hts]%elem_of_app; [auto|by rewrite Htk].
Qed.

Lemma app_reachable_ok w d : app_reachable w d -> world_ok sha256 w /\ db_ok d /\ owned w d.
Proof.
  induction 1 as [s t Hkv Hs|w d t r _ (Hw & Hd & Ho) Hp|w d t jwt v s r _ (Hw & Hd & Ho) Hct Ht E|w d l1 tk l2 t d' r _ (Hw & Hd & Ho) Et E].
  - split_and!; [by apply world_ok_start|apply db_ok_empty|]. by split; intros ? ?%elem_of_nil.
  - split_and!; [by apply world_advance_ok|done|]. destruct Ho as [Hq Ht].
    assert (Hm : forall user, logged_in w user -> logged_in (advance sha256 valid_email w t r) user)
      by (intros user (g & Hg & <-); exists g; split; [by apply advance_grants|done]).
    split; intros x Hx; apply Hm; auto.
  - destruct (dispatch_behaves w (Site (w_st w) d) t jwt v Hw eq_refl Hct Ht Hd) as [[x Ex]|(g & u & Hg & _ & Eg & Hb)].
    + rewrite Ex in E. injection E as <- <-. cbn. by destruct w.
    + rewrite E in Hb. destruct Hb as (Ea & Hact & _). cbn in Ea, Hact. rewrite Ea. split_and!; [by destruct w|apply Hact|].
      apply (owned_acts _ (email u) d); [by exists g|done|done].
  - destruct Ho as [Hq Htk]. rewrite Et in Htk.
    apply acts_fetch in E; [|by apply db_ok_tasks]. split_and!; [done|apply E|].
    eapply (owned_acts _ (t_user tk)); [apply Htk; set_solver| |exact E].
    split; cbn; [done|]. intros x Hx. apply Htk. set_solver.
Qed.

End Views.

(** ** Theorems *)



(** Newest first *)
Definition later {A} (day : A -> Z) (a b : A) : Prop := day b <= day a.
#[global] Instance later_dec {A} (day : A -> Z) : RelDecision (later day).
Proof. intros a b. unfold later. apply _. Defined.
Definition newest {A} (day : A -> Z) (l : list A) : Prop := StronglySorted (later day) l.



(** ** A run *)

Definition demo_items : list item :=
  [MkItem "v1" "2021-05-04T10:00:00Z" (Some "One") None; MkItem "v2" "2021-05-06T08:30:00Z" (Some "") (Some "second")].
Definition demo_search (query : string) (n : Z) : result (option (list item)) := Ok (Some demo_items).
Definition demo_pics (ids : list string) : result (list (string * option string)) := Ok ((fun id => (id, None)) <$> ids).
Definition demo_valid (v : YoutubeData) : bool := true.
Definition demo_rnd (id : string) : Z := 7.
Definition demo_sort {A} (day : A -> Z) (l : list A) : list A := merge_sort (later day) l.
Lemma demo_sort_ok {A} (day : A -> Z) l : demo_sort day l ≡ₚ l /\ newest day (demo_sort day l).
Proof.
  split; [apply merge_sort_Permutation|]. apply StronglySorted_merge_sort.
  - unfold later. intros a b c. lia.
  - unfold later. intros a b. lia.
Qed.

Notation demo f := (f demo_search demo_pics demo_valid demo_rnd (demo_sort q_lasttime) (demo_sort published_date)
  (fun ix k => []) (fun ix a b => [])).
Notation demo_reachable := (demo (app_reachable (store := Keyspace.server) digest (fun _ => true))).

Lemma demo_visited : demo_reachable visited (Db ∅ [] ∅ []).
Proof.
  unfold visited, visitor. cbn [foldl]. apply app_account; [apply app_account; [apply app_start; [exact RedisStore.fresh_ok|intros; apply RedisStore.fresh_get]|]|].
  - split; [done|]. split; [done|]. split; [|done]. unfold salted, no_colon. vm_compute. intuition discriminate.
  - split; [done|]. split; [done|]. split; [done|]. split; [done|]. intros g Hg. by apply elem_of_nil in Hg.
Qed.

Definition demo_view : view := VSearch (Some "cats") "0" "2".
Definition demo_answer : @site Keyspace.server * result (Z * answer) :=
  demo dispatch (Site (w_st visited) (Db ∅ [] ∅ [])) 100 (Some "key1") demo_view.






End SearchSafety.
